(* ===== verification/_CoqProject ===== *)
-Q . S2P
Prelude.v
Types.v
Ring.v
Spsc.v
Pool.v
Book.v
Spec.v
SpecProps.v
Ladder.v
Refine.v
Match.v
Process.v
BookProps.v
Validation.v
Engine.v
Overprice.v
Answered.v
Protocol.v
Buffer.v
ServerState.v
Latency.v
Gateway.v
Responder.v
Close.v
Frame.v
Exchange.v
Gate.v
System.v
Lifecycle.v
Setup.v
Client.v
ClientProps.v
Pairing.v
Stream.v
Generator.v
ClosedLoop.v
Mispairing.v
