(* ===== verification/Prelude.v ===== *)
(** * A verified model of the exchange and its load generator

    The program is a simulated exchange: an order-matching server in C++ and a load
    generator that drives it over TCP.  A request travels

      client  --bytes-->  inbound thread  --InboundRing-->  matching thread
      client  <--bytes--  outbound thread <--OutboundRing-- matching thread

    The client packs fixed 72-byte request frames; the inbound thread cuts a
    connection's byte stream into frames, validates the messages and pushes them into
    the inbound ring; the matching thread executes them against the order book, which
    pushes MATCH messages into the outbound ring, and acknowledges them there; the
    outbound thread routes messages by client id to connections and sends fixed 32-byte
    response frames.  Errors found by the inbound thread reach the outbound thread
    through a third ring.

    ** Files, in the order in which they are compiled

    - [Prelude] (this file): machine integers [u32] and [u64], the fault type, the
      state monad [M], [loop] with fuel, the total-correctness judgement [wp] and the
      partial one [wlp] with their rules, list lemmas.
    - [Types]: [infra/communication_types.hpp], [infra/order_types.hpp],
      [engine/include/order.hpp] and [order_request.hpp], the constants of
      [exchange/config/config.hpp].
    - [Ring], [Spsc]: [exchange/include/ring_buffer.hpp].  [Ring] is the sequential
      [push], [pop], [size] and [empty] on the two indices and the mask; [Spsc] is the
      same two functions cut into their atomic accesses, as a step relation of a
      producer and a consumer whose acquire loads may return any index not older than
      the last one seen.
    - [Pool]: [engine/include/order_pool.hpp] and [price_level_queue.hpp], an arena with
      a free list and an intrusive doubly linked queue through it.
    - [Book]: [engine/src/orderbook.cpp] and [orderbook.hpp], operation by operation.
      [Spec] is the abstract book - two lists of orders in the order in which they
      trade - with [SpecProps], its own theory.  [Ladder], [Refine], [Match] and
      [Process] prove that the operations of [Book] implement [Spec]; [BookProps] states
      what this means for the program.
    - [Validation]: [server/include/validation.hpp].
    - [Engine]: [engine/src/engine.cpp], with the look-ahead of the matching thread.
      [Overprice]: what the engine does with the one kind of validated message the book
      cannot take, a limit order above [MAX_PRICE].  [Answered]: which messages a request
      is answered with.
    - [Protocol]: [infra/protocol.hpp], the frames of [Server::appendResponse] and
      [OrderFactory::frame_message], and the readers at the other end.
    - [Buffer]: [infra/buffer.hpp].
    - [ServerState]: [server/include/server.hpp], [connection_info.hpp], and the
      [push_sample] of [latency.hpp], with the system calls as lists of answers.
      [Latency]: the rest of [latency.hpp], calibration and report.
    - [Gateway]: the inbound thread of [server/src/server.cpp] ([handleRequests] and
      what it calls).  [Responder]: the outbound thread ([serveResponses] and what it
      calls).
    - [Close]: the two-phase close of a connection as steps of the two threads on one
      descriptor, and the handlers of [Gateway] and [Responder] as runs of it.
    - [Frame]: what each operation of a thread leaves alone, as relations preserved by
      programs ([preserves]); invariants of programs by their structure ([keeps]);
      programs that may fault in a known way ([wpx]).
    - [Exchange]: [exchange/app/exchange.hpp]: the server and the engine on the rings
      they share, and the way of a burst through the three threads.  [Gate]: an
      invariant of the server that every iteration of either gateway thread keeps, for
      any events.  [System]: the iterations of the three threads in any order.
    - [Lifecycle]: [exchange/app/main.cpp], [Exchange::run] and [stop], [Server::run],
      [Engine::run], the loops around the stop flag and the destructors, as steps of
      four threads.
    - [Setup]: [server/include/socket.hpp], [setupEpoll], [setupListenSocket] and
      [~Server] over the resources of the operating system.
    - [Client]: [client/include/client_state.hpp], [order_factory.hpp] and
      [client/src/load_generator.cpp].  [ClientProps] is the invariant of a client,
      [Pairing] how it pairs answers with requests, [Stream] what the gateway sees of
      the bytes it sends.
    - [Generator]: the whole of [client/src/load_generator.cpp] on [Client]'s handlers - all
      clients, the loop of [run] with its sleep, signals, the destructor - and the main
      program, [client/app/main.cpp].
    - [ClosedLoop]: the exchange's answers to a client's requests as that client takes
      them.  [Mispairing]: which of its requests the client takes them for.

    Definitions keep the source's names where Rocq allows it; a loop body or a branch
    that is a definition of its own carries a comment that says what it is.  A C++
    function over a mutable object is a program in the monad [M] over the object's
    state; undefined behaviour and exceptions are faults ([OutOfBounds], [BadPointer],
    [LogicError], [MissingKey], [DivisionByZero]), so a [wp] theorem says: no fault, the loops end, and
    the result and the final state satisfy the postcondition.

    ** What the theorems show

    - The whole way, from bytes to bytes.  [exchange_round]: one pass of a burst through
      reading, matching and sending executes the specification on the valid requests of
      its frames and extends every connection's byte stream by exactly the frames of the
      answers routed to it.
    - Every schedule.  [every_schedule_runs]: the three threads may take their
      iterations in any order, with any events, kernel answers and client bytes, and
      none faults or runs on, but for two out-of-bounds accesses: that of
      [overpriced_exact], and that of [registerConnections] with a descriptor of
      [MAX_CLIENTS] + 10 or more.
      [schedule_refines]: the book is always the one the specification reaches by
      serving the messages executed so far, and every message the gateway has pushed is
      executed once and in order.
    - Start and stop.  [signal_stops_exchange]: after a signal the program ends, all
      threads joined, within a bounded number of steps.  [setupListenSocket_exact] and
      [sockets_closed_once]: no descriptor leaks or is closed twice on any path.
    - Order book.  [process_refines] and [run_refines]: every request, and every
      sequence of requests from the empty book, returns and does what the specification
      says, messages included.  [limit_price_time], [limit_conserves_quantity],
      [market_fills]: price-time priority, conservation of quantity, the exact fills of
      a market order.  [cancel_exact], [modify_change_loses_place],
      [modify_same_keeps_place], [refused_unchanged]: the other requests.
      [best_prices_uncrossed], [accounting]: the invariant in
      terms of the program's own fields.  [queue_refines_list] and
      [ring_refines_queue]: the two containers against lists.
    - Concurrency of the ring.  [spsc_fifo], [spsc_race_free]: for every interleaving.
    - Engine.  [execute_refines], [assigned_ids_fresh], [no_message_lost];
      [every_request_answered]: every validated message is answered to its client, with
      the id of its order, or is a market order of quantity 0, or faults as
      [overpriced_exact] says; [pipeline_in_order]: the look-ahead is sequential execution.
    - Gateway.  [request_roundtrip], [response_roundtrip], [parsed_message_typed],
      [validation_exact];
      [reads_deliver_frames]: however TCP cuts a stream, exactly its frames are handed
      on; [burst_before_close], [teardown_leaves_routes]: what closing loses and leaves;
      [responses_in_order], [no_response_forgotten]: the outbound thread extends each
      connection's byte stream by exactly the frames routed to it and forgets no
      connection with work.
    - Closing.  [close_after_release]: in every interleaving a descriptor is closed only
      after the outbound half is gone; [stale_flag_kills_new_connection]: what the flags
      do not prevent when the descriptor is used again.
    - Client.  [client_pipeline]: the invariant, for every answer of the system and every
      sequence of events.  [client_requests_accepted]: the gateway takes everything the
      client sends, over a whole run, for valid requests of that client.
      [requests_recorded], [timeout_respects_deadlines], [acks_pair_in_order],
      [matched_requests_stall].
    - The load generator.  [generator_never_stalls]: the same for any number of clients at
      once, with the statistics, the destructor and the sleep: the loop waits without a
      timeout only when every client is open and, unless the system has refused an
      [epoll_ctl] for its connection, watched by epoll; [refused_client_stalls] is a run
      in which it has.  [client_main_exact]: the exit code and the report of the main
      program.
    - Client and exchange together.  [closed_loop]: the client takes every frame that a
      round of the exchange sends for its requests, and the slots of its pipeline that stay
      taken are those of the requests that traded.  [suppressed_acks_shift]: after them every
      acknowledgement is taken for that of an earlier request.
    - What goes wrong, as theorems about the same definitions:
      [overpriced_exact] and [every_schedule_runs] (the two out-of-bounds accesses),
      [rejected_order_acknowledged], [every_request_answered] (the market order of
      quantity 0, and what a full ring drops), [failure_sent_as_ok],
      [burst_before_close], [teardown_leaves_routes], [members_destroyed_in_use] and
      [failed_start_hangs] (shutdown and failed start), [latency_report] (the whole ticks
      per nanosecond), [suppressed_acks_shift] (acknowledgements taken for the wrong
      requests), [matched_requests_stall] and [closed_loop] (the leaked slots),
      [refused_client_stalls] (a client that epoll does not watch), [signal_before_wait]
      (a lost stop).

    ** Fuel and bounds

    [loop] takes a fuel computed from the state when the loop is entered: the number of
    orders on the book plus one for the matching loops (each iteration removes an order
    or ends), the number of price levels for the scans, the bytes in a buffer plus one
    for the frame and send loops, the messages in a ring plus one for the drains, the
    pipeline depth plus one for a batch.  No theorem assumes that the fuel is enough:
    [wp] fails on [OutOfFuel], so each total-correctness theorem proves it, through the
    measure of [wp_loop].  Integers are [Z] with the reduction of their width written
    out.  Ids are assumed to stay below 2^64 where the counter would wrap, and times
    below 2^63 ns.

    ** The outside

    System calls ([recv], [send], [accept], [socket], [connect], [getsockopt], [epoll_ctl]
    where it adds or changes a client's entry or arms a response, the clocks, [__rdtsc])
    answer from lists that the state holds, and [epoll_wait]'s events are arguments; the
    theorems quantify over all of them, and assume of the kernel only that [recv] and
    [send] answer at most what they were asked for, that received data are bytes, that
    [accept] returns no negative descriptor, and that the gateway's epoll reports the
    descriptors it was given.  In [exchange_round], [reads_deliver_frames] and the other
    theorems on one connection its descriptor fits the arrays; [every_schedule_runs] says
    what happens when it does not.  Taking a registered descriptor out of the gateway's
    epoll does not fail.  [errno] is one field of the kernel's state for both gateway
    threads, about whose value the theorems assume nothing.  The load generator's epoll reports registered
    descriptors only, each once, for the events they are registered for ([epoll_report]);
    its clock does not go back and stays below 2^62 ns ([clock_good]), and its
    inter-arrival time is below 24 days ([lag]).  Random draws are lists
    too; their ranges are the hypothesis [draws_ok].  hdr_histogram's record operation is
    a parameter.

    The three threads are modelled one iteration at a time, in turn ([exchange_round])
    and in any order ([System]); what one thread does between two steps of another is
    modelled for the ring ([Spsc], with stale loads), for the close flags ([Close],
    sequentially consistent) and for the stop flag ([Lifecycle], without spurious
    wake-ups of [wait]), not for [client_map_].

    ** Not modelled

    - Thread pinning and prefetch instructions ([exchange/include/lib.hpp]), which do not
      change the state, and socket options.
    - [ticks_per_ns_] as a [double] (the model keeps the quotient exact), and the
      printing of the histogram.
    - The rates that the client's main program prints, in floating point, the seed of its
      random numbers, and the installation of its signal handlers.
    - [engine/include/trade.hpp] and every LOGGING, DIAGNOSTICS and TESTING branch: the
      configuration of the repository compiles them out, except the accessors of the
      test build and [Engine::step], which are modelled.
    - The tests and the Python scripts. *)

From stdpp Require Export base gmap list numbers fin_maps sorting.
From Stdlib Require Export ZArith Lia.

(** * Machine integers

    [uint32_t] and [uint64_t] values are integers; every arithmetic operation of
    the source that can leave the range is followed by the reduction of its
    width. *)

Definition u32 (z : Z) : Z := z mod 2 ^ 32.
Definition u64 (z : Z) : Z := z mod 2 ^ 64.

Definition is_u8 (z : Z) : Prop := (0 <= z < 2 ^ 8)%Z.
Definition is_u32 (z : Z) : Prop := (0 <= z < 2 ^ 32)%Z.
Definition is_u64 (z : Z) : Prop := (0 <= z < 2 ^ 64)%Z.

(** * Faults and the state monad

    A C++ function over a mutable object is a function from the object's state to
    either a result with the new state, or a fault.  The faults are the ways in
    which the source leaves defined behaviour: an array index out of range, a
    pointer that designates no live object, an exception ([std::logic_error],
    [std::out_of_range]); [OutOfFuel] is the loop combinator's own. *)

Inductive fault : Set :=
  | OutOfBounds
  | BadPointer
  | LogicError
  | MissingKey
  | DivisionByZero
  | OutOfFuel.

Inductive res (A : Type) : Type :=
  | Ok (a : A)
  | Err (e : fault).
Arguments Ok {A} a.
Arguments Err {A} e.

#[export] Instance res_ret : MRet res := fun A a => Ok a.
#[export] Instance res_bind : MBind res :=
  fun A B f r => match r with Ok a => f a | Err e => Err e end.

Definition M (S A : Type) : Type := S -> res (A * S).

#[export] Instance M_ret (S : Type) : MRet (M S) := fun A a s => Ok (a, s).
#[export] Instance M_bind (S : Type) : MBind (M S) :=
  fun A B f m s => match m s with Ok (a, s') => f a s' | Err e => Err e end.

Definition fail {S A : Type} (e : fault) : M S A := fun _ => Err e.
Definition get {S : Type} : M S S := fun s => Ok (s, s).
Definition gets {S A : Type} (f : S -> A) : M S A := fun s => Ok (f s, s).
Definition modify {S : Type} (f : S -> S) : M S unit := fun s => Ok (tt, f s).
Definition when {S : Type} (c : bool) (m : M S unit) : M S unit :=
  if c then m else mret tt.
Definition of_res {S A : Type} (r : res A) : M S A :=
  fun s => match r with Ok a => Ok (a, s) | Err e => Err e end.

(** [loop fuel body a] runs [body] from [a] until it answers [inr]: [inl] is the
    next iteration of a C++ loop, [inr] leaves it. *)
Fixpoint loop {S A B : Type} (fuel : nat) (body : A -> M S (A + B)) (a : A) : M S B :=
  match fuel with
  | O => fail OutOfFuel
  | Datatypes.S n =>
      r ← body a;
      match r with inl a' => loop n body a' | inr b => mret b end
  end.

(** * Total-correctness weakest preconditions

    [wp m Q s]: run from [s], [m] returns (no fault, no exhausted fuel) and its
    result and final state satisfy [Q]. *)
Definition wp {S A : Type} (m : M S A) (Q : A -> S -> Prop) (s : S) : Prop :=
  match m s with Ok (a, s') => Q a s' | Err _ => False end.

Section Wp.
Context {S : Type}.
Implicit Types (s : S).

Lemma wp_ret {A : Type} (a : A) (Q : A -> S -> Prop) s : Q a s -> wp (mret a) Q s.
Proof. done. Qed.

Lemma wp_bind {A B : Type} (m : M S A) (f : A -> M S B) (Q : B -> S -> Prop) s :
  wp m (fun a s' => wp (f a) Q s') s -> wp (m ≫= f) Q s.
Proof. unfold wp, mbind, M_bind. by destruct (m s) as [[a s']|]. Qed.

Lemma wp_mono {A : Type} (m : M S A) (P Q : A -> S -> Prop) s :
  wp m P s -> (forall a s', P a s' -> Q a s') -> wp m Q s.
Proof. unfold wp. destruct (m s) as [[a s']|]; naive_solver. Qed.

Lemma wp_get (Q : S -> S -> Prop) s : Q s s -> wp get Q s.
Proof. done. Qed.

Lemma wp_gets {A : Type} (f : S -> A) (Q : A -> S -> Prop) s : Q (f s) s -> wp (gets f) Q s.
Proof. done. Qed.

Lemma wp_modify (f : S -> S) (Q : unit -> S -> Prop) s : Q tt (f s) -> wp (modify f) Q s.
Proof. done. Qed.

Lemma wp_when (c : bool) (m : M S unit) (Q : unit -> S -> Prop) s :
  (c = true -> wp m Q s) -> (c = false -> Q tt s) -> wp (when c m) Q s.
Proof. destruct c; unfold when; naive_solver. Qed.

Lemma wp_Ok {A : Type} (m : M S A) (Q : A -> S -> Prop) s :
  wp m Q s -> exists a s', m s = Ok (a, s') /\ Q a s'.
Proof. unfold wp. destruct (m s) as [[a s']|]; naive_solver. Qed.

Lemma wp_intro {A : Type} (m : M S A) (Q : A -> S -> Prop) s a s' :
  m s = Ok (a, s') -> Q a s' -> wp m Q s.
Proof. unfold wp. by intros ->. Qed.

(** The loop rule: an invariant indexed by a measure that every iteration
    decreases; fuel above the measure is enough. *)
Lemma wp_loop {A B : Type} (I : nat -> A -> S -> Prop) (body : A -> M S (A + B)) (Q : B -> S -> Prop) :
  (forall n a s, I n a s ->
     wp (body a) (fun r s' => match r with
                              | inl a' => exists n', n' < n /\ I n' a' s'
                              | inr b => Q b s'
                              end) s) ->
  forall fuel n a s, I n a s -> n < fuel -> wp (loop fuel body a) Q s.
Proof.
  intros Hbody fuel. induction fuel as [|fuel IH]; intros n a s HI Hn; [lia|].
  simpl. apply wp_bind. eapply wp_mono; [exact (Hbody n a s HI)|].
  intros [a'|b] s' Hr; [|by apply wp_ret].
  destruct Hr as (n' & Hlt & HI'). apply (IH n'); [done|lia].
Qed.

End Wp.

(** Partial correctness: if [m] returns, its result and final state satisfy [Q].  It
    carries an invariant through a program that is already known to return. *)

Definition wlp {S A : Type} (m : M S A) (Q : A -> S -> Prop) (s : S) : Prop :=
  forall a s', m s = Ok (a, s') -> Q a s'.

Section Wlp.
Context {S : Type}.

Lemma wlp_ret {A : Type} (a : A) (Q : A -> S -> Prop) s : Q a s -> wlp (mret a) Q s.
Proof. intros H a' s' E. by injection E as <- <-. Qed.

Lemma wlp_bind {A B : Type} (m : M S A) (f : A -> M S B) (Q : B -> S -> Prop) s :
  wlp m (fun a s' => wlp (f a) Q s') s -> wlp (m ≫= f) Q s.
Proof. intros H b s' E. unfold mbind, M_bind in E. destruct (m s) as [[a s1]|] eqn:Em; [by apply (H a s1)|done]. Qed.

Lemma wlp_mono {A : Type} (m : M S A) (P Q : A -> S -> Prop) s :
  wlp m P s -> (forall a s', P a s' -> Q a s') -> wlp m Q s.
Proof. intros H HQ a s' E. by apply HQ, H. Qed.

Lemma wlp_get (Q : S -> S -> Prop) s : Q s s -> wlp get Q s.
Proof. intros H a s' E. by injection E as <- <-. Qed.

Lemma wlp_gets {A : Type} (f : S -> A) (Q : A -> S -> Prop) s : Q (f s) s -> wlp (gets f) Q s.
Proof. intros H a s' E. by injection E as <- <-. Qed.

Lemma wlp_modify (f : S -> S) (Q : unit -> S -> Prop) s : Q tt (f s) -> wlp (modify f) Q s.
Proof. intros H a s' E. by injection E as <- <-. Qed.

Lemma wlp_when (c : bool) (m : M S unit) (Q : unit -> S -> Prop) s :
  (c = true -> wlp m Q s) -> (c = false -> Q tt s) -> wlp (when c m) Q s.
Proof. destruct c; unfold when; intros H1 H2; [by apply H1|by apply wlp_ret, H2]. Qed.

Lemma wlp_of_res {A : Type} (r : res A) (Q : A -> S -> Prop) s : (forall a, r = Ok a -> Q a s) -> wlp (of_res r) Q s.
Proof. intros H a s' E. unfold of_res in E. destruct r; [|done]. injection E as <- <-. by apply H. Qed.

(** An invariant alone: the loop need not end. *)
Lemma wlp_loop {A B : Type} (I : A -> S -> Prop) (body : A -> M S (A + B)) (Q : B -> S -> Prop) :
  (forall a s, I a s -> wlp (body a) (fun r s' => match r with inl a' => I a' s' | inr b => Q b s' end) s) ->
  forall fuel a s, I a s -> wlp (loop fuel body a) Q s.
Proof.
  intros Hbody fuel. induction fuel as [|fuel IH]; intros a s HI; [done|]. cbn [loop].
  apply wlp_bind. eapply wlp_mono; [by apply Hbody|]. intros [a'|b] s' Hr; [by apply IH|by apply wlp_ret].
Qed.

Lemma wp_wlp {A : Type} (m : M S A) (Q : A -> S -> Prop) s : wp m Q s -> wlp m Q s.
Proof. unfold wp. intros H a s' E. by rewrite E in H. Qed.

Lemma wp_and_wlp {A : Type} (m : M S A) (P Q : A -> S -> Prop) s :
  wp m P s -> wlp m Q s -> wp m (fun a s' => P a s' /\ Q a s') s.
Proof. unfold wp, wlp. destruct (m s) as [[a s']|]; naive_solver. Qed.

End Wlp.

(** One step of symbolic execution of a monadic program. *)
Ltac wp_step :=
  lazymatch goal with
  | |- wp (mbind _ _) _ _ => apply wp_bind
  | |- wp (mret _) _ _ => apply wp_ret
  | |- wp get _ _ => apply wp_get
  | |- wp (gets _) _ _ => apply wp_gets
  | |- wp (modify _) _ _ => apply wp_modify
  end; cbn beta.
Ltac wp_steps := repeat wp_step.

Ltac wlp_step :=
  lazymatch goal with
  | |- wlp (mbind _ _) _ _ => apply wlp_bind
  | |- wlp (mret _) _ _ => apply wlp_ret
  | |- wlp get _ _ => apply wlp_get
  | |- wlp (gets _) _ _ => apply wlp_gets
  | |- wlp (modify _) _ _ => apply wlp_modify
  end; cbn beta.
Ltac wlp_steps := repeat wlp_step.

(** Case analysis on the integer comparisons of the goal. *)
Ltac zcases :=
  repeat match goal with
  | |- context [Z.ltb ?a ?b] => destruct (Z.ltb_spec a b)
  | |- context [Z.leb ?a ?b] => destruct (Z.leb_spec a b)
  | |- context [Z.eqb ?a ?b] => destruct (Z.eqb_spec a b)
  end.

(** * Generic lemmas *)

Create HintDb exch discriminated.

Lemma u32_small z : is_u32 z -> u32 z = z.
Proof. intros H. by apply Z.mod_small. Qed.
Lemma u64_small z : is_u64 z -> u64 z = z.
Proof. intros H. by apply Z.mod_small. Qed.

Lemma Forall_concat_map {A B : Type} (P : B -> Prop) (f : A -> list B) (l : list A) :
  (forall x, x ∈ l -> Forall P (f x)) -> Forall P (concat (map f l)).
Proof.
  induction l as [|x l IH]; intros H; simpl; [done|].
  apply Forall_app. split; [apply H; set_solver|apply IH; set_solver].
Qed.

Lemma concat_map_ext {A B : Type} (f g : A -> list B) (l : list A) :
  (forall x, x ∈ l -> f x = g x) -> concat (map f l) = concat (map g l).
Proof.
  induction l as [|x l IH]; intros H; simpl; [done|].
  f_equal; [apply H; set_solver|apply IH; set_solver].
Qed.

Lemma concat_map_nil {A B : Type} (f : A -> list B) (l : list A) :
  (forall x, x ∈ l -> f x = []) -> concat (map f l) = [].
Proof.
  induction l as [|x l IH]; intros H; simpl; [done|].
  rewrite H; [|set_solver]. apply IH. set_solver.
Qed.

Lemma elem_of_concat_map {A B : Type} (f : A -> list B) (l : list A) (y : B) :
  y ∈ concat (map f l) <-> exists x, x ∈ l /\ y ∈ f x.
Proof.
  induction l as [|x l IH]; simpl; [set_solver|].
  rewrite elem_of_app, IH. set_solver.
Qed.

Lemma seqZ_split (lo n p : Z) :
  (lo <= p < lo + n)%Z ->
  seqZ lo n = seqZ lo (p - lo) ++ p :: seqZ (p + 1) (lo + n - p - 1).
Proof.
  intros H. replace n with ((p - lo) + (lo + n - p))%Z at 1 by lia.
  rewrite seqZ_app; [|lia|lia]. f_equal.
  replace (lo + (p - lo))%Z with p by lia.
  rewrite seqZ_cons; [|lia]. repeat f_equal; lia.
Qed.

(** Sublists. *)

Lemma sublist_Forall {A : Type} (P : A -> Prop) (l l' : list A) :
  sublist l' l -> Forall P l -> Forall P l'.
Proof.
  induction 1 as [|x l l' Hsub IH|x l l' Hsub IH]; [done|..]; intros H; inversion H; subst.
  - constructor; auto.
  - by apply IH.
Qed.

Lemma sublist_map {A B : Type} (f : A -> B) (l l' : list A) :
  sublist l' l -> sublist (f <$> l') (f <$> l).
Proof. induction 1; simpl; by constructor. Qed.

Lemma sublist_StronglySorted {A : Type} (R : A -> A -> Prop) (l l' : list A) :
  sublist l' l -> StronglySorted R l -> StronglySorted R l'.
Proof.
  induction 1 as [|x l l' Hsub IH|x l l' Hsub IH]; [done|..];
    intros H; inversion H as [|? ? Hs Hx]; subst.
  - constructor; [by apply IH|]. by eapply sublist_Forall.
  - by apply IH.
Qed.

(** Filters that keep everything or nothing. *)

Lemma filter_all {A : Type} (P : A -> Prop) `{!forall x, Decision (P x)} (l : list A) :
  Forall P l -> filter P l = l.
Proof.
  induction 1 as [|x l Hx Hl IH]; [done|]. rewrite filter_cons_True by done. by rewrite IH.
Qed.

Lemma filter_none {A : Type} (P : A -> Prop) `{!forall x, Decision (P x)} (l : list A) :
  Forall (fun x => ~ P x) l -> filter P l = [].
Proof.
  induction 1 as [|x l Hx Hl IH]; [done|]. by rewrite filter_cons_False.
Qed.

Lemma filter_shorter {A : Type} (P : A -> Prop) `{!forall x, Decision (P x)} (l : list A) (x : A) :
  x ∈ l -> ~ P x -> (length (filter P l) < length l)%nat.
Proof.
  intros Hx HP. induction l as [|y l IH]; [by apply not_elem_of_nil in Hx|].
  apply elem_of_cons in Hx as [->|Hx].
  - rewrite filter_cons_False by done. pose proof (length_filter P l). simpl. lia.
  - specialize (IH Hx). rewrite filter_cons. case_decide; simpl; lia.
Qed.
