(* ===== verification/Types.v ===== *)
(** The data of the exchange: the compile-time configuration
    ([exchange/config/config.hpp]), the primitive types
    ([infra/order_types.hpp]), the messages between gateway and engine
    ([infra/communication_types.hpp]), the order request and the order object
    ([exchange/engine/include/order_request.hpp], [order.hpp]). *)

From S2P Require Import Prelude.

(** * Configuration *)

Definition MIN_PRICE : Z := 1.
Definition MAX_PRICE : Z := 1000 * 100.
Definition COMMUNICATION_RING_COUNT : Z := 524288.
Definition PREALLOCATION_COUNT : nat := Z.to_nat 1000000.
Definition MAX_CLIENTS : Z := 64.
Definition PIPELINE_DEPTH : Z := 32.
Definition RINGBUF_SIZE : Z := 64.

(** * Enumerations

    The source's enums have the fixed underlying type [uint8_t], and the gateway
    fills them with [memcpy] from the network, so a value that is no enumerator
    can occur.  Each type therefore has, besides the source's constructors, one
    for the remaining byte values. *)

Inductive Side : Set := BID | ASK | Side_other (b : Z).
Inductive OrderType : Set := MARKET | LIMIT | OrderType_other (b : Z).
Inductive MessageType : Set := NEW | CANCEL | MODIFY | MATCH | MessageType_other (b : Z).
Inductive Status : Set := FAILURE | SUCCESS.
Inductive ServerError : Set :=
  NONE | MALFORMED_REQUEST | INVALID_ORDER | SYSTEM_ERROR | EXECUTION_ERROR.

#[export] Instance Side_eq_dec : EqDecision Side.
Proof. solve_decision. Defined.
#[export] Instance OrderType_eq_dec : EqDecision OrderType.
Proof. solve_decision. Defined.
#[export] Instance MessageType_eq_dec : EqDecision MessageType.
Proof. solve_decision. Defined.
#[export] Instance Status_eq_dec : EqDecision Status.
Proof. solve_decision. Defined.
#[export] Instance ServerError_eq_dec : EqDecision ServerError.
Proof. solve_decision. Defined.

(** The byte of each enumeration value, and the value of a byte. *)
Definition Side_byte (s : Side) : Z :=
  match s with BID => 0 | ASK => 1 | Side_other b => b end.
Definition Side_of_byte (b : Z) : Side :=
  if decide (b = 0%Z) then BID else if decide (b = 1%Z) then ASK else Side_other b.
Definition OrderType_byte (t : OrderType) : Z :=
  match t with MARKET => 0 | LIMIT => 1 | OrderType_other b => b end.
Definition OrderType_of_byte (b : Z) : OrderType :=
  if decide (b = 0%Z) then MARKET else if decide (b = 1%Z) then LIMIT else OrderType_other b.
Definition MessageType_byte (m : MessageType) : Z :=
  match m with NEW => 0 | CANCEL => 1 | MODIFY => 2 | MATCH => 4 | MessageType_other b => b end.
Definition MessageType_of_byte (b : Z) : MessageType :=
  if decide (b = 0%Z) then NEW else if decide (b = 1%Z) then CANCEL
  else if decide (b = 2%Z) then MODIFY else if decide (b = 4%Z) then MATCH
  else MessageType_other b.

(** * Messages *)

Record InboundMessage : Set := mkInbound {
  in_read_begin_tsc : Z;
  in_recv_tsc : Z;
  in_server_push : Z;
  in_order_id : Z;
  in_client_id : Z;
  in_price : Z;
  in_quantity : Z;
  in_message_type : MessageType;
  in_side : Side;
  in_order_type : OrderType
}.

Record OutboundMessage : Set := mkOutbound {
  out_read_begin_tsc : Z;
  out_recv_tsc : Z;
  out_server_push_tsc : Z;
  out_engine_pop_tsc : Z;
  out_engine_push_tsc : Z;
  out_order_id : Z;
  out_client_id : Z;
  out_message_type : MessageType;
  out_status : Status;
  out_server_error : ServerError
}.

(** The value-initialised messages ([InboundMessage msg{}]). *)
#[export] Instance InboundMessage_inhabited : Inhabited InboundMessage :=
  populate (mkInbound 0 0 0 0 0 0 0 NEW BID MARKET).
#[export] Instance OutboundMessage_inhabited : Inhabited OutboundMessage :=
  populate (mkOutbound 0 0 0 0 0 0 0 NEW FAILURE NONE).

#[export] Instance InboundMessage_eq_dec : EqDecision InboundMessage.
Proof. solve_decision. Defined.
#[export] Instance OutboundMessage_eq_dec : EqDecision OutboundMessage.
Proof. solve_decision. Defined.

(** * Requests and orders *)

Record OrderRequest : Set := mkRequest {
  get_message_type : MessageType;
  get_order_id : Z;
  get_clientId : Z;
  get_side : Side;
  get_type : OrderType;
  get_price : Z;
  get_quantity : Z;
  get_recv_tsc : Z;
  get_server_push_tsc : Z;
  get_engine_in_tsc : Z
}.

(** A pointer to an [Order]: an index into the pool's arena, [None] for
    [nullptr]. *)
Abbreviation ptr := nat (only parsing).

(** The order object in the build with [DIAGNOSTICS] 0, with its intrusive list
    links. *)
Record Order : Set := mkOrder {
  recv_tsc : Z;
  id_ : Z;
  prev_ : option ptr;
  next_ : option ptr;
  client_id_ : Z;
  price_ : Z;
  initial_quantity_ : Z;
  remaining_quantity_ : Z;
  side_ : Side;
  order_type_ : OrderType
}.

#[export] Instance Order_inhabited : Inhabited Order :=
  populate (mkOrder 0 0 None None 0 0 0 0 BID MARKET).
#[export] Instance Order_eq_dec : EqDecision Order.
Proof. solve_decision. Defined.

(** The constructor [Order(id, request)]. *)
Definition new_Order (id : Z) (r : OrderRequest) : Order :=
  mkOrder (get_recv_tsc r) id None None (get_clientId r) (get_price r)
          (get_quantity r) (get_quantity r) (get_side r) (get_type r).

Definition set_next (p : option ptr) (o : Order) : Order :=
  mkOrder (recv_tsc o) (id_ o) (prev_ o) p (client_id_ o) (price_ o)
          (initial_quantity_ o) (remaining_quantity_ o) (side_ o) (order_type_ o).
Definition set_prev (p : option ptr) (o : Order) : Order :=
  mkOrder (recv_tsc o) (id_ o) p (next_ o) (client_id_ o) (price_ o)
          (initial_quantity_ o) (remaining_quantity_ o) (side_ o) (order_type_ o).
Definition set_remaining (q : Z) (o : Order) : Order :=
  mkOrder (recv_tsc o) (id_ o) (prev_ o) (next_ o) (client_id_ o) (price_ o)
          (initial_quantity_ o) q (side_ o) (order_type_ o).
Definition set_recv_tsc (t : Z) (o : Order) : Order :=
  mkOrder t (id_ o) (prev_ o) (next_ o) (client_id_ o) (price_ o)
          (initial_quantity_ o) (remaining_quantity_ o) (side_ o) (order_type_ o).

Definition is_filled (o : Order) : bool := (remaining_quantity_ o =? 0)%Z.

(** [Order::fill]: throws when asked for more than remains. *)
Definition fill (q : Z) (o : Order) : res Order :=
  if (remaining_quantity_ o <? q)%Z then Err LogicError
  else Ok (set_remaining (u32 (remaining_quantity_ o - q)) o).

(** * Lemmas *)

Lemma Side_byte_of_byte b : Side_byte (Side_of_byte b) = b.
Proof. unfold Side_of_byte. by repeat case_decide; subst. Qed.
Lemma OrderType_byte_of_byte b : OrderType_byte (OrderType_of_byte b) = b.
Proof. unfold OrderType_of_byte. by repeat case_decide; subst. Qed.
Lemma MessageType_byte_of_byte b : MessageType_byte (MessageType_of_byte b) = b.
Proof. unfold MessageType_of_byte. by repeat case_decide; subst. Qed.

Lemma fill_ok (q : Z) (o : Order) :
  (0 <= q <= remaining_quantity_ o)%Z -> is_u32 (remaining_quantity_ o) ->
  fill q o = Ok (set_remaining (remaining_quantity_ o - q) o).
Proof.
  unfold fill, is_u32. intros Hq Hr.
  destruct (Z.ltb_spec (remaining_quantity_ o) q); [lia|].
  by rewrite u32_small by (unfold is_u32; lia).
Qed.
