(* ===== verification/Ring.v ===== *)
(** The lock-free ring buffer ([exchange/include/ring_buffer.hpp]): the sequential
    operations with their index arithmetic, and their refinement of a bounded queue.
    [Spsc] has the same operations as steps of two threads. *)

From S2P Require Import Prelude Types.

Local Open Scope Z_scope.

(** * State and operations *)

Section Operations.
Context {T : Type} `{Inhabited T}.

Record RingBuffer : Type := mkRing {
  write_idx_ : Z;
  read_idx_ : Z;
  buffer : list T;
  mask : Z
}.

(** The constructor: [N] value-initialised elements; [mask] is a [uint32_t]. *)
Definition ring_init (N : Z) : RingBuffer :=
  mkRing 0 0 (replicate (Z.to_nat N) inhabitant) (u32 (N - 1)).

(** The condition the constructor asserts. *)
Definition ring_size_ok (N : Z) : bool := Z.land N (u32 (N - 1)) =? 0.

Definition ring_push (item : T) (r : RingBuffer) : bool * RingBuffer :=
  let write_idx := write_idx_ r in
  let next_write := Z.land (u64 (write_idx + 1)) (mask r) in
  if next_write =? read_idx_ r then (false, r)
  else (true, mkRing next_write (read_idx_ r) (<[Z.to_nat write_idx := item]> (buffer r)) (mask r)).

Definition ring_pop (r : RingBuffer) : option T * RingBuffer :=
  let read_idx := read_idx_ r in
  if read_idx =? write_idx_ r then (None, r)
  else
    let next_read := Z.land (u64 (read_idx + 1)) (mask r) in
    (Some (buffer r !!! Z.to_nat read_idx), mkRing (write_idx_ r) next_read (buffer r) (mask r)).

Definition ring_size (r : RingBuffer) : Z :=
  if read_idx_ r <=? write_idx_ r then write_idx_ r - read_idx_ r
  else u64 (u32 (mask r + 1) + u64 (write_idx_ r - read_idx_ r)).

Definition ring_empty (r : RingBuffer) : bool := write_idx_ r =? read_idx_ r.

(** A sequence of pushes whose results are ignored, as the callers ignore them. *)
Definition push_all (l : list T) (r : RingBuffer) : RingBuffer :=
  foldl (fun r x => (ring_push x r).2) r l.

(** * Abstraction: the queue a ring holds *)

Definition capacity (r : RingBuffer) : Z := Z.of_nat (length (buffer r)).
Definition used (r : RingBuffer) : Z := (write_idx_ r - read_idx_ r) mod capacity r.

Definition contents (r : RingBuffer) : list T :=
  (fun i => buffer r !!! Z.to_nat ((read_idx_ r + i) mod capacity r)) <$> seqZ 0 (used r).

Record ring_ok (r : RingBuffer) : Prop := {
  ring_pow2 : exists k, 0 <= k <= 31 /\ capacity r = 2 ^ k;
  ring_mask : mask r = capacity r - 1;
  ring_write : 0 <= write_idx_ r < capacity r;
  ring_read : 0 <= read_idx_ r < capacity r
}.

End Operations.
Arguments RingBuffer T : clear implicits.

Definition InboundRing : Type := RingBuffer InboundMessage.
Definition OutboundRing : Type := RingBuffer OutboundMessage.

(** * Index arithmetic *)

Lemma mod_diff (c w r : Z) : 0 <= w < c -> 0 <= r < c ->
  (w - r) mod c = if r <=? w then w - r else w - r + c.
Proof.
  intros Hw Hr. destruct (Z.leb_spec r w).
  - apply Z.mod_small. lia.
  - symmetry. apply (Z.mod_unique _ _ (-1)); lia.
Qed.

Lemma mod_sum (c r i : Z) : 0 <= r < c -> 0 <= i < c ->
  (r + i) mod c = if r + i <? c then r + i else r + i - c.
Proof.
  intros Hr Hi. destruct (Z.ltb_spec (r + i) c).
  - apply Z.mod_small. lia.
  - symmetry. apply (Z.mod_unique _ _ 1); lia.
Qed.

Section Facts.
Context {T : Type} `{Inhabited T}.
Implicit Types (r : RingBuffer T) (x : T).

Lemma capacity_bounds r : ring_ok r -> 1 <= capacity r <= 2 ^ 31.
Proof.
  intros [[k [Hk Hc]] _ _ _]. rewrite Hc. split.
  - pose proof (Z.pow_pos_nonneg 2 k). lia.
  - apply Z.pow_le_mono_r; lia.
Qed.

(** [(idx + 1) & mask] is addition modulo the capacity. *)
Lemma next_index r (i : Z) : ring_ok r -> 0 <= i < capacity r ->
  Z.land (u64 (i + 1)) (mask r) = (i + 1) mod capacity r.
Proof.
  intros Hok Hi. pose proof (capacity_bounds r Hok) as Hb.
  destruct Hok as [[k [Hk Hc]] Hm _ _].
  rewrite u64_small by (unfold is_u64; lia).
  rewrite Hm, Hc. replace (2 ^ k - 1) with (Z.ones k) by (rewrite Z.ones_equiv; lia).
  apply Z.land_ones. lia.
Qed.

Lemma used_cases r : ring_ok r ->
  used r = if read_idx_ r <=? write_idx_ r then write_idx_ r - read_idx_ r
           else write_idx_ r - read_idx_ r + capacity r.
Proof. intros [_ _ Hw Hr]. by apply mod_diff. Qed.

Lemma used_bounds r : ring_ok r -> 0 <= used r < capacity r.
Proof. intros Hok. apply Z.mod_pos_bound. pose proof (capacity_bounds r Hok). lia. Qed.

Lemma length_contents r : ring_ok r -> Z.of_nat (length (contents r)) = used r.
Proof.
  intros Hok. pose proof (used_bounds r Hok). unfold contents.
  rewrite length_fmap, length_seqZ. lia.
Qed.

Lemma write_read r : ring_ok r -> write_idx_ r = (read_idx_ r + used r) mod capacity r.
Proof.
  intros Hok. pose proof (used_bounds r Hok). rewrite mod_sum by (lia || by destruct Hok).
  rewrite (used_cases r Hok). destruct Hok as [_ _ Hw Hr].
  zcases; lia.
Qed.

Lemma ring_init_ok (k : Z) : 0 <= k <= 31 -> ring_ok (ring_init (2 ^ k) : RingBuffer T).
Proof.
  intros Hk. assert (1 <= 2 ^ k <= 2 ^ 31) as Hb.
  { split; [pose proof (Z.pow_pos_nonneg 2 k); lia|apply Z.pow_le_mono_r; lia]. }
  assert (capacity (ring_init (2 ^ k) : RingBuffer T) = 2 ^ k) as Hc.
  { unfold capacity, ring_init; simpl. rewrite length_replicate. lia. }
  constructor; rewrite ?Hc; simpl; [by eauto|apply u32_small; unfold is_u32; lia|lia|lia].
Qed.

Lemma ring_init_contents (N : Z) : contents (ring_init N : RingBuffer T) = [].
Proof. done. Qed.

(** * The sequential operations refine a bounded FIFO queue *)

Lemma push_full r x : ring_ok r -> used r = capacity r - 1 -> ring_push x r = (false, r).
Proof.
  intros Hok Hu. unfold ring_push. rewrite next_index by (done || by destruct Hok).
  rewrite (write_read r Hok), Hu.
  pose proof (capacity_bounds r Hok). rewrite Zplus_mod_idemp_l.
  replace (read_idx_ r + (capacity r - 1) + 1) with (read_idx_ r + 1 * capacity r) by lia.
  rewrite Z_mod_plus_full, Z.mod_small by (by destruct Hok).
  by rewrite Z.eqb_refl.
Qed.

Lemma push_room r x : ring_ok r -> used r < capacity r - 1 ->
  exists r', ring_push x r = (true, r') /\ ring_ok r' /\ capacity r' = capacity r /\
             contents r' = contents r ++ [x].
Proof.
  intros Hok Hu. pose proof (used_bounds r Hok) as Hub.
  pose proof (used_cases r Hok) as Hcases. pose proof (capacity_bounds r Hok) as Hcb.
  unfold ring_push. rewrite next_index by (done || by destruct Hok).
  destruct Hok as [Hp Hm Hw Hr].
  assert (Hnext : (write_idx_ r + 1) mod capacity r =
    if write_idx_ r + 1 <? capacity r then write_idx_ r + 1 else write_idx_ r + 1 - capacity r)
    by (apply mod_sum; lia).
  destruct (Z.eqb_spec ((write_idx_ r + 1) mod capacity r) (read_idx_ r)) as [He|Hne].
  { exfalso. revert He Hcases. rewrite Hnext.
    zcases; lia. }
  eexists. split; [done|].
  set (w' := (write_idx_ r + 1) mod capacity r) in *.
  assert (Hw' : 0 <= w' < capacity r) by (apply Z.mod_pos_bound; lia).
  assert (Hcap : capacity (mkRing w' (read_idx_ r) (<[Z.to_nat (write_idx_ r):=x]> (buffer r)) (mask r))
                 = capacity r).
  { unfold capacity. simpl. by rewrite length_insert. }
  split; [by constructor; rewrite ?Hcap|]. split; [done|].
  assert (Hused : used (mkRing w' (read_idx_ r) (<[Z.to_nat (write_idx_ r):=x]> (buffer r)) (mask r))
                  = used r + 1).
  { unfold used at 1. rewrite Hcap. simpl. rewrite mod_diff by lia.
    revert Hnext Hcases. zcases; lia. }
  unfold contents. rewrite Hused, Hcap. simpl.
  rewrite seqZ_app by lia. rewrite fmap_app. f_equal.
  - apply list_fmap_ext. intros j i Hi. apply list_elem_of_lookup_2, elem_of_seqZ in Hi.
    apply list_lookup_total_insert_ne.
    rewrite mod_sum by lia. revert Hcases. zcases; lia.
  - rewrite seqZ_cons, (seqZ_nil _ (Z.pred 1)) by lia. simpl. f_equal.
    replace (0 + used r) with (used r) by lia.
    rewrite <- (write_read r) by (by constructor).
    apply list_lookup_total_insert_eq. unfold capacity in Hw. lia.
Qed.

Lemma pop_empty r : ring_ok r -> contents r = [] -> ring_pop r = (None, r).
Proof.
  intros Hok Hc. pose proof (length_contents r Hok) as Hl. rewrite Hc in Hl. simpl in Hl.
  unfold ring_pop. rewrite (write_read r Hok), <- Hl.
  rewrite Z.add_0_r, Z.mod_small by (by destruct Hok). by rewrite Z.eqb_refl.
Qed.

Lemma pop_cons r x l : ring_ok r -> contents r = x :: l ->
  exists r', ring_pop r = (Some x, r') /\ ring_ok r' /\ capacity r' = capacity r /\ contents r' = l.
Proof.
  intros Hok Hc. pose proof (length_contents r Hok) as Hl. rewrite Hc in Hl. simpl in Hl.
  pose proof (used_bounds r Hok) as Hub. pose proof (capacity_bounds r Hok) as Hcb.
  pose proof (used_cases r Hok) as Hcases.
  unfold ring_pop. rewrite next_index by (done || by destruct Hok).
  destruct (Z.eqb_spec (read_idx_ r) (write_idx_ r)) as [He|Hne].
  { exfalso. revert Hcases. rewrite He, Z.leb_refl. lia. }
  unfold contents in Hc. rewrite seqZ_cons in Hc by lia. simpl in Hc.
  injection Hc as Hx Hrest. destruct Hok as [Hp Hm Hw Hr].
  rewrite Z.add_0_r, Z.mod_small in Hx by lia. subst x.
  eexists. split; [done|].
  set (r' := mkRing _ _ _ _).
  assert (Hcap : capacity r' = capacity r) by done.
  set (n := (read_idx_ r + 1) mod capacity r) in *.
  assert (Hn : 0 <= n < capacity r) by (apply Z.mod_pos_bound; lia).
  assert (Hnext : n = if read_idx_ r + 1 <? capacity r then read_idx_ r + 1
                      else read_idx_ r + 1 - capacity r) by (apply mod_sum; lia).
  split; [by constructor; rewrite ?Hcap|]. split; [done|].
  assert (Hused : used r' = used r - 1).
  { unfold used at 1. rewrite Hcap. simpl. rewrite mod_diff by lia.
    revert Hnext Hcases. zcases; lia. }
  unfold contents. rewrite Hused, Hcap, <- Hrest. unfold r'; simpl.
  replace (Z.pred (used r)) with (used r - 1) by lia.
  replace (Z.succ 0) with (1 + 0) by lia. rewrite <- (fmap_add_seqZ 1 0 (used r - 1)).
  rewrite <- list_fmap_compose. apply list_fmap_ext. intros j i Hi.
  unfold compose. do 2 f_equal. unfold n. rewrite Zplus_mod_idemp_l. f_equal. lia.
Qed.

Lemma ring_size_contents r : ring_ok r -> ring_size r = Z.of_nat (length (contents r)).
Proof.
  intros Hok. rewrite (length_contents r Hok), (used_cases r Hok). unfold ring_size.
  pose proof (capacity_bounds r Hok) as Hcb. destruct Hok as [Hp Hm Hw Hr].
  destruct (Z.leb_spec (read_idx_ r) (write_idx_ r)); [done|].
  rewrite Hm. unfold u32. rewrite (Z.mod_small (capacity r - 1 + 1)) by lia.
  unfold u64. rewrite Zplus_mod_idemp_r. rewrite Z.mod_small; lia.
Qed.

Lemma ring_empty_contents r : ring_ok r -> ring_empty r = true <-> contents r = [].
Proof.
  intros Hok. unfold ring_empty. rewrite Z.eqb_eq.
  rewrite <- length_zero_iff_nil, <- Nat2Z.inj_iff, (length_contents r Hok), (used_cases r Hok).
  destruct Hok as [Hp Hm Hw Hr].
  zcases; simpl; lia.
Qed.

(** A burst of pushes keeps exactly the messages that fit and drops the rest. *)
Lemma push_all_contents (l : list T) r : ring_ok r ->
  ring_ok (push_all l r) /\ capacity (push_all l r) = capacity r /\
  contents (push_all l r) = take (Z.to_nat (capacity r - 1)) (contents r ++ l).
Proof.
  revert r. induction l as [|x l IH]; intros r Hok; simpl.
  - pose proof (length_contents r Hok). pose proof (used_bounds r Hok).
    rewrite app_nil_r, take_ge by lia. done.
  - pose proof (used_bounds r Hok) as Hub. pose proof (length_contents r Hok) as Hl.
    destruct (decide (used r = capacity r - 1)) as [Hfull|Hroom].
    + rewrite push_full by done. simpl. destruct (IH r Hok) as (Hok' & Hc & Hcont).
      split_and!; [done|done|]. rewrite Hcont, !take_app_le by lia. done.
    + destruct (push_room r x Hok) as (r' & -> & Hok' & Hc & Hcont); [lia|].
      destruct (IH r' Hok') as (Hok'' & Hc' & Hcont'). simpl.
      split_and!; [done|congruence|]. by rewrite Hcont', Hcont, <- app_assoc, Hc.
Qed.

Lemma push_all_app (l1 l2 : list T) r : push_all (l1 ++ l2) r = push_all l2 (push_all l1 r).
Proof. apply foldl_app. Qed.

End Facts.

(** * Properties *)

Section Properties.
Context {T : Type} `{Inhabited T}.

(** The ring refines a bounded FIFO queue of [N - 1] items.  [push] answers true
    and appends exactly when fewer than [N - 1] items are queued, and answers false
    and changes nothing otherwise; [pop] answers the oldest item and removes it, or
    answers false on an empty ring; [size] and [empty] report the queue; and the
    ring stays well formed. *)
Theorem ring_refines_queue (r : RingBuffer T) (x : T) : ring_ok r ->
  (exists r', ring_push x r = (true, r') /\ ring_ok r' /\ contents r' = contents r ++ [x] /\
              Z.of_nat (length (contents r)) < capacity r - 1 \/
              ring_push x r = (false, r) /\ Z.of_nat (length (contents r)) = capacity r - 1) /\
  match contents r with
  | [] => ring_pop r = (None, r)
  | y :: l => exists r', ring_pop r = (Some y, r') /\ ring_ok r' /\ contents r' = l
  end /\
  ring_size r = Z.of_nat (length (contents r)) /\ (ring_empty r = true <-> contents r = []).
Proof.
  intros Hok. pose proof (used_bounds r Hok) as Hu. pose proof (length_contents r Hok) as Hl.
  split_and!; [| |by apply ring_size_contents|by apply ring_empty_contents].
  - destruct (decide (used r = capacity r - 1)) as [Hf|Hf].
    + exists r. right. split; [by apply push_full|lia].
    + destruct (push_room r x Hok) as (r' & H1 & H2 & _ & H3); [lia|]. exists r'. left.
      split_and!; [done..|lia].
  - destruct (contents r) as [|y l] eqn:E; [by apply pop_empty|].
    destruct (pop_cons r y l Hok E) as (r' & H1 & H2 & _ & H3). by exists r'.
Qed.

(** The callers ignore the result of [push]: a burst of messages into a ring keeps
    the oldest ones that fit and silently drops all the later ones. *)
Theorem burst_keeps_prefix (r : RingBuffer T) (l : list T) : ring_ok r ->
  contents (push_all l r) = take (Z.to_nat (capacity r - 1)) (contents r ++ l).
Proof. intros Hok. by apply push_all_contents. Qed.

End Properties.

Lemma ring_refines_queue_witness :
  let r := (ring_push 7 (ring_init 4)).2 in
  ring_pop r = (Some 7, mkRing 1 1 [7; 1; 1; 1] 3) /\ ring_size r = 1.
Proof.
  destruct (ring_refines_queue (ring_push 7 (ring_init 4)).2 0) as (_ & (r' & H1 & _) & H2 & _).
  - split; [exists 2; split; [lia|reflexivity]|reflexivity|vm_compute; split; congruence|vm_compute; split; congruence].
  - split; [vm_compute; reflexivity|rewrite H2; reflexivity].
Defined.

Lemma burst_keeps_prefix_witness :
  contents (push_all [1; 2; 3; 4; 5] (ring_init 4)) = [1; 2; 3].
Proof.
  rewrite (burst_keeps_prefix (ring_init 4) [1; 2; 3; 4; 5]); [reflexivity|].
  exact (ring_init_ok 2 ltac:(lia)).
Defined.
