(* ===== verification/Spsc.v ===== *)
(** The ring buffer under concurrency: one producer thread running
    [RingBuffer::push], one consumer thread running [RingBuffer::pop]
    ([exchange/include/ring_buffer.hpp]), as an interleaving of their atomic
    accesses.

    Each thread reads its own index exactly.  Its load of the other thread's
    index (the [acquire] load) may be stale: it returns any value that index has
    held since the value this thread saw last, which is what coherence of an
    atomic variable guarantees.  [seen] values count completed operations, so a
    stale value is a count between the last one seen and the current one.  An
    access to [buffer] that is ordered by the release/acquire pair reads and
    writes the array as it is; [spsc_race_free] states that all of them are. *)

From S2P Require Import Prelude Types Ring.

Local Open Scope Z_scope.

(** * States and steps *)

Section Protocol.
Context {T : Type} `{Inhabited T}.

(** Where a call of [push] stands. *)
Inductive producer_pc : Type :=
  | PIdle
  | PLoaded (item : T) (write_idx : Z)
  | PChecked (item : T) (write_idx next_write : Z)
  | PStored (item : T) (write_idx next_write : Z).

(** Where a call of [pop] stands. *)
Inductive consumer_pc : Type :=
  | CIdle
  | CLoaded (read_idx : Z)
  | CChecked (read_idx : Z)
  | CRead (item : T) (read_idx : Z).

Record spsc : Type := mkSpsc {
  sp_ring : RingBuffer T;
  sp_prod : producer_pc;
  sp_cons : consumer_pc;
  sp_pushed : list T;      (* items whose push has returned true *)
  sp_popped : list T;      (* items handed out by pop *)
  sp_prod_seen : nat;      (* completed pops the producer has observed *)
  sp_cons_seen : nat       (* completed pushes the consumer has observed *)
}.

Definition nat_index (r : RingBuffer T) (n : nat) : Z := Z.of_nat n mod capacity r.

Definition set_write (i : Z) (r : RingBuffer T) : RingBuffer T :=
  mkRing i (read_idx_ r) (buffer r) (mask r).
Definition set_read (i : Z) (r : RingBuffer T) : RingBuffer T :=
  mkRing (write_idx_ r) i (buffer r) (mask r).
Definition set_slot (i : Z) (x : T) (r : RingBuffer T) : RingBuffer T :=
  mkRing (write_idx_ r) (read_idx_ r) (<[Z.to_nat i := x]> (buffer r)) (mask r).

Inductive spsc_step : spsc -> spsc -> Prop :=
  (* size_t write_idx = write_idx_.load(relaxed) *)
  | push_load r item c pu po ps cs :
      spsc_step (mkSpsc r PIdle c pu po ps cs)
                (mkSpsc r (PLoaded item (write_idx_ r)) c pu po ps cs)
  (* if (next_write == read_idx_.load(acquire)) return false *)
  | push_full_step r item w c pu po ps cs k :
      (ps <= k <= length po)%nat ->
      Z.land (u64 (w + 1)) (mask r) = nat_index r k ->
      spsc_step (mkSpsc r (PLoaded item w) c pu po ps cs)
                (mkSpsc r PIdle c pu po k cs)
  | push_check r item w c pu po ps cs k :
      (ps <= k <= length po)%nat ->
      Z.land (u64 (w + 1)) (mask r) <> nat_index r k ->
      spsc_step (mkSpsc r (PLoaded item w) c pu po ps cs)
                (mkSpsc r (PChecked item w (Z.land (u64 (w + 1)) (mask r))) c pu po k cs)
  (* buffer[write_idx] = item *)
  | push_write r item w n c pu po ps cs :
      spsc_step (mkSpsc r (PChecked item w n) c pu po ps cs)
                (mkSpsc (set_slot w item r) (PStored item w n) c pu po ps cs)
  (* write_idx_.store(next_write, release) *)
  | push_publish r item w n c pu po ps cs :
      spsc_step (mkSpsc r (PStored item w n) c pu po ps cs)
                (mkSpsc (set_write n r) PIdle c (pu ++ [item]) po ps cs)
  (* size_t read_idx = read_idx_.load(relaxed) *)
  | pop_load r p pu po ps cs :
      spsc_step (mkSpsc r p CIdle pu po ps cs)
                (mkSpsc r p (CLoaded (read_idx_ r)) pu po ps cs)
  (* if (read_idx == write_idx_.load(acquire)) return false *)
  | pop_empty_step r i p pu po ps cs j :
      (cs <= j <= length pu)%nat ->
      i = nat_index r j ->
      spsc_step (mkSpsc r p (CLoaded i) pu po ps cs)
                (mkSpsc r p CIdle pu po ps j)
  | pop_check r i p pu po ps cs j :
      (cs <= j <= length pu)%nat ->
      i <> nat_index r j ->
      spsc_step (mkSpsc r p (CLoaded i) pu po ps cs)
                (mkSpsc r p (CChecked i) pu po ps j)
  (* item = buffer[read_idx] *)
  | pop_read r i p pu po ps cs :
      spsc_step (mkSpsc r p (CChecked i) pu po ps cs)
                (mkSpsc r p (CRead (buffer r !!! Z.to_nat i) i) pu po ps cs)
  (* read_idx_.store((read_idx + 1) & mask, release) *)
  | pop_publish r item i p pu po ps cs :
      spsc_step (mkSpsc r p (CRead item i) pu po ps cs)
                (mkSpsc (set_read (Z.land (u64 (i + 1)) (mask r)) r) p CIdle
                        pu (po ++ [item]) ps cs).

Definition spsc_init (N : Z) : spsc :=
  mkSpsc (ring_init N) PIdle CIdle [] [] 0 0.

Definition spsc_reachable (N : Z) (s : spsc) : Prop := rtc spsc_step (spsc_init N) s.

(** * Invariant *)

Definition prod_inv (s : spsc) : Prop :=
  let r := sp_ring s in
  let room := (length (sp_pushed s) + 1 <= sp_prod_seen s + length (buffer r) - 1)%nat in
  match sp_prod s with
  | PIdle => True
  | PLoaded _ w => w = write_idx_ r
  | PChecked _ w n => w = write_idx_ r /\ n = nat_index r (length (sp_pushed s) + 1) /\ room
  | PStored x w n => w = write_idx_ r /\ n = nat_index r (length (sp_pushed s) + 1) /\ room /\
                     buffer r !! Z.to_nat w = Some x
  end.

Definition cons_inv (s : spsc) : Prop :=
  let r := sp_ring s in
  let avail := (length (sp_popped s) < sp_cons_seen s)%nat in
  match sp_cons s with
  | CIdle => True
  | CLoaded i => i = read_idx_ r
  | CChecked i => i = read_idx_ r /\ avail
  | CRead x i => i = read_idx_ r /\ avail /\ sp_pushed s !! length (sp_popped s) = Some x
  end.

Record spsc_inv (s : spsc) : Prop := {
  si_pow2 : exists k, 0 <= k <= 31 /\ capacity (sp_ring s) = 2 ^ k;
  si_mask : mask (sp_ring s) = capacity (sp_ring s) - 1;
  si_write : write_idx_ (sp_ring s) = nat_index (sp_ring s) (length (sp_pushed s));
  si_read : read_idx_ (sp_ring s) = nat_index (sp_ring s) (length (sp_popped s));
  si_prod_seen : (sp_prod_seen s <= length (sp_popped s))%nat;
  si_cons_seen : (length (sp_popped s) <= sp_cons_seen s <= length (sp_pushed s))%nat;
  si_room : (length (sp_pushed s) <= sp_prod_seen s + length (buffer (sp_ring s)) - 1)%nat;
  si_prefix : sp_popped s = take (length (sp_popped s)) (sp_pushed s);
  si_slots : forall i x, (length (sp_popped s) <= i)%nat -> sp_pushed s !! i = Some x ->
             buffer (sp_ring s) !! Z.to_nat (nat_index (sp_ring s) i) = Some x;
  si_prod : prod_inv s;
  si_cons : cons_inv s
}.

End Protocol.
Arguments spsc T : clear implicits.
Arguments producer_pc T : clear implicits.
Arguments consumer_pc T : clear implicits.

(** * Index lemmas *)

Section Facts.
Context {T : Type} `{Inhabited T}.
Implicit Types (r : RingBuffer T) (s : spsc T) (x : T).

Lemma capacity_pos r : (exists k, 0 <= k <= 31 /\ capacity r = 2 ^ k) -> 1 <= capacity r.
Proof. intros (k & Hk & ->). pose proof (Z.pow_pos_nonneg 2 k). lia. Qed.

Lemma nat_index_bounds r n : 1 <= capacity r -> 0 <= nat_index r n < capacity r.
Proof. intros. apply Z.mod_pos_bound. lia. Qed.

Lemma nat_index_inj r (m n : nat) :
  (m <= n)%nat -> (n < m + length (buffer r))%nat -> nat_index r m = nat_index r n -> m = n.
Proof.
  unfold nat_index, capacity. intros Hle Hlt Heq.
  assert (Hd : (Z.of_nat n - Z.of_nat m) mod Z.of_nat (length (buffer r)) = 0).
  { rewrite Zminus_mod, Heq, Z.sub_diag. apply Z.mod_0_l. lia. }
  rewrite Z.mod_small in Hd by lia. lia.
Qed.

Lemma nat_index_wrap r (n : nat) :
  nat_index r (n + length (buffer r)) = nat_index r n.
Proof.
  unfold nat_index, capacity. rewrite Nat2Z.inj_add.
  rewrite <- (Z.mul_1_l (Z.of_nat (length (buffer r)))) at 1. apply Z_mod_plus_full.
Qed.

(** [(idx + 1) & mask] steps from the index of [n] to that of [n + 1]. *)
Lemma nat_index_next r (n : nat) :
  (exists k, 0 <= k <= 31 /\ capacity r = 2 ^ k) -> mask r = capacity r - 1 ->
  Z.land (u64 (nat_index r n + 1)) (mask r) = nat_index r (n + 1).
Proof.
  intros Hp Hm. pose proof (capacity_pos r Hp) as Hc.
  set (r0 := mkRing 0 0 (buffer r) (mask r)).
  assert (Hok : ring_ok r0) by (constructor; simpl; [exact Hp|exact Hm|unfold capacity in *; simpl; lia..]).
  change (mask r) with (mask r0). rewrite (next_index r0); [|done|exact (nat_index_bounds r n Hc)].
  unfold nat_index. change (capacity r0) with (capacity r).
  rewrite Zplus_mod_idemp_l. f_equal. lia.
Qed.

(** * Preservation *)

Lemma spsc_init_inv (k : Z) : 1 <= k <= 31 -> spsc_inv (spsc_init (2 ^ k) : spsc T).
Proof.
  intros Hk. destruct (ring_init_ok k (T := T)) as [Hp Hm _ _]; [lia|].
  constructor; simpl; [exact Hp|exact Hm|done|done|lia|lia|lia|done| |done|done].
  intros i x _ Hi. by rewrite lookup_nil in Hi.
Qed.

Ltac spsc_simpl := unfold prod_inv, cons_inv in *; cbn [sp_ring sp_prod sp_cons sp_pushed sp_popped
  sp_prod_seen sp_cons_seen] in *.

Lemma spsc_push_write r item w n c pu po ps cs :
  spsc_inv (mkSpsc r (PChecked item w n) c pu po ps cs) ->
  spsc_inv (mkSpsc (set_slot w item r) (PStored item w n) c pu po ps cs).
Proof.
  intros [Hp Hm Hw Hr Hps Hcs Hroom Hpre Hslots Hprod Hcons]. spsc_simpl.
  assert (Hcap : capacity (set_slot w item r) = capacity r)
    by (unfold capacity; simpl; by rewrite length_insert).
  assert (Hidx : forall m, nat_index (set_slot w item r) m = nat_index r m)
    by (intros; unfold nat_index; by rewrite Hcap).
  destruct Hprod as (-> & -> & Hfull).
  pose proof (capacity_pos r Hp) as Hc1.
  pose proof (nat_index_bounds r (length pu) Hc1) as Hb. rewrite <- Hw in Hb.
  constructor; spsc_simpl; rewrite ?Hcap, ?Hidx; simpl; rewrite ?length_insert; try done.
  - intros i x Hi Hx. rewrite Hidx. rewrite list_lookup_insert_ne; [by apply Hslots|].
    rewrite Hw. intros Heq.
    apply lookup_lt_Some in Hx as Hlt.
    pose proof (nat_index_bounds r i Hc1). pose proof (nat_index_bounds r (length pu) Hc1).
    assert (i = length pu); [|lia].
    apply (nat_index_inj r); [lia|lia|lia].
  - split_and!; [done|done|lia|]. apply list_lookup_insert_eq. unfold capacity in Hb. lia.
Qed.

Lemma spsc_push_publish r item w n c pu po ps cs :
  spsc_inv (mkSpsc r (PStored item w n) c pu po ps cs) ->
  spsc_inv (mkSpsc (set_write n r) PIdle c (pu ++ [item]) po ps cs).
Proof.
  intros [Hp Hm Hw Hr Hps Hcs Hroom Hpre Hslots Hprod Hcons]. spsc_simpl.
  destruct Hprod as (-> & -> & Hfull & Hitem).
  constructor; spsc_simpl; rewrite ?length_app; simpl; try done; try lia.
  - rewrite take_app_le by lia. done.
  - intros i x Hi Hx. apply lookup_app_Some in Hx as [Hx|[Hge Hx]]; [by apply Hslots|].
    apply list_lookup_singleton_Some in Hx as [Hi0 ->].
    change (nat_index (set_write _ r) i) with (nat_index r i).
    replace i with (length pu) by lia. by rewrite <- Hw.
  - destruct c; try done. destruct Hcons as (? & ? & Hx). split_and!; [done|done|].
    apply lookup_app_l_Some. done.
Qed.

Lemma spsc_pop_publish r item i p pu po ps cs :
  spsc_inv (mkSpsc r p (CRead item i) pu po ps cs) ->
  spsc_inv (mkSpsc (set_read (Z.land (u64 (i + 1)) (mask r)) r) p CIdle pu (po ++ [item]) ps cs).
Proof.
  intros [Hp Hm Hw Hr Hps Hcs Hroom Hpre Hslots Hprod Hcons]. spsc_simpl.
  destruct Hcons as (-> & Hav & Hx).
  rewrite Hr, nat_index_next by done.
  constructor; spsc_simpl; rewrite ?length_app; simpl; try done; try lia.
  - rewrite Nat.add_1_r, (take_S_r _ _ item) by done. by rewrite <- Hpre.
  - intros j y Hj Hy. apply Hslots; [lia|done].
Qed.

Lemma spsc_step_inv s s' : spsc_step s s' -> spsc_inv s -> spsc_inv s'.
Proof.
  intros Hstep Hinv. destruct Hstep as [| | r item w c pu po ps cs k Hk Hne| | | |
    | r i p pu po ps cs j Hj Hne| |]; try (by eapply spsc_push_write);
    try (by eapply spsc_push_publish); try (by eapply spsc_pop_publish);
    destruct Hinv as [Hp Hm Hw Hr Hps Hcs Hroom Hpre Hslots Hprod Hcons]; spsc_simpl.
  - by constructor.
  - constructor; spsc_simpl; try done; lia.
  - subst w. rewrite Hw, nat_index_next in Hne by done.
    rewrite Hw, nat_index_next by done.
    pose proof (capacity_pos r Hp) as Hc1. unfold capacity in Hc1.
    assert (length pu + 1 <> k + length (buffer r))%nat.
    { intros Heq. apply Hne. by rewrite Heq, nat_index_wrap. }
    constructor; spsc_simpl; try done; lia.
  - by constructor.
  - constructor; spsc_simpl; try done; try lia.
  - assert (length po <> j) by (intros <-; apply Hne; by rewrite Hcons).
    constructor; spsc_simpl; try done; lia.
  - destruct Hcons as [-> Hav]. constructor; spsc_simpl; try done.
    split_and!; [done|done|].
    destruct (lookup_lt_is_Some_2 pu (length po)) as [x Hx]; [lia|].
    specialize (Hslots (length po) x ltac:(lia) Hx). rewrite Hr.
    erewrite list_lookup_total_correct by exact Hslots. done.
Qed.

Lemma spsc_reachable_inv (k : Z) s :
  1 <= k <= 31 -> spsc_reachable (2 ^ k) s -> spsc_inv s.
Proof.
  intros Hk Hr. unfold spsc_reachable in Hr. remember (spsc_init (2 ^ k)) as s0 eqn:H0.
  assert (Hi : spsc_inv s0) by (subst; by apply spsc_init_inv). clear H0.
  induction Hr as [|s0 s1 s2 Hs Hr IH]; [done|]. apply IH. by eapply spsc_step_inv.
Qed.

End Facts.

(** * Properties *)

Section Properties.
Context {T : Type} `{Inhabited T}.

(** C9. Under every interleaving of one producer and one consumer, with stale reads of
    the other thread's index, the ring is a FIFO channel: what was popped is a
    prefix of what was pushed (no item lost, duplicated, invented or reordered),
    and never more than [2^k - 1] items are in flight. *)
Theorem spsc_fifo (k : Z) (s : spsc T) : 1 <= k <= 31 -> spsc_reachable (2 ^ k) s ->
  sp_popped s = take (length (sp_popped s)) (sp_pushed s) /\
  Z.of_nat (length (sp_pushed s)) - Z.of_nat (length (sp_popped s)) <= capacity (sp_ring s) - 1.
Proof.
  intros Hk Hr. destruct (spsc_reachable_inv k s Hk Hr) as [Hp _ _ _ Hps _ Hroom Hpre _ _ _].
  split; [done|]. pose proof (capacity_pos _ Hp). unfold capacity in *. lia.
Qed.

(** C10. The plain (non-atomic) accesses to [buffer] never race: while the producer is
    at its write of a slot and the consumer at its read of a slot, the slots are
    different; and the slot the consumer is about to read holds the oldest item
    that was pushed and not yet popped. *)
Theorem spsc_race_free (k : Z) (s : spsc T) x w n i : 1 <= k <= 31 -> spsc_reachable (2 ^ k) s ->
  sp_cons s = CChecked i ->
  sp_pushed s !! length (sp_popped s) = Some (buffer (sp_ring s) !!! Z.to_nat i) /\
  (sp_prod s = PChecked x w n -> w <> i).
Proof.
  intros Hk Hr Hc. destruct (spsc_reachable_inv k s Hk Hr) as [Hp _ Hw Hrd Hps Hcs Hroom _ Hslots Hprod Hcons].
  unfold cons_inv in Hcons. rewrite Hc in Hcons. destruct Hcons as [-> Hav]. split.
  - destruct (lookup_lt_is_Some_2 (sp_pushed s) (length (sp_popped s))) as [y Hy]; [lia|].
    rewrite Hy. f_equal. symmetry. apply list_lookup_total_correct. rewrite Hrd. by apply Hslots.
  - intros Hpc. unfold prod_inv in Hprod. rewrite Hpc in Hprod. destruct Hprod as (-> & _ & Hfull).
    rewrite Hw, Hrd. intros E. symmetry in E. apply nat_index_inj in E; lia.
Qed.

End Properties.

(** One push and the start of a pop, step by step. *)
Definition spsc_sample : spsc Z :=
  mkSpsc (mkRing 1 0 [5; 1] 1) PIdle (CChecked 0) [5] [] 0 1.

Lemma spsc_sample_reachable : spsc_reachable (2 ^ 1) spsc_sample.
Proof.
  unfold spsc_reachable, spsc_init.
  eapply rtc_l; [apply (push_load _ 5)|].
  eapply rtc_l; [apply (push_check _ _ _ _ _ _ _ _ 0); [simpl; lia|vm_compute; discriminate]|].
  eapply rtc_l; [apply push_write|]. eapply rtc_l; [apply push_publish|].
  eapply rtc_l; [apply pop_load|].
  eapply rtc_l; [apply (pop_check _ _ _ _ _ _ _ 1); [simpl; lia|vm_compute; discriminate]|].
  apply rtc_refl.
Qed.

Lemma spsc_fifo_witness : sp_popped spsc_sample = take 0 [5] /\ 1 - 0 <= 2 - 1.
Proof. exact (spsc_fifo 1 spsc_sample ltac:(lia) spsc_sample_reachable). Defined.

Lemma spsc_race_free_witness : [5] !! 0%nat = Some 5.
Proof. exact (proj1 (spsc_race_free 1 spsc_sample 0 0 0 0 ltac:(lia) spsc_sample_reachable eq_refl)). Defined.
