(* ===== verification/Pool.v ===== *)
(** The storage of the order book: the order pool
    ([exchange/engine/include/order_pool.hpp]) and the price-level queue, an
    intrusive doubly linked list through the pool's orders
    ([exchange/engine/include/price_level_queue.hpp]).

    Pointers are indices into the arena; an operation that follows a pointer
    outside the arena faults with [BadPointer].  [queue_rep] says that a queue
    object and the links in the arena represent a list of pointers; the lemmas
    show that [push], [pop] and [remove] act on that list as append, tail and
    removal, and touch nothing else. *)

From S2P Require Import Prelude Types.

(** * Order pool *)

(** [free_list_] is the vector with its back first, so [back()] is the head. *)
Record OrderPool : Type := mkPool {
  arena_ : list Order;
  free_list_ : list ptr
}.

(** The constructor: value-initialised orders, and the slots pushed from the last
    to the first. *)
Definition pool_init (capacity : nat) : OrderPool :=
  mkPool (replicate capacity inhabitant)
         (foldl (fun fl i => i :: fl) [] (reverse (seq 0 capacity))).

Definition pool_allocate (id : Z) (r : OrderRequest) (p : OrderPool) : option ptr * OrderPool :=
  match free_list_ p with
  | [] => (None, p)
  | slot :: rest => (Some slot, mkPool (<[slot := new_Order id r]> (arena_ p)) rest)
  end.

Definition pool_deallocate (order : ptr) (p : OrderPool) : OrderPool :=
  mkPool (arena_ p) (order :: free_list_ p).

Definition pool_capacity (p : OrderPool) : nat := length (arena_ p).
Definition pool_available (p : OrderPool) : nat := length (free_list_ p).
Definition pool_in_use (p : OrderPool) : nat := length (arena_ p) - length (free_list_ p).

(** * Access through a pointer *)

Definition deref (a : list Order) (p : ptr) : res Order :=
  match a !! p with Some o => Ok o | None => Err BadPointer end.

Definition update_order (a : list Order) (p : ptr) (f : Order -> Order) : res (list Order) :=
  match a !! p with Some o => Ok (<[p := f o]> a) | None => Err BadPointer end.

(** * Price-level queue *)

Record PriceLevelQueue : Type := mkQueue {
  head_ : option ptr;
  tail_ : option ptr;
  size_ : Z
}.

Definition empty_queue : PriceLevelQueue := mkQueue None None 0.

Definition queue_empty (q : PriceLevelQueue) : bool :=
  match head_ q with None => true | Some _ => false end.

Definition queue_front (q : PriceLevelQueue) : option ptr := head_ q.

Definition queue_push (new_order : ptr) (a : list Order) (q : PriceLevelQueue)
  : res (list Order * PriceLevelQueue) :=
  let head' := match head_ q with None => Some new_order | Some h => Some h end in
  a' ← match tail_ q with
       | Some t =>
           a1 ← update_order a t (set_next (Some new_order));
           update_order a1 new_order (set_prev (Some t))
       | None => Ok a
       end;
  Ok (a', mkQueue head' (Some new_order) (u64 (size_ q + 1))).

Definition queue_pop (a : list Order) (q : PriceLevelQueue)
  : res (option ptr * (list Order * PriceLevelQueue)) :=
  match head_ q with
  | None => Ok (None, (a, q))
  | Some h =>
      o ← deref a h;
      match next_ o with
      | Some h' =>
          a' ← update_order a h' (set_prev None);
          Ok (Some h, (a', mkQueue (Some h') (tail_ q) (u64 (size_ q - 1))))
      | None => Ok (Some h, (a, mkQueue None None (u64 (size_ q - 1))))
      end
  end.

Definition queue_remove (to_remove : ptr) (a : list Order) (q : PriceLevelQueue)
  : res (list Order * PriceLevelQueue) :=
  o ← deref a to_remove;
  let prev := prev_ o in
  let next := next_ o in
  a1 ← match prev with
       | Some p => update_order a p (set_next next)
       | None => Ok a
       end;
  a2 ← match next with
       | Some n => update_order a1 n (set_prev prev)
       | None => Ok a1
       end;
  Ok (a2, mkQueue (match prev with Some _ => head_ q | None => next end)
                  (match next with Some _ => tail_ q | None => prev end)
                  (u64 (size_ q - 1))).

(** * Representation *)

Definition links (o : Order) : option ptr * option ptr := (prev_ o, next_ o).

(** An order without its links: what the book says about it. *)
Definition core (o : Order) : Order := set_prev None (set_next None o).

Definition first_of (l : list ptr) (n : option ptr) : option ptr :=
  match l with [] => n | t :: _ => Some t end.
Definition final_of (p : option ptr) (l : list ptr) : option ptr :=
  match last l with None => p | Some t => Some t end.

(** The orders of [l] are linked in this order, [p] before and [n] after them. *)
Fixpoint seg (a : list Order) (p : option ptr) (l : list ptr) (n : option ptr) : Prop :=
  match l with
  | [] => True
  | s :: l' => links <$> a !! s = Some (p, first_of l' n) /\ seg a (Some s) l' n
  end.

Record queue_rep (a : list Order) (q : PriceLevelQueue) (l : list ptr) : Prop := {
  qr_head : head_ q = first_of l None;
  qr_tail : tail_ q = final_of None l;
  qr_size : size_ q = Z.of_nat (length l);
  qr_seg : seg a None l None
}.

(** Two arenas that differ in links only. *)
Definition same_core (a a' : list Order) : Prop := core <$> a' = core <$> a.

(** * Lemmas *)

Lemma pool_init_free (capacity : nat) : free_list_ (pool_init capacity) = seq 0 capacity.
Proof.
  simpl. assert (forall l acc : list ptr, foldl (fun fl i => i :: fl) acc l = reverse l ++ acc) as ->.
  { induction l as [|x l IH]; intros acc; simpl; [done|].
    by rewrite IH, reverse_cons, <- app_assoc. }
  by rewrite reverse_involutive, app_nil_r.
Qed.

Lemma core_set_next p o : core (set_next p o) = core o.
Proof. done. Qed.
Lemma core_set_prev p o : core (set_prev p o) = core o.
Proof. done. Qed.
Lemma core_core o : core (core o) = core o.
Proof. done. Qed.

#[export] Instance same_core_equiv : Equivalence same_core.
Proof.
  unfold same_core. split.
  - intros a. done.
  - intros a b H. by symmetry.
  - intros a b c H1 H2. by rewrite H2, H1.
Qed.

Lemma same_core_length a a' : same_core a a' -> length a' = length a.
Proof. intros H. apply (f_equal length) in H. by rewrite !length_fmap in H. Qed.

Lemma same_core_lookup a a' s o :
  same_core a a' -> a !! s = Some o -> exists o', a' !! s = Some o' /\ core o' = core o.
Proof.
  intros H Hs. assert ((core <$> a') !! s = Some (core o)) as Hs'.
  { by rewrite H, list_lookup_fmap, Hs. }
  rewrite list_lookup_fmap in Hs'. destruct (a' !! s) as [o'|]; simpl in Hs'; [|done].
  exists o'. split; [done|congruence].
Qed.

Lemma same_core_insert a s o o' :
  a !! s = Some o -> core o' = core o -> same_core a (<[s := o']> a).
Proof.
  intros Hs Ho. unfold same_core. rewrite list_fmap_insert, Ho.
  apply list_insert_id. by rewrite list_lookup_fmap, Hs.
Qed.

Lemma final_of_snoc p l t : final_of p (l ++ [t]) = Some t.
Proof. unfold final_of. by rewrite last_snoc. Qed.

Lemma final_of_app p l1 l2 : final_of p (l1 ++ l2) = final_of (final_of p l1) l2.
Proof. unfold final_of. rewrite last_app. by destruct (last l2), (last l1). Qed.

Lemma seg_app a p l1 l2 n :
  seg a p (l1 ++ l2) n <-> seg a p l1 (first_of l2 n) /\ seg a (final_of p l1) l2 n.
Proof.
  revert p. induction l1 as [|s l1 IH]; intros p; simpl; [tauto|].
  rewrite IH. change (s :: l1) with ([s] ++ l1). rewrite final_of_app.
  assert (first_of (l1 ++ l2) n = first_of l1 (first_of l2 n)) as -> by (by destruct l1).
  unfold final_of at 2. simpl. tauto.
Qed.

Lemma seg_frame a a' p l n :
  (forall t, t ∈ l -> links <$> a' !! t = links <$> a !! t) -> seg a p l n -> seg a' p l n.
Proof.
  revert p. induction l as [|s l IH]; intros p Hf Hs; simpl in *; [done|].
  destruct Hs as [Hs Hl]. split; [by rewrite Hf by set_solver|].
  apply IH; [|done]. intros t Ht. apply Hf. set_solver.
Qed.

Lemma seg_lookup a p l n s : seg a p l n -> s ∈ l -> exists o, a !! s = Some o.
Proof.
  revert p. induction l as [|t l IH]; intros p Hs Hin; [set_solver|].
  destruct Hs as [Ht Hl]. apply elem_of_cons in Hin as [->|Hin]; [|eauto].
  destruct (a !! t); [eauto|done].
Qed.

(** Redirecting the link that leaves a segment, at its end or at its front. *)
Lemma seg_set_next a p l t o n n' :
  NoDup (l ++ [t]) -> a !! t = Some o -> seg a p (l ++ [t]) n ->
  seg (<[t := set_next n' o]> a) p (l ++ [t]) n'.
Proof.
  intros Hnd Ho. rewrite !seg_app. intros [Hl [Ht _]]. split.
  - apply (seg_frame a); [|done]. intros u Hu. rewrite list_lookup_insert_ne; [done|].
    intros <-. apply NoDup_app in Hnd as (_ & Hd & _). apply (Hd t); set_solver.
  - simpl. split; [|done]. apply lookup_lt_Some in Ho as Hlt.
    rewrite list_lookup_insert_eq by done. rewrite Ho in Ht. simpl in *.
    unfold links in *. simpl. by injection Ht as -> _.
Qed.

Lemma seg_set_prev a p l t o n p' :
  NoDup (t :: l) -> a !! t = Some o -> seg a p (t :: l) n ->
  seg (<[t := set_prev p' o]> a) p' (t :: l) n.
Proof.
  intros Hnd Ho [Ht Hl]. apply NoDup_cons in Hnd as [Hnin _]. split.
  - apply lookup_lt_Some in Ho as Hlt. rewrite list_lookup_insert_eq by done.
    rewrite Ho in Ht. simpl in *. unfold links in *. simpl. by injection Ht as _ ->.
  - apply (seg_frame a); [|done]. intros u Hu. rewrite list_lookup_insert_ne; [done|].
    by intros <-.
Qed.

Lemma update_order_ok a p f o : a !! p = Some o -> update_order a p f = Ok (<[p := f o]> a).
Proof. unfold update_order. by intros ->. Qed.

Lemma deref_ok a p o : a !! p = Some o -> deref a p = Ok o.
Proof. unfold deref. by intros ->. Qed.

Lemma queue_rep_empty a : queue_rep a empty_queue [].
Proof. by constructor. Qed.

Lemma queue_empty_spec a q l : queue_rep a q l -> queue_empty q = true <-> l = [].
Proof. intros [Hh _ _ _]. unfold queue_empty. rewrite Hh. by destruct l. Qed.

(** What an operation on the queue [l] leaves alone. *)
Definition queue_frame (a a' : list Order) (l : list ptr) : Prop :=
  same_core a a' /\ forall t, t ∉ l -> a' !! t = a !! t.

Lemma queue_push_spec a q l s o :
  queue_rep a q l -> NoDup l -> s ∉ l -> a !! s = Some o -> links o = (None, None) ->
  (Z.of_nat (length l) < 2 ^ 64 - 1)%Z ->
  exists a' q', queue_push s a q = Ok (a', q') /\ queue_rep a' q' (l ++ [s]) /\
                queue_frame a a' (s :: l).
Proof.
  intros [Hh Ht Hsz Hseg] Hnd Hnin Ho Hlinks Hlen. unfold queue_push.
  assert (Hsize : u64 (size_ q + 1) = Z.of_nat (length (l ++ [s]))).
  { rewrite Hsz, u64_small by (unfold is_u64; lia). rewrite length_app. simpl. lia. }
  destruct l as [|t l _] using rev_ind.
  - rewrite Ht, Hh. simpl. eexists _, _. split; [done|]. split; [|split; [reflexivity|done]].
    constructor; try done. simpl. rewrite Ho. simpl. by rewrite Hlinks.
  - rewrite Ht, final_of_snoc. destruct (seg_lookup _ _ _ _ t Hseg) as [ot Hot]; [set_solver|].
    assert (s <> t) as Hne by set_solver.
    rewrite (update_order_ok _ _ _ ot) by done. simpl.
    rewrite (update_order_ok _ _ _ o) by (by rewrite list_lookup_insert_ne). simpl.
    eexists _, _. split; [done|]. split.
    + apply lookup_lt_Some in Ho as Hlt.
      constructor; simpl; [rewrite Hh; by destruct l|by rewrite final_of_snoc|done|].
      rewrite seg_app. split.
      * apply (seg_frame (<[t:=set_next (Some s) ot]> a)).
        { intros u Hu. rewrite list_lookup_insert_ne; [done|]. by intros ->. }
        simpl. by apply (seg_set_next _ _ _ _ _ None).
      * rewrite final_of_snoc. split; [|done].
        rewrite list_lookup_insert_eq by (by rewrite length_insert).
        unfold links in *. simpl. by injection Hlinks as _ ->.
    + split.
      * transitivity (<[t:=set_next (Some s) ot]> a); [by eapply same_core_insert|].
        apply same_core_insert with o; [by rewrite list_lookup_insert_ne|done].
      * intros u Hu. rewrite !list_lookup_insert_ne by set_solver. done.
Qed.

Lemma queue_pop_spec a q s l :
  queue_rep a q (s :: l) -> NoDup (s :: l) -> (Z.of_nat (length (s :: l)) < 2 ^ 64)%Z ->
  exists a' q', queue_pop a q = Ok (Some s, (a', q')) /\ queue_rep a' q' l /\ queue_frame a a' l.
Proof.
  intros [Hh Ht Hsz Hseg] Hnd Hlen. unfold queue_pop. rewrite Hh. simpl.
  destruct Hseg as [Hs Hseg]. destruct (a !! s) as [o|] eqn:Ho; [|done].
  rewrite (deref_ok _ _ o) by done. simpl in *. unfold links in Hs. simplify_eq.
  assert (Hsize : u64 (size_ q - 1) = Z.of_nat (length l)).
  { rewrite Hsz, u64_small by (unfold is_u64; lia). simpl. lia. }
  apply NoDup_cons in Hnd as [Hnin Hnd].
  assert (Hnext : next_ o = first_of l None) by congruence. rewrite Hnext.
  destruct l as [|t l]; simpl.
  - eexists _, _. split; [done|]. split; [by constructor|split; [reflexivity|done]].
  - destruct (seg_lookup _ _ _ _ t Hseg) as [ot Hot]; [set_solver|].
    rewrite (update_order_ok _ _ _ ot) by done. simpl.
    eexists _, _. split; [done|]. split.
    + constructor; simpl; try done.
      by apply (seg_set_prev _ (Some s) _ _ _ _ None).
    + split; [by eapply same_core_insert|].
      intros u Hu. rewrite list_lookup_insert_ne; [done|set_solver].
Qed.

(** The two writes of [remove]: the predecessor's [next_] and the successor's
    [prev_]. *)
Lemma unlink_next a l1 s n :
  NoDup l1 -> seg a None l1 (Some s) ->
  exists a1,
    match final_of None l1 with
    | Some p => update_order a p (set_next n)
    | None => Ok a
    end = Ok a1 /\ queue_frame a a1 l1 /\ seg a1 None l1 n.
Proof.
  intros Hnd Hseg. destruct l1 as [|p l1 _] using rev_ind.
  { exists a. split_and!; [done|split; [reflexivity|done]|done]. }
  rewrite final_of_snoc. destruct (seg_lookup _ _ _ _ p Hseg) as [op Hop]; [set_solver|].
  rewrite (update_order_ok _ _ _ op) by done. eexists. split; [done|].
  split; [split; [by eapply same_core_insert|]|by apply (seg_set_next _ _ _ _ _ (Some s))].
  intros t Hin. rewrite list_lookup_insert_ne; [done|set_solver].
Qed.

Lemma unlink_prev a s l2 p :
  NoDup l2 -> seg a (Some s) l2 None ->
  exists a2,
    match first_of l2 None with
    | Some n => update_order a n (set_prev p)
    | None => Ok a
    end = Ok a2 /\ queue_frame a a2 l2 /\ seg a2 p l2 None.
Proof.
  intros Hnd Hseg. destruct l2 as [|n l2].
  { exists a. split_and!; [done|split; [reflexivity|done]|done]. }
  simpl. destruct (seg_lookup _ _ _ _ n Hseg) as [on Hon]; [set_solver|].
  rewrite (update_order_ok _ _ _ on) by done. eexists. split; [done|].
  split; [split; [by eapply same_core_insert|]|by apply (seg_set_prev _ (Some s))].
  intros t Hin. rewrite list_lookup_insert_ne; [done|set_solver].
Qed.

Lemma queue_remove_spec a q l1 s l2 :
  queue_rep a q (l1 ++ s :: l2) -> NoDup (l1 ++ s :: l2) ->
  (Z.of_nat (length (l1 ++ s :: l2)) < 2 ^ 64)%Z ->
  exists a' q', queue_remove s a q = Ok (a', q') /\ queue_rep a' q' (l1 ++ l2) /\
                queue_frame a a' (l1 ++ l2).
Proof.
  intros [Hh Ht Hsz Hseg] Hnd Hlen. unfold queue_remove.
  apply seg_app in Hseg as [Hseg1 [Hs Hseg2]]. simpl in Hseg1.
  destruct (a !! s) as [o|] eqn:Ho; [|done]. injection Hs as Hprev Hnext.
  rewrite (deref_ok _ _ o) by done. simpl. rewrite Hprev, Hnext.
  assert (Hsize : u64 (size_ q - 1) = Z.of_nat (length (l1 ++ l2))).
  { rewrite !length_app in *. simpl in *. rewrite Hsz, u64_small by (unfold is_u64; lia). lia. }
  apply NoDup_app in Hnd as (Hnd1 & Hdisj & Hnd2). apply NoDup_cons in Hnd2 as [Hnin2 Hnd2].
  destruct (unlink_next a l1 s (first_of l2 None)) as (a1 & -> & [Hcore1 Hframe1] & Hseg1'); [done..|].
  simpl. destruct (unlink_prev a1 s l2 (final_of None l1))
    as (a2 & -> & [Hcore2 Hframe2] & Hseg2'); [done| |].
  { apply (seg_frame a); [|done]. intros t Hin. rewrite Hframe1; [done|].
    intros Hin1. apply (Hdisj t); set_solver. }
  simpl. eexists _, _. split; [done|]. split; [constructor|split].
  - simpl. rewrite Hh. destruct l1 as [|p l1]; [done|]. unfold final_of.
    by destruct (last (p :: l1)) eqn:E; [|apply last_None in E].
  - simpl. rewrite Ht, !final_of_app. destruct l2 as [|n l2]; [done|].
    simpl. unfold final_of. rewrite (last_cons s). destruct (last (n :: l2)) eqn:E; [done|].
    by apply last_None in E.
  - done.
  - rewrite seg_app. split; [|done]. apply (seg_frame a1); [|done].
    intros t Hin. rewrite Hframe2; [done|]. intros Hin2. apply (Hdisj t); set_solver.
  - by transitivity a1.
  - intros t Hin. rewrite Hframe2, Hframe1; [done|set_solver..].
Qed.

(** * Properties *)

(** C24. The intrusive list refines a FIFO queue of distinct orders with removal from
    anywhere.  On a queue that represents [l]: [push] appends, [pop] returns and
    unlinks the front, [remove] unlinks an order at any place; links, head, tail
    and size are right afterwards, no order changes in anything but its links, and
    no order off the queue changes at all. *)
Theorem queue_refines_list a q l : queue_rep a q l -> NoDup l -> (Z.of_nat (length l) < 2 ^ 64 - 1)%Z ->
  (forall s o, s ∉ l -> a !! s = Some o -> links o = (None, None) ->
     exists a' q', queue_push s a q = Ok (a', q') /\ queue_rep a' q' (l ++ [s]) /\ queue_frame a a' (s :: l)) /\
  match l with
  | [] => queue_pop a q = Ok (None, (a, q))
  | s :: l' => exists a' q', queue_pop a q = Ok (Some s, (a', q')) /\ queue_rep a' q' l' /\ queue_frame a a' l'
  end /\
  (forall l1 s l2, l = l1 ++ s :: l2 ->
     exists a' q', queue_remove s a q = Ok (a', q') /\ queue_rep a' q' (l1 ++ l2) /\ queue_frame a a' (l1 ++ l2)).
Proof.
  intros Hrep Hnd Hlen. split_and!.
  - intros s o Hs Ho Hl. by apply (queue_push_spec a q l s o).
  - destruct l as [|s l']; [|apply queue_pop_spec; [done|done|lia]].
    unfold queue_pop. by rewrite (qr_head _ _ _ Hrep).
  - intros l1 s l2 ->. apply queue_remove_spec; [done|done|lia].
Qed.

(** Three orders queued and the middle one removed. *)
Lemma queue_refines_list_witness : exists a' q',
  queue_remove 1 [set_next (Some 1%nat) inhabitant; set_prev (Some 0%nat) (set_next (Some 2%nat) inhabitant);
                  set_prev (Some 1%nat) inhabitant] (mkQueue (Some 0%nat) (Some 2%nat) 3) = Ok (a', q') /\
  queue_rep a' q' [0; 2]%nat.
Proof.
  destruct (queue_refines_list
    [set_next (Some 1%nat) inhabitant; set_prev (Some 0%nat) (set_next (Some 2%nat) inhabitant);
     set_prev (Some 1%nat) inhabitant] (mkQueue (Some 0%nat) (Some 2%nat) 3) [0; 1; 2]%nat) as (_ & _ & H).
  - constructor; [reflexivity..|]. repeat split; reflexivity.
  - apply (bool_decide_unpack _). vm_compute. exact I.
  - simpl. lia.
  - destruct (H [0]%nat 1%nat [2]%nat eq_refl) as (a' & q' & H1 & H2 & _). exists a', q'.
    split; [exact H1|exact H2].
Defined.
