(* ===== verification/Book.v ===== *)
(** The order book ([exchange/engine/include/orderbook.hpp],
    [exchange/engine/src/orderbook.cpp]): its state and every operation, as
    monadic programs over the state.

    The build modelled is the repository's default: [LOGGING], [DIAGNOSTICS] and
    [TESTING] are 0.  The source writes the bid and the ask half of an operation
    twice; where the halves differ only in the names, the model has one
    definition with a [ladder] argument that selects the array, the best price
    and the level count. *)

From S2P Require Import Prelude Types Ring Pool.

(** * State *)

(** The two arrays of price levels. *)
Inductive ladder : Set := Bids | Asks.
#[export] Instance ladder_eq_dec : EqDecision ladder.
Proof. solve_decision. Defined.

(** [std::array<PriceLevelQueue, MAX_PRICE - MIN_PRICE + 1>]: an index absent from
    the map holds an empty queue; an index outside the array faults. *)
Definition LEVELS : Z := MAX_PRICE - MIN_PRICE + 1.

Record Orderbook : Type := mkBook {
  pool_ : OrderPool;
  bids_ : gmap Z PriceLevelQueue;
  asks_ : gmap Z PriceLevelQueue;
  orders_ : gmap Z ptr;
  best_bid_price_ : Z;
  best_ask_price_ : Z;
  non_empty_bid_levels_ : Z;
  non_empty_ask_levels_ : Z;
  out_ring_ : OutboundRing
}.

Record ProcessResult : Set := mkResult {
  status : Status;
  suppress_ack : bool
}.

(** The constructor [Orderbook(out_ring)], for any pool capacity. *)
Definition book_init (capacity : nat) (out_ring : OutboundRing) : Orderbook :=
  mkBook (pool_init capacity) ∅ ∅ ∅ MIN_PRICE MAX_PRICE 0 0 out_ring.

Definition BM (A : Type) : Type := M Orderbook A.

(** ** Fields *)

Definition levels (d : ladder) (b : Orderbook) : gmap Z PriceLevelQueue :=
  match d with Bids => bids_ b | Asks => asks_ b end.
Definition best_price (d : ladder) (b : Orderbook) : Z :=
  match d with Bids => best_bid_price_ b | Asks => best_ask_price_ b end.
Definition level_count (d : ladder) (b : Orderbook) : Z :=
  match d with Bids => non_empty_bid_levels_ b | Asks => non_empty_ask_levels_ b end.
(** The value the best price is reset to when its array is empty. *)
Definition worst_price (d : ladder) : Z :=
  match d with Bids => MIN_PRICE | Asks => MAX_PRICE end.

Definition set_pool (p : OrderPool) (b : Orderbook) : Orderbook :=
  mkBook p (bids_ b) (asks_ b) (orders_ b) (best_bid_price_ b) (best_ask_price_ b)
         (non_empty_bid_levels_ b) (non_empty_ask_levels_ b) (out_ring_ b).
Definition set_arena (a : list Order) (b : Orderbook) : Orderbook :=
  set_pool (mkPool a (free_list_ (pool_ b))) b.
Definition set_orders (m : gmap Z ptr) (b : Orderbook) : Orderbook :=
  mkBook (pool_ b) (bids_ b) (asks_ b) m (best_bid_price_ b) (best_ask_price_ b)
         (non_empty_bid_levels_ b) (non_empty_ask_levels_ b) (out_ring_ b).
Definition set_out_ring (r : OutboundRing) (b : Orderbook) : Orderbook :=
  mkBook (pool_ b) (bids_ b) (asks_ b) (orders_ b) (best_bid_price_ b) (best_ask_price_ b)
         (non_empty_bid_levels_ b) (non_empty_ask_levels_ b) r.
Definition set_levels (d : ladder) (m : gmap Z PriceLevelQueue) (b : Orderbook) : Orderbook :=
  match d with
  | Bids => mkBook (pool_ b) m (asks_ b) (orders_ b) (best_bid_price_ b) (best_ask_price_ b)
                   (non_empty_bid_levels_ b) (non_empty_ask_levels_ b) (out_ring_ b)
  | Asks => mkBook (pool_ b) (bids_ b) m (orders_ b) (best_bid_price_ b) (best_ask_price_ b)
                   (non_empty_bid_levels_ b) (non_empty_ask_levels_ b) (out_ring_ b)
  end.
Definition set_best (d : ladder) (p : Z) (b : Orderbook) : Orderbook :=
  match d with
  | Bids => mkBook (pool_ b) (bids_ b) (asks_ b) (orders_ b) p (best_ask_price_ b)
                   (non_empty_bid_levels_ b) (non_empty_ask_levels_ b) (out_ring_ b)
  | Asks => mkBook (pool_ b) (bids_ b) (asks_ b) (orders_ b) (best_bid_price_ b) p
                   (non_empty_bid_levels_ b) (non_empty_ask_levels_ b) (out_ring_ b)
  end.
Definition set_count (d : ladder) (n : Z) (b : Orderbook) : Orderbook :=
  match d with
  | Bids => mkBook (pool_ b) (bids_ b) (asks_ b) (orders_ b) (best_bid_price_ b) (best_ask_price_ b)
                   n (non_empty_ask_levels_ b) (out_ring_ b)
  | Asks => mkBook (pool_ b) (bids_ b) (asks_ b) (orders_ b) (best_bid_price_ b) (best_ask_price_ b)
                   (non_empty_bid_levels_ b) n (out_ring_ b)
  end.

(** * Primitive accesses *)

(** [price - MIN_PRICE] in [uint32_t]. *)
Definition level_index (price : Z) : Z := u32 (price - MIN_PRICE).

(** [bids_[i]] and [asks_[i]]. *)
Definition read_level (d : ladder) (i : Z) : BM PriceLevelQueue :=
  if (i <? LEVELS)%Z then gets (fun b => default empty_queue (levels d b !! i))
  else fail OutOfBounds.

Definition write_level (d : ladder) (i : Z) (q : PriceLevelQueue) : BM unit :=
  modify (fun b => set_levels d (<[i := q]> (levels d b)) b).

(** [*p] and [p->f = ...]. *)
Definition get_order (p : ptr) : BM Order :=
  b ← get; of_res (deref (arena_ (pool_ b)) p).
Definition put_order (p : ptr) (f : Order -> Order) : BM unit :=
  b ← get; a ← of_res (update_order (arena_ (pool_ b)) p f); modify (set_arena a).

(** [p->fill(q)], which may throw. *)
Definition fill_order (p : ptr) (q : Z) : BM unit :=
  o ← get_order p; o' ← of_res (fill q o); put_order p (fun _ => o').

(** [levels[i].push(p)], [.pop()], [.remove(p)]. *)
Definition level_push (d : ladder) (i : Z) (p : ptr) : BM unit :=
  q ← read_level d i; b ← get;
  aq ← of_res (queue_push p (arena_ (pool_ b)) q);
  modify (set_arena aq.1);; write_level d i aq.2.
Definition level_pop (d : ladder) (i : Z) : BM (option ptr) :=
  q ← read_level d i; b ← get;
  raq ← of_res (queue_pop (arena_ (pool_ b)) q);
  modify (set_arena raq.2.1);; write_level d i raq.2.2;; mret raq.1.
Definition level_remove (d : ladder) (i : Z) (p : ptr) : BM unit :=
  q ← read_level d i; b ← get;
  aq ← of_res (queue_remove p (arena_ (pool_ b)) q);
  modify (set_arena aq.1);; write_level d i aq.2.

Definition allocate (id : Z) (r : OrderRequest) : BM (option ptr) :=
  b ← get;
  let '(p, pool) := pool_allocate id r (pool_ b) in
  modify (set_pool pool);; mret p.
Definition deallocate (p : ptr) : BM unit :=
  modify (fun b => set_pool (pool_deallocate p (pool_ b)) b).

Definition erase_order (id : Z) : BM unit :=
  modify (fun b => set_orders (delete id (orders_ b)) b).

(** [out_ring_.push(m)]: the result is ignored. *)
Definition push_out (m : OutboundMessage) : BM unit :=
  modify (fun b => set_out_ring (ring_push m (out_ring_ b)).2 b).

(** * Best prices *)

Definition update_best_bid : BM unit :=
  b0 ← get;
  loop (Z.to_nat (best_bid_price_ b0 - MIN_PRICE + 1))
    (fun _ : unit =>
       b ← get;
       if (MIN_PRICE <? best_bid_price_ b)%Z then
         q ← read_level Bids (level_index (best_bid_price_ b));
         if queue_empty q then
           modify (set_best Bids (u32 (best_bid_price_ b - 1)));; mret (inl tt)
         else mret (inr tt)
       else mret (inr tt)) tt.

Definition update_best_ask : BM unit :=
  b0 ← get;
  loop (Z.to_nat (MAX_PRICE - best_ask_price_ b0 + 1))
    (fun _ : unit =>
       b ← get;
       if (best_ask_price_ b <? MAX_PRICE)%Z then
         q ← read_level Asks (level_index (best_ask_price_ b));
         if queue_empty q then
           modify (set_best Asks (u32 (best_ask_price_ b + 1)));; mret (inl tt)
         else mret (inr tt)
       else mret (inr tt)) tt.

Definition update_best (d : ladder) : BM unit :=
  match d with Bids => update_best_bid | Asks => update_best_ask end.

(** A level of the best price has become empty: one level fewer, and the next
    best price. *)
Definition retire_level (d : ladder) : BM unit :=
  modify (fun b => set_count d (u64 (level_count d b - 1)) b);;
  b ← get;
  if (level_count d b =? 0)%Z then modify (set_best d (worst_price d)) else update_best d.

(** [if (o->is_filled()) { level.pop(); orders_.erase(o->id_); pool_.deallocate(o); }] *)
Definition drop_if_filled (d : ladder) (i : Z) (p : ptr) : BM unit :=
  o ← get_order p;
  when (is_filled o)
    (level_pop d i;;
     o' ← get_order p;
     erase_order (id_ o');;
     deallocate p).

(** * Matching *)

(** The MATCH message for a resting order. *)
Definition match_msg (o : Order) : OutboundMessage :=
  mkOutbound 0 (recv_tsc o) 0 0 0 (id_ o) (client_id_ o) MATCH SUCCESS NONE.

(** One iteration of the inner loop of [matchOrders]; the flags are
    [level_matched] and [any_filled]. *)
Definition match_front (ib ia : Z) (flags : bool * bool) : BM ((bool * bool) + (bool * bool)) :=
  highest_bids ← read_level Bids ib;
  lowest_asks ← read_level Asks ia;
  match queue_front highest_bids, queue_front lowest_asks with
  | Some bid, Some ask =>
      b ← get;
      if (best_bid_price_ b <? best_ask_price_ b)%Z then mret (inr flags)
      else
        ob ← get_order bid;
        oa ← get_order ask;
        let fill_quantity := Z.min (remaining_quantity_ ob) (remaining_quantity_ oa) in
        let buy_msg := match_msg ob in
        let ask_msg := match_msg oa in
        fill_order bid fill_quantity;;
        fill_order ask fill_quantity;;
        push_out buy_msg;;
        push_out ask_msg;;
        drop_if_filled Bids ib bid;;
        drop_if_filled Asks ia ask;;
        highest_bids' ← read_level Bids ib;
        lowest_asks' ← read_level Asks ia;
        let bid_level_done := queue_empty highest_bids' in
        let ask_level_done := queue_empty lowest_asks' in
        when bid_level_done (retire_level Bids);;
        when ask_level_done (retire_level Asks);;
        if bid_level_done || ask_level_done then mret (inr (true, true))
        else mret (inl (true, true))
  | _, _ => mret (inr flags)
  end.

(** One iteration of the outer loop; the flag is [any_filled]. *)
Definition match_levels (any_filled : bool) : BM (bool + bool) :=
  b ← get;
  if (0 <? non_empty_bid_levels_ b)%Z && (0 <? non_empty_ask_levels_ b)%Z then
    let ib := level_index (best_bid_price_ b) in
    let ia := level_index (best_ask_price_ b) in
    flags ← loop (Datatypes.S (size (orders_ b))) (match_front ib ia) (false, any_filled);
    if flags.1 : bool then mret (inl flags.2) else mret (inr flags.2)
  else mret (inr any_filled).

Definition matchOrders : BM bool :=
  b ← get; loop (Datatypes.S (size (orders_ b))) match_levels false.

(** The MATCH message for the incoming market order. *)
Definition market_msg (r : OrderRequest) : OutboundMessage :=
  mkOutbound 0 (get_recv_tsc r) 0 (get_engine_in_tsc r) 0 (get_order_id r) (get_clientId r)
             MATCH SUCCESS NONE.

(** One iteration of [matchMarket]'s loop against the levels of [d]; the loop
    variable is [remaining], [inr] is the function's result. *)
Definition market_step (d : ladder) (r : OrderRequest) (remaining : Z) : BM (Z + bool) :=
  b ← get;
  if (0 <? level_count d b)%Z && (0 <? remaining)%Z then
    let i := level_index (best_price d b) in
    q ← read_level d i;
    match queue_front q with
    | None => mret (inr false)
    | Some p =>
        o ← get_order p;
        let fill_quantity := Z.min remaining (remaining_quantity_ o) in
        let own_msg := market_msg r in
        let other_msg := match_msg o in
        let remaining' := u32 (remaining - fill_quantity) in
        fill_order p fill_quantity;;
        push_out own_msg;;
        push_out other_msg;;
        drop_if_filled d i p;;
        q' ← read_level d i;
        when (queue_empty q') (retire_level d);;
        mret (inl remaining')
    end
  else mret (inr (remaining =? 0)%Z).

Definition matchMarket (r : OrderRequest) : BM bool :=
  b ← get;
  let fuel := Datatypes.S (size (orders_ b)) in
  if decide (get_side r = BID) then loop fuel (market_step Asks r) (get_quantity r)
  else if decide (get_side r = ASK) then loop fuel (market_step Bids r) (get_quantity r)
  else mret (get_quantity r =? 0)%Z.

Definition canMatch (side : Side) (price : Z) (b : Orderbook) : bool :=
  if decide (side = BID) then
    if (non_empty_ask_levels_ b =? 0)%Z then false else (best_ask_price_ b <=? price)%Z
  else if (non_empty_bid_levels_ b =? 0)%Z then false else (price <=? best_bid_price_ b)%Z.

(** * State modifications *)

Definition addOrder (r : OrderRequest) : BM bool :=
  if decide (get_type r = MARKET) then matchMarket r
  else
    let id := get_order_id r in
    b ← get;
    match orders_ b !! id with
    | Some _ => mret false
    | None =>
        slot ← allocate id r;
        match slot with
        | None => mret false
        | Some p =>
            modify (fun b => set_orders (<[id := p]> (orders_ b)) b);;
            order ← get_order p;
            let i := level_index (price_ order) in
            (if decide (side_ order = BID) then
               q ← read_level Bids i;
               when (queue_empty q)
                 (modify (fun b => set_count Bids (u64 (non_empty_bid_levels_ b + 1)) b));;
               level_push Bids i p;;
               b ← get;
               when (best_bid_price_ b <? price_ order)%Z (modify (set_best Bids (price_ order)))
             else
               q ← read_level Asks i;
               when (queue_empty q)
                 (modify (fun b => set_count Asks (u64 (non_empty_ask_levels_ b + 1)) b));;
               level_push Asks i p;;
               b ← get;
               when (price_ order <? best_ask_price_ b)%Z (modify (set_best Asks (price_ order))));;
            matchOrders
        end
    end.

Definition cancelOrder (id : Z) : BM unit :=
  b ← get;
  match orders_ b !! id with
  | None => fail MissingKey
  | Some p =>
      order ← get_order p;
      let price := price_ order in
      let i := level_index price in
      let d := if decide (side_ order = BID) then Bids else Asks in
      level_remove d i p;;
      q ← read_level d i;
      when (queue_empty q)
        (modify (fun b => set_count d (u64 (level_count d b - 1)) b);;
         b ← get;
         if (level_count d b =? 0)%Z then modify (set_best d (worst_price d))
         else when (price =? best_price d b)%Z (update_best d));;
      erase_order id;;
      deallocate p
  end.

Definition modifyOrder (r : OrderRequest) : BM bool :=
  let id := get_order_id r in
  b ← get;
  match orders_ b !! id with
  | None => fail MissingKey
  | Some p =>
      order ← get_order p;
      if negb (get_price r =? price_ order)%Z || negb (get_quantity r =? initial_quantity_ order)%Z
      then cancelOrder id;; addOrder r
      else
        put_order p (set_recv_tsc (get_recv_tsc r));;
        if decide (get_type r = MARKET) then matchMarket r else matchOrders
  end.

(** * The entry point *)

Definition process (r : OrderRequest) : BM ProcessResult :=
  match get_message_type r with
  | NEW => sa ← addOrder r; mret (mkResult SUCCESS sa)
  | CANCEL =>
      b ← get;
      match orders_ b !! get_order_id r with
      | None => mret (mkResult FAILURE false)
      | Some p =>
          o ← get_order p;
          if decide (client_id_ o = get_clientId r) then
            cancelOrder (get_order_id r);; mret (mkResult SUCCESS false)
          else mret (mkResult FAILURE false)
      end
  | MODIFY =>
      b ← get;
      match orders_ b !! get_order_id r with
      | None => mret (mkResult FAILURE false)
      | Some p =>
          o ← get_order p;
          if decide (client_id_ o = get_clientId r /\ side_ o = get_side r) then
            sa ← modifyOrder r; mret (mkResult SUCCESS sa)
          else mret (mkResult FAILURE false)
      end
  | MATCH | MessageType_other _ => mret (mkResult FAILURE false)
  end.

(** Requests one after the other. *)
Fixpoint run_requests (rs : list OrderRequest) : BM (list ProcessResult) :=
  match rs with
  | [] => mret []
  | r :: rs' => x ← process r; xs ← run_requests rs'; mret (x :: xs)
  end.

(** * The accessors of the test build *)

Definition order_count (b : Orderbook) : nat := size (orders_ b).
Definition bid_level_count (b : Orderbook) : Z := non_empty_bid_levels_ b.
Definition ask_level_count (b : Orderbook) : Z := non_empty_ask_levels_ b.
Definition bids_at (p : Z) : BM Z := q ← read_level Bids (level_index p); mret (size_ q).
Definition asks_at (p : Z) : BM Z := q ← read_level Asks (level_index p); mret (size_ q).
Definition has_order (id : Z) (b : Orderbook) : bool := bool_decide (is_Some (orders_ b !! id)).

(** [prefetch]: the array slot warmed for a NEW message, when there is one. *)
Definition prefetch (next : InboundMessage) : option (ladder * Z) :=
  match in_message_type next with
  | NEW =>
      if (in_price next <? MIN_PRICE)%Z || (MAX_PRICE <? in_price next)%Z then None
      else Some (if decide (in_side next = BID) then Bids else Asks,
                 (in_price next - MIN_PRICE)%Z)
  | _ => None
  end.
