(* ===== verification/Spec.v ===== *)
(** An abstract specification of the order book: two lists of orders in
    price-time priority, and each request as a function on them.

    Nothing of the representation appears here: no arrays of levels, no linked
    lists, no pool slots, no cached best prices.  The orders of the lists are
    orders with null links.  [Refine] shows that the operations of [Book]
    implement these functions. *)

From S2P Require Import Prelude Types Ring Pool Book.

Local Open Scope Z_scope.

(** * State *)

Record SBook : Type := mkSBook {
  s_bids : list Order;
  s_asks : list Order;
  s_capacity : nat
}.

Definition side_ladder (s : Side) : ladder := if decide (s = BID) then Bids else Asks.

Definition s_orders (d : ladder) (A : SBook) : list Order :=
  match d with Bids => s_bids A | Asks => s_asks A end.
Definition s_set (d : ladder) (l : list Order) (A : SBook) : SBook :=
  match d with
  | Bids => mkSBook l (s_asks A) (s_capacity A)
  | Asks => mkSBook (s_bids A) l (s_capacity A)
  end.
Definition s_all (A : SBook) : list Order := s_bids A ++ s_asks A.

Definition s_find (id : Z) (A : SBook) : option Order :=
  list_find (fun o => id_ o = id) (s_all A) ≫= fun io => Some io.2.

(** * Priority *)

(** [before d p q]: on ladder [d], price [p] trades strictly before price [q]. *)
Definition before (d : ladder) (p q : Z) : bool :=
  match d with Bids => q <? p | Asks => p <? q end.

(** Insertion behind every order of the same or a better price. *)
Fixpoint s_insert (d : ladder) (o : Order) (l : list Order) : list Order :=
  match l with
  | [] => [o]
  | x :: l' => if before d (price_ o) (price_ x) then o :: l else x :: s_insert d o l'
  end.

(** * Matching *)

Definition reduce (q : Z) (o : Order) : Order := set_remaining (remaining_quantity_ o - q) o.

(** The rest of a list after its head has been filled by [q]. *)
Definition consume (q : Z) (o : Order) (l : list Order) : list Order :=
  if is_filled (reduce q o) then l else reduce q o :: l.

Fixpoint cross_n (n : nat) (bids asks : list Order)
  : list Order * list Order * list OutboundMessage :=
  match n, bids, asks with
  | S n', b :: bs, a :: asks' =>
      if price_ b <? price_ a then (bids, asks, [])
      else
        let q := Z.min (remaining_quantity_ b) (remaining_quantity_ a) in
        let '(B, A, ms) := cross_n n' (consume q b bs) (consume q a asks') in
        (B, A, match_msg b :: match_msg a :: ms)
  | _, _, _ => (bids, asks, [])
  end.

(** Trade the best bid against the best ask while their prices cross. *)
Definition cross (bids asks : list Order) : list Order * list Order * list OutboundMessage :=
  cross_n (length bids + length asks) bids asks.

(** Fill a market order of quantity [rem] from the head of a list. *)
Fixpoint sweep (r : OrderRequest) (rem : Z) (l : list Order)
  : Z * list Order * list OutboundMessage :=
  match l with
  | [] => (rem, [], [])
  | o :: l' =>
      if 0 <? rem then
        let q := Z.min rem (remaining_quantity_ o) in
        if is_filled (reduce q o) then
          let '(rem', l'', ms) := sweep r (rem - q) l' in
          (rem', l'', market_msg r :: match_msg o :: ms)
        else (rem - q, reduce q o :: l', [market_msg r; match_msg o])
      else (rem, l, [])
  end.

(** * Requests

    Each function answers the flag that suppresses the acknowledgement, the new
    book, and the messages sent, in order. *)

Definition s_match (A : SBook) : bool * SBook * list OutboundMessage :=
  let '(B', A', ms) := cross (s_bids A) (s_asks A) in
  (match ms with [] => false | _ => true end, mkSBook B' A' (s_capacity A), ms).

Definition s_market (r : OrderRequest) (A : SBook) : bool * SBook * list OutboundMessage :=
  let against := if decide (get_side r = BID) then Some Asks
                 else if decide (get_side r = ASK) then Some Bids else None in
  match against with
  | None => (get_quantity r =? 0, A, [])
  | Some d =>
      let '(rem, l, ms) := sweep r (get_quantity r) (s_orders d A) in
      (rem =? 0, s_set d l A, ms)
  end.

Definition s_add (r : OrderRequest) (A : SBook) : bool * SBook * list OutboundMessage :=
  if decide (get_type r = MARKET) then s_market r A
  else match s_find (get_order_id r) A with
       | Some _ => (false, A, [])
       | None =>
           if decide (length (s_all A) = s_capacity A) then (false, A, [])
           else
             let o := new_Order (get_order_id r) r in
             let d := side_ladder (get_side r) in
             s_match (s_set d (s_insert d o (s_orders d A)) A)
       end.

Definition s_remove (id : Z) (l : list Order) : list Order := filter (fun o => id_ o <> id) l.

Definition s_cancel (id : Z) (A : SBook) : SBook :=
  mkSBook (s_remove id (s_bids A)) (s_remove id (s_asks A)) (s_capacity A).

Definition touch (id tsc : Z) (o : Order) : Order :=
  if id_ o =? id then set_recv_tsc tsc o else o.

Definition s_touch (id t : Z) (A : SBook) : SBook :=
  mkSBook (touch id t <$> s_bids A) (touch id t <$> s_asks A) (s_capacity A).

Definition s_modify (r : OrderRequest) (o : Order) (A : SBook)
  : bool * SBook * list OutboundMessage :=
  if decide (get_price r = price_ o /\ get_quantity r = initial_quantity_ o) then
    let A' := s_touch (get_order_id r) (get_recv_tsc r) A in
    if decide (get_type r = MARKET) then s_market r A' else s_match A'
  else s_add r (s_cancel (get_order_id r) A).

Definition s_process (r : OrderRequest) (A : SBook)
  : ProcessResult * SBook * list OutboundMessage :=
  let refuse := (mkResult FAILURE false, A, []) in
  let accept (x : bool * SBook * list OutboundMessage) :=
    (mkResult SUCCESS x.1.1, x.1.2, x.2) in
  match get_message_type r with
  | NEW => accept (s_add r A)
  | CANCEL =>
      match s_find (get_order_id r) A with
      | Some o =>
          if decide (client_id_ o = get_clientId r)
          then accept (false, s_cancel (get_order_id r) A, []) else refuse
      | None => refuse
      end
  | MODIFY =>
      match s_find (get_order_id r) A with
      | Some o =>
          if decide (client_id_ o = get_clientId r /\ side_ o = get_side r)
          then accept (s_modify r o A) else refuse
      | None => refuse
      end
  | MATCH | MessageType_other _ => refuse
  end.

(** The requests of a list, one after the other: results, state, messages. *)
Fixpoint s_run (rs : list OrderRequest) (A : SBook)
  : list ProcessResult * SBook * list OutboundMessage :=
  match rs with
  | [] => ([], A, [])
  | r :: rs' =>
      let '(x, A1, ms) := s_process r A in
      let '(xs, A2, ms') := s_run rs' A1 in
      (x :: xs, A2, ms ++ ms')
  end.

(** The requests the array of levels can represent: a request that may rest has a
    price of the array, and quantities are [uint32_t]. *)
Definition request_ok (r : OrderRequest) : Prop :=
  is_u32 (get_quantity r) /\
  (get_type r <> MARKET -> (get_message_type r = NEW \/ get_message_type r = MODIFY) ->
   MIN_PRICE <= get_price r <= MAX_PRICE).

(** * Lemmas *)

Lemma length_consume q o l : (length (consume q o l) <= S (length l))%nat.
Proof. unfold consume. destruct (is_filled _); simpl; lia. Qed.

Lemma consume_filled q o l : remaining_quantity_ o = q -> consume q o l = l.
Proof. intros <-. unfold consume, is_filled, reduce. simpl. by rewrite Z.sub_diag. Qed.

(** Every fill exhausts one of the two orders. *)
Lemma consume_shrinks b a bs asks q :
  q = Z.min (remaining_quantity_ b) (remaining_quantity_ a) ->
  (length (consume q b bs) + length (consume q a asks) < S (length bs) + S (length asks))%nat.
Proof.
  intros Hq. pose proof (length_consume q b bs). pose proof (length_consume q a asks).
  destruct (Z.min_spec (remaining_quantity_ b) (remaining_quantity_ a)) as [[_ E]|[_ E]].
  - rewrite (consume_filled q b) in * by congruence. lia.
  - rewrite (consume_filled q a) in * by congruence. lia.
Qed.

Lemma cross_n_enough n m bids asks :
  (length bids + length asks <= n)%nat -> (length bids + length asks <= m)%nat ->
  cross_n n bids asks = cross_n m bids asks.
Proof.
  revert m bids asks. induction n as [|n IH]; intros m bids asks Hn Hm.
  - destruct bids; simpl in Hn; [|lia]. by destruct m.
  - destruct bids as [|b bs]; [by destruct m|]. destruct asks as [|a asks]; [by destruct m|].
    destruct m as [|m]; [simpl in Hm; lia|]. simpl.
    destruct (price_ b <? price_ a); [done|].
    pose proof (consume_shrinks b a bs asks _ eq_refl).
    rewrite (IH m); [done|simpl in *; lia..].
Qed.

Lemma cross_cons b bs a asks :
  cross (b :: bs) (a :: asks) =
  if price_ b <? price_ a then (b :: bs, a :: asks, [])
  else
    let q := Z.min (remaining_quantity_ b) (remaining_quantity_ a) in
    let '(B, A, ms) := cross (consume q b bs) (consume q a asks) in
    (B, A, match_msg b :: match_msg a :: ms).
Proof.
  unfold cross. simpl length. rewrite Nat.add_succ_l. cbn [cross_n].
  destruct (price_ b <? price_ a); [done|]. cbv zeta.
  pose proof (consume_shrinks b a bs asks _ eq_refl).
  rewrite (cross_n_enough _ (length (consume (Z.min (remaining_quantity_ b) (remaining_quantity_ a)) b bs)
     + length (consume (Z.min (remaining_quantity_ b) (remaining_quantity_ a)) a asks))); [done|lia..].
Qed.

Lemma cross_nil_l asks : cross [] asks = ([], asks, []).
Proof. unfold cross. by destruct (length [] + length asks)%nat. Qed.
Lemma cross_nil_r bids : cross bids [] = (bids, [], []).
Proof. unfold cross. by destruct (length bids + length [])%nat, bids. Qed.
