(* ===== verification/SpecProps.v ===== *)
(** Facts about the specification: what a crossing, a sweep, an insertion or a
    cancellation does to a list in price-time priority, and the invariant of the
    specification state that every request preserves. *)

From S2P Require Import Prelude Types Ring Pool Book Spec.

Local Open Scope Z_scope.

(** * Definitions *)

(** [x] may stand in front of [y] on ladder [d]: [y] is not strictly better. *)
Definition not_after (d : ladder) (x y : Order) : Prop := before d (price_ y) (price_ x) = false.

(** [l'] is what is left of [l] after fills that went strictly from the front:
    each fill took a quantity of the head, and nothing behind the head was touched
    before the head was gone. *)
Inductive depleted : list Order -> list Order -> Prop :=
  | depleted_refl l : depleted l l
  | depleted_fill q o l l' : 0 <= q <= remaining_quantity_ o ->
      depleted (consume q o l) l' -> depleted (o :: l) l'.

Definition total (l : list Order) : Z := foldr (fun o z => remaining_quantity_ o + z) 0 l.

Definition quantities_ok (l : list Order) : Prop :=
  Forall (fun o => 0 <= remaining_quantity_ o) l.

(** The invariant of the specification state. *)
Record s_inv (A : SBook) : Prop := {
  inv_sorted : forall d, StronglySorted (not_after d) (s_orders d A);
  inv_side : forall d, Forall (fun o => side_ladder (side_ o) = d) (s_orders d A);
  inv_quantities : forall d, quantities_ok (s_orders d A);
  inv_ids : NoDup (id_ <$> s_all A);
  inv_capacity : (length (s_all A) <= s_capacity A)%nat;
  inv_uncrossed : forall x y, x ∈ s_bids A -> y ∈ s_asks A -> price_ x < price_ y
}.

(** The part of the invariant that does not say the book is uncrossed. *)
Record s_wf (A : SBook) : Prop := {
  wf_sorted : forall d, StronglySorted (not_after d) (s_orders d A);
  wf_side : forall d, Forall (fun o => side_ladder (side_ o) = d) (s_orders d A);
  wf_quantities : forall d, quantities_ok (s_orders d A);
  wf_ids : NoDup (id_ <$> s_all A);
  wf_capacity : (length (s_all A) <= s_capacity A)%nat
}.

Definition uncrossed (A : SBook) : Prop :=
  forall x y, x ∈ s_bids A -> y ∈ s_asks A -> price_ x < price_ y.

(** * Insertion *)

Lemma s_insert_perm d o l : s_insert d o l ≡ₚ o :: l.
Proof.
  induction l as [|x l IH]; simpl; [done|]. destruct (before d _ _); [done|].
  rewrite IH. apply Permutation_swap.
Qed.

Lemma not_after_trans d x y z : not_after d x y -> not_after d y z -> not_after d x z.
Proof. unfold not_after. destruct d; simpl; lia. Qed.

Lemma s_insert_sorted d o l : StronglySorted (not_after d) l ->
  StronglySorted (not_after d) (s_insert d o l).
Proof.
  induction 1 as [|x l Hs IH Hx]; simpl; [repeat constructor|].
  destruct (before d (price_ o) (price_ x)) eqn:E.
  - assert (not_after d o x) by (unfold not_after; destruct d; simpl in *; lia).
    constructor; [by constructor|]. constructor; [done|].
    eapply Forall_impl; [exact Hx|]. intros y Hy. by eapply not_after_trans.
  - constructor; [done|]. rewrite s_insert_perm. by constructor.
Qed.

Lemma s_insert_shape d o l : StronglySorted (not_after d) l ->
  exists l1 l2, l = l1 ++ l2 /\ s_insert d o l = l1 ++ o :: l2 /\
    Forall (fun x => before d (price_ o) (price_ x) = false) l1 /\
    Forall (fun x => before d (price_ o) (price_ x) = true) l2.
Proof.
  induction 1 as [|x l Hs IH Hx]; simpl; [by exists [], []|].
  destruct (before d (price_ o) (price_ x)) eqn:E.
  - exists [], (x :: l). split_and!; [done|done|done|]. constructor; [done|].
    eapply Forall_impl; [exact Hx|]. unfold not_after. intros y Hy. destruct d; simpl in *; lia.
  - destruct IH as (l1 & l2 & -> & -> & H1 & H2). exists (x :: l1), l2.
    split_and!; [done|done|by constructor|done].
Qed.

(** * Depletion *)

Lemma depleted_trans l1 l2 l3 : depleted l1 l2 -> depleted l2 l3 -> depleted l1 l3.
Proof. induction 1; [done|]. intros. eapply depleted_fill; eauto. Qed.

(** A property of lists that filling the head keeps is kept by depletion. *)
Lemma depleted_ind_keep (P : list Order -> Prop) l l' :
  (forall o k, P (o :: k) -> P k) ->
  (forall q o k, 0 <= q <= remaining_quantity_ o -> P (o :: k) -> P (reduce q o :: k)) ->
  depleted l l' -> P l -> P l'.
Proof.
  intros Htail Hhead. induction 1 as [|q o l l' Hq _ IH]; [done|]. intros HP. apply IH.
  unfold consume. destruct (is_filled _); eauto.
Qed.

Lemma depleted_sorted d l l' : depleted l l' ->
  StronglySorted (not_after d) l -> StronglySorted (not_after d) l'.
Proof.
  apply (depleted_ind_keep (StronglySorted (not_after d))); [by inversion 1|].
  intros q o k _ H. inversion H; subst. by constructor.
Qed.

Lemma depleted_Forall (P : Order -> Prop) l l' :
  (forall q o, 0 <= q <= remaining_quantity_ o -> P o -> P (reduce q o)) ->
  depleted l l' -> Forall P l -> Forall P l'.
Proof.
  intros HP. apply (depleted_ind_keep (Forall P)).
  - by inversion 1.
  - intros q o k Hq H. inversion H; subst. constructor; auto.
Qed.

Lemma depleted_quantities l l' : depleted l l' -> quantities_ok l -> quantities_ok l'.
Proof. apply depleted_Forall. intros q o Hq _. simpl. lia. Qed.

Lemma depleted_sublist {A : Type} (f : Order -> A) l l' :
  (forall q o, f (reduce q o) = f o) -> depleted l l' -> sublist (f <$> l') (f <$> l).
Proof.
  intros Hf. induction 1 as [l|q o l l' _ _ IH]; [done|]. transitivity (f <$> consume q o l); [done|].
  unfold consume. destruct (is_filled _); simpl; [by apply sublist_cons|].
  rewrite Hf. done.
Qed.

Lemma depleted_length l l' : depleted l l' -> (length l' <= length l)%nat.
Proof.
  intros H. apply (depleted_sublist id_) in H; [|done]. apply sublist_length in H.
  by rewrite !length_fmap in H.
Qed.

Lemma depleted_price l l' x : depleted l l' -> x ∈ l' -> exists y, y ∈ l /\ price_ y = price_ x.
Proof.
  intros H Hx. apply (depleted_sublist price_) in H; [|done].
  assert (price_ x ∈ price_ <$> l) as Hin.
  { eapply elem_of_submseteq; [|by apply sublist_submseteq]. by apply list_elem_of_fmap_2. }
  apply list_elem_of_fmap in Hin as (y & Hxy & Hy). eauto.
Qed.

(** * Quantities *)

Lemma total_consume q o l : total (consume q o l) = total (o :: l) - q.
Proof.
  unfold consume, is_filled. destruct (Z.eqb_spec (remaining_quantity_ (reduce q o)) 0); simpl in *; lia.
Qed.

Lemma quantities_consume q o l : 0 <= q <= remaining_quantity_ o ->
  quantities_ok (o :: l) -> quantities_ok (consume q o l).
Proof.
  intros Hq H. inversion H; subst. unfold consume. destruct (is_filled _); [done|].
  constructor; [simpl; lia|done].
Qed.

Lemma total_app l1 l2 : total (l1 ++ l2) = total l1 + total l2.
Proof. induction l1 as [|o l1 IH]; simpl; lia. Qed.

Lemma total_nonneg l : quantities_ok l -> 0 <= total l.
Proof. induction 1; simpl; lia. Qed.

#[export] Instance total_Permutation : Proper (Permutation ==> eq) total.
Proof. intros l l'. induction 1; simpl; lia. Qed.

(** * Crossing *)

(** Everything a crossing does. *)
Record cross_facts (bids asks B A : list Order) (ms : list OutboundMessage) : Prop := {
  cf_bids : depleted bids B;
  cf_asks : depleted asks A;
  cf_volume : total bids - total B = total asks - total A;
  cf_stop : match B, A with b :: _, a :: _ => price_ b < price_ a | _, _ => True end;
  cf_messages : exists n, length ms = (2 * n)%nat /\
                  (n + length B + length A <= length bids + length asks)%nat
}.

Lemma cross_spec bids asks : quantities_ok bids -> quantities_ok asks ->
  let '(B, A, ms) := cross bids asks in cross_facts bids asks B A ms.
Proof.
  remember (length bids + length asks)%nat as n eqn:Hn.
  revert bids asks Hn. induction (lt_wf n) as [n _ IH]. intros bids asks Hn Hb Ha.
  destruct bids as [|b bs].
  { rewrite cross_nil_l. split; [constructor|constructor|lia|done|]. exists 0%nat. simpl. lia. }
  destruct asks as [|a asks].
  { rewrite cross_nil_r. split; [constructor|constructor|lia|done|]. exists 0%nat. simpl. lia. }
  rewrite cross_cons. destruct (Z.ltb_spec (price_ b) (price_ a)) as [Hlt|Hge].
  { split; [constructor|constructor|lia|done|]. exists 0%nat. simpl. lia. }
  cbv zeta. set (q := Z.min (remaining_quantity_ b) (remaining_quantity_ a)).
  assert (0 <= q <= remaining_quantity_ b /\ 0 <= q <= remaining_quantity_ a) as [Hqb Hqa].
  { inversion Hb; inversion Ha; subst. unfold q. lia. }
  pose proof (consume_shrinks b a bs asks q eq_refl) as Hsh. simpl in Hn.
  assert (length (consume q b bs) + length (consume q a asks) < n)%nat as Hlt by lia.
  specialize (IH _ Hlt (consume q b bs) (consume q a asks) eq_refl
    (quantities_consume q b bs Hqb Hb) (quantities_consume q a asks Hqa Ha)).
  destruct (cross _ _) as [[B A] ms]. destruct IH as [H1 H2 H3 H4 (k & Hk & Hkl)].
  split; [by eapply depleted_fill|by eapply depleted_fill| |done|].
  - rewrite !total_consume in H3. lia.
  - exists (S k). simpl. lia.
Qed.

(** A crossing that sends nothing changes nothing. *)
Lemma cross_silent bids asks B A : cross bids asks = (B, A, []) -> B = bids /\ A = asks.
Proof.
  destruct bids as [|b bs]; [rewrite cross_nil_l; by inversion 1|].
  destruct asks as [|a asks]; [rewrite cross_nil_r; by inversion 1|].
  rewrite cross_cons. destruct (price_ b <? price_ a); [by inversion 1|].
  cbv zeta. by destruct (cross _ _) as [[B' A'] ms].
Qed.

(** Lists whose heads do not cross do not cross anywhere. *)
Lemma heads_uncrossed B A :
  StronglySorted (not_after Bids) B -> StronglySorted (not_after Asks) A ->
  match B, A with b :: _, a :: _ => price_ b < price_ a | _, _ => True end ->
  forall x y, x ∈ B -> y ∈ A -> price_ x < price_ y.
Proof.
  intros HB HA Hhead x y Hx Hy. destruct B as [|b B]; [by apply not_elem_of_nil in Hx|].
  destruct A as [|a A]; [by apply not_elem_of_nil in Hy|].
  inversion HB as [|? ? _ Hb]; inversion HA as [|? ? _ Ha]; subst.
  rewrite Forall_forall in Hb, Ha. unfold not_after in *. simpl in *.
  apply elem_of_cons in Hx as [->|Hx], Hy as [->|Hy]; try specialize (Hb _ Hx);
    try specialize (Ha _ Hy); lia.
Qed.

(** * Sweeping *)

Record sweep_facts (rem : Z) (l : list Order) (rem' : Z) (l' : list Order)
    (ms : list OutboundMessage) : Prop := {
  sf_list : depleted l l';
  sf_volume : total l - total l' = rem - rem';
  sf_rem : rem' = Z.max 0 (rem - total l);
  sf_messages : exists n, length ms = (2 * n)%nat /\ (n <= length l)%nat
}.

Lemma sweep_spec r rem l : 0 <= rem -> quantities_ok l ->
  let '(rem', l', ms) := sweep r rem l in sweep_facts rem l rem' l' ms.
Proof.
  revert rem. induction l as [|o l IH]; intros rem Hrem Hq; simpl.
  { split; [constructor|lia|simpl; lia|by exists 0%nat]. }
  assert (0 <= remaining_quantity_ o) as Ho by (by inversion Hq).
  assert (quantities_ok l) as Hl by (by inversion Hq).
  pose proof (total_nonneg l Hl) as Htot.
  destruct (Z.ltb_spec 0 rem) as [Hpos|Hz].
  2: { split; [constructor|lia|simpl; lia|exists 0%nat; simpl; lia]. }
  set (q := Z.min rem (remaining_quantity_ o)).
  assert (Hcons : is_filled (reduce q o) = (remaining_quantity_ o - q =? 0)) by done.
  destruct (is_filled (reduce q o)) eqn:Hf.
  - assert (q = remaining_quantity_ o) as Eq by lia.
    specialize (IH (rem - q) ltac:(lia) Hl). destruct (sweep r (rem - q) l) as [[rem' l'] ms].
    destruct IH as [H1 H2 H3 (n & Hn & Hnl)].
    split; [| simpl; lia| simpl; lia|exists (S n); simpl; lia].
    apply (depleted_fill q); [lia|]. unfold consume. by rewrite Hf.
  - assert (q = rem /\ rem < remaining_quantity_ o) as [Eq Hlt] by (unfold q in *; lia).
    split; [|simpl; lia|simpl; lia|exists 1%nat; simpl; lia].
    apply (depleted_fill q); [lia|]. unfold consume. rewrite Hf. constructor.
Qed.

(** * The invariant is preserved *)

Lemma s_inv_split A : s_inv A <-> s_wf A /\ uncrossed A.
Proof. split; [intros []|intros [[] ?]]; repeat split; assumption. Qed.

(** Each side shrinks by depletion. *)
Lemma s_wf_depleted A A' : s_wf A -> s_capacity A' = s_capacity A ->
  (forall d, depleted (s_orders d A) (s_orders d A')) -> s_wf A'.
Proof.
  intros [H1 H2 H3 H4 H5] Hc Hd. pose proof (Hd Bids) as Hb. pose proof (Hd Asks) as Ha. split.
  - intros d. by eapply depleted_sorted.
  - intros d. eapply depleted_Forall; [|done|apply H2]. done.
  - intros d. by eapply depleted_quantities.
  - eapply sublist_NoDup; [exact H4|]. unfold s_all. rewrite !fmap_app.
    apply sublist_app; by apply depleted_sublist.
  - rewrite Hc. unfold s_all in *. rewrite length_app in *.
    apply depleted_length in Hb, Ha. simpl in *. lia.
Qed.

Lemma uncrossed_depleted A A' : uncrossed A ->
  (forall d, depleted (s_orders d A) (s_orders d A')) -> uncrossed A'.
Proof.
  intros H Hd x y Hx Hy. destruct (depleted_price _ _ x (Hd Bids) Hx) as (x' & Hx' & <-).
  destruct (depleted_price _ _ y (Hd Asks) Hy) as (y' & Hy' & <-). by apply H.
Qed.

Lemma s_match_facts A : s_wf A ->
  cross_facts (s_bids A) (s_asks A) (s_bids (s_match A).1.2) (s_asks (s_match A).1.2) (s_match A).2 /\
  s_capacity (s_match A).1.2 = s_capacity A /\
  (s_match A).1.1 = match (s_match A).2 with [] => false | _ => true end.
Proof.
  intros Hwf. pose proof (cross_spec _ _ (wf_quantities A Hwf Bids) (wf_quantities A Hwf Asks)) as H.
  unfold s_match. simpl in H. by destruct (cross _ _) as [[B' A'] ms].
Qed.

Lemma s_match_depleted A d : s_wf A -> depleted (s_orders d A) (s_orders d (s_match A).1.2).
Proof. intros Hwf. destruct (s_match_facts A Hwf) as [[] _]. by destruct d. Qed.

Lemma s_match_inv A : s_wf A -> s_inv (s_match A).1.2.
Proof.
  intros Hwf. destruct (s_match_facts A Hwf) as [[H1 H2 _ H4 _] [Hc _]].
  assert (s_wf (s_match A).1.2) as Hwf'.
  { apply (s_wf_depleted A); [done|done|]. intros d. by apply s_match_depleted. }
  apply s_inv_split. split; [done|].
  exact (heads_uncrossed _ _ (wf_sorted _ Hwf' Bids) (wf_sorted _ Hwf' Asks) H4).
Qed.

Lemma s_orders_set d d' l A : s_orders d' (s_set d l A) = if decide (d' = d) then l else s_orders d' A.
Proof. by destruct d, d'. Qed.

Lemma s_market_depleted r A d : s_wf A -> 0 <= get_quantity r ->
  depleted (s_orders d A) (s_orders d (s_market r A).1.2) /\
  s_capacity (s_market r A).1.2 = s_capacity A.
Proof.
  intros Hwf Hq. unfold s_market.
  destruct (if decide (get_side r = BID) then Some Asks else _) as [e|]; [|split; [constructor|done]].
  pose proof (sweep_spec r _ _ Hq (wf_quantities A Hwf e)) as H.
  destruct (sweep _ _ _) as [[rem l] ms]. destruct H as [H _ _ _]. simpl. split; [|by destruct e].
  rewrite s_orders_set. case_decide; [by subst|constructor].
Qed.

Lemma s_market_inv r A : s_inv A -> 0 <= get_quantity r -> s_inv (s_market r A).1.2.
Proof.
  intros [Hwf Hun]%s_inv_split Hq. apply s_inv_split.
  assert (forall d, depleted (s_orders d A) (s_orders d (s_market r A).1.2)) as Hd.
  { intros d. by apply s_market_depleted. }
  split; [|by eapply uncrossed_depleted]. eapply s_wf_depleted; [exact Hwf| |exact Hd].
  by apply (s_market_depleted r A Bids).
Qed.

Lemma s_find_none_ids id A : s_find id A = None -> id ∉ (id_ <$> s_all A).
Proof.
  unfold s_find. intros H Hin. apply list_elem_of_fmap in Hin as (o & -> & Ho).
  destruct (list_find (fun o' => id_ o' = id_ o) (s_all A)) as [[i x]|] eqn:E; [done|].
  apply list_find_None in E. rewrite Forall_forall in E. by apply (E o).
Qed.

Lemma s_find_some_elem id A o : s_find id A = Some o -> o ∈ s_all A /\ id_ o = id.
Proof.
  unfold s_find. destruct (list_find _ _) as [[i x]|] eqn:E; [|done]. intros [= <-].
  apply list_find_Some in E as (Hx & Hid & _). split; [by eapply list_elem_of_lookup_2|done].
Qed.

Lemma s_all_set_insert d o A :
  s_all (s_set d (s_insert d o (s_orders d A)) A) ≡ₚ o :: s_all A.
Proof.
  unfold s_all. destruct d; simpl; rewrite s_insert_perm; [done|].
  by rewrite <- Permutation_middle.
Qed.

Lemma s_insert_wf d o A : s_wf A -> id_ o ∉ (id_ <$> s_all A) ->
  (length (s_all A) < s_capacity A)%nat -> side_ladder (side_ o) = d -> 0 <= remaining_quantity_ o ->
  s_wf (s_set d (s_insert d o (s_orders d A)) A).
Proof.
  intros [H1 H2 H3 H4 H5] Hid Hcap Hside Hq. split.
  - intros d'. rewrite s_orders_set. case_decide; [|done]. subst d'. by apply s_insert_sorted.
  - intros d'. rewrite s_orders_set. case_decide; [|done]. subst d'.
    rewrite s_insert_perm. by constructor.
  - intros d'. rewrite s_orders_set. case_decide; [|done]. subst d'.
    unfold quantities_ok. rewrite s_insert_perm. constructor; [done|apply H3].
  - rewrite s_all_set_insert. simpl. by constructor.
  - rewrite (Permutation_length (s_all_set_insert d o A)). simpl.
    replace (s_capacity (s_set _ _ _)) with (s_capacity A) by (by destruct d). lia.
Qed.

Lemma s_add_inv r A : s_inv A -> 0 <= get_quantity r -> s_inv (s_add r A).1.2.
Proof.
  intros HA Hq. unfold s_add. case_decide; [by apply s_market_inv|].
  destruct (s_find _ _) eqn:E; [done|]. case_decide as Hc; [done|]. cbv zeta.
  apply s_inv_split in HA as [Hwf _]. apply s_match_inv, s_insert_wf; try done.
  - by apply s_find_none_ids.
  - pose proof (wf_capacity A Hwf). lia.
Qed.

Lemma s_remove_sublist id l : sublist (s_remove id l) l.
Proof. apply sublist_filter. Qed.

Lemma elem_of_s_remove id l o : o ∈ s_remove id l <-> id_ o <> id /\ o ∈ l.
Proof. unfold s_remove. by rewrite list_elem_of_filter. Qed.

Lemma s_cancel_inv id A : s_inv A -> s_inv (s_cancel id A).
Proof.
  intros [H1 H2 H3 H4 H5 H6].
  assert (Hsub : forall d, sublist (s_orders d (s_cancel id A)) (s_orders d A))
    by (intros []; apply s_remove_sublist).
  assert (Hall : sublist (s_all (s_cancel id A)) (s_all A)) by (apply sublist_app; apply s_remove_sublist).
  split.
  - intros d. eapply sublist_StronglySorted; [apply Hsub|apply H1].
  - intros d. eapply sublist_Forall; [apply Hsub|apply H2].
  - intros d. eapply sublist_Forall; [apply Hsub|apply H3].
  - eapply sublist_NoDup; [exact H4|]. by apply sublist_map.
  - apply sublist_length in Hall. simpl. simpl in *. lia.
  - intros x y [_ Hx]%elem_of_s_remove [_ Hy]%elem_of_s_remove. by apply H6.
Qed.

Lemma touch_keeps id t o : id_ (touch id t o) = id_ o /\ price_ (touch id t o) = price_ o /\
  side_ (touch id t o) = side_ o /\ remaining_quantity_ (touch id t o) = remaining_quantity_ o.
Proof. unfold touch. by destruct (id_ o =? id). Qed.

Lemma s_touch_inv id t A : s_inv A -> s_inv (s_touch id t A).
Proof.
  intros [H1 H2 H3 H4 H5 H6].
  assert (Hord : forall d, s_orders d (s_touch id t A) = touch id t <$> s_orders d A) by (by intros []).
  split.
  - intros d. rewrite Hord. specialize (H1 d). induction H1 as [|x l Hs IH Hx]; simpl; constructor; [done|].
    rewrite Forall_fmap. eapply Forall_impl; [exact Hx|]. unfold not_after, compose. intros y.
    by rewrite !(proj1 (proj2 (touch_keeps id t _))).
  - intros d. rewrite Hord, Forall_fmap. eapply Forall_impl; [apply H2|]. intros x Hx. unfold compose.
    by destruct (touch_keeps id t x) as (_ & _ & -> & _).
  - intros d. unfold quantities_ok. rewrite Hord, Forall_fmap. eapply Forall_impl; [apply H3|].
    intros x Hx. unfold compose. by destruct (touch_keeps id t x) as (_ & _ & _ & ->).
  - unfold s_all, s_touch in *. simpl. rewrite <- fmap_app, <- list_fmap_compose.
    erewrite list_fmap_ext; [exact H4|]. intros i x _. unfold compose.
    by destruct (touch_keeps id t x) as (-> & _).
  - unfold s_all, s_touch in *. simpl. by rewrite <- fmap_app, length_fmap.
  - intros x y (x' & -> & Hx)%list_elem_of_fmap (y' & -> & Hy)%list_elem_of_fmap.
    destruct (touch_keeps id t x') as (_ & -> & _), (touch_keeps id t y') as (_ & -> & _). by apply H6.
Qed.

Lemma s_modify_inv r o A : s_inv A -> 0 <= get_quantity r -> s_inv (s_modify r o A).1.2.
Proof.
  intros HA Hq. unfold s_modify. case_decide.
  - cbv zeta. case_decide.
    + apply s_market_inv; [by apply s_touch_inv|done].
    + apply s_match_inv. by apply (s_inv_split (s_touch _ _ A)), s_touch_inv.
  - apply s_add_inv; [by apply s_cancel_inv|done].
Qed.

Lemma s_process_inv r A : s_inv A -> 0 <= get_quantity r -> s_inv (s_process r A).1.2.
Proof.
  intros HA Hq. unfold s_process. cbv zeta. destruct (get_message_type r); try exact HA.
  - by apply s_add_inv.
  - destruct (s_find _ _) as [o|]; [|exact HA]. case_decide; [by apply s_cancel_inv|exact HA].
  - destruct (s_find _ _) as [o|]; [|exact HA]. case_decide; [by apply s_modify_inv|exact HA].
Qed.

Lemma s_empty_inv n : s_inv (mkSBook [] [] n).
Proof.
  split; try (intros []; constructor); simpl; [constructor|lia|].
  intros x y Hx. by apply not_elem_of_nil in Hx.
Qed.

(** * Runs *)

Lemma s_run_inv rs A : s_inv A -> Forall (fun r => 0 <= get_quantity r) rs ->
  s_inv (s_run rs A).1.2.
Proof.
  revert A. induction rs as [|r rs IH]; intros A HA Hrs; simpl; [done|].
  inversion Hrs as [|? ? Hr Hrs']; subst. pose proof (s_process_inv r A HA Hr) as H.
  destruct (s_process r A) as [[x A1] ms]. specialize (IH A1 H Hrs').
  by destruct (s_run rs A1) as [[xs A2] ms'].
Qed.
