(* ===== verification/Ladder.v ===== *)
(** One side of the book, concretely and as a priority list.

    [L : gmap Z (list ptr)] gives the non-empty levels of an array and the
    pointers queued at each.  [flat] lists the pointers of all levels from the
    best price to the worst: the order in which they trade.  [ladder_rep] ties
    [L] to the array of queue objects, [meta_rep] to the cached best price and
    level count. *)

From S2P Require Import Prelude Types Ring Pool Book Spec.

Local Open Scope Z_scope.

(** * Definitions *)

Definition in_range (p : Z) : Prop := MIN_PRICE <= p <= MAX_PRICE.

Definition queue_of (L : gmap Z (list ptr)) (p : Z) : list ptr := default [] (L !! p).

Definition set_queue (p : Z) (l : list ptr) (L : gmap Z (list ptr)) : gmap Z (list ptr) :=
  match l with [] => delete p L | _ => <[p := l]> L end.

(** The prices of the array from the best to the worst, and those that trade
    before and after [p].  The definitions are sealed: nothing ever needs to
    enumerate the hundred thousand prices. *)
Definition prices_def (d : ladder) : list Z :=
  match d with
  | Bids => reverse (seqZ MIN_PRICE (MAX_PRICE - MIN_PRICE + 1))
  | Asks => seqZ MIN_PRICE (MAX_PRICE - MIN_PRICE + 1)
  end.
Definition better_prices_def (d : ladder) (p : Z) : list Z :=
  match d with
  | Bids => reverse (seqZ (p + 1) (MAX_PRICE - p))
  | Asks => seqZ MIN_PRICE (p - MIN_PRICE)
  end.
Definition worse_prices_def (d : ladder) (p : Z) : list Z :=
  match d with
  | Bids => reverse (seqZ MIN_PRICE (p - MIN_PRICE))
  | Asks => seqZ (p + 1) (MAX_PRICE - p)
  end.

Definition prices_aux : seal prices_def.
Proof. by eexists. Qed.
Definition prices := prices_aux.(unseal).
Definition prices_unseal : prices = prices_def := prices_aux.(seal_eq).
Definition better_prices_aux : seal better_prices_def.
Proof. by eexists. Qed.
Definition better_prices := better_prices_aux.(unseal).
Definition better_prices_unseal : better_prices = better_prices_def := better_prices_aux.(seal_eq).
Definition worse_prices_aux : seal worse_prices_def.
Proof. by eexists. Qed.
Definition worse_prices := worse_prices_aux.(unseal).
Definition worse_prices_unseal : worse_prices = worse_prices_def := worse_prices_aux.(seal_eq).

Definition flat_over (ps : list Z) (L : gmap Z (list ptr)) : list ptr :=
  concat (map (queue_of L) ps).
Definition flat (d : ladder) (L : gmap Z (list ptr)) : list ptr := flat_over (prices d) L.

(** What a list of pointers shows of the orders. *)
Definition view (a : list Order) (l : list ptr) : list Order :=
  (fun s => (core <$> a) !!! s) <$> l.

Record ladder_rep (a : list Order) (d : ladder) (lv : gmap Z PriceLevelQueue)
    (L : gmap Z (list ptr)) : Prop := {
  lr_level : forall p l, L !! p = Some l -> l <> [] /\ in_range p;
  lr_queue : forall p, in_range p ->
             queue_rep a (default empty_queue (lv !! level_index p)) (queue_of L p);
  lr_order : forall p s, s ∈ queue_of L p ->
             exists o, a !! s = Some o /\ price_ o = p /\ side_ladder (side_ o) = d /\
                       is_u32 (remaining_quantity_ o)
}.

Record meta_rep (d : ladder) (best count : Z) (L : gmap Z (list ptr)) : Prop := {
  mr_count : count = Z.of_nat (size L);
  mr_best : if decide (L = ∅) then best = worst_price d
            else is_Some (L !! best) /\
                 forall p, is_Some (L !! p) -> before d p best = false
}.

(** * Prices *)

#[export] Hint Unfold in_range : exch.

Lemma in_range_index p : in_range p -> level_index p = p - MIN_PRICE /\ level_index p < LEVELS.
Proof.
  unfold in_range, level_index, LEVELS, MIN_PRICE, MAX_PRICE. intros H.
  rewrite u32_small by (unfold is_u32; lia). lia.
Qed.

Lemma level_index_inj p q : in_range p -> in_range q -> level_index p = level_index q -> p = q.
Proof. intros Hp Hq H. apply in_range_index in Hp, Hq. lia. Qed.

Lemma prices_split d p : in_range p -> prices d = better_prices d p ++ p :: worse_prices d p.
Proof.
  rewrite prices_unseal, better_prices_unseal, worse_prices_unseal.
  unfold in_range. intros Hp. destruct d; unfold prices_def, better_prices_def, worse_prices_def;
    rewrite (seqZ_split _ _ p) by lia.
  - rewrite reverse_app, reverse_cons, <- app_assoc. simpl. do 3 f_equal. lia.
  - do 3 f_equal. lia.
Qed.

Lemma elem_of_prices d p : p ∈ prices d <-> in_range p.
Proof.
  rewrite prices_unseal. unfold in_range. destruct d; unfold prices_def; rewrite ?elem_of_reverse, elem_of_seqZ; lia.
Qed.

Lemma elem_of_better_prices d p q : in_range p ->
  q ∈ better_prices d p <-> in_range q /\ before d q p = true.
Proof.
  rewrite better_prices_unseal. unfold in_range, before. intros Hp.
  destruct d; unfold better_prices_def; rewrite ?elem_of_reverse, elem_of_seqZ, Z.ltb_lt; lia.
Qed.

Lemma elem_of_worse_prices d p q : in_range p ->
  q ∈ worse_prices d p <-> in_range q /\ before d p q = true.
Proof.
  rewrite worse_prices_unseal. unfold in_range, before. intros Hp.
  destruct d; unfold worse_prices_def; rewrite ?elem_of_reverse, elem_of_seqZ, Z.ltb_lt; lia.
Qed.

Lemma before_irrefl d p : before d p p = false.
Proof. destruct d; simpl; lia. Qed.

(** * Queues of a ladder *)

Lemma queue_of_set p l L q : queue_of (set_queue p l L) q = if decide (q = p) then l else queue_of L q.
Proof.
  unfold queue_of, set_queue. case_decide as Hd.
  - subst. destruct l; by rewrite ?lookup_delete_eq, ?lookup_insert_eq.
  - destruct l; by rewrite ?lookup_delete_ne, ?lookup_insert_ne by done.
Qed.

Lemma queue_of_set_eq p l L : queue_of (set_queue p l L) p = l.
Proof. rewrite queue_of_set. by rewrite decide_True. Qed.
Lemma queue_of_set_ne p l L q : q <> p -> queue_of (set_queue p l L) q = queue_of L q.
Proof. intros. rewrite queue_of_set. by rewrite decide_False. Qed.

Lemma queue_of_Some L p l : L !! p = Some l -> queue_of L p = l.
Proof. unfold queue_of. by intros ->. Qed.

Lemma flat_over_set ps p l L : p ∉ ps -> flat_over ps (set_queue p l L) = flat_over ps L.
Proof.
  intros Hp. apply concat_map_ext. intros q Hq. apply queue_of_set_ne. by intros ->.
Qed.

Definition above (d : ladder) (p : Z) (L : gmap Z (list ptr)) : list ptr :=
  flat_over (better_prices d p) L.
Definition below (d : ladder) (p : Z) (L : gmap Z (list ptr)) : list ptr :=
  flat_over (worse_prices d p) L.

Lemma flat_split d p L : in_range p -> flat d L = above d p L ++ queue_of L p ++ below d p L.
Proof.
  intros Hp. unfold flat, above, below, flat_over.
  by rewrite (prices_split d p), map_app, concat_app.
Qed.

Lemma flat_set d p l L : in_range p ->
  flat d (set_queue p l L) = above d p L ++ l ++ below d p L.
Proof.
  intros Hp. rewrite (flat_split d p) by done. rewrite queue_of_set_eq.
  unfold above, below. rewrite !flat_over_set; [done| |].
  - rewrite elem_of_worse_prices by done. rewrite before_irrefl. naive_solver.
  - rewrite elem_of_better_prices by done. rewrite before_irrefl. naive_solver.
Qed.

Lemma elem_of_flat d L s : s ∈ flat d L <-> exists p, in_range p /\ s ∈ queue_of L p.
Proof.
  unfold flat, flat_over. rewrite elem_of_concat_map.
  split; intros (p & Hp & Hs); exists p; by rewrite elem_of_prices in *.
Qed.

Lemma elem_of_above d p L s : in_range p ->
  s ∈ above d p L <-> exists q, in_range q /\ before d q p = true /\ s ∈ queue_of L q.
Proof.
  intros Hp. unfold above, flat_over. rewrite elem_of_concat_map.
  split; [intros (q & Hq & Hs)|intros (q & Hr & Hb & Hs)]; exists q;
    rewrite elem_of_better_prices in * by done; naive_solver.
Qed.

Lemma elem_of_below d p L s : in_range p ->
  s ∈ below d p L <-> exists q, in_range q /\ before d p q = true /\ s ∈ queue_of L q.
Proof.
  intros Hp. unfold below, flat_over. rewrite elem_of_concat_map.
  split; [intros (q & Hq & Hs)|intros (q & Hr & Hb & Hs)]; exists q;
    rewrite elem_of_worse_prices in * by done; naive_solver.
Qed.

Lemma flat_empty d : flat d ∅ = [].
Proof. apply concat_map_nil. intros p _. unfold queue_of. by rewrite lookup_empty. Qed.

(** Nothing trades before the best level. *)
Lemma above_best d p L :
  in_range p -> (forall q, is_Some (L !! q) -> before d q p = false) -> above d p L = [].
Proof.
  intros Hp Hbest. apply concat_map_nil. intros q Hq.
  rewrite elem_of_better_prices in Hq by done. destruct Hq as [_ Hq].
  unfold queue_of. destruct (L !! q) eqn:E; [|done].
  specialize (Hbest q ltac:(by eauto)). congruence.
Qed.

(** * Views *)

Lemma view_app a l1 l2 : view a (l1 ++ l2) = view a l1 ++ view a l2.
Proof. apply fmap_app. Qed.

Lemma view_same_core a a' l : same_core a a' -> view a' l = view a l.
Proof. unfold view, same_core. by intros ->. Qed.

Lemma view_cons a s l o : a !! s = Some o -> view a (s :: l) = core o :: view a l.
Proof.
  intros Hs. unfold view. simpl. f_equal.
  apply list_lookup_total_correct. by rewrite list_lookup_fmap, Hs.
Qed.

Lemma view_insert_ne a s o l : s ∉ l -> view (<[s := o]> a) l = view a l.
Proof.
  intros Hs. unfold view. rewrite list_fmap_insert.
  apply list_fmap_ext. intros i t Ht. apply list_lookup_total_insert_ne.
  intros ->. apply Hs. by eapply list_elem_of_lookup_2.
Qed.

Lemma elem_of_view a l x : x ∈ view a l <-> exists s, s ∈ l /\ x = (core <$> a) !!! s.
Proof. unfold view. rewrite list_elem_of_fmap. naive_solver. Qed.

(** * Changing the arena or one level *)

Section Rep.
Context (a : list Order) (d : ladder) (lv : gmap Z PriceLevelQueue) (L : gmap Z (list ptr)).
Hypothesis Hrep : ladder_rep a d lv L.

Lemma ladder_in_range p s : s ∈ queue_of L p -> in_range p.
Proof.
  unfold queue_of. destruct (L !! p) as [l|] eqn:E; simpl; [|set_solver].
  intros _. by apply (lr_level _ _ _ _ Hrep p l).
Qed.

Lemma elem_of_flat_queue p s : s ∈ queue_of L p -> s ∈ flat d L.
Proof. intros Hs. apply elem_of_flat. exists p. eauto using ladder_in_range. Qed.

Lemma flat_order s : s ∈ flat d L ->
  exists o, a !! s = Some o /\ s ∈ queue_of L (price_ o) /\ in_range (price_ o) /\
            side_ladder (side_ o) = d /\ is_u32 (remaining_quantity_ o).
Proof.
  intros (p & Hp & Hs)%elem_of_flat.
  destruct (lr_order _ _ _ _ Hrep p s Hs) as (o & Ho & <- & Hd & Hq). eauto 10.
Qed.

(** The representation only reads the links, the price, the side and the range of
    the quantity of the orders on the ladder. *)
Lemma ladder_rep_frame a' :
  (forall s o, s ∈ flat d L -> a !! s = Some o ->
     exists o', a' !! s = Some o' /\ links o' = links o /\ price_ o' = price_ o /\
                side_ o' = side_ o /\ is_u32 (remaining_quantity_ o')) ->
  ladder_rep a' d lv L.
Proof.
  intros Hf. destruct Hrep as [Hlevel Hqueue Horder].
  constructor; [done| |].
  - intros p Hp. destruct (Hqueue p Hp) as [Hh Ht Hsz Hseg]. constructor; [done..|].
    apply (seg_frame a); [|done]. intros t Ht'.
    destruct (Horder p t Ht') as (o & Ho & _).
    destruct (Hf t o) as (o' & -> & Hl & _); [by apply elem_of_flat_queue in Ht'|done|].
    rewrite Ho. simpl. by rewrite Hl.
  - intros p s Hs. destruct (Horder p s Hs) as (o & Ho & Hp & Hd & Hq).
    destruct (Hf s o) as (o' & Ho' & _ & Hp' & Hs' & Hq');
      [by apply elem_of_flat_queue in Hs|done|].
    exists o'. rewrite Hp', Hs'. done.
Qed.

Lemma ladder_rep_agree a' :
  (forall s, s ∈ flat d L -> a' !! s = a !! s) -> ladder_rep a' d lv L.
Proof.
  intros Hf. apply ladder_rep_frame. intros s o Hs Ho. exists o.
  rewrite Hf by done. destruct (flat_order s Hs) as (o' & Ho' & _ & _ & _ & Hq).
  replace o' with o in * by congruence. done.
Qed.

(** Replacing the queue of one level. *)
Lemma ladder_rep_set a' p q' l' :
  in_range p -> queue_rep a' q' l' ->
  (forall s, s ∈ l' -> exists o, a' !! s = Some o /\ price_ o = p /\
                                 side_ladder (side_ o) = d /\ is_u32 (remaining_quantity_ o)) ->
  (forall q s, q <> p -> s ∈ queue_of L q -> a' !! s = a !! s) ->
  ladder_rep a' d (<[level_index p := q']> lv) (set_queue p l' L).
Proof.
  intros Hp Hq' Hl' Hf. destruct Hrep as [Hlevel Hqueue Horder]. constructor.
  - intros p0 l0. unfold set_queue. destruct l' as [|x l'].
    + rewrite lookup_delete_Some. intros [_ H]. by apply Hlevel.
    + rewrite lookup_insert_Some. intros [[<- <-]|[_ H]]; [by split|by apply Hlevel].
  - intros p0 Hp0. rewrite queue_of_set. case_decide as Hd.
    + subst. by rewrite lookup_insert_eq.
    + rewrite lookup_insert_ne by (intros E; apply level_index_inj in E; congruence).
      destruct (Hqueue p0 Hp0) as [Hh Ht Hsz Hseg]. constructor; [done..|].
      apply (seg_frame a); [|done]. intros t Ht'. by rewrite (Hf p0).
  - intros p0 s. rewrite queue_of_set. case_decide as Hd; [subst; auto|].
    intros Hs. destruct (Horder p0 s Hs) as (o & Ho & Hrest). exists o.
    by rewrite (Hf p0).
Qed.

End Rep.

(** * The empty ladder, and levels appearing and disappearing *)

Lemma ladder_rep_empty a d : ladder_rep a d ∅ ∅.
Proof.
  constructor.
  - intros p l. by rewrite lookup_empty.
  - intros p Hp. unfold queue_of. rewrite !lookup_empty. apply queue_rep_empty.
  - intros p s. unfold queue_of. rewrite lookup_empty. set_solver.
Qed.

Lemma meta_rep_empty d : meta_rep d (worst_price d) 0 ∅.
Proof. constructor; [done|]. by rewrite decide_True. Qed.

Lemma size_le_LEVELS a d lv L : ladder_rep a d lv L -> Z.of_nat (size L) <= LEVELS.
Proof.
  intros Hrep. assert (dom L ⊆@{gset Z} list_to_set (prices Asks)) as Hsub.
  { intros p. rewrite elem_of_dom, elem_of_list_to_set, elem_of_prices. intros [l Hl].
    by apply (lr_level _ _ _ _ Hrep p l). }
  apply subseteq_size in Hsub. rewrite size_dom in Hsub.
  assert (NoDup (prices Asks)) as Hnd by (rewrite prices_unseal; apply NoDup_seqZ).
  rewrite (size_list_to_set _ Hnd), prices_unseal in Hsub.
  unfold prices_def in Hsub. rewrite length_seqZ in Hsub. unfold LEVELS, MIN_PRICE, MAX_PRICE in *. lia.
Qed.
