(* ===== verification/Refine.v ===== *)
(** The order book of [Book] implements the specification of [Spec].

    [book_rep b L] ties a concrete book to the pointers on its two ladders:
    every slot of the arena is either free or on exactly one queue, the lookup
    map holds exactly the queued orders, the cached best prices and level counts
    are right.  [abs b L] is the specification state.  Each operation is proved
    by a [wp] lemma: it returns without a fault, keeps the representation, and
    acts on [abs] as the specification says. *)

From S2P Require Import Prelude Types Ring Pool Book Spec Ladder.

Local Open Scope Z_scope.

(** * Representation of the whole book *)

Record ladders : Type := mkLadders {
  on_bids : gmap Z (list ptr);
  on_asks : gmap Z (list ptr)
}.

Definition lad (d : ladder) (L : ladders) : gmap Z (list ptr) :=
  match d with Bids => on_bids L | Asks => on_asks L end.
Definition upd (d : ladder) (m : gmap Z (list ptr)) (L : ladders) : ladders :=
  match d with Bids => mkLadders m (on_asks L) | Asks => mkLadders (on_bids L) m end.
Definition opposite (d : ladder) : ladder := match d with Bids => Asks | Asks => Bids end.

Abbreviation arena b := (arena_ (pool_ b)).

(** The slots of the orders on the book. *)
Definition slots (L : ladders) : list ptr := flat Bids (on_bids L) ++ flat Asks (on_asks L).

Record store_rep (b : Orderbook) (L : ladders) : Prop := {
  sr_ladder : forall d, ladder_rep (arena b) d (levels d b) (lad d L);
  sr_pool : free_list_ (pool_ b) ++ slots L ≡ₚ seq 0 (length (arena b));
  sr_small : Z.of_nat (length (arena b)) < 2 ^ 32;
  sr_orders : forall id s, orders_ b !! id = Some s <->
              s ∈ slots L /\ exists o, arena b !! s = Some o /\ id_ o = id;
  sr_size : size (orders_ b) = length (slots L)
}.

Definition meta_ok (b : Orderbook) (L : ladders) (d : ladder) : Prop :=
  meta_rep d (best_price d b) (level_count d b) (lad d L).

Record book_rep (b : Orderbook) (L : ladders) : Prop := {
  br_store : store_rep b L;
  br_meta : forall d, meta_ok b L d
}.

Definition abs (b : Orderbook) (L : ladders) : SBook :=
  mkSBook (view (arena b) (flat Bids (on_bids L))) (view (arena b) (flat Asks (on_asks L)))
          (length (arena b)).

(** A concrete book implements a specification state. *)
Definition refines (b : Orderbook) (A : SBook) : Prop := exists L, book_rep b L /\ A = abs b L.

(** * Slots *)

Lemma lad_upd d d' m L : lad d' (upd d m L) = if decide (d' = d) then m else lad d' L.
Proof. by destruct d, d'. Qed.
Lemma lad_upd_eq d m L : lad d (upd d m L) = m.
Proof. by destruct d. Qed.
Lemma lad_upd_opposite d m L : lad (opposite d) (upd d m L) = lad (opposite d) L.
Proof. by destruct d. Qed.
Lemma upd_lad d L : upd d (lad d L) L = L.
Proof. by destruct d, L. Qed.
Lemma ladder_cases (d d' : ladder) : d' = d \/ d' = opposite d.
Proof. destruct d, d'; auto. Qed.

Lemma slots_split d L :
  slots L ≡ₚ flat d (lad d L) ++ flat (opposite d) (lad (opposite d) L).
Proof. destruct d; [done|]. apply Permutation_app_comm. Qed.

Lemma NoDup_split d L :
  NoDup (slots L) -> NoDup (flat d (lad d L) ++ flat (opposite d) (lad (opposite d) L)).
Proof. destruct d; [done|]. unfold slots. simpl. by rewrite Permutation_app_comm. Qed.

Lemma elem_of_slots s L : s ∈ slots L <-> exists d, s ∈ flat d (lad d L).
Proof.
  unfold slots. rewrite elem_of_app. split.
  - intros [H|H]; [exists Bids|exists Asks]; exact H.
  - intros [[] H]; [left|right]; exact H.
Qed.

Section Slots.
Context (b : Orderbook) (L : ladders).
Hypothesis Hsr : store_rep b L.

Lemma pool_NoDup : NoDup (free_list_ (pool_ b) ++ slots L).
Proof. rewrite (sr_pool _ _ Hsr). apply NoDup_seq. Qed.

Lemma flat_NoDup d : NoDup (flat d (lad d L)).
Proof.
  pose proof pool_NoDup as H. apply NoDup_app in H as (_ & _ & H).
  apply (NoDup_split d) in H. by apply NoDup_app in H as (H & _ & _).
Qed.

Lemma flat_disjoint d s : s ∈ flat d (lad d L) -> s ∉ flat (opposite d) (lad (opposite d) L).
Proof.
  pose proof pool_NoDup as H. apply NoDup_app in H as (_ & _ & H).
  apply (NoDup_split d) in H. apply NoDup_app in H as (_ & H & _). apply H.
Qed.

Lemma flat_slot d s : s ∈ flat d (lad d L) -> s ∈ slots L.
Proof. intros H. apply elem_of_slots. exists d. exact H. Qed.

Lemma slot_lt s : s ∈ slots L -> (s < length (arena b))%nat.
Proof.
  intros H. assert (s ∈ seq 0 (length (arena b))) as Hs.
  { rewrite <- (sr_pool _ _ Hsr). apply elem_of_app. by right. }
  apply elem_of_seq in Hs. lia.
Qed.

Lemma slot_order s : s ∈ slots L -> exists o, arena b !! s = Some o /\ is_u32 (remaining_quantity_ o).
Proof.
  intros [d H]%elem_of_slots.
  destruct (flat_order _ _ _ _ (sr_ladder _ _ Hsr d) s H) as (o & Ho & _ & _ & _ & Hq). eauto.
Qed.

Lemma slots_length : (length (free_list_ (pool_ b)) + length (slots L) = length (arena b))%nat.
Proof.
  pose proof (Permutation_length (sr_pool _ _ Hsr)) as H.
  by rewrite length_app, length_seq in H.
Qed.

Lemma queue_level_NoDup d p : in_range p -> NoDup (queue_of (lad d L) p).
Proof.
  intros Hp. pose proof (flat_NoDup d) as H. rewrite (flat_split d p) in H by done.
  apply NoDup_app in H as (_ & _ & H). by apply NoDup_app in H as (H & _ & _).
Qed.

Lemma queue_level_length d p : in_range p -> Z.of_nat (length (queue_of (lad d L) p)) < 2 ^ 32.
Proof.
  intros Hp. pose proof slots_length as H. pose proof (sr_small _ _ Hsr).
  assert (length (slots L) = length (flat d (lad d L)) +
          length (flat (opposite d) (lad (opposite d) L)))%nat as Hs.
  { rewrite (Permutation_length (slots_split d L)). apply length_app. }
  rewrite (flat_split d p), !length_app in Hs by done. lia.
Qed.

(** Slots of another level, or of the other ladder, are not on this level. *)
Lemma queue_levels_disjoint d p q s : p <> q ->
  s ∈ queue_of (lad d L) p -> s ∉ queue_of (lad d L) q.
Proof.
  intros Hne Hp Hq. destruct (lr_order _ _ _ _ (sr_ladder _ _ Hsr d) p s Hp) as (o & Ho & Hpo & _).
  destruct (lr_order _ _ _ _ (sr_ladder _ _ Hsr d) q s Hq) as (o' & Ho' & Hqo & _). congruence.
Qed.

Lemma slot_ids s t o o' : s ∈ slots L -> t ∈ slots L ->
  arena b !! s = Some o -> arena b !! t = Some o' -> id_ o = id_ o' -> s = t.
Proof.
  intros Hs Ht Ho Ho' Hid.
  assert (orders_ b !! id_ o = Some s) by (apply (sr_orders _ _ Hsr); eauto).
  assert (orders_ b !! id_ o = Some t) by (apply (sr_orders _ _ Hsr); eauto).
  congruence.
Qed.

End Slots.

(** * Primitive operations *)

Lemma wp_get_order p o (Q : Order -> Orderbook -> Prop) b :
  arena b !! p = Some o -> Q o b -> wp (get_order p) Q b.
Proof.
  intros Ho HQ. unfold get_order. wp_steps. unfold wp, of_res. by rewrite (deref_ok _ _ o).
Qed.

Lemma wp_put_order p f o (Q : unit -> Orderbook -> Prop) b :
  arena b !! p = Some o -> Q tt (set_arena (<[p := f o]> (arena b)) b) -> wp (put_order p f) Q b.
Proof.
  intros Ho HQ. unfold put_order. wp_steps. unfold wp, of_res.
  by rewrite (update_order_ok _ _ _ o).
Qed.

Lemma wp_fill_order p q o (Q : unit -> Orderbook -> Prop) b :
  arena b !! p = Some o -> 0 <= q <= remaining_quantity_ o -> is_u32 (remaining_quantity_ o) ->
  Q tt (set_arena (<[p := reduce q o]> (arena b)) b) -> wp (fill_order p q) Q b.
Proof.
  intros Ho Hq Hr HQ. unfold fill_order. wp_steps. apply (wp_get_order _ o); [done|].
  wp_steps. unfold wp at 1, of_res. rewrite fill_ok by done.
  by apply (wp_put_order _ _ o).
Qed.

Lemma wp_read_level d p (Q : PriceLevelQueue -> Orderbook -> Prop) b :
  in_range p -> Q (default empty_queue (levels d b !! level_index p)) b ->
  wp (read_level d (level_index p)) Q b.
Proof.
  intros Hp HQ. unfold read_level. apply in_range_index in Hp as [_ Hp].
  apply Z.ltb_lt in Hp. rewrite Hp. by wp_steps.
Qed.

(** Emptiness and front of a level, read off the ladder. *)
Lemma level_rep b L d p : store_rep b L -> in_range p ->
  queue_rep (arena b) (default empty_queue (levels d b !! level_index p)) (queue_of (lad d L) p).
Proof. intros Hsr Hp. by apply (lr_queue _ _ _ _ (sr_ladder _ _ Hsr d)). Qed.

Definition on_ladder (b : Orderbook) (d : ladder) (m : gmap Z (list ptr)) : Prop :=
  ladder_rep (arena b) d (levels d b) m.

Lemma wp_level_empty b d m p (Q : PriceLevelQueue -> Orderbook -> Prop) :
  on_ladder b d m -> in_range p ->
  (forall q, queue_empty q = bool_decide (queue_of m p = []) ->
             queue_front q = first_of (queue_of m p) None -> Q q b) ->
  wp (read_level d (level_index p)) Q b.
Proof.
  intros Hl Hp HQ. apply wp_read_level; [done|].
  pose proof (lr_queue _ _ _ _ Hl p Hp) as Hq. apply HQ; [|by destruct Hq].
  apply queue_empty_spec in Hq.
  case_bool_decide as Hd; [by apply Hq|]. destruct (queue_empty _); naive_solver.
Qed.

Lemma on_ladder_set_best b d m x : on_ladder b d m -> on_ladder (set_best d x b) d m.
Proof. by destruct d. Qed.
Lemma on_ladder_set_count b d m x : on_ladder b d m -> on_ladder (set_count d x b) d m.
Proof. by destruct d. Qed.
#[export] Hint Resolve on_ladder_set_best on_ladder_set_count : exch.

Lemma on_ladder_level b d m p l : on_ladder b d m -> m !! p = Some l -> l <> [] /\ in_range p.
Proof. intros Hl Hp. by apply (lr_level _ _ _ _ Hl). Qed.

(** * Keeping the store *)

(** The store does not mention best prices, level counts or the outbound ring. *)
Lemma store_rep_ext b b' L : store_rep b L ->
  pool_ b' = pool_ b -> bids_ b' = bids_ b -> asks_ b' = asks_ b -> orders_ b' = orders_ b ->
  store_rep b' L.
Proof.
  intros [Hl Hp Hs Ho Hz] Ep Eb Ea Eo.
  assert (forall d, levels d b' = levels d b) as El by (by intros []).
  constructor; rewrite ?Ep, ?Eo; try done. intros d. by rewrite El.
Qed.

Lemma store_rep_set_best b L d x : store_rep b L -> store_rep (set_best d x b) L.
Proof. intros H. by eapply store_rep_ext; [exact H|destruct d..]. Qed.
Lemma store_rep_set_count b L d x : store_rep b L -> store_rep (set_count d x b) L.
Proof. intros H. by eapply store_rep_ext; [exact H|destruct d..]. Qed.
Lemma store_rep_set_out b L r : store_rep b L -> store_rep (set_out_ring r b) L.
Proof. intros H. by eapply store_rep_ext; [exact H|..]. Qed.
#[export] Hint Resolve store_rep_set_best store_rep_set_count store_rep_set_out : exch.

(** Changing the order in one slot, its links, price, side and id kept. *)
Lemma store_rep_update b L s o o' :
  store_rep b L -> arena b !! s = Some o ->
  links o' = links o -> price_ o' = price_ o -> side_ o' = side_ o -> id_ o' = id_ o ->
  is_u32 (remaining_quantity_ o') ->
  store_rep (set_arena (<[s := o']> (arena b)) b) L.
Proof.
  intros Hsr Ho Hl Hp Hs Hi Hr. apply lookup_lt_Some in Ho as Hlt.
  assert (Hids : forall t x id, <[s := o']> (arena b) !! t = Some x -> id_ x = id ->
            exists x', arena b !! t = Some x' /\ id_ x' = id).
  { intros t x id Hx <-. destruct (decide (t = s)) as [->|Hne].
    - rewrite list_lookup_insert_eq in Hx by done. injection Hx as <-. eauto.
    - rewrite list_lookup_insert_ne in Hx by done. eauto. }
  assert (Hids' : forall t x id, arena b !! t = Some x -> id_ x = id ->
            exists x', <[s := o']> (arena b) !! t = Some x' /\ id_ x' = id).
  { intros t x id Hx <-. destruct (decide (t = s)) as [->|Hne].
    - rewrite list_lookup_insert_eq by done. exists o'. split; [done|congruence].
    - rewrite list_lookup_insert_ne by done. eauto. }
  constructor; simpl; rewrite ?length_insert; [|apply Hsr|apply Hsr| |apply Hsr].
  - intros d. assert (levels d (set_arena (<[s:=o']> (arena b)) b) = levels d b) as -> by (by destruct d).
    apply (ladder_rep_frame (arena b)); [apply Hsr|]. intros t x Ht Hx.
    destruct (decide (t = s)) as [->|Hne].
    + exists o'. rewrite list_lookup_insert_eq by done. replace x with o by congruence. done.
    + exists x. rewrite list_lookup_insert_ne by done.
      destruct (slot_order b L Hsr t) as (x' & Hx' & Hq); [by eapply flat_slot|].
      replace x' with x in Hq by congruence. done.
  - intros id t. rewrite (sr_orders _ _ Hsr). split.
    + intros (Ht & x & Hx & Hid). eauto.
    + intros (Ht & x & Hx & Hid). eauto.
Qed.

(** Taking a slot off a ladder: the queue change is given, the slot leaves the
    lookup map and returns to the free list. *)
Definition released (s : ptr) (o : Order) (a' : list Order) (d : ladder)
    (lv' : gmap Z PriceLevelQueue) (b : Orderbook) : Orderbook :=
  set_pool (mkPool a' (s :: free_list_ (pool_ b)))
    (set_orders (delete (id_ o) (orders_ b)) (set_levels d lv' b)).

Lemma store_rep_release b L d s o a' lv' L' l1 l2 :
  store_rep b L -> arena b !! s = Some o ->
  flat d (lad d L) = l1 ++ s :: l2 -> flat d L' = l1 ++ l2 ->
  same_core (arena b) a' -> ladder_rep a' d lv' L' ->
  (forall t, t ∉ flat d L' -> a' !! t = arena b !! t) ->
  store_rep (released s o a' d lv' b) (upd d L' L).
Proof.
  intros Hsr Ho Hflat Hflat' Hcore Hrep Hframe.
  assert (Hperm : slots L ≡ₚ s :: slots (upd d L' L)).
  { rewrite (slots_split d L), (slots_split d (upd d L' L)), lad_upd_eq, lad_upd_opposite,
      Hflat, Hflat'. by rewrite <- Permutation_middle. }
  assert (Hs : s ∈ slots L) by (rewrite Hperm; set_solver).
  assert (Hnd : NoDup (s :: slots (upd d L' L))).
  { rewrite <- Hperm. pose proof (pool_NoDup b L Hsr) as H. by apply NoDup_app in H as (_ & _ & H). }
  apply NoDup_cons in Hnd as [Hnin Hnd].
  constructor; simpl.
  - intros d'. destruct (ladder_cases d d') as [->| ->].
    + rewrite lad_upd_eq. by destruct d.
    + rewrite lad_upd_opposite.
      assert (levels (opposite d) (released s o a' d lv' b) = levels (opposite d) b) as ->
        by (by destruct d).
      apply (ladder_rep_agree (arena b)); [apply Hsr|]. intros t Ht. apply Hframe.
      intros Hin. apply (flat_disjoint b L Hsr d t); [|done].
      rewrite Hflat. rewrite Hflat' in Hin. set_solver.
  - rewrite (same_core_length _ _ Hcore), <- (sr_pool _ _ Hsr), Hperm.
    by rewrite Permutation_middle.
  - rewrite (same_core_length _ _ Hcore). apply Hsr.
  - intros id t. rewrite lookup_delete_Some, (sr_orders _ _ Hsr), Hperm, elem_of_cons. split.
    + intros (Hid & [->|Ht] & x & Hx & Hxid); [congruence|]. split; [done|].
      destruct (same_core_lookup _ _ _ _ Hcore Hx) as (x' & Hx' & Hc). exists x'.
      split; [done|]. change (id_ x') with (id_ (core x')). by rewrite Hc.
    + intros (Ht & x & Hx & Hxid).
      symmetry in Hcore. destruct (same_core_lookup _ _ _ _ Hcore Hx) as (x' & Hx' & Hc).
      assert (id_ x' = id) as Hid' by (change (id_ x') with (id_ (core x')); by rewrite Hc).
      split; [|by eauto]. intros Heq. apply Hnin.
      rewrite (slot_ids b L Hsr s t o x'); [done|done| |done|done|congruence].
      rewrite Hperm. set_solver.
  - rewrite map_size_delete_Some by (eexists; apply (sr_orders _ _ Hsr); eauto).
    rewrite (sr_size _ _ Hsr), Hperm. done.
Qed.

(** Two books with the same best prices, level counts and outbound ring. *)
Definition same_meta (b b' : Orderbook) : Prop :=
  (forall d, best_price d b' = best_price d b /\ level_count d b' = level_count d b) /\
  out_ring_ b' = out_ring_ b.

Lemma released_meta s o a' d lv' b : same_meta b (released s o a' d lv' b).
Proof. split; [intros []|]; by destruct d. Qed.

Lemma flat_nodup_queue b L d p s l :
  store_rep b L -> in_range p -> queue_of (lad d L) p = s :: l -> NoDup (s :: l) /\ s ∉ l.
Proof.
  intros Hsr Hp Hq. pose proof (queue_level_NoDup b L Hsr d p Hp) as Hnd. rewrite Hq in Hnd.
  split; [done|]. by apply NoDup_cons in Hnd as [? _].
Qed.

(** The orders on a level satisfy what [ladder_rep] asks of a level, in any arena
    that agrees on everything but links. *)
Lemma level_orders b L d p a' (l : list ptr) :
  store_rep b L -> same_core (arena b) a' -> (forall s, s ∈ l -> s ∈ queue_of (lad d L) p) ->
  forall s, s ∈ l -> exists o, a' !! s = Some o /\ price_ o = p /\ side_ladder (side_ o) = d /\
                              is_u32 (remaining_quantity_ o).
Proof.
  intros Hsr Hcore Hl s Hs.
  destruct (lr_order _ _ _ _ (sr_ladder _ _ Hsr d) p s (Hl s Hs)) as (o & Ho & Hp & Hd & Hq).
  destruct (same_core_lookup _ _ _ _ Hcore Ho) as (o' & Ho' & Hc). exists o'.
  change (price_ o') with (price_ (core o')). change (side_ o') with (side_ (core o')).
  change (remaining_quantity_ o') with (remaining_quantity_ (core o')). by rewrite Hc.
Qed.

(** Shared by [drop_if_filled] and [cancelOrder]: once the queue of a level has
    lost [s], releasing [s] restores the store. *)
Lemma store_rep_unlink b L d p s o l1 l2 a' q' :
  store_rep b L -> in_range p -> arena b !! s = Some o ->
  queue_of (lad d L) p = l1 ++ s :: l2 ->
  queue_rep a' q' (l1 ++ l2) -> queue_frame (arena b) a' (l1 ++ l2) ->
  store_rep (released s o a' d (<[level_index p := q']> (levels d b)) b)
            (upd d (set_queue p (l1 ++ l2) (lad d L)) L).
Proof.
  intros Hsr Hp Ho Hq Hrep [Hcore Hframe].
  assert (Hin : forall t, t ∈ l1 ++ l2 -> t ∈ queue_of (lad d L) p) by (rewrite Hq; set_solver).
  assert (Hflat' : flat d (set_queue p (l1 ++ l2) (lad d L)) =
                   (above d p (lad d L) ++ l1) ++ (l2 ++ below d p (lad d L)))
    by (rewrite flat_set by done; by rewrite <- !app_assoc).
  apply (store_rep_release b L d s o a' _ _ (above d p (lad d L) ++ l1) (l2 ++ below d p (lad d L)));
    try done.
  - rewrite (flat_split d p), Hq by done. by rewrite <- !app_assoc.
  - apply (ladder_rep_set (arena b)); [apply Hsr|done|done|by eapply level_orders|].
    intros q t Hne Ht. apply Hframe. intros Hin'.
    by apply (queue_levels_disjoint b L Hsr d p q t); [|apply Hin|].
  - intros t Ht. apply Hframe. rewrite Hflat' in Ht. set_solver.
Qed.

(** What [drop_if_filled] leaves of the head [s] of a level. *)
Definition after_drop (o : Order) (s : ptr) (l : list ptr) : list ptr :=
  if is_filled o then l else s :: l.

Lemma wp_drop_if_filled b L d p s l o (Q : unit -> Orderbook -> Prop) :
  store_rep b L -> in_range p -> queue_of (lad d L) p = s :: l -> arena b !! s = Some o ->
  (forall b', store_rep b' (upd d (set_queue p (after_drop o s l) (lad d L)) L) ->
              same_core (arena b) (arena b') -> same_meta b b' -> Q tt b') ->
  wp (drop_if_filled d (level_index p) s) Q b.
Proof.
  intros Hsr Hp Hq Ho HQ. unfold drop_if_filled, after_drop in *. wp_steps.
  apply (wp_get_order _ o); [done|]. apply wp_when; intros Hf; rewrite Hf in HQ.
  - destruct (flat_nodup_queue b L d p s l) as [Hnd Hnin]; [done..|].
    pose proof (level_rep b L d p Hsr Hp) as Hrep. rewrite Hq in Hrep.
    pose proof (queue_level_length b L Hsr d p Hp) as Hlen. rewrite Hq in Hlen.
    destruct (queue_pop_spec _ _ _ _ Hrep Hnd) as (a' & q' & Hpop & Hrep' & Hframe); [lia|].
    unfold level_pop. wp_steps. apply wp_read_level; [done|]. wp_steps.
    unfold wp at 1, of_res. rewrite Hpop. unfold write_level. wp_steps.
    apply (wp_get_order _ o).
    { destruct Hframe as [_ Hframe]. destruct d; simpl; by rewrite Hframe. }
    unfold erase_order, deallocate. wp_steps.
    pose proof (store_rep_unlink b L d p s o [] l a' q' Hsr Hp Ho Hq Hrep' Hframe) as Hrel.
    apply HQ; [by destruct d|by destruct Hframe; destruct d|].
    split; [intros []|]; by destruct d.
  - apply HQ; [|reflexivity|by split].
    rewrite <- Hq. replace (set_queue p _ _) with (lad d L); [by rewrite upd_lad|].
    unfold set_queue, queue_of in *. destruct (lad d L !! p) eqn:E; simpl in *; [|done].
    subst. by rewrite insert_id.
Qed.

(** * Best prices *)

(** [x] is the best price of the non-empty levels of [m]. *)
Definition is_best (d : ladder) (x : Z) (m : gmap Z (list ptr)) : Prop :=
  is_Some (m !! x) /\ forall p, is_Some (m !! p) -> before d p x = false.

(** No non-empty level of [m] trades before [x]. *)
Definition bounded_by (d : ladder) (x : Z) (m : gmap Z (list ptr)) : Prop :=
  in_range x /\ forall p, is_Some (m !! p) -> in_range p /\ before d p x = false.

Definition distance (d : ladder) (x : Z) : nat :=
  match d with Bids => Z.to_nat (x - MIN_PRICE) | Asks => Z.to_nat (MAX_PRICE - x) end.
Definition next_price (d : ladder) (x : Z) : Z := match d with Bids => x - 1 | Asks => x + 1 end.

Lemma bounded_next d x m : x <> worst_price d -> queue_of m x = [] ->
  (forall p l, m !! p = Some l -> l <> []) -> bounded_by d x m -> bounded_by d (next_price d x) m.
Proof.
  unfold queue_of. intros Hx Hq Hne [Hr Hb]. split.
  - unfold in_range in *. destruct d; simpl in *; lia.
  - intros p [l Hl]. destruct (Hb p ltac:(eauto)) as [Hp Hbp]. split; [done|].
    assert (p <> x) as Hpx.
    { intros ->. rewrite Hl in Hq. simpl in Hq. by eapply Hne. }
    unfold in_range in *. destruct d; simpl in *; lia.
Qed.

Lemma bounded_best d x m : bounded_by d x m -> queue_of m x <> [] -> is_best d x m.
Proof.
  unfold queue_of. intros [_ Hb] Hq. split; [|intros p Hp; by apply Hb].
  destruct (m !! x); [by eauto|done].
Qed.

Lemma bounded_worst d m : bounded_by d (worst_price d) m -> m <> ∅ -> is_best d (worst_price d) m.
Proof.
  intros [_ Hb] Hne. split; [|intros p Hp; by apply Hb].
  destruct (map_choose m Hne) as (p & l & Hp).
  destruct (Hb p ltac:(eauto)) as [Hr Hbp].
  assert (p = worst_price d) as <- by (unfold in_range in Hr; destruct d; simpl in *; lia).
  eauto.
Qed.

Lemma set_best_set_best d x y b : set_best d x (set_best d y b) = set_best d x b.
Proof. by destruct d. Qed.

Lemma next_price_facts d x m : x <> worst_price d -> bounded_by d x m ->
  u32 (next_price d x) = next_price d x /\ (distance d (next_price d x) < distance d x)%nat.
Proof.
  intros Hx [Hr _]. unfold in_range, MIN_PRICE, MAX_PRICE in *.
  rewrite u32_small; destruct d; unfold is_u32; simpl in *; unfold MIN_PRICE, MAX_PRICE in *; lia.
Qed.

(** One iteration of the two scanning loops, and the loops. *)
Section Scan.
Context (b : Orderbook) (m : gmap Z (list ptr)) (d : ladder) (Q : unit -> Orderbook -> Prop).
Hypothesis Hl : on_ladder b d m.
Hypothesis Hne : m <> ∅.
Hypothesis HQ : forall x, is_best d x m -> Q tt (set_best d x b).

Definition scan_inv (n : nat) (_ : unit) (b' : Orderbook) : Prop :=
  exists x, b' = set_best d x b /\ n = distance d x /\ bounded_by d x m.

Definition scan_post (r : unit + unit) (b' : Orderbook) (n : nat) : Prop :=
  match r with
  | inl u => exists n', (n' < n)%nat /\ scan_inv n' u b'
  | inr u => Q u b'
  end.

Lemma wp_scan_read x n :
  scan_inv n tt (set_best d x b) -> bounded_by d x m -> n = distance d x ->
  x <> worst_price d ->
  wp (q ← read_level d (level_index x);
      if queue_empty q then modify (set_best d (u32 (next_price d x)));; mret (inl tt)
      else mret (inr tt)) (fun r b' => scan_post r b' n) (set_best d x b).
Proof.
  intros _ Hb -> Hx. apply wp_bind.
  apply (wp_level_empty _ d m x); [auto with exch|exact (proj1 Hb)|]. intros q He _. rewrite He.
  destruct (next_price_facts d x _ Hx Hb) as [Hu Hd].
  case_bool_decide as Hq; wp_steps.
  - simpl. eexists. split; [exact Hd|]. exists (next_price d x).
    rewrite Hu, set_best_set_best. split_and!; [done|done|].
    apply bounded_next; [done|done| |done].
    intros p l Hp. by apply (on_ladder_level _ _ _ _ _ Hl) in Hp as [? _].
  - simpl. by apply HQ, bounded_best.
Qed.

Lemma wp_scan_end x : bounded_by d x m -> x = worst_price d -> Q tt (set_best d x b).
Proof. intros Hb ->. by apply HQ, bounded_worst. Qed.

End Scan.

Lemma wp_update_best b m d (Q : unit -> Orderbook -> Prop) :
  on_ladder b d m -> m <> ∅ -> bounded_by d (best_price d b) m ->
  (forall x, is_best d x m -> Q tt (set_best d x b)) ->
  wp (update_best d) Q b.
Proof.
  intros Hl Hne Hb HQ.
  assert (scan_inv b m d (distance d (best_price d b)) tt b) as HI.
  { exists (best_price d b). split_and!; [by destruct d, b|done|done]. }
  pose proof (proj1 Hb) as Hr. unfold in_range in Hr.
  destruct d; simpl; unfold update_best_bid, update_best_ask; wp_steps;
    (eapply (wp_loop (scan_inv b m _)); [|exact HI|simpl in *; lia]);
    intros n [] b' (x & -> & -> & Hbx); wp_steps.
  - change (best_bid_price_ (set_best Bids x b)) with x.
    destruct (Z.ltb_spec MIN_PRICE x) as [Hlt|Hge].
    + apply (wp_scan_read b m Bids); [done|done| |done|done|simpl; lia].
      exists x. done.
    + apply wp_ret, (wp_scan_end b m Bids); [done..|].
      destruct Hbx as [Hx _]. unfold in_range in Hx. simpl. lia.
  - change (best_ask_price_ (set_best Asks x b)) with x.
    destruct (Z.ltb_spec x MAX_PRICE) as [Hlt|Hge].
    + apply (wp_scan_read b m Asks); [done|done| |done|done|simpl; lia].
      exists x. done.
    + apply wp_ret, (wp_scan_end b m Asks); [done..|].
      destruct Hbx as [Hx _]. unfold in_range in Hx. simpl. lia.
Qed.

(** * Levels that empty *)

Lemma meta_best d x c m : meta_rep d x c m -> m <> ∅ -> is_best d x m.
Proof. intros [_ H] Hne. by rewrite decide_False in H. Qed.

Lemma meta_intro d x m : is_best d x m -> meta_rep d x (Z.of_nat (size m)) m.
Proof.
  intros Hb. constructor; [done|]. rewrite decide_False; [done|].
  intros ->. destruct Hb as [[l Hl] _]. by rewrite lookup_empty in Hl.
Qed.

Lemma set_queue_is_Some p l m q : l <> [] ->
  is_Some (set_queue p l m !! q) <-> q = p \/ is_Some (m !! q).
Proof.
  intros Hl. unfold set_queue. destruct l; [done|]. rewrite lookup_insert_is_Some. 
  destruct (decide (p = q)); naive_solver.
Qed.

Lemma meta_rep_keep d x c p l m :
  meta_rep d x c m -> is_Some (m !! p) -> l <> [] -> meta_rep d x c (set_queue p l m).
Proof.
  intros Hm Hp Hl. pose proof Hm as [Hc _].
  assert (m <> ∅) as Hne by (intros ->; destruct Hp as [? Hp]; by rewrite lookup_empty in Hp).
  assert (size (set_queue p l m) = size m) as Hs.
  { unfold set_queue. destruct l; [done|]. by rewrite map_size_insert_Some. }
  rewrite Hc, <- Hs. apply meta_intro.
  destruct (meta_best _ _ _ _ Hm Hne) as [Hx Hb]. split.
  - apply set_queue_is_Some; auto.
  - intros q Hq. apply set_queue_is_Some in Hq as [->|Hq]; auto.
Qed.

(** [--count; if (count == 0) best = worst; else k]. *)
Definition one_level_fewer (d : ladder) (k : Orderbook -> BM unit) : BM unit :=
  modify (fun b => set_count d (u64 (level_count d b - 1)) b);;
  b ← get;
  if (level_count d b =? 0)%Z then modify (set_best d (worst_price d)) else k b.

Lemma wp_one_level_fewer b m d p m0 k (Q : unit -> Orderbook -> Prop) :
  on_ladder b d m -> meta_rep d (best_price d b) (level_count d b) m0 ->
  m = delete p m0 -> is_Some (m0 !! p) ->
  (forall x c, meta_rep d x c m -> Q tt (set_best d x (set_count d c b))) ->
  (m <> ∅ -> let b' := set_count d (Z.of_nat (size m)) b in
   wp (k b') Q b') ->
  wp (one_level_fewer d k) Q b.
Proof.
  intros Hl Hm Hdel Hp HQ Hk. unfold one_level_fewer. wp_steps.
  assert (Hsize : Z.of_nat (size m0) = Z.of_nat (size m) + 1).
  { rewrite Hdel, map_size_delete_Some by done. destruct Hp as [l Hp].
    assert (size m0 <> O) by (by eapply map_size_ne_0_lookup_2). lia. }
  pose proof (size_le_LEVELS _ _ _ _ Hl) as Hle.
  unfold LEVELS, MIN_PRICE, MAX_PRICE in Hle.
  assert (Hc : u64 (level_count d b - 1) = Z.of_nat (size m)).
  { rewrite (mr_count _ _ _ _ Hm), u64_small; [lia|unfold is_u64; lia]. }
  rewrite Hc.
  assert (level_count d (set_count d (Z.of_nat (size m)) b) = Z.of_nat (size m)) as ->
    by (by destruct d).
  destruct (Z.eqb_spec (Z.of_nat (size m)) 0) as [Hz|Hnz].
  - wp_steps. apply HQ. assert (m = ∅) as -> by (apply map_size_empty_inv; lia).
    rewrite map_size_empty. apply meta_rep_empty.
  - apply Hk. intros Hemp. rewrite Hemp, map_size_empty in Hnz. lia.
Qed.

Lemma deleted_bounded b m d x m0 : on_ladder b d m -> m = delete x m0 -> in_range x ->
  is_best d x m0 -> bounded_by d x m.
Proof.
  intros Hl Hdel Hx [_ Hb]. split; [done|]. intros q [l Hq]. split.
  - by apply (on_ladder_level _ _ _ _ _ Hl) in Hq as [_ ?].
  - apply Hb. rewrite Hdel in Hq. apply lookup_delete_Some in Hq as [_ Hq]. eauto.
Qed.

Lemma best_price_set_count d c b : best_price d (set_count d c b) = best_price d b.
Proof. by destruct d. Qed.

Lemma map_nonempty {A} (m : gmap Z A) p : is_Some (m !! p) -> m <> ∅.
Proof. intros [a Ha] ->. by rewrite lookup_empty in Ha. Qed.

Lemma wp_retire_level b m d m0 (Q : unit -> Orderbook -> Prop) :
  on_ladder b d m -> meta_rep d (best_price d b) (level_count d b) m0 ->
  m = delete (best_price d b) m0 -> m0 <> ∅ -> in_range (best_price d b) ->
  (forall x c, meta_rep d x c m -> Q tt (set_best d x (set_count d c b))) ->
  wp (retire_level d) Q b.
Proof.
  intros Hl Hm Hdel Hne Hr HQ. pose proof (meta_best _ _ _ _ Hm Hne) as Hbest.
  apply (wp_one_level_fewer b m d (best_price d b) m0 (fun _ => update_best d));
    [done..|by destruct Hbest|done|].
  intros Hne'. simpl. apply (wp_update_best _ m); [auto with exch|done| |].
  - rewrite best_price_set_count. by apply (deleted_bounded b m d _ m0).
  - intros x Hx. by apply HQ, meta_intro.
Qed.

(** The level part of [cancelOrder], after the queue at [p] has become empty. *)
Lemma wp_cancel_level b m d p m0 (Q : unit -> Orderbook -> Prop) :
  on_ladder b d m -> meta_rep d (best_price d b) (level_count d b) m0 ->
  m = delete p m0 -> is_Some (m0 !! p) -> in_range p ->
  (forall x c, meta_rep d x c m -> Q tt (set_best d x (set_count d c b))) ->
  wp (one_level_fewer d (fun b' => when (p =? best_price d b') (update_best d))) Q b.
Proof.
  intros Hl Hm Hdel Hp Hr HQ. pose proof (meta_best _ _ _ _ Hm (map_nonempty _ _ Hp)) as Hbest.
  apply (wp_one_level_fewer b m d p m0); [done..|]. intros Hne'. simpl.
  rewrite best_price_set_count. apply wp_when.
  - intros ->%Z.eqb_eq. apply (wp_update_best _ m); [auto with exch|done| |].
    + rewrite best_price_set_count. by apply (deleted_bounded b m d _ m0).
    + intros x Hx. by apply HQ, meta_intro.
  - intros Hx%Z.eqb_neq. 
    assert (set_count d (Z.of_nat (size m)) b =
            set_best d (best_price d b) (set_count d (Z.of_nat (size m)) b)) as ->
      by (by destruct d, b).
    apply HQ, meta_intro. rewrite Hdel. destruct Hbest as [Hb1 Hb2]. split.
    + by rewrite lookup_delete_ne.
    + intros q [l Hq]. apply lookup_delete_Some in Hq as [_ Hq]. eauto.
Qed.

(** * The specification's view of a change *)

Lemma s_orders_abs b L d : s_orders d (abs b L) = view (arena b) (flat d (lad d L)).
Proof. by destruct d. Qed.

Lemma SBook_ext A A' d : s_orders d A = s_orders d A' ->
  s_orders (opposite d) A = s_orders (opposite d) A' -> s_capacity A = s_capacity A' -> A = A'.
Proof. destruct A, A', d; simpl; congruence. Qed.

Lemma s_remove_none id l : (forall x, x ∈ l -> id_ x <> id) -> s_remove id l = l.
Proof.
  induction l as [|x l IH]; intros H; [done|]. unfold s_remove.
  rewrite filter_cons_True by (apply H; set_solver). f_equal. apply IH. set_solver.
Qed.

Lemma s_orders_s_cancel id A d : s_orders d (s_cancel id A) = s_remove id (s_orders d A).
Proof. by destruct d. Qed.

Section Ids.
Context (b : Orderbook) (L : ladders) (s : ptr) (o : Order).
Hypothesis Hsr : store_rep b L.
Hypothesis Hs : s ∈ slots L.
Hypothesis Ho : arena b !! s = Some o.

Lemma view_id_ne (l : list ptr) : (forall t, t ∈ l -> t ∈ slots L /\ t <> s) ->
  forall x, x ∈ view (arena b) l -> id_ x <> id_ o.
Proof.
  intros Hl x (t & Ht & ->)%elem_of_view. destruct (Hl t Ht) as [Hts Hne].
  destruct (slot_order b L Hsr t Hts) as (o' & Ho' & _).
  rewrite (list_lookup_total_correct _ _ (core o')) by (by rewrite list_lookup_fmap, Ho').
  change (id_ (core o')) with (id_ o'). intros Heq. apply Hne.
  by apply (slot_ids b L Hsr t s o' o).
Qed.

Lemma s_remove_view d l1 l2 : flat d (lad d L) = l1 ++ s :: l2 ->
  s_remove (id_ o) (view (arena b) (flat d (lad d L))) = view (arena b) (l1 ++ l2).
Proof.
  intros Hf. pose proof (flat_NoDup b L Hsr d) as Hnd. rewrite Hf in *.
  apply NoDup_app in Hnd as (_ & Hd & Hnd). apply NoDup_cons in Hnd as [Hnin _].
  assert (Hslot : forall t, t ∈ l1 ++ l2 -> t ∈ slots L /\ t <> s).
  { intros t Ht. split.
    - apply (flat_slot L d). rewrite Hf. set_solver.
    - intros ->. apply elem_of_app in Ht as [Ht|Ht]; [|done]. apply (Hd s Ht). set_solver. }
  rewrite !view_app, (view_cons _ _ _ o) by done. unfold s_remove. rewrite filter_app.
  f_equal; [|rewrite filter_cons_False by (simpl; by intros [])];
    apply s_remove_none; apply view_id_ne; intros t Ht; apply Hslot; set_solver.
Qed.

Lemma s_remove_view_opposite d : s ∈ flat d (lad d L) ->
  s_remove (id_ o) (view (arena b) (flat (opposite d) (lad (opposite d) L))) =
  view (arena b) (flat (opposite d) (lad (opposite d) L)).
Proof.
  intros Hd. apply s_remove_none, view_id_ne. intros t Ht.
  split; [by eapply flat_slot|]. intros ->. by apply (flat_disjoint b L Hsr d s).
Qed.

End Ids.

(** * Cancelling *)

Definition meta_set (d : ladder) (x c : Z) (b : Orderbook) : Orderbook :=
  set_best d x (set_count d c b).

Lemma book_rep_meta b L d x c :
  store_rep b L -> meta_rep d x c (lad d L) -> meta_ok b L (opposite d) ->
  book_rep (meta_set d x c b) L.
Proof.
  intros Hsr Hm Ho. constructor; [unfold meta_set; auto with exch|].
  intros d'. unfold meta_ok. destruct (ladder_cases d d') as [->| ->]; by destruct d.
Qed.

Lemma queue_of_empty_delete p l m : queue_of (set_queue p l m) p = [] -> set_queue p l m = delete p m.
Proof. rewrite queue_of_set_eq. by intros ->. Qed.

Lemma queue_of_nonempty m p s : s ∈ queue_of m p -> is_Some (m !! p).
Proof. unfold queue_of. destruct (m !! p); [by eauto|set_solver]. Qed.

(** The level bookkeeping of [cancelOrder]: afterwards best price and count are
    right for the ladder without the order. *)
Lemma wp_cancel_meta b d p l m q :
  on_ladder b d (set_queue p l m) -> meta_rep d (best_price d b) (level_count d b) m ->
  is_Some (m !! p) -> in_range p -> queue_empty q = bool_decide (l = []) ->
  wp (when (queue_empty q)
        (modify (fun b => set_count d (u64 (level_count d b - 1)) b);;
         b ← get;
         if (level_count d b =? 0)%Z then modify (set_best d (worst_price d))
         else when (p =? best_price d b)%Z (update_best d)))
     (fun _ b' => exists x c, b' = meta_set d x c b /\ meta_rep d x c (set_queue p l m)) b.
Proof.
  intros Hl Hm Hp Hr ->. apply wp_when; rewrite ?bool_decide_eq_true, ?bool_decide_eq_false.
  - intros ->. apply (wp_cancel_level b (delete p m) d p m); [done..|]. intros x c Hx. eauto.
  - intros Hne. exists (best_price d b), (level_count d b).
    split; [by destruct d, b|]. by apply meta_rep_keep.
Qed.

Lemma abs_unlink b b' L d s o l1 l2 L' :
  store_rep b L -> s ∈ flat d (lad d L) -> arena b !! s = Some o ->
  flat d (lad d L) = l1 ++ s :: l2 -> flat d (lad d L') = l1 ++ l2 ->
  lad (opposite d) L' = lad (opposite d) L -> same_core (arena b) (arena b') ->
  abs b' L' = s_cancel (id_ o) (abs b L).
Proof.
  intros Hsr Hd Ho Hf Hf' Hopp Hcore. pose proof (flat_slot L d s Hd) as Hs.
  apply (SBook_ext _ _ d); rewrite ?s_orders_s_cancel, ?s_orders_abs.
  - rewrite (s_remove_view b L s o Hsr Hs Ho d l1 l2 Hf), Hf'. by apply view_same_core.
  - rewrite (s_remove_view_opposite b L s o Hsr Hs Ho d Hd), Hopp. by apply view_same_core.
  - simpl. by apply same_core_length.
Qed.

Lemma wp_cancel b L id s o (Q : unit -> Orderbook -> Prop) :
  book_rep b L -> orders_ b !! id = Some s -> arena b !! s = Some o ->
  (forall b' L', book_rep b' L' -> abs b' L' = s_cancel id (abs b L) ->
                 out_ring_ b' = out_ring_ b -> Q tt b') ->
  wp (cancelOrder id) Q b.
Proof.
  intros [Hsr Hmeta] Hid Ho HQ.
  apply (sr_orders _ _ Hsr) in Hid as Hslot. destruct Hslot as (Hs & o' & Ho' & <-).
  replace o' with o in * by congruence. clear o' Ho'.
  apply elem_of_slots in Hs as Hd. destruct Hd as [d Hd].
  destruct (flat_order _ _ _ _ (sr_ladder _ _ Hsr d) s Hd) as (o' & Ho' & Hqs & Hp & Hside & _).
  replace o' with o in * by congruence. clear o' Ho'. set (p := price_ o) in *.
  apply list_elem_of_split in Hqs as Hsplit. destruct Hsplit as (l1 & l2 & Hq).
  pose proof (level_rep b L d p Hsr Hp) as Hrep. rewrite Hq in Hrep.
  pose proof (queue_level_NoDup b L Hsr d p Hp) as Hnd. rewrite Hq in Hnd.
  pose proof (queue_level_length b L Hsr d p Hp) as Hlen. rewrite Hq in Hlen.
  destruct (queue_remove_spec _ _ _ _ _ Hrep Hnd) as (a' & q' & Hrem & Hrep' & Hframe); [lia|].
  pose proof (store_rep_unlink b L d p s o l1 l2 a' q' Hsr Hp Ho Hq Hrep' Hframe) as Hrel.
  set (m' := set_queue p (l1 ++ l2) (lad d L)) in *.
  set (lv' := <[level_index p := q']> (levels d b)) in *.
  unfold cancelOrder. wp_steps. rewrite Hid. wp_steps. apply (wp_get_order _ o); [done|].
  fold (side_ladder (side_ o)). rewrite Hside. fold p.
  unfold level_remove. wp_steps. apply wp_read_level; [done|]. wp_steps.
  unfold wp at 1, of_res. rewrite Hrem. unfold write_level. wp_steps.
  assert (levels d (set_arena a' b) = levels d b) as Elv by (by destruct d).
  cbn [fst snd]. rewrite Elv. fold lv'. set (b1 := set_levels d lv' (set_arena a' b)).
  assert (on_ladder b1 d m') as Hl1.
  { pose proof (sr_ladder _ _ Hrel d) as H. rewrite lad_upd_eq in H. by destruct d. }
  apply (wp_level_empty b1 d m'); [done..|]. intros q Hqe _. unfold m' in Hqe.
  rewrite queue_of_set_eq in Hqe. wp_steps. eapply wp_mono.
  { apply (wp_cancel_meta b1 d p (l1 ++ l2) (lad d L)); [done| | |done|done].
    - by destruct d; apply Hmeta.
    - by eapply queue_of_nonempty. }
  intros [] b2 (x & c & -> & Hm). unfold erase_order, deallocate. wp_steps.
  apply (HQ _ (upd d m' L)).
  - replace (set_pool _ _) with (meta_set d x c (released s o a' d lv' b)) by (by destruct d).
    apply book_rep_meta; [done|by rewrite lad_upd_eq|].
    unfold meta_ok. rewrite lad_upd_opposite. destruct d; apply Hmeta.
  - apply (abs_unlink b _ L d s o (above d p (lad d L) ++ l1) (l2 ++ below d p (lad d L)));
      [done|done|done| | | |].
    + rewrite (flat_split d p), Hq by done. by rewrite <- !app_assoc.
    + rewrite lad_upd_eq. unfold m'. rewrite flat_set by done. by rewrite <- !app_assoc.
    + apply lad_upd_opposite.
    + destruct Hframe as [Hcore _]. by destruct d.
  - by destruct d.
Qed.
