(* ===== verification/Match.v ===== *)
(** Matching implements the specification: the loops of [matchOrders] compute
    [cross], the loop of [matchMarket] computes [sweep], both within the fuel
    [Book] gives them, and push to the outbound ring exactly the messages the
    specification lists, in its order. *)

From S2P Require Import Prelude Types Ring Pool Book Spec Ladder Refine.

Local Open Scope Z_scope.

(** * Definitions *)

(** A prefix of the messages of a crossing. *)
Definition prepend (ms : list OutboundMessage)
    (x : list Order * list Order * list OutboundMessage) : list Order * list Order * list OutboundMessage :=
  (x.1.1, x.1.2, ms ++ x.2).

(** The priority list of one side, concretely. *)
Definition side_view (d : ladder) (b : Orderbook) (L : ladders) : list Order :=
  view (arena b) (flat d (lad d L)).

(** [b'] is [b] after trades that sent [ms]; what is left to cross in [b] is what
    is left to cross in [b']. *)
Record traded (b : Orderbook) (L : ladders) (ms : list OutboundMessage)
    (b' : Orderbook) (L' : ladders) : Prop := {
  td_rep : book_rep b' L';
  td_out : out_ring_ b' = push_all ms (out_ring_ b);
  td_arena : length (arena b') = length (arena b);
  td_cross : cross (side_view Bids b L) (side_view Asks b L) =
             prepend ms (cross (side_view Bids b' L') (side_view Asks b' L'));
  td_slots : (length (slots L') + (if decide (ms = []) then 0 else 1) <= length (slots L))%nat
}.

(** * The view of one side *)

Lemma view_ext a a' l :
  (forall t, t ∈ l -> core <$> a' !! t = core <$> a !! t) -> view a' l = view a l.
Proof.
  intros H. unfold view. apply list_fmap_ext. intros i t Ht%list_elem_of_lookup_2.
  by rewrite !list_lookup_total_alt, !list_lookup_fmap, H.
Qed.

Section Side.
Context (b : Orderbook) (L : ladders) (d : ladder) (p : Z) (s : ptr) (l : list ptr) (o : Order).
Hypothesis Hsr : store_rep b L.
Hypothesis Hp : in_range p.
Hypothesis Hbest : is_best d p (lad d L).
Hypothesis Hq : queue_of (lad d L) p = s :: l.
Hypothesis Ho : arena b !! s = Some o.

(** What trades after the head of the best level. *)
Definition behind : list Order := view (arena b) (l ++ below d p (lad d L)).

Lemma flat_best : flat d (lad d L) = s :: l ++ below d p (lad d L).
Proof.
  rewrite (flat_split d p), Hq by exact Hp. rewrite above_best; [done|exact Hp|].
  exact (proj2 Hbest).
Qed.

Lemma side_view_best : side_view d b L = core o :: behind.
Proof. unfold side_view. rewrite flat_best. exact (view_cons _ _ _ _ Ho). Qed.

Lemma head_fresh : s ∉ l ++ below d p (lad d L).
Proof.
  pose proof (flat_NoDup b L Hsr d) as H. rewrite flat_best in H.
  by apply NoDup_cons in H as [H _].
Qed.

(** Filling the head by [q] and dropping it if filled. *)
Lemma side_view_consumed b' L' q :
  core <$> arena b' !! s = Some (core (reduce q o)) ->
  (forall t, t ∈ l ++ below d p (lad d L) -> core <$> arena b' !! t = core <$> arena b !! t) ->
  lad d L' = set_queue p (after_drop (reduce q o) s l) (lad d L) ->
  side_view d b' L' = consume q (core o) behind.
Proof.
  intros Hs Hrest HL. unfold side_view. rewrite HL, flat_set by exact Hp.
  rewrite above_best by (exact Hp || exact (proj2 Hbest)). simpl.
  unfold after_drop, consume, behind.
  change (is_filled (reduce q (core o))) with (is_filled (reduce q o)).
  destruct (is_filled (reduce q o)).
  - by apply view_ext.
  - destruct (arena b' !! s) as [o'|] eqn:E; [|done]. apply (inj Some) in Hs.
    change ((s :: l) ++ below d p (lad d L)) with (s :: (l ++ below d p (lad d L))).
    rewrite (view_cons _ _ _ o') by done. rewrite Hs. f_equal. by apply view_ext.
Qed.

End Side.

(** * Retiring the level of the best price *)

(** [wp_retire_level] as the loops use it: after the head of the best level was
    consumed, best price and count are right for what is left of the level. *)
Lemma wp_retire_if b d l' m q :
  on_ladder b d (set_queue (best_price d b) l' m) ->
  meta_rep d (best_price d b) (level_count d b) m ->
  is_Some (m !! best_price d b) -> in_range (best_price d b) ->
  queue_empty q = bool_decide (l' = []) ->
  wp (when (queue_empty q) (retire_level d))
     (fun _ b' => exists x c, b' = meta_set d x c b /\
                  meta_rep d x c (set_queue (best_price d b) l' m) /\
                  (l' <> [] -> x = best_price d b)) b.
Proof.
  intros Hl Hm Hp Hr ->. apply wp_when; rewrite ?bool_decide_eq_true, ?bool_decide_eq_false.
  - intros ->. apply (wp_retire_level b (delete (best_price d b) m) d m);
      [exact Hl|exact Hm|reflexivity|by eapply map_nonempty|exact Hr|].
    intros x c Hx. exists x, c. split_and!; [done|exact Hx|done].
  - intros Hne. exists (best_price d b), (level_count d b).
    split_and!; [by destruct d, b|by apply meta_rep_keep|done].
Qed.

Lemma store_rep_meta b L d x c : store_rep b L -> store_rep (meta_set d x c b) L.
Proof. unfold meta_set. auto with exch. Qed.

Lemma store_on_ladder b L d : store_rep b L -> on_ladder b d (lad d L).
Proof. intros Hsr. apply (sr_ladder _ _ Hsr). Qed.

Lemma store_rep_reduce b L s o q :
  store_rep b L -> arena b !! s = Some o -> 0 <= q <= remaining_quantity_ o ->
  is_u32 (remaining_quantity_ o) ->
  store_rep (set_arena (<[s := reduce q o]> (arena b)) b) L.
Proof.
  intros Hsr Ho Hq Hr. apply (store_rep_update b L s o); [done..|].
  unfold is_u32 in *. simpl. lia.
Qed.

Lemma is_filled_core o o' : core o' = core o -> is_filled o' = is_filled o.
Proof.
  intros H. change (is_filled (core o') = is_filled (core o)). by rewrite H.
Qed.

Lemma after_drop_core o o' s l : core o' = core o -> after_drop o' s l = after_drop o s l.
Proof. unfold after_drop. intros H. by rewrite (is_filled_core _ _ H). Qed.

(** * One trade of two resting orders *)

Lemma wp_push_out m (Q : unit -> Orderbook -> Prop) b :
  Q tt (set_out_ring (push_all [m] (out_ring_ b)) b) -> wp (push_out m) Q b.
Proof. intros H. unfold push_out. by wp_steps. Qed.

Section Trade.
Context (b : Orderbook) (L : ladders) (pb pa : Z) (sb sa : ptr) (lb la : list ptr) (ob oa : Order).
Hypothesis Hsr : store_rep b L.
Hypothesis Hpb : in_range pb.
Hypothesis Hpa : in_range pa.
Hypothesis Hqb : queue_of (on_bids L) pb = sb :: lb.
Hypothesis Hqa : queue_of (on_asks L) pa = sa :: la.
Hypothesis Hob : arena b !! sb = Some ob.
Hypothesis Hoa : arena b !! sa = Some oa.

Lemma bid_slot : sb ∈ flat Bids (on_bids L).
Proof.
  apply (elem_of_flat_queue _ _ _ _ (sr_ladder _ _ Hsr Bids) pb). simpl. rewrite Hqb. set_solver.
Qed.
Lemma ask_slot : sa ∈ flat Asks (on_asks L).
Proof.
  apply (elem_of_flat_queue _ _ _ _ (sr_ladder _ _ Hsr Asks) pa). simpl. rewrite Hqa. set_solver.
Qed.
Lemma bid_ne_ask : sb <> sa.
Proof. intros E. apply (flat_disjoint b L Hsr Bids sb bid_slot). rewrite E. exact ask_slot. Qed.

Lemma head_quantities : is_u32 (remaining_quantity_ ob) /\ is_u32 (remaining_quantity_ oa).
Proof.
  destruct (slot_order b L Hsr sb (flat_slot L Bids sb bid_slot)) as (o & Ho & H1).
  destruct (slot_order b L Hsr sa (flat_slot L Asks sa ask_slot)) as (o' & Ho' & H2).
  split; congruence.
Qed.

Definition trade_arena (q : Z) : list Order :=
  <[sa := reduce q oa]> (<[sb := reduce q ob]> (arena b)).
Definition trade_ladders (q : Z) : ladders :=
  mkLadders (set_queue pb (after_drop (reduce q ob) sb lb) (on_bids L))
            (set_queue pa (after_drop (reduce q oa) sa la) (on_asks L)).

Lemma wp_trade {A : Type} (k : BM A) (Q : A -> Orderbook -> Prop) q m1 m2 :
  0 <= q <= remaining_quantity_ ob -> 0 <= q <= remaining_quantity_ oa ->
  (forall b', store_rep b' (trade_ladders q) -> same_core (trade_arena q) (arena b') ->
     (forall d, best_price d b' = best_price d b /\ level_count d b' = level_count d b) ->
     out_ring_ b' = push_all [m1; m2] (out_ring_ b) -> wp k Q b') ->
  wp (fill_order sb q;; fill_order sa q;; push_out m1;; push_out m2;;
      drop_if_filled Bids (level_index pb) sb;; drop_if_filled Asks (level_index pa) sa;; k) Q b.
Proof.
  intros Hq1 Hq2 HQ. pose proof head_quantities as [Hu1 Hu2]. pose proof bid_ne_ask as Hne.
  apply lookup_lt_Some in Hob as Hltb. apply lookup_lt_Some in Hoa as Hlta.
  apply wp_bind, (wp_fill_order _ _ ob); [done..|].
  pose proof (store_rep_reduce b L sb ob q Hsr Hob Hq1 Hu1) as Hsr1.
  set (b1 := set_arena _ b) in *.
  assert (Hoa1 : arena b1 !! sa = Some oa) by (simpl; by rewrite list_lookup_insert_ne).
  apply wp_bind, (wp_fill_order _ _ oa); [done..|].
  pose proof (store_rep_reduce b1 L sa oa q Hsr1 Hoa1 Hq2 Hu2) as Hsr2.
  set (b2 := set_arena _ b1) in *.
  apply wp_bind, wp_push_out, wp_bind, wp_push_out. set (b3 := set_out_ring _ _).
  assert (Hsr3 : store_rep b3 L) by (apply store_rep_set_out, store_rep_set_out; exact Hsr2).
  apply wp_bind, (wp_drop_if_filled b3 L Bids pb sb lb (reduce q ob)); [done..| |].
  { simpl. rewrite list_lookup_insert_ne by done. by rewrite list_lookup_insert_eq. }
  intros b4 Hsr4 Hcore4 [Hmeta4 Hout4].
  assert (arena b3 !! sa = Some (reduce q oa)) as Hoa3.
  { simpl. rewrite list_lookup_insert_eq; [done|]. by rewrite length_insert. }
  destruct (same_core_lookup _ _ _ _ Hcore4 Hoa3) as (oa4 & Hoa4 & Hc4).
  apply wp_bind, (wp_drop_if_filled b4 _ Asks pa sa la oa4 _ Hsr4); [done..|].
  intros b5 Hsr5 Hcore5 [Hmeta5 Hout5]. rewrite (after_drop_core _ _ _ _ Hc4) in Hsr5.
  apply HQ; [exact Hsr5|by transitivity (arena b4)| |].
  - intros d. destruct (Hmeta5 d) as [-> ->], (Hmeta4 d) as [-> ->]. by destruct d.
  - by rewrite Hout5, Hout4.
Qed.

(** What a trade at the best prices does to the two priority lists. *)
Lemma traded_side b' d s p (l : list ptr) o q L' :
  in_range p -> is_best d p (lad d L) ->
  core <$> trade_arena q !! s = Some (core (reduce q o)) ->
  (forall t, t ∈ l ++ below d p (lad d L) -> t <> sb /\ t <> sa) ->
  same_core (trade_arena q) (arena b') ->
  lad d L' = set_queue p (after_drop (reduce q o) s l) (lad d L) ->
  side_view d b' L' = consume q (core o) (behind b L d p l).
Proof.
  intros Hr Hbest Hs Hrest Hcore HL.
  assert (Hlook : forall t, core <$> arena b' !! t = core <$> trade_arena q !! t).
  { intros t. rewrite <- !list_lookup_fmap. by rewrite Hcore. }
  apply (side_view_consumed b L d p s l o); [exact Hr|exact Hbest| | |exact HL].
  - by rewrite Hlook.
  - intros t Ht. destruct (Hrest t Ht) as [Hnb Hna]. rewrite Hlook. unfold trade_arena.
    by rewrite !list_lookup_insert_ne by congruence.
Qed.

Hypothesis Hbestb : is_best Bids pb (on_bids L).
Hypothesis Hbesta : is_best Asks pa (on_asks L).

Lemma trade_views b' q :
  same_core (trade_arena q) (arena b') ->
  side_view Bids b' (trade_ladders q) = consume q (core ob) (behind b L Bids pb lb) /\
  side_view Asks b' (trade_ladders q) = consume q (core oa) (behind b L Asks pa la).
Proof.
  intros Hcore. pose proof bid_ne_ask as Hne.
  apply lookup_lt_Some in Hob as Hltb. apply lookup_lt_Some in Hoa as Hlta.
  assert (Hother : forall d t, t ∈ flat d (lad d L) -> t ∉ flat (opposite d) (lad (opposite d) L))
    by (apply (flat_disjoint b L Hsr)).
  pose proof (flat_best L Bids pb sb lb Hpb Hbestb Hqb) as Hfb.
  pose proof (flat_best L Asks pa sa la Hpa Hbesta Hqa) as Hfa. simpl in Hfa, Hfb.
  split.
  - apply (traded_side b' Bids sb); [exact Hpb|exact Hbestb| | |exact Hcore|reflexivity].
    + unfold trade_arena. rewrite list_lookup_insert_ne by done.
      by rewrite list_lookup_insert_eq.
    + intros t Ht. split.
      * intros ->. by apply (head_fresh b L Bids pb sb lb Hsr Hpb Hbestb Hqb).
      * intros ->. apply (Hother Asks sa); [exact ask_slot|]. simpl. rewrite Hfb. by right.
  - apply (traded_side b' Asks sa); [exact Hpa|exact Hbesta| | |exact Hcore|reflexivity].
    + unfold trade_arena. by rewrite list_lookup_insert_eq by (by rewrite length_insert).
    + intros t Ht. split.
      * intros ->. apply (Hother Bids sb); [exact bid_slot|]. simpl. rewrite Hfa. by right.
      * intros ->. by apply (head_fresh b L Asks pa sa la Hsr Hpa Hbesta Hqa).
Qed.

Lemma length_after_drop o s (l : list ptr) : (length (after_drop o s l) <= S (length l))%nat.
Proof. unfold after_drop. destruct (is_filled o); simpl; lia. Qed.

Lemma after_drop_exhausted o s (l : list ptr) q : q = remaining_quantity_ o ->
  after_drop (reduce q o) s l = l.
Proof. intros ->. unfold after_drop, is_filled, reduce. simpl. by rewrite Z.sub_diag. Qed.

Lemma length_set_queue d p m (l l' : list ptr) : in_range p -> queue_of m p = l ->
  (length (flat d (set_queue p l' m)) + length l = length (flat d m) + length l')%nat.
Proof.
  intros Hr <-. rewrite flat_set, (flat_split d p m), !length_app by exact Hr. lia.
Qed.

(** Every trade takes at least one order off the book. *)
Lemma trade_slots q :
  q = Z.min (remaining_quantity_ ob) (remaining_quantity_ oa) ->
  (length (slots (trade_ladders q)) < length (slots L))%nat.
Proof.
  intros Hq. unfold slots, trade_ladders. simpl. rewrite !length_app.
  pose proof (length_set_queue Bids pb _ _ (after_drop (reduce q ob) sb lb) Hpb Hqb) as H1.
  pose proof (length_set_queue Asks pa _ _ (after_drop (reduce q oa) sa la) Hpa Hqa) as H2.
  pose proof (length_after_drop (reduce q ob) sb lb) as H3.
  pose proof (length_after_drop (reduce q oa) sa la) as H4. rewrite length_cons in H1, H2.
  destruct (Z.min_spec (remaining_quantity_ ob) (remaining_quantity_ oa)) as [[_ E]|[_ E]].
  - rewrite (after_drop_exhausted ob sb lb q) in H1 |- * by congruence. lia.
  - rewrite (after_drop_exhausted oa sa la q) in H2 |- * by congruence. lia.
Qed.

Hypothesis Hpbe : best_price Bids b = pb.
Hypothesis Hpae : best_price Asks b = pa.
Hypothesis Hmeta : forall d, meta_ok b L d.

(** The rest of the loop body after the orders were dropped. *)
Lemma wp_after_trade b' q (Q : (bool * bool) + (bool * bool) -> Orderbook -> Prop) :
  store_rep b' (trade_ladders q) ->
  (forall d, best_price d b' = best_price d b /\ level_count d b' = level_count d b) ->
  (forall b'', book_rep b'' (trade_ladders q) -> pool_ b'' = pool_ b' ->
     out_ring_ b'' = out_ring_ b' ->
     Q (inr (true, true)) b'' /\
     (best_price Bids b'' = pb -> best_price Asks b'' = pa ->
      is_Some (lad Bids (trade_ladders q) !! pb) -> is_Some (lad Asks (trade_ladders q) !! pa) ->
      Q (inl (true, true)) b'')) ->
  wp (highest_bids' ← read_level Bids (level_index pb);
      lowest_asks' ← read_level Asks (level_index pa);
      let bid_level_done := queue_empty highest_bids' in
      let ask_level_done := queue_empty lowest_asks' in
      when bid_level_done (retire_level Bids);;
      when ask_level_done (retire_level Asks);;
      if bid_level_done || ask_level_done then mret (inr (true, true))
      else mret (inl (true, true))) Q b'.
Proof.
  intros Hsr' Hsame HQ.
  destruct (Hsame Bids) as [Hb1 Hc1], (Hsame Asks) as [Hb2 Hc2].
  pose proof (store_on_ladder b' _ Bids Hsr') as Hlb.
  pose proof (store_on_ladder b' _ Asks Hsr') as Hla.
  apply wp_bind, (wp_level_empty b' Bids _ pb _ Hlb Hpb). intros qb Eqb _.
  apply wp_bind, (wp_level_empty b' Asks _ pa _ Hla Hpa). intros qa Eqa _. cbv zeta.
  simpl in Eqb, Eqa. rewrite queue_of_set_eq in Eqb, Eqa.
  rewrite Hpbe in Hb1. rewrite Hpae in Hb2.
  pose proof (Hmeta Bids) as HmB. pose proof (Hmeta Asks) as HmA. unfold meta_ok in HmB, HmA.
  rewrite Hpbe in HmB. rewrite Hpae in HmA. rewrite <- Hc1 in HmB. rewrite <- Hc2 in HmA.
  eapply wp_bind, wp_mono.
  { apply (wp_retire_if b' Bids (after_drop (reduce q ob) sb lb) (on_bids L) qb); rewrite ?Hb1;
      [exact Hlb|exact HmB|exact (proj1 Hbestb)|exact Hpb|exact Eqb]. }
  intros [] b1 (x & c & -> & Hm1 & Hx). rewrite Hb1 in Hm1, Hx.
  set (b1 := meta_set Bids x c b').
  assert (Hla1 : on_ladder b1 Asks (set_queue pa (after_drop (reduce q oa) sa la) (on_asks L)))
    by exact Hla.
  assert (HmA1 : meta_rep Asks pa (level_count Asks b1) (on_asks L)) by exact HmA.
  assert (Hb3 : best_price Asks b1 = pa) by exact Hb2.
  eapply wp_bind, wp_mono.
  { apply (wp_retire_if b1 Asks (after_drop (reduce q oa) sa la) (on_asks L) qa); rewrite ?Hb3;
      [exact Hla1|exact HmA1|exact (proj1 Hbesta)|exact Hpa|exact Eqa]. }
  intros [] b2 (y & c' & -> & Hm2 & Hy). rewrite Hb3 in Hm2, Hy.
  destruct (HQ (meta_set Asks y c' b1)) as [HQr HQl]; [|done|done|].
  { apply book_rep_meta; [by apply store_rep_meta|exact Hm2|exact Hm1]. }
  rewrite Eqb, Eqa. destruct (bool_decide_reflect (after_drop (reduce q ob) sb lb = [])) as [_|Nb];
    [exact HQr|]. simpl.
  destruct (bool_decide_reflect (after_drop (reduce q oa) sa la = [])) as [_|Na]; [exact HQr|].
  apply HQl; simpl; [by apply Hx|by apply Hy|..]; apply set_queue_is_Some; auto.
Qed.

End Trade.

(** * The loops of [matchOrders] *)

Lemma level_head b L d p : store_rep b L -> is_Some (lad d L !! p) ->
  in_range p /\ exists s l o, queue_of (lad d L) p = s :: l /\ arena b !! s = Some o /\
                              price_ o = p /\ is_u32 (remaining_quantity_ o).
Proof.
  intros Hsr [q Hq]. pose proof (store_on_ladder b L d Hsr) as Hl.
  destruct (on_ladder_level _ _ _ _ _ Hl Hq) as [Hne Hp]. split; [exact Hp|].
  rewrite (queue_of_Some _ _ _ Hq). destruct q as [|s l]; [done|].
  destruct (lr_order _ _ _ _ Hl p s) as (o & Ho & Hpo & _ & Hu).
  { rewrite (queue_of_Some _ _ _ Hq). by left. }
  exists s, l, o. done.
Qed.

Lemma book_best b L d p : book_rep b L -> best_price d b = p -> is_Some (lad d L !! p) ->
  is_best d p (lad d L).
Proof.
  intros [_ Hm] <- Hp. apply (meta_best _ _ _ _ (Hm d)). by eapply map_nonempty.
Qed.

Lemma wp_match_front b L pb pa flags (Q : (bool * bool) + (bool * bool) -> Orderbook -> Prop) :
  book_rep b L -> best_price Bids b = pb -> best_price Asks b = pa ->
  is_Some (lad Bids L !! pb) -> is_Some (lad Asks L !! pa) ->
  (pb < pa -> Q (inr flags) b) ->
  (forall b' L' ms, ms <> [] -> traded b L ms b' L' ->
     Q (inr (true, true)) b' /\
     (best_price Bids b' = pb -> best_price Asks b' = pa ->
      is_Some (lad Bids L' !! pb) -> is_Some (lad Asks L' !! pa) -> Q (inl (true, true)) b')) ->
  wp (match_front (level_index pb) (level_index pa) flags) Q b.
Proof.
  intros Hrep Eb Ea Hnb Hna HQ0 HQ.
  pose proof (br_store _ _ Hrep) as Hsr.
  destruct (level_head b L Bids pb Hsr Hnb) as (Hpb & sb & lb & ob & Hqb & Hob & Hpob & Hub).
  destruct (level_head b L Asks pa Hsr Hna) as (Hpa & sa & la & oa & Hqa & Hoa & Hpoa & Hua).
  pose proof (book_best b L Bids pb Hrep Eb Hnb) as Hbb.
  pose proof (book_best b L Asks pa Hrep Ea Hna) as Hba.
  unfold match_front.
  apply wp_bind, (wp_level_empty b Bids _ pb _ (store_on_ladder _ _ _ Hsr) Hpb). intros qb _ ->.
  apply wp_bind, (wp_level_empty b Asks _ pa _ (store_on_ladder _ _ _ Hsr) Hpa). intros qa _ ->.
  rewrite Hqb, Hqa. cbn [first_of]. apply wp_bind, wp_get.
  change (best_bid_price_ b) with (best_price Bids b).
  change (best_ask_price_ b) with (best_price Asks b). rewrite Eb, Ea.
  destruct (Z.ltb_spec pb pa) as [Hlt|Hge]; [by apply wp_ret, HQ0|].
  apply wp_bind, (wp_get_order _ ob); [exact Hob|].
  apply wp_bind, (wp_get_order _ oa); [exact Hoa|]. cbv zeta.
  set (q := Z.min (remaining_quantity_ ob) (remaining_quantity_ oa)).
  assert (Hq : 0 <= q <= remaining_quantity_ ob /\ 0 <= q <= remaining_quantity_ oa)
    by (unfold is_u32 in *; lia).
  apply (wp_trade b L pb pa sb sa lb la ob oa Hsr Hpb Hpa Hqb Hqa Hob Hoa); [tauto..|].
  intros b1 Hsr1 Hcore1 Hsame1 Hout1.
  apply (wp_after_trade b L pb pa sb sa lb la ob oa Hpb Hpa Hbb Hba Eb Ea
           (br_meta _ _ Hrep) b1 q _ Hsr1 Hsame1).
  intros b2 Hrep2 Hpool2 Hout2.
  apply (HQ b2 _ [match_msg ob; match_msg oa]); [done|].
  assert (Hcore2 : same_core (trade_arena b sb sa ob oa q) (arena b2)) by (by rewrite Hpool2).
  constructor; [exact Hrep2|by rewrite Hout2| | |].
  - rewrite (same_core_length _ _ Hcore2). unfold trade_arena. by rewrite !length_insert.
  - destruct (trade_views b L pb pa sb sa lb la ob oa Hsr Hpb Hpa Hqb Hqa Hob Hoa Hbb Hba b2 q Hcore2)
      as [-> ->].
    rewrite (side_view_best b L Bids pb sb lb ob), (side_view_best b L Asks pa sa la oa) by done.
    rewrite cross_cons. change (price_ (core ob)) with (price_ ob).
    change (price_ (core oa)) with (price_ oa). rewrite Hpob, Hpoa.
    destruct (Z.ltb_spec pb pa); [lia|]. cbv zeta. fold q.
    change (Z.min (remaining_quantity_ (core ob)) (remaining_quantity_ (core oa))) with q.
    by destruct (cross _ _) as [[B A] ms].
  - pose proof (trade_slots L pb pa sb sa lb la ob oa Hpb Hpa Hqb Hqa q eq_refl).
    rewrite decide_False by done. lia.
Qed.

Lemma traded_refl b L : book_rep b L -> traded b L [] b L.
Proof.
  intros H. constructor; [done..| |].
  - by destruct (cross _ _) as [[B A] ms].
  - simpl. lia.
Qed.

Lemma traded_trans b L ms b1 L1 ms1 b2 L2 :
  traded b L ms b1 L1 -> traded b1 L1 ms1 b2 L2 -> traded b L (ms ++ ms1) b2 L2.
Proof.
  intros [H1 H2 H3 H4 H5] [G1 G2 G3 G4 G5]. constructor; [done| |congruence| |].
  - by rewrite G2, H2, push_all_app.
  - rewrite H4, G4. unfold prepend. simpl. by rewrite app_assoc.
  - destruct (decide (ms = [])) as [->|], (decide (ms1 = [])) as [->|];
      repeat case_decide; simpl in *; try done; try lia.
Qed.

(** The flag a list of messages sets. *)
Definition sent (ms : list OutboundMessage) : bool := match ms with [] => false | _ => true end.

Lemma sent_ne ms : ms <> [] -> sent ms = true.
Proof. by destruct ms. Qed.
Lemma sent_app ms ms' : ms' <> [] -> ms ++ ms' <> [] /\ sent (ms ++ ms') = true.
Proof. destruct ms, ms'; done. Qed.

(** The inner loop: the two levels it was entered with are still the best ones. *)
Definition front_inv (b : Orderbook) (L : ladders) (pb pa : Z) (any : bool)
    (n : nat) (flags : bool * bool) (b' : Orderbook) : Prop :=
  exists L' ms, traded b L ms b' L' /\ n = length (slots L') /\
    best_price Bids b' = pb /\ best_price Asks b' = pa /\
    is_Some (lad Bids L' !! pb) /\ is_Some (lad Asks L' !! pa) /\
    flags = (sent ms, any || sent ms) /\ (ms = [] -> b' = b).

Lemma wp_match_fronts b L pb pa any (Q : bool * bool -> Orderbook -> Prop) :
  book_rep b L -> best_price Bids b = pb -> best_price Asks b = pa ->
  is_Some (lad Bids L !! pb) -> is_Some (lad Asks L !! pa) ->
  (pb < pa -> Q (false, any) b) ->
  (forall b' L' ms, ms <> [] -> traded b L ms b' L' -> Q (true, true) b') ->
  wp (loop (S (size (orders_ b))) (match_front (level_index pb) (level_index pa)) (false, any)) Q b.
Proof.
  intros Hrep Eb Ea Hnb Hna HQ0 HQ.
  apply (wp_loop (front_inv b L pb pa any)) with (n := length (slots L)).
  2: { exists L, []. split_and!; try done; [by apply traded_refl|]. simpl. by rewrite orb_false_r. }
  2: { rewrite (sr_size _ _ (br_store _ _ Hrep)). lia. }
  intros n flags b1 (L1 & ms & Htr & -> & Eb1 & Ea1 & Hnb1 & Hna1 & -> & Hms).
  apply (wp_match_front b1 L1); [by destruct Htr|done..| |].
  - intros Hlt. destruct ms as [|m ms]; simpl.
    + rewrite orb_false_r. rewrite Hms by done. by apply HQ0.
    + rewrite orb_true_r. by apply (HQ _ L1 (m :: ms)).
  - intros b2 L2 ms' Hne Htr2. destruct (sent_app ms ms' Hne) as [Hne' Hs].
    pose proof (traded_trans _ _ _ _ _ _ _ _ Htr Htr2) as Htr'. split.
    + by apply (HQ b2 L2 (ms ++ ms')).
    + intros Eb2 Ea2 Hnb2 Hna2. exists (length (slots L2)). split.
      * pose proof (td_slots _ _ _ _ _ Htr2) as Hsl. rewrite decide_False in Hsl by done. lia.
      * exists L2, (ms ++ ms'). rewrite Hs, orb_true_r. split_and!; try done.
Qed.

(** An empty side has level count zero, and conversely. *)
Lemma count_positive b L d : book_rep b L ->
  (0 <? level_count d b) = true <-> is_Some (lad d L !! best_price d b).
Proof.
  intros [_ Hm]. specialize (Hm d). pose proof (mr_count _ _ _ _ Hm) as Hc. rewrite Z.ltb_lt. split.
  - intros Hpos. apply (meta_best _ _ _ _ Hm). intros E. rewrite E, map_size_empty in Hc. lia.
  - intros [l Hl]. assert (size (lad d L) <> O) by (by eapply map_size_ne_0_lookup_2). lia.
Qed.

Lemma count_zero_view b L d : book_rep b L -> (0 <? level_count d b) = false ->
  side_view d b L = [].
Proof.
  intros [_ Hm] Hz. specialize (Hm d). pose proof (mr_count _ _ _ _ Hm) as Hc.
  apply Z.ltb_ge in Hz. assert (lad d L = ∅) as E by (apply map_size_empty_inv; lia).
  unfold side_view. rewrite E, flat_empty. done.
Qed.

(** The outer loop. *)
Definition levels_inv (b : Orderbook) (L : ladders) (n : nat) (any : bool) (b' : Orderbook) : Prop :=
  exists L' ms, traded b L ms b' L' /\ n = length (slots L') /\ any = sent ms.

Lemma uncrossed_views b L pb pa : book_rep b L -> best_price Bids b = pb -> best_price Asks b = pa ->
  is_Some (lad Bids L !! pb) -> is_Some (lad Asks L !! pa) -> pb < pa ->
  cross (side_view Bids b L) (side_view Asks b L) = (side_view Bids b L, side_view Asks b L, []).
Proof.
  intros Hrep Eb Ea Hnb Hna Hlt. pose proof (br_store _ _ Hrep) as Hsr.
  destruct (level_head b L Bids pb Hsr Hnb) as (Hpb & sb & lb & ob & Hqb & Hob & Hpob & _).
  destruct (level_head b L Asks pa Hsr Hna) as (Hpa & sa & la & oa & Hqa & Hoa & Hpoa & _).
  rewrite (side_view_best b L Bids pb sb lb ob), (side_view_best b L Asks pa sa la oa)
    by (done || by apply (book_best b L)).
  rewrite cross_cons. change (price_ (core ob)) with (price_ ob).
  change (price_ (core oa)) with (price_ oa). rewrite Hpob, Hpoa.
  by destruct (Z.ltb_spec pb pa); [|lia].
Qed.

Lemma wp_match_all b L (Q : bool -> Orderbook -> Prop) : book_rep b L ->
  (forall b' L' ms, traded b L ms b' L' ->
     cross (side_view Bids b' L') (side_view Asks b' L') =
       (side_view Bids b' L', side_view Asks b' L', []) -> Q (sent ms) b') ->
  wp matchOrders Q b.
Proof.
  intros Hrep HQ. unfold matchOrders. apply wp_bind, wp_get.
  apply (wp_loop (levels_inv b L)) with (n := length (slots L)).
  2: { exists L, []. split_and!; [by apply traded_refl|done..]. }
  2: { rewrite (sr_size _ _ (br_store _ _ Hrep)). lia. }
  intros n any b1 (L1 & ms & Htr & -> & ->). pose proof (td_rep _ _ _ _ _ Htr) as Hrep1.
  unfold match_levels. apply wp_bind, wp_get.
  change (non_empty_bid_levels_ b1) with (level_count Bids b1).
  change (non_empty_ask_levels_ b1) with (level_count Asks b1).
  destruct (0 <? level_count Bids b1) eqn:Cb; cbn [andb].
  2: { apply wp_ret, (HQ b1 L1 ms Htr). rewrite (count_zero_view b1 L1 Bids) by done. apply cross_nil_l. }
  destruct (0 <? level_count Asks b1) eqn:Ca.
  2: { apply wp_ret, (HQ b1 L1 ms Htr). rewrite (count_zero_view b1 L1 Asks) by done. apply cross_nil_r. }
  apply (count_positive b1 L1) in Cb, Ca; [|done..]. cbv zeta. apply wp_bind.
  apply (wp_match_fronts b1 L1); [done..| |].
  - intros Hlt. apply wp_ret, (HQ b1 L1 ms Htr). by apply (uncrossed_views b1 L1 _ _ Hrep1 eq_refl eq_refl).
  - intros b2 L2 ms' Hne Htr2. apply wp_ret. destruct (sent_app ms ms' Hne) as [Hne' Hs].
    exists (length (slots L2)). split.
    + pose proof (td_slots _ _ _ _ _ Htr2) as Hsl. rewrite decide_False in Hsl by done. lia.
    + exists L2, (ms ++ ms'). split_and!; [by eapply traded_trans|done|done].
Qed.

(** [x] is what the specification answers: flag, state, messages. *)
Definition implements {A : Type} (x : A * SBook * list OutboundMessage) (b : Orderbook)
    (Q : A -> Orderbook -> Prop) : Prop :=
  forall b' L', book_rep b' L' -> abs b' L' = x.1.2 ->
    out_ring_ b' = push_all x.2 (out_ring_ b) -> Q x.1.1 b'.

Theorem wp_matchOrders b L (Q : bool -> Orderbook -> Prop) : book_rep b L ->
  implements (s_match (abs b L)) b Q -> wp matchOrders Q b.
Proof.
  intros Hrep HQ. apply (wp_match_all b L); [done|]. intros b' L' ms [H1 H2 H3 H4 H5] Hun.
  rewrite Hun in H4. unfold implements, s_match in HQ. simpl in HQ.
  change (view (arena b) (flat Bids (on_bids L))) with (side_view Bids b L) in HQ.
  change (view (arena b) (flat Asks (on_asks L))) with (side_view Asks b L) in HQ.
  rewrite H4 in HQ. unfold prepend in HQ. simpl in HQ. rewrite app_nil_r in HQ.
  apply (HQ b' L'); [done| |done]. unfold abs. by rewrite H3.
Qed.

(** * The loop of [matchMarket] *)

(** A prefix of the messages of a sweep. *)
Definition prepend_sweep (ms : list OutboundMessage) (x : Z * list Order * list OutboundMessage)
  : Z * list Order * list OutboundMessage := (x.1.1, x.1.2, ms ++ x.2).

Lemma prepend_sweep_nil x : prepend_sweep [] x = x.
Proof. by destruct x as [[rem l] ms]. Qed.

Lemma sweep_cons r rem o l : 0 < rem ->
  let q := Z.min rem (remaining_quantity_ o) in
  sweep r rem (o :: l) =
  prepend_sweep [market_msg r; match_msg o] (sweep r (rem - q) (consume q o l)).
Proof.
  intros Hrem q. simpl. destruct (Z.ltb_spec 0 rem); [|lia]. fold q.
  unfold consume, is_filled. destruct (Z.eqb_spec (remaining_quantity_ (reduce q o)) 0) as [Hz|Hnz].
  - by destruct (sweep r (rem - q) l) as [[rem' l'] ms].
  - assert (rem - q = 0) as -> by (simpl in Hnz; lia). simpl. done.
Qed.

(** [b'] is [b] after part of a sweep of ladder [d] that sent [ms]. *)
Record swept (r : OrderRequest) (d : ladder) (b : Orderbook) (L : ladders) (rem : Z)
    (ms : list OutboundMessage) (b' : Orderbook) (L' : ladders) (rem' : Z) : Prop := {
  sw_rep : book_rep b' L';
  sw_out : out_ring_ b' = push_all ms (out_ring_ b);
  sw_arena : length (arena b') = length (arena b);
  sw_other : side_view (opposite d) b' L' = side_view (opposite d) b L;
  sw_sweep : sweep r rem (side_view d b L) = prepend_sweep ms (sweep r rem' (side_view d b' L'));
  sw_rem : is_u32 rem'
}.

Lemma swept_trans r d b L rem ms b1 L1 rem1 ms1 b2 L2 rem2 :
  swept r d b L rem ms b1 L1 rem1 -> swept r d b1 L1 rem1 ms1 b2 L2 rem2 ->
  swept r d b L rem (ms ++ ms1) b2 L2 rem2.
Proof.
  intros [H1 H2 H3 H4 H5 H6] [G1 G2 G3 G4 G5 G6].
  constructor; [done| |congruence|congruence| |done].
  - by rewrite G2, H2, push_all_app.
  - rewrite H5, G5. unfold prepend_sweep. simpl. by rewrite app_assoc.
Qed.

Section Eat.
Context (b : Orderbook) (L : ladders) (d : ladder) (p : Z) (s : ptr) (l : list ptr) (o : Order).
Hypothesis Hrep : book_rep b L.
Hypothesis Ebest : best_price d b = p.
Hypothesis Hnonempty : is_Some (lad d L !! p).
Hypothesis Hp : in_range p.
Hypothesis Hq : queue_of (lad d L) p = s :: l.
Hypothesis Ho : arena b !! s = Some o.
Hypothesis Hu : is_u32 (remaining_quantity_ o).

Definition eaten (q : Z) : ladders :=
  upd d (set_queue p (after_drop (reduce q o) s l) (lad d L)) L.

Lemma eaten_slots q : (length (slots (eaten q)) <= length (slots L))%nat /\
  (q = remaining_quantity_ o -> (length (slots (eaten q)) < length (slots L))%nat).
Proof.
  rewrite (Permutation_length (slots_split d L)), (Permutation_length (slots_split d (eaten q))).
  unfold eaten. rewrite lad_upd_eq, lad_upd_opposite, !length_app.
  pose proof (length_set_queue d p _ _ (after_drop (reduce q o) s l) Hp Hq) as H1.
  pose proof (length_after_drop (reduce q o) s l) as H2. rewrite length_cons in H1.
  split; [lia|]. intros E. rewrite (after_drop_exhausted o s l q E) in H1 |- *. lia.
Qed.

Lemma eaten_views b' q : same_core (<[s := reduce q o]> (arena b)) (arena b') ->
  side_view d b' (eaten q) = consume q (core o) (behind b L d p l) /\
  side_view (opposite d) b' (eaten q) = side_view (opposite d) b L.
Proof.
  intros Hcore. pose proof (br_store _ _ Hrep) as Hsr.
  pose proof (book_best b L d p Hrep Ebest Hnonempty) as Hbest.
  apply lookup_lt_Some in Ho as Hlt.
  assert (Hlook : forall t, core <$> arena b' !! t = core <$> <[s := reduce q o]> (arena b) !! t).
  { intros t. rewrite <- !list_lookup_fmap. by rewrite Hcore. }
  assert (Hs : s ∈ flat d (lad d L)).
  { rewrite (flat_best L d p s l Hp Hbest Hq). by left. }
  split.
  - apply (side_view_consumed b L d p s l o); [exact Hp|exact Hbest| | |apply lad_upd_eq].
    + rewrite Hlook. by rewrite list_lookup_insert_eq.
    + intros t Ht. rewrite Hlook, list_lookup_insert_ne; [done|]. intros <-.
      by apply (head_fresh b L d p s l Hsr Hp Hbest Hq).
  - unfold side_view, eaten. rewrite lad_upd_opposite. apply view_ext. intros t Ht.
    rewrite Hlook, list_lookup_insert_ne; [done|]. intros <-.
    exact (flat_disjoint b L Hsr d s Hs Ht).
Qed.

Lemma wp_eat {A : Type} (k : BM A) (Q : A -> Orderbook -> Prop) q m1 m2 :
  0 <= q <= remaining_quantity_ o ->
  (forall b', book_rep b' (eaten q) -> same_core (<[s := reduce q o]> (arena b)) (arena b') ->
     out_ring_ b' = push_all [m1; m2] (out_ring_ b) -> wp k Q b') ->
  wp (fill_order s q;; push_out m1;; push_out m2;; drop_if_filled d (level_index p) s;;
      q' ← read_level d (level_index p); when (queue_empty q') (retire_level d);; k) Q b.
Proof.
  intros Hq1 HQ. destruct Hrep as [Hsr Hmeta]. apply lookup_lt_Some in Ho as Hlt.
  apply wp_bind, (wp_fill_order _ _ o); [done..|].
  pose proof (store_rep_reduce b L s o q Hsr Ho Hq1 Hu) as Hsr1. set (b1 := set_arena _ b) in *.
  apply wp_bind, wp_push_out, wp_bind, wp_push_out. set (b2 := set_out_ring _ _).
  assert (Hsr2 : store_rep b2 L) by (apply store_rep_set_out, store_rep_set_out; exact Hsr1).
  apply wp_bind, (wp_drop_if_filled b2 L d p s l (reduce q o) _ Hsr2 Hp Hq).
  { simpl. by rewrite list_lookup_insert_eq. }
  intros b3 Hsr3 Hcore3 [Hmeta3 Hout3]. destruct (Hmeta3 d) as [Hb3 Hc3].
  assert (Eb3 : best_price d b3 = p) by (rewrite Hb3; by destruct d).
  assert (Ec3 : level_count d b3 = level_count d b) by (rewrite Hc3; by destruct d).
  pose proof (store_on_ladder b3 _ d Hsr3) as Hl3. rewrite lad_upd_eq in Hl3.
  apply wp_bind, (wp_level_empty b3 d _ p _ Hl3 Hp). intros q' Eq _. rewrite queue_of_set_eq in Eq.
  pose proof (Hmeta d) as Hm. unfold meta_ok in Hm. rewrite Ebest in Hm.
  eapply wp_bind, wp_mono.
  { apply (wp_retire_if b3 d (after_drop (reduce q o) s l) (lad d L) q'); rewrite ?Eb3, ?Ec3;
      [exact Hl3|exact Hm|exact Hnonempty|exact Hp|exact Eq]. }
  intros [] b4 (x & c & -> & Hm4 & _). rewrite Eb3 in Hm4. apply HQ.
  - apply book_rep_meta; [exact Hsr3|unfold eaten; rewrite lad_upd_eq; exact Hm4|].
    unfold meta_ok, eaten. rewrite lad_upd_opposite. destruct (Hmeta3 (opposite d)) as [-> ->].
    pose proof (Hmeta (opposite d)) as Ho'. by destruct d.
  - by destruct d.
  - transitivity (out_ring_ b3); [by destruct d|]. by rewrite Hout3.
Qed.

End Eat.

Lemma wp_market_step r d b L rem (Q : Z + bool -> Orderbook -> Prop) :
  book_rep b L -> is_u32 rem ->
  (sweep r rem (side_view d b L) = (rem, side_view d b L, []) -> Q (inr (rem =? 0)) b) ->
  (forall b' L' ms rem', swept r d b L rem ms b' L' rem' -> 0 < rem -> 0 <= rem' ->
     (rem' = 0 /\ (0 < length (slots L))%nat \/ (length (slots L') < length (slots L))%nat) ->
     Q (inl rem') b') ->
  wp (market_step d r rem) Q b.
Proof.
  intros Hrep Hu HQ0 HQ. unfold market_step. apply wp_bind, wp_get.
  destruct (0 <? level_count d b) eqn:Hc; cbn [andb].
  2: { apply wp_ret, HQ0. rewrite (count_zero_view b L d) by done. done. }
  destruct (Z.ltb_spec 0 rem) as [Hpos|Hle].
  2: { apply wp_ret, HQ0. destruct (side_view d b L); [done|]. simpl.
       by destruct (Z.ltb_spec 0 rem); [lia|]. }
  apply (count_positive b L) in Hc; [|done]. pose proof (br_store _ _ Hrep) as Hsr.
  set (p := best_price d b) in *.
  destruct (level_head b L d p Hsr Hc) as (Hp & s & l & o & Hq & Ho & _ & Huo).
  cbv zeta. apply wp_bind, (wp_level_empty b d _ p _ (store_on_ladder _ _ _ Hsr) Hp). intros q _ ->.
  rewrite Hq. cbn [first_of]. apply wp_bind, (wp_get_order _ o); [exact Ho|].
  set (fq := Z.min rem (remaining_quantity_ o)).
  assert (Hfq : 0 <= fq <= remaining_quantity_ o) by (unfold is_u32 in *; lia).
  rewrite u32_small by (unfold is_u32 in *; lia).
  apply (wp_eat b L d p s l o Hrep eq_refl Hc Hp Hq Ho Huo); [done|].
  intros b' Hrep' Hcore Hout. apply wp_ret.
  destruct (eaten_views b L d p s l o Hrep eq_refl Hc Hp Hq Ho b' fq Hcore) as [Hv1 Hv2].
  destruct (eaten_slots L d p s l o Hp Hq fq) as [_ Hsl].
  apply (HQ b' (eaten L d p s l o fq) [market_msg r; match_msg o]); [|done|lia|].
  - constructor; [done|done| |done| |unfold is_u32 in *; lia].
    + by rewrite (same_core_length _ _ Hcore), length_insert.
    + rewrite Hv1, (side_view_best b L d p s l o Hp) by (done || by apply (book_best b L)).
      by apply (sweep_cons r rem (core o)).
  - destruct (Z.min_spec rem (remaining_quantity_ o)) as [[_ E]|[_ E]]; [left|right; auto].
    split; [lia|]. apply (Nat.lt_le_trans _ (length [s])); [simpl; lia|].
    apply submseteq_length, singleton_submseteq_l, (flat_slot L d).
    rewrite (flat_best L d p s l Hp (book_best b L d p Hrep eq_refl Hc) Hq). by left.
Qed.

(** The iterations that are left: none once the quantity is filled. *)
Definition market_measure (L : ladders) (rem : Z) : nat :=
  if decide (rem = 0) then 0%nat else length (slots L).

Lemma wp_market_loop r d b L (Q : bool -> Orderbook -> Prop) :
  book_rep b L -> is_u32 (get_quantity r) ->
  (let '(rem, l, ms) := sweep r (get_quantity r) (s_orders d (abs b L)) in
   implements (rem =? 0, s_set d l (abs b L), ms) b Q) ->
  wp (loop (S (size (orders_ b))) (market_step d r) (get_quantity r)) Q b.
Proof.
  intros Hrep Hu HQ.
  set (inv := fun (n : nat) (rem : Z) (b' : Orderbook) => exists L' ms,
    swept r d b L (get_quantity r) ms b' L' rem /\ n = market_measure L' rem).
  apply (wp_loop inv) with (n := market_measure L (get_quantity r)).
  2: { exists L, []. split; [|done]. constructor; try done. by rewrite prepend_sweep_nil. }
  2: { rewrite (sr_size _ _ (br_store _ _ Hrep)). unfold market_measure. case_decide; lia. }
  intros n rem b1 (L1 & ms & Hsw & ->). pose proof (sw_rep _ _ _ _ _ _ _ _ _ Hsw) as Hrep1.
  apply (wp_market_step r d b1 L1); [done|by destruct Hsw| |].
  - intros Hend. destruct Hsw as [_ H2 H3 H4 H5 _]. rewrite Hend in H5.
    rewrite s_orders_abs in HQ. change (view (arena b) (flat d (lad d L))) with (side_view d b L) in HQ.
    rewrite H5 in HQ. unfold prepend_sweep in HQ. simpl in HQ. rewrite app_nil_r in HQ.
    apply (HQ b1 L1); [done| |done]. simpl. apply (SBook_ext _ _ d).
    + rewrite s_orders_abs. by destruct d.
    + rewrite s_orders_abs. transitivity (s_orders (opposite d) (abs b L)); [|by destruct d].
      rewrite s_orders_abs. exact H4.
    + transitivity (length (arena b)); [exact H3|by destruct d].
  - intros b2 L2 ms' rem' Hsw2 Hpos Hrem' Hdec. exists (market_measure L2 rem'). split.
    + unfold market_measure. rewrite (decide_False (P := rem = 0)) by lia. case_decide; lia.
    + exists L2, (ms ++ ms'). split; [by eapply swept_trans|done].
Qed.

Theorem wp_matchMarket r b L (Q : bool -> Orderbook -> Prop) :
  book_rep b L -> is_u32 (get_quantity r) -> implements (s_market r (abs b L)) b Q ->
  wp (matchMarket r) Q b.
Proof.
  intros Hrep Hu HQ. unfold matchMarket, s_market in *. apply wp_bind, wp_get. cbv zeta.
  destruct (decide (get_side r = BID)) as [Hs|Hs].
  - apply (wp_market_loop r Asks b L); [done..|]. by destruct (sweep _ _ _) as [[? ?] ?].
  - destruct (decide (get_side r = ASK)) as [Hs'|Hs'].
    + apply (wp_market_loop r Bids b L); [done..|]. by destruct (sweep _ _ _) as [[? ?] ?].
    + apply wp_ret. by apply (HQ b L).
Qed.
