(* ===== verification/Process.v ===== *)
(** The requests of the order book implement the specification: inserting,
    modifying, and the entry point [process]; and the empty book implements the
    empty specification state. *)

From S2P Require Import Prelude Types Ring Pool Book Spec Ladder Refine Match.

Local Open Scope Z_scope.

(** * Definitions *)

(** The part of [addOrder] that queues the order at its level, for either side. *)
Definition rest_order (d : ladder) (i : Z) (p : ptr) (price : Z) : BM unit :=
  q ← read_level d i;
  when (queue_empty q) (modify (fun b => set_count d (u64 (level_count d b + 1)) b));;
  level_push d i p;;
  b ← get;
  when (before d price (best_price d b)) (modify (set_best d price)).

(** The book with a new order in slot [p], before it is queued. *)
Definition allocated (p : ptr) (rest : list ptr) (o : Order) (b : Orderbook) : Orderbook :=
  set_orders (<[id_ o := p]> (orders_ b)) (set_pool (mkPool (<[p := o]> (arena b)) rest) b).

(** * Looking an order up *)

Lemma s_all_abs b L : s_all (abs b L) = view (arena b) (slots L).
Proof. unfold s_all, slots. by rewrite view_app. Qed.

Lemma length_s_all b L : length (s_all (abs b L)) = length (slots L).
Proof. rewrite s_all_abs. apply length_fmap. Qed.

Lemma view_slot b L x : store_rep b L -> x ∈ view (arena b) (slots L) ->
  exists s o, s ∈ slots L /\ arena b !! s = Some o /\ x = core o.
Proof.
  intros Hsr (s & Hs & ->)%elem_of_view. destruct (slot_order b L Hsr s Hs) as (o & Ho & _).
  exists s, o. split_and!; [done..|]. apply list_lookup_total_correct.
  by rewrite list_lookup_fmap, Ho.
Qed.

Lemma s_find_some b L id s o : store_rep b L -> orders_ b !! id = Some s ->
  arena b !! s = Some o -> s_find id (abs b L) = Some (core o).
Proof.
  intros Hsr Hid Ho. apply (sr_orders _ _ Hsr) in Hid as (Hs & o' & Ho' & Hid).
  replace o' with o in Hid by congruence. unfold s_find. rewrite s_all_abs.
  destruct (list_find _ _) as [[i x]|] eqn:E.
  - apply list_find_Some in E as (Hx & Hidx & _). apply list_elem_of_lookup_2 in Hx.
    destruct (view_slot b L x Hsr Hx) as (t & o'' & Ht & Ho'' & ->). simpl.
    change (id_ (core o'')) with (id_ o'') in Hidx.
    assert (t = s) as -> by (apply (slot_ids b L Hsr t s o'' o); congruence). congruence.
  - apply list_find_None in E. rewrite Forall_forall in E.
    exfalso. apply (E (core o)); [|exact Hid].
    apply elem_of_view. exists s. split; [exact Hs|]. symmetry. apply list_lookup_total_correct.
    by rewrite list_lookup_fmap, Ho.
Qed.

Lemma s_find_none b L id : store_rep b L -> orders_ b !! id = None -> s_find id (abs b L) = None.
Proof.
  intros Hsr Hid. unfold s_find. rewrite s_all_abs.
  destruct (list_find _ _) as [[i x]|] eqn:E; [|done].
  apply list_find_Some in E as (Hx & Hidx & _). apply list_elem_of_lookup_2 in Hx.
  destruct (view_slot b L x Hsr Hx) as (t & o & Ht & Ho & ->).
  assert (orders_ b !! id = Some t) by (apply (sr_orders _ _ Hsr); eauto). congruence.
Qed.

Lemma orders_slot b L id s : store_rep b L -> orders_ b !! id = Some s ->
  exists o, arena b !! s = Some o /\ id_ o = id.
Proof. intros Hsr Hid. by apply (sr_orders _ _ Hsr) in Hid as (_ & Ho). Qed.

(** * Inserting *)

Lemma s_insert_split d o l1 l2 :
  (forall x, x ∈ l1 -> before d (price_ o) (price_ x) = false) ->
  (forall x, x ∈ l2 -> before d (price_ o) (price_ x) = true) ->
  s_insert d o (l1 ++ l2) = l1 ++ o :: l2.
Proof.
  intros H1 H2. induction l1 as [|x l1 IH]; simpl.
  - destruct l2 as [|y l2]; [done|]. simpl. by rewrite H2 by (by left).
  - rewrite H1 by (by left). f_equal. apply IH. intros y Hy. apply H1. by right.
Qed.

Lemma before_asym d p q : before d p q = true -> before d q p = false.
Proof. destruct d; simpl; lia. Qed.

Lemma meta_insert d x c p l m :
  meta_rep d x c m -> in_range p -> l <> [] -> (forall q k, m !! q = Some k -> k <> [] /\ in_range q) ->
  meta_rep d (if before d p x then p else x)
    (if bool_decide (queue_of m p = []) then c + 1 else c) (set_queue p l m).
Proof.
  intros Hm Hp Hl Hlv. pose proof (mr_count _ _ _ _ Hm) as Hc.
  assert (Hset : set_queue p l m = <[p := l]> m) by (by destruct l).
  assert (Hsize : Z.of_nat (size (set_queue p l m)) =
                  if bool_decide (queue_of m p = []) then c + 1 else c).
  { rewrite Hset. destruct (m !! p) as [k|] eqn:E.
    - rewrite map_size_insert_Some, (queue_of_Some _ _ _ E) by eauto.
      destruct (Hlv p k E) as [Hk _]. by case_bool_decide.
    - rewrite map_size_insert_None by done. unfold queue_of. rewrite E.
      rewrite bool_decide_eq_true_2 by done. lia. }
  rewrite <- Hsize. apply meta_intro. destruct (decide (m = ∅)) as [->|Hne].
  - destruct Hm as [_ Hx]. rewrite decide_True in Hx by done. subst x.
    assert ((if before d p (worst_price d) then p else worst_price d) = p) as ->.
    { unfold in_range in Hp. destruct d; simpl; zcases; lia. }
    split; [rewrite Hset, lookup_insert_eq; by eauto|].
    intros q [->|[k Hk]]%set_queue_is_Some; [apply before_irrefl| |done].
    by rewrite lookup_empty in Hk.
  - destruct (meta_best _ _ _ _ Hm Hne) as [Hx Hb]. destruct (before d p x) eqn:E; split.
    + apply set_queue_is_Some; auto.
    + intros q [->|Hq]%set_queue_is_Some; [apply before_irrefl| |done].
      specialize (Hb q Hq). destruct d; simpl in *; lia.
    + apply set_queue_is_Some; auto.
    + intros q [->|Hq]%set_queue_is_Some; [done|by apply Hb|done].
Qed.

Section Insert.
Context (b : Orderbook) (L : ladders) (d : ladder) (p : ptr) (rest : list ptr) (o : Order) (Hrep : book_rep b L).
Hypothesis Hfree : free_list_ (pool_ b) = p :: rest.
Hypothesis Hid : orders_ b !! id_ o = None.
Hypothesis Hlinks : links o = (None, None).
Hypothesis Hprice : in_range (price_ o).
Hypothesis Hside : side_ladder (side_ o) = d.
Hypothesis Hu : is_u32 (remaining_quantity_ o).

Abbreviation a1 := (<[p := o]> (arena b)).
Abbreviation here := (queue_of (lad d L) (price_ o)).

Definition with_order : ladders := upd d (set_queue (price_ o) (here ++ [p]) (lad d L)) L.

Lemma fresh_slot : p ∉ slots L.
Proof.
  pose proof (pool_NoDup b L (br_store _ _ Hrep)) as H. rewrite Hfree in H.
  apply NoDup_app in H as (_ & H & _). apply H. by left.
Qed.

Lemma fresh_lt : (p < length (arena b))%nat.
Proof.
  assert (p ∈ seq 0 (length (arena b))) as Hs.
  { rewrite <- (sr_pool _ _ (br_store _ _ Hrep)), Hfree. by left. }
  apply elem_of_seq in Hs. lia.
Qed.

Lemma fresh_flat d' : p ∉ flat d' (lad d' L).
Proof. intros H. by apply fresh_slot, (flat_slot L d'). Qed.

Lemma a1_other s : s ∈ slots L -> a1 !! s = arena b !! s.
Proof. intros Hs. apply list_lookup_insert_ne. intros E. apply fresh_slot. by rewrite E. Qed.

Lemma a1_ladder d' : ladder_rep a1 d' (levels d' b) (lad d' L).
Proof.
  apply (ladder_rep_agree (arena b)); [apply (sr_ladder _ _ (br_store _ _ Hrep))|].
  intros s Hs. by apply a1_other, (flat_slot L d').
Qed.

(** Pushing the slot on the queue of its price succeeds. *)
Lemma push_fresh : exists a' q',
  queue_push p a1 (default empty_queue (levels d b !! level_index (price_ o))) = Ok (a', q') /\
  queue_rep a' q' (here ++ [p]) /\ queue_frame a1 a' (p :: here).
Proof.
  pose proof (br_store _ _ Hrep) as Hsr. apply (queue_push_spec a1 _ here p o).
  - by apply (lr_queue _ _ _ _ (a1_ladder d)).
  - by apply (queue_level_NoDup b L Hsr).
  - intros H. apply (fresh_flat d). apply elem_of_flat. by exists (price_ o).
  - apply list_lookup_insert_eq, fresh_lt.
  - exact Hlinks.
  - pose proof (queue_level_length b L Hsr d (price_ o) Hprice). lia.
Qed.

Lemma with_order_flat : flat d (lad d with_order) =
  (above d (price_ o) (lad d L) ++ here) ++ p :: below d (price_ o) (lad d L).
Proof.
  unfold with_order. rewrite lad_upd_eq, flat_set by exact Hprice. by rewrite <- !app_assoc.
Qed.

Lemma with_order_slots : slots with_order ≡ₚ p :: slots L.
Proof.
  rewrite (slots_split d with_order), (slots_split d L), with_order_flat.
  rewrite (flat_split d (price_ o) (lad d L)) by exact Hprice.
  unfold with_order. rewrite lad_upd_opposite.
  rewrite <- Permutation_middle. cbn [app]. by rewrite <- !app_assoc.
Qed.

Section Pushed.
Context (a' : list Order) (q' : PriceLevelQueue).
Hypothesis Hq' : queue_rep a' q' (here ++ [p]).
Hypothesis Hframe : queue_frame a1 a' (p :: here).

Definition pushed : Orderbook :=
  set_levels d (<[level_index (price_ o) := q']> (levels d b)) (set_arena a' (allocated p rest o b)).

Lemma pushed_lookup s x : a' !! s = Some x -> exists x', a1 !! s = Some x' /\ id_ x' = id_ x.
Proof.
  intros Hx. destruct Hframe as [Hcore _]. symmetry in Hcore.
  destruct (same_core_lookup _ _ _ _ Hcore Hx) as (x' & Hx' & Hc).
  exists x'. split; [exact Hx'|]. change (id_ (core x') = id_ (core x)). by rewrite Hc.
Qed.

Lemma pushed_lookup' s x : a1 !! s = Some x -> exists x', a' !! s = Some x' /\ id_ x' = id_ x.
Proof.
  intros Hx. destruct Hframe as [Hcore _].
  destruct (same_core_lookup _ _ _ _ Hcore Hx) as (x' & Hx' & Hc).
  exists x'. split; [exact Hx'|]. change (id_ (core x') = id_ (core x)). by rewrite Hc.
Qed.

Lemma pushed_orders id s : <[id_ o := p]> (orders_ b) !! id = Some s <->
  s ∈ slots with_order /\ exists x, a' !! s = Some x /\ id_ x = id.
Proof.
  pose proof (sr_orders _ _ (br_store _ _ Hrep)) as Hords. pose proof fresh_lt as Hlt.
  rewrite lookup_insert_Some, with_order_slots, elem_of_cons, Hords. split.
  - intros [[Eid Es]|(Hne & Hs & x & Hx & Hxid)].
    + rewrite <- Eid, <- Es. split; [by left|]. by apply pushed_lookup', list_lookup_insert_eq.
    + split; [by right|]. rewrite <- (a1_other s Hs) in Hx.
      destruct (pushed_lookup' s x Hx) as (x' & Hx' & Hid'). exists x'. split; [done|congruence].
  - intros [[Es|Hs] (x & Hx & Hxid)]; destruct (pushed_lookup _ x Hx) as (x' & Hx' & Hid').
    + left. rewrite Es, list_lookup_insert_eq in Hx' by done. split; congruence.
    + right. rewrite (a1_other s Hs) in Hx'. split; [|split; [exact Hs|exists x'; split; congruence]].
      intros Eid. assert (orders_ b !! id_ o = Some s) as Hlook; [|congruence].
      apply Hords. split; [exact Hs|]. exists x'. split; congruence.
Qed.

Lemma pushed_level s : s ∈ here ++ [p] -> exists x, a' !! s = Some x /\ price_ x = price_ o /\
  side_ladder (side_ x) = d /\ is_u32 (remaining_quantity_ x).
Proof.
  intros Hs. assert (exists x, a1 !! s = Some x /\ price_ x = price_ o /\
    side_ladder (side_ x) = d /\ is_u32 (remaining_quantity_ x)) as (x & Hx & Hrest).
  { apply elem_of_app in Hs as [Hs|Hs].
    - by apply (lr_order _ _ _ _ (a1_ladder d)).
    - apply list_elem_of_singleton in Hs. rewrite Hs. exists o.
      split; [apply list_lookup_insert_eq, fresh_lt|done]. }
  destruct (same_core_lookup _ _ _ _ (proj1 Hframe) Hx) as (x' & Hx' & Hc). exists x'.
  split; [exact Hx'|]. change (price_ x') with (price_ (core x')).
  change (side_ x') with (side_ (core x')).
  change (remaining_quantity_ x') with (remaining_quantity_ (core x')). by rewrite Hc.
Qed.

Lemma pushed_store : store_rep pushed with_order.
Proof.
  pose proof (br_store _ _ Hrep) as Hsr. destruct Hframe as [Hcore Hfr].
  assert (Elen : length (arena pushed) = length (arena b)).
  { transitivity (length a'); [by unfold pushed; destruct d|].
    by rewrite (same_core_length _ _ Hcore), length_insert. }
  constructor; rewrite ?Elen.
  - intros d'. replace (arena pushed) with a' by (by unfold pushed; destruct d).
    unfold with_order. destruct (ladder_cases d d') as [->| ->].
    + rewrite lad_upd_eq.
      replace (levels d pushed) with (<[level_index (price_ o):=q']> (levels d b))
        by (by unfold pushed; destruct d).
      apply (ladder_rep_set a1); [apply a1_ladder|exact Hprice|exact Hq'| |].
      * apply pushed_level.
      * intros q s Hne Hs. apply Hfr. intros [E|Hs']%elem_of_cons.
        -- apply (fresh_flat d). rewrite <- E. by apply (elem_of_flat_queue _ _ _ _ (a1_ladder d) q).
        -- by apply (queue_levels_disjoint b L Hsr d q (price_ o) s).
    + rewrite lad_upd_opposite.
      replace (levels (opposite d) pushed) with (levels (opposite d) b)
        by (by unfold pushed; destruct d).
      apply (ladder_rep_agree a1); [apply a1_ladder|]. intros s Hs. apply Hfr.
      intros [E|Hs']%elem_of_cons; [apply (fresh_flat (opposite d)); by rewrite <- E|].
      apply (flat_disjoint b L Hsr d s); [|exact Hs]. apply elem_of_flat. by exists (price_ o).
  - replace (free_list_ (pool_ pushed)) with rest by (by unfold pushed; destruct d).
    rewrite <- (sr_pool _ _ Hsr), Hfree, with_order_slots. symmetry. apply Permutation_middle.
  - apply Hsr.
  - intros id s. replace (orders_ pushed) with (<[id_ o := p]> (orders_ b))
      by (by unfold pushed; destruct d).
    replace (arena pushed) with a' by (by unfold pushed; destruct d). apply pushed_orders.
  - replace (orders_ pushed) with (<[id_ o := p]> (orders_ b)) by (by unfold pushed; destruct d).
    rewrite map_size_insert_None by exact Hid.
    rewrite (sr_size _ _ Hsr), with_order_slots. done.
Qed.

Lemma view_price (l : list ptr) x : x ∈ view (arena b) l ->
  (forall t, t ∈ l -> exists q, t ∈ queue_of (lad d L) q) ->
  exists t, t ∈ l /\ t ∈ queue_of (lad d L) (price_ x).
Proof.
  intros (t & Ht & ->)%elem_of_view Hl. exists t. split; [exact Ht|].
  destruct (Hl t Ht) as [q Hq].
  destruct (lr_order _ _ _ _ (sr_ladder _ _ (br_store _ _ Hrep) d) q t Hq) as (x & Hx & <- & _).
  rewrite (list_lookup_total_correct _ _ (core x)) by (by rewrite list_lookup_fmap, Hx). exact Hq.
Qed.

Lemma same_queue t x y : t ∈ queue_of (lad d L) x -> t ∈ queue_of (lad d L) y -> x = y.
Proof.
  intros Ht Ht'. destruct (decide (x = y)) as [|Hne]; [done|].
  by destruct (queue_levels_disjoint b L (br_store _ _ Hrep) d x y t Hne Ht).
Qed.

(** The order joins its list behind those of the same or a better price. *)
Lemma with_order_abs b' : arena b' = a' ->
  abs b' with_order = s_set d (s_insert d (core o) (s_orders d (abs b L))) (abs b L).
Proof.
  intros Ea. pose proof (br_store _ _ Hrep) as Hsr. destruct Hframe as [Hcore _].
  assert (Hview : forall l : list ptr, p ∉ l -> view (arena b') l = view (arena b) l).
  { intros l Hl. rewrite Ea, (view_same_core a1 a' l Hcore). by apply view_insert_ne. }
  destruct (same_core_lookup a1 a' p o Hcore) as (x & Hx & Hxc);
    [apply list_lookup_insert_eq, fresh_lt|].
  pose proof (fresh_flat d) as Hnew. rewrite (flat_split d (price_ o)) in Hnew by exact Hprice.
  rewrite !not_elem_of_app in Hnew. destruct Hnew as (Hn1 & Hn2 & Hn3).
  apply (SBook_ext _ _ d).
  - replace (s_orders d (s_set d _ _)) with (s_insert d (core o) (s_orders d (abs b L)))
      by (by destruct d).
    rewrite !s_orders_abs, with_order_flat, (flat_split d (price_ o) (lad d L)) by exact Hprice.
    rewrite app_assoc, view_app, (view_app (arena b)), (view_cons (arena b') p _ x) by (by rewrite Ea).
    rewrite Hxc, !Hview by (rewrite ?not_elem_of_app; tauto).
    symmetry. apply s_insert_split; intros y Hy; apply view_price in Hy as (t & Ht & Hty).
    + apply elem_of_app in Ht as [Ht|Ht].
      * apply elem_of_above in Ht as (q & Hq & Hbq & Ht); [|exact Hprice].
        rewrite (same_queue _ _ _ Hty Ht). by apply before_asym.
      * rewrite (same_queue _ _ _ Hty Ht). apply before_irrefl.
    + intros u [Hu'|Hu']%elem_of_app; [|by eexists].
      apply elem_of_above in Hu' as (q & _ & _ & Hq); [by exists q|exact Hprice].
    + apply elem_of_below in Ht as (q & Hq & Hbq & Ht); [|exact Hprice].
      by rewrite (same_queue _ _ _ Hty Ht).
    + intros u Hu'. apply elem_of_below in Hu' as (q & _ & _ & Hq); [by exists q|exact Hprice].
  - replace (s_orders (opposite d) (s_set d _ _)) with (s_orders (opposite d) (abs b L))
      by (by destruct d).
    rewrite !s_orders_abs. unfold with_order. rewrite lad_upd_opposite. apply Hview, fresh_flat.
  - transitivity (length (arena b)); [|by destruct d]. simpl.
    rewrite Ea, (same_core_length _ _ Hcore). apply length_insert.
Qed.

End Pushed.
End Insert.

(** [wp] of a conditional write, as one state. *)
Lemma wp_when_modify {S : Type} (c : bool) (f : S -> S) (Q : unit -> S -> Prop) s :
  Q tt (if c then f s else s) -> wp (when c (modify f)) Q s.
Proof. by destruct c. Qed.

Lemma wp_level_push d p s (Q : unit -> Orderbook -> Prop) b a' q' :
  in_range p ->
  queue_push s (arena b) (default empty_queue (levels d b !! level_index p)) = Ok (a', q') ->
  Q tt (set_levels d (<[level_index p := q']> (levels d b)) (set_arena a' b)) ->
  wp (level_push d (level_index p) s) Q b.
Proof.
  intros Hp Hpush HQ. unfold level_push. apply wp_bind, wp_read_level; [exact Hp|].
  wp_steps. unfold wp at 1, of_res. rewrite Hpush. unfold write_level. wp_steps.
  by replace (levels d (set_arena (a', q').1 b)) with (levels d b) by (by destruct d).
Qed.

Lemma wp_rest_order b L d p rest o (Q : unit -> Orderbook -> Prop) :
  book_rep b L -> free_list_ (pool_ b) = p :: rest -> orders_ b !! id_ o = None ->
  links o = (None, None) -> in_range (price_ o) -> side_ladder (side_ o) = d ->
  is_u32 (remaining_quantity_ o) ->
  (forall b' L', book_rep b' L' ->
     abs b' L' = s_set d (s_insert d (core o) (s_orders d (abs b L))) (abs b L) ->
     out_ring_ b' = out_ring_ b -> Q tt b') ->
  wp (rest_order d (level_index (price_ o)) p (price_ o)) Q (allocated p rest o b).
Proof.
  intros Hrep Hfree Hid Hlinks Hp Hside Hu HQ. pose proof (br_store _ _ Hrep) as Hsr.
  pose proof (br_meta _ _ Hrep d) as Hm. unfold meta_ok in Hm.
  pose proof (store_on_ladder b L d Hsr) as Hl.
  destruct (push_fresh b L d p rest o Hrep Hfree Hlinks Hp) as (a' & q' & Hpush & Hq' & Hframe).
  pose proof (pushed_store b L d p rest o Hrep Hfree Hid Hp Hside Hu a' q' Hq' Hframe) as Hst.
  unfold rest_order. apply wp_bind, (wp_level_empty _ d (lad d L)); [|exact Hp|].
  { pose proof (a1_ladder b L p rest o Hrep Hfree d) as H. by destruct d. }
  intros q Eq _. apply wp_bind, wp_when_modify. rewrite Eq.
  set (c := if bool_decide (queue_of (lad d L) (price_ o) = []) then level_count d b + 1
            else level_count d b).
  match goal with |- wp _ _ ?s => replace s with (set_count d c (allocated p rest o b)) end.
  2: { unfold c. case_bool_decide; [|by destruct d, b]. f_equal. rewrite u64_small; [by destruct d|].
       pose proof (size_le_LEVELS _ _ _ _ Hl) as Hsz.
       unfold is_u64, LEVELS, MIN_PRICE, MAX_PRICE in *.
       replace (level_count d (allocated p rest o b)) with (level_count d b) by (by destruct d).
       rewrite (mr_count _ _ _ _ Hm). lia. }
  apply wp_bind, (wp_level_push _ _ _ _ _ a' q' Hp).
  { etransitivity; [|exact Hpush]. by destruct d. }
  apply wp_bind, wp_get, wp_when_modify.
  set (x := if before d (price_ o) (best_price d b) then price_ o else best_price d b).
  apply (HQ _ (with_order L d p o)).
  - match goal with |- book_rep ?s _ =>
      replace s with (meta_set d x c (pushed b d p rest o a' q')) end.
    2: { unfold x. by destruct d; simpl; destruct (_ <? _). }
    apply book_rep_meta; [exact Hst| |].
    + unfold with_order. rewrite lad_upd_eq. apply meta_insert; [exact Hm|exact Hp|by destruct (queue_of _ _)|].
      intros r k Hk. by apply (on_ladder_level _ _ _ _ _ Hl).
    + unfold meta_ok, with_order. rewrite lad_upd_opposite.
      pose proof (br_meta _ _ Hrep (opposite d)) as Hm'. by destruct d.
  - eapply (with_order_abs b L d p rest o); try eassumption.
    by destruct d; simpl; destruct (_ <? _).
  - by destruct d; simpl; destruct (_ <? _).
Qed.

(** * [addOrder] *)

Lemma new_Order_facts id r : id_ (new_Order id r) = id /\ links (new_Order id r) = (None, None) /\
  price_ (new_Order id r) = get_price r /\ side_ (new_Order id r) = get_side r /\
  remaining_quantity_ (new_Order id r) = get_quantity r /\ core (new_Order id r) = new_Order id r.
Proof. done. Qed.

(** The free list is empty exactly when the book holds as many orders as the pool
    has slots. *)
Lemma pool_exhausted b L : store_rep b L ->
  free_list_ (pool_ b) = [] <-> length (s_all (abs b L)) = s_capacity (abs b L).
Proof.
  intros Hsr. rewrite length_s_all. pose proof (slots_length b L Hsr) as H. simpl.
  destruct (free_list_ (pool_ b)); simpl in *; [split; [lia|done]|split; [done|lia]].
Qed.

Theorem wp_addOrder r b L (Q : bool -> Orderbook -> Prop) :
  book_rep b L -> is_u32 (get_quantity r) -> (get_type r <> MARKET -> in_range (get_price r)) ->
  implements (s_add r (abs b L)) b Q -> wp (addOrder r) Q b.
Proof.
  intros Hrep Hu Hp HQ. pose proof (br_store _ _ Hrep) as Hsr. unfold addOrder, s_add in *.
  destruct (decide (get_type r = MARKET)) as [|Hlimit]; [by apply (wp_matchMarket r b L)|].
  specialize (Hp Hlimit). cbv zeta. apply wp_bind, wp_get.
  destruct (orders_ b !! get_order_id r) as [s|] eqn:Hid.
  { destruct (orders_slot b L _ s Hsr Hid) as (o & Ho & _).
    rewrite (s_find_some b L _ s o Hsr Hid Ho) in HQ. apply wp_ret. by apply (HQ b L). }
  rewrite (s_find_none b L _ Hsr Hid) in HQ. unfold allocate, pool_allocate. wp_steps.
  destruct (free_list_ (pool_ b)) as [|p rest] eqn:Hfree.
  { rewrite decide_True in HQ by (by apply (pool_exhausted b L)). wp_steps.
    replace (set_pool (pool_ b) b) with b by (by destruct b). by apply (HQ b L). }
  rewrite decide_False in HQ by (intros E; apply (pool_exhausted b L) in E; congruence).
  cbv zeta in HQ. wp_steps. set (o := new_Order (get_order_id r) r) in *.
  change (set_orders _ _) with (allocated p rest o b).
  apply (wp_get_order _ o); [apply list_lookup_insert_eq; by eapply fresh_lt|]. cbv zeta.
  assert (Hrest : forall Q', (forall b' L', book_rep b' L' ->
     abs b' L' = s_set (side_ladder (get_side r))
        (s_insert (side_ladder (get_side r)) o (s_orders (side_ladder (get_side r)) (abs b L))) (abs b L) ->
     out_ring_ b' = out_ring_ b -> Q' tt b') ->
     wp (rest_order (side_ladder (get_side r)) (level_index (price_ o)) p (price_ o)) Q' (allocated p rest o b)).
  { intros Q' HQ'. by apply (wp_rest_order b L (side_ladder (get_side r)) p rest o Q'). }
  assert (Hmatch : forall b' L', book_rep b' L' ->
     abs b' L' = s_set (side_ladder (get_side r))
        (s_insert (side_ladder (get_side r)) o (s_orders (side_ladder (get_side r)) (abs b L))) (abs b L) ->
     out_ring_ b' = out_ring_ b -> wp matchOrders Q b').
  { intros b' L' Hrep' Habs Hout. apply (wp_matchOrders b' L'); [exact Hrep'|].
    intros b'' L''. rewrite Habs, Hout. apply HQ. }
  apply wp_bind. change (side_ o) with (get_side r). unfold side_ladder in Hrest, Hmatch.
  destruct (decide (get_side r = BID)); apply Hrest; exact Hmatch.
Qed.

(** * [modifyOrder] *)

Lemma touch_view b L id s o t (l : list ptr) :
  store_rep b L -> orders_ b !! id = Some s -> arena b !! s = Some o ->
  (forall u, u ∈ l -> u ∈ slots L) ->
  view (<[s := set_recv_tsc t o]> (arena b)) l = touch id t <$> view (arena b) l.
Proof.
  intros Hsr Hid Ho Hl. destruct (orders_slot b L id s Hsr Hid) as (o' & Ho' & Hido).
  replace o' with o in Hido by congruence. apply lookup_lt_Some in Ho as Hlt.
  unfold view. rewrite <- list_fmap_compose. apply list_fmap_ext.
  intros i u Hu%list_elem_of_lookup_2. unfold compose.
  destruct (slot_order b L Hsr u (Hl u Hu)) as (x & Hx & _).
  rewrite (list_lookup_total_correct (core <$> arena b) u (core x)) by (by rewrite list_lookup_fmap, Hx).
  apply list_lookup_total_correct. rewrite list_lookup_fmap. unfold touch. simpl.
  destruct (Z.eqb_spec (id_ x) id) as [E|E].
  - assert (u = s) as ->.
    { apply (slot_ids b L Hsr u s x o); [by apply Hl|by apply (sr_orders _ _ Hsr) in Hid as [? _]|done..|congruence]. }
    rewrite list_lookup_insert_eq by done. simpl. by replace x with o by congruence.
  - rewrite list_lookup_insert_ne, Hx; [done|]. intros ->. apply E. congruence.
Qed.

Lemma touch_book b L id s o t :
  book_rep b L -> orders_ b !! id = Some s -> arena b !! s = Some o ->
  let b' := set_arena (<[s := set_recv_tsc t o]> (arena b)) b in
  book_rep b' L /\
  abs b' L = mkSBook (touch id t <$> s_bids (abs b L)) (touch id t <$> s_asks (abs b L))
                     (s_capacity (abs b L)).
Proof.
  intros [Hsr Hmeta] Hid Ho b'. split; [constructor|].
  - apply (sr_orders _ _ Hsr) in Hid as (Hs & _).
    destruct (slot_order b L Hsr s Hs) as (o' & Ho' & Hu). replace o' with o in Hu by congruence.
    by apply (store_rep_update b L s o).
  - intros d. specialize (Hmeta d). by destruct d.
  - unfold abs. simpl. f_equal; [..|apply length_insert];
      apply (touch_view b L id s o t); try done; intros u Hu.
    + exact (flat_slot L Bids u Hu).
    + exact (flat_slot L Asks u Hu).
Qed.

Theorem wp_modifyOrder r b L s o (Q : bool -> Orderbook -> Prop) :
  book_rep b L -> orders_ b !! get_order_id r = Some s -> arena b !! s = Some o ->
  is_u32 (get_quantity r) -> (get_type r <> MARKET -> in_range (get_price r)) ->
  implements (s_modify r (core o) (abs b L)) b Q -> wp (modifyOrder r) Q b.
Proof.
  intros Hrep Hid Ho Hu Hp HQ. unfold modifyOrder, s_modify in *. cbv zeta.
  apply wp_bind, wp_get. rewrite Hid. apply wp_bind, (wp_get_order _ o); [exact Ho|].
  change (price_ (core o)) with (price_ o) in HQ.
  change (initial_quantity_ (core o)) with (initial_quantity_ o) in HQ.
  destruct (decide (get_price r = price_ o /\ get_quantity r = initial_quantity_ o)) as [[E1 E2]|Hne].
  - rewrite E1, E2, !Z.eqb_refl. cbn [negb orb].
    destruct (touch_book b L _ s o (get_recv_tsc r) Hrep Hid Ho) as [Hrep' Habs'].
    apply wp_bind, (wp_put_order _ _ o); [exact Ho|]. cbv zeta in HQ.
    destruct (decide (get_type r = MARKET)).
    + apply (wp_matchMarket r _ L); [exact Hrep'|exact Hu|]. rewrite Habs'. exact HQ.
    + apply (wp_matchOrders _ L); [exact Hrep'|]. rewrite Habs'. exact HQ.
  - assert (negb (get_price r =? price_ o) || negb (get_quantity r =? initial_quantity_ o) = true) as ->.
    { zcases; simpl; auto. }
    apply wp_bind, (wp_cancel b L _ s o); [done..|]. intros b' L' Hrep' Habs' Hout'.
    apply (wp_addOrder r b' L'); [done..|]. rewrite Habs'. intros b'' L''. rewrite Hout'. apply HQ.
Qed.

(** * [process] *)

Theorem wp_process r b L (Q : ProcessResult -> Orderbook -> Prop) :
  book_rep b L -> request_ok r -> implements (s_process r (abs b L)) b Q -> wp (process r) Q b.
Proof.
  intros Hrep [Hu Hlim] HQ. pose proof (br_store _ _ Hrep) as Hsr. unfold process, s_process in *.
  assert (Hp : get_message_type r = NEW \/ get_message_type r = MODIFY ->
    get_type r <> MARKET -> in_range (get_price r)) by (intros H1 H2; exact (Hlim H2 H1)).
  destruct (get_message_type r) eqn:Hmt.
  - apply wp_bind, (wp_addOrder r b L); [done..|apply Hp; auto|]. intros b' L' Hrep' Habs' Hout'.
    apply wp_ret. by apply (HQ b' L').
  - apply wp_bind, wp_get. destruct (orders_ b !! get_order_id r) as [s|] eqn:Hid.
    + destruct (orders_slot b L _ s Hsr Hid) as (o & Ho & _).
      rewrite (s_find_some b L _ s o Hsr Hid Ho) in HQ.
      apply wp_bind, (wp_get_order _ o); [exact Ho|].
      change (client_id_ (core o)) with (client_id_ o) in HQ.
      destruct (decide (client_id_ o = get_clientId r)); [|apply wp_ret; by apply (HQ b L)].
      apply wp_bind, (wp_cancel b L _ s o); [done..|]. intros b' L' Hrep' Habs' Hout'.
      apply wp_ret. by apply (HQ b' L').
    + rewrite (s_find_none b L _ Hsr Hid) in HQ. apply wp_ret. by apply (HQ b L).
  - apply wp_bind, wp_get. destruct (orders_ b !! get_order_id r) as [s|] eqn:Hid.
    + destruct (orders_slot b L _ s Hsr Hid) as (o & Ho & _).
      rewrite (s_find_some b L _ s o Hsr Hid Ho) in HQ.
      apply wp_bind, (wp_get_order _ o); [exact Ho|].
      change (client_id_ (core o)) with (client_id_ o) in HQ.
      change (side_ (core o)) with (side_ o) in HQ.
      destruct (decide _); [|apply wp_ret; by apply (HQ b L)].
      apply wp_bind, (wp_modifyOrder r b L s o); [done..|apply Hp; auto|].
      intros b' L' Hrep' Habs' Hout'. apply wp_ret. by apply (HQ b' L').
    + rewrite (s_find_none b L _ Hsr Hid) in HQ. apply wp_ret. by apply (HQ b L).
  - apply wp_ret. by apply (HQ b L).
  - apply wp_ret. by apply (HQ b L).
Qed.

(** * The empty book, and runs *)

Lemma book_init_refines n ring : Z.of_nat n < 2 ^ 32 ->
  refines (book_init n ring) (mkSBook [] [] n).
Proof.
  intros Hn. exists (mkLadders ∅ ∅). split.
  - constructor; [constructor|].
    + intros d. destruct d; apply ladder_rep_empty.
    + unfold slots. simpl. rewrite !flat_empty, app_nil_r, length_replicate.
      pose proof (pool_init_free n) as E. simpl in E. by rewrite E.
    + simpl. by rewrite length_replicate.
    + intros id s. unfold slots. simpl. rewrite !flat_empty, lookup_empty. set_solver.
    + unfold slots. simpl. by rewrite !flat_empty.
    + intros d. destruct d; apply meta_rep_empty.
  - unfold abs. simpl. by rewrite !flat_empty, length_replicate.
Qed.

(** One request: the concrete book returns, and its result, its next state and
    its outbound ring are those of the specification. *)
Lemma process_sim r b A : refines b A -> request_ok r ->
  exists b', process r b = Ok ((s_process r A).1.1, b') /\ refines b' (s_process r A).1.2 /\
             out_ring_ b' = push_all (s_process r A).2 (out_ring_ b).
Proof.
  intros (L & Hrep & ->) Hr.
  assert (wp (process r) (fun x b' => x = (s_process r (abs b L)).1.1 /\
     refines b' (s_process r (abs b L)).1.2 /\
     out_ring_ b' = push_all (s_process r (abs b L)).2 (out_ring_ b)) b) as H.
  { apply (wp_process r b L); [done..|]. intros b' L' Hrep' Habs' Hout'.
    split_and!; [done| |done]. by exists L'. }
  apply wp_Ok in H as (x & b' & Hrun & -> & Href & Hout). eauto.
Qed.
