(* ===== verification/BookProps.v ===== *)
(** What the order book guarantees, stated for the concrete operations of [Book].

    [valid b A] is the invariant of the book: it holds of the empty book and every
    request of [request_ok] preserves it.  [A] lists the resting orders of each
    side in the order in which they trade. *)

From S2P Require Import Prelude Types Ring Pool Book Spec SpecProps Ladder Refine Match Process.

Local Open Scope Z_scope.

(** * Definitions *)

Definition valid (b : Orderbook) (A : SBook) : Prop := refines b A /\ s_inv A.

(** The orders of a side at one price, first in first out. *)
Definition at_price (p : Z) (l : list Order) : list Order := filter (fun o => price_ o = p) l.

(** The price at the front of a side. *)
Definition front_price (d : ladder) (l : list Order) : Z :=
  match l with [] => worst_price d | o :: _ => price_ o end.

(** Requests of the witnesses: client 1 and client 2, limit orders around price
    100. *)
Definition limit (id client : Z) (s : Side) (price qty : Z) : OrderRequest :=
  mkRequest NEW id client s LIMIT price qty 0 0 0.
Definition market (id client : Z) (s : Side) (qty : Z) : OrderRequest :=
  mkRequest NEW id client s MARKET 0 qty 0 0 0.
Definition cancel (id client : Z) : OrderRequest :=
  mkRequest CANCEL id client BID LIMIT 0 0 0 0 0.
Definition amend (id client : Z) (s : Side) (price qty : Z) : OrderRequest :=
  mkRequest MODIFY id client s LIMIT price qty 0 0 0.
Definition sample_run : list OrderRequest :=
  [limit 0 1 BID 100 5; limit 1 2 BID 100 7; limit 2 1 BID 99 1; limit 3 2 ASK 103 4; limit 4 1 ASK 102 6].
Definition sample_ring : OutboundRing := ring_init 16.

(** * Shared lemmas *)

Lemma request_quantity r : request_ok r -> 0 <= get_quantity r.
Proof. intros [H _]. unfold is_u32 in H. lia. Qed.

Lemma process_valid r b A : valid b A -> request_ok r ->
  exists b', process r b = Ok ((s_process r A).1.1, b') /\ valid b' (s_process r A).1.2 /\
             out_ring_ b' = push_all (s_process r A).2 (out_ring_ b).
Proof.
  intros [Href Hinv] Hr. destruct (process_sim r b A Href Hr) as (b' & Hrun & Href' & Hout).
  exists b'. split_and!; [done| |done]. split; [done|].
  apply s_process_inv; [done|by apply request_quantity].
Qed.

Lemma run_valid rs b A : valid b A -> Forall request_ok rs ->
  exists b', run_requests rs b = Ok ((s_run rs A).1.1, b') /\ valid b' (s_run rs A).1.2 /\
             out_ring_ b' = push_all (s_run rs A).2 (out_ring_ b).
Proof.
  revert b A. induction rs as [|r rs IH]; intros b A Hv Hrs; simpl.
  { by exists b. }
  apply Forall_cons in Hrs as [Hr Hrs].
  destruct (process_valid r b A Hv Hr) as (b1 & Hrun1 & Hv1 & Hout1).
  destruct (s_process r A) as [[x A1] ms]. simpl in *.
  destruct (IH b1 A1 Hv1 Hrs) as (b2 & Hrun2 & Hv2 & Hout2).
  destruct (s_run rs A1) as [[xs A2] ms']. simpl in *. exists b2.
  split_and!; [|done|by rewrite Hout2, Hout1, push_all_app].
  unfold mbind, M_bind. rewrite Hrun1. rewrite Hrun2. done.
Qed.

Lemma valid_init n ring : Z.of_nat n < 2 ^ 32 -> valid (book_init n ring) (mkSBook [] [] n).
Proof. intros Hn. split; [by apply book_init_refines|apply s_empty_inv]. Qed.

(** The book the witnesses start from. *)
Lemma sample_ok : Forall request_ok sample_run.
Proof. repeat (constructor; [split; [unfold is_u32; simpl; lia|intros _ _; compute; split; congruence]|]). constructor. Qed.

Lemma sample_valid : exists b, run_requests sample_run (book_init 8 sample_ring) =
    Ok (replicate 5 (mkResult SUCCESS false), b) /\
  valid b (s_run sample_run (mkSBook [] [] 8)).1.2 /\ out_ring_ b = sample_ring.
Proof.
  destruct (run_valid sample_run _ _ (valid_init 8 sample_ring eq_refl) sample_ok) as (b & H1 & H2 & H3).
  exists b. split_and!; [exact H1|exact H2|exact H3].
Qed.

(** ** Reading the concrete fields off the lists *)

Lemma view_best_head b L d : book_rep b L ->
  best_price d b = front_price d (s_orders d (abs b L)).
Proof.
  intros Hrep. rewrite s_orders_abs. fold (side_view d b L).
  destruct (0 <? level_count d b) eqn:Hc.
  - apply (count_positive b L d Hrep) in Hc as Hp.
    destruct (level_head b L d _ (br_store _ _ Hrep) Hp) as (Hr & s & l & o & Hq & Ho & Hpo & _).
    rewrite (side_view_best b L d _ s l o Hr (book_best b L d _ Hrep eq_refl Hp) Hq Ho).
    simpl. by rewrite Hpo.
  - rewrite (count_zero_view b L d Hrep Hc). simpl.
    destruct (br_meta _ _ Hrep d) as [Hn Hb]. apply Z.ltb_ge in Hc.
    rewrite decide_True in Hb; [done|]. apply map_size_empty_inv. lia.
Qed.

Lemma count_positive_orders b L d : book_rep b L ->
  0 < level_count d b <-> s_orders d (abs b L) <> [].
Proof.
  intros Hrep. rewrite s_orders_abs. fold (side_view d b L). rewrite <- Z.ltb_lt. split.
  - intros Hc. apply (count_positive b L d Hrep) in Hc.
    destruct (level_head b L d _ (br_store _ _ Hrep) Hc) as (Hr & s & l & o & Hq & Ho & _).
    rewrite (side_view_best b L d _ s l o Hr (book_best b L d _ Hrep eq_refl Hc) Hq Ho). done.
  - intros Hne. destruct (0 <? level_count d b) eqn:Hc; [done|].
    by rewrite (count_zero_view b L d Hrep Hc) in Hne.
Qed.

Lemma view_prices b L d p : store_rep b L ->
  p ∈ price_ <$> side_view d b L <-> is_Some (lad d L !! p).
Proof.
  intros Hsr. pose proof (sr_ladder _ _ Hsr d) as Hl. rewrite list_elem_of_fmap. split.
  - intros (x & -> & (s & Hs & ->)%elem_of_view).
    destruct (flat_order _ _ _ _ Hl s Hs) as (o & Ho & Hq & _).
    rewrite (list_lookup_total_correct _ _ (core o)) by (by rewrite list_lookup_fmap, Ho).
    by eapply queue_of_nonempty.
  - intros Hp. destruct (level_head b L d p Hsr Hp) as (Hr & s & l & o & Hq & Ho & <- & _).
    exists (core o). split; [done|]. apply elem_of_view. exists s. split.
    + apply (elem_of_flat_queue _ _ _ _ Hl (price_ o)). rewrite Hq. by left.
    + symmetry. apply list_lookup_total_correct. by rewrite list_lookup_fmap, Ho.
Qed.

Lemma at_price_view b L d p : store_rep b L -> in_range p ->
  length (at_price p (side_view d b L)) = length (queue_of (lad d L) p).
Proof.
  intros Hsr Hp. pose proof (sr_ladder _ _ Hsr d) as Hl. unfold side_view, at_price.
  assert (Hprice : forall (l : list ptr) q, (forall s, s ∈ l -> s ∈ queue_of (lad d L) q) ->
            Forall (fun o => price_ o = q) (view (arena b) l)).
  { intros l q Hin. apply Forall_forall. intros x (s & Hs & ->)%elem_of_view.
    destruct (lr_order _ _ _ _ Hl q s (Hin s Hs)) as (o & Ho & Hpo & _).
    by rewrite (list_lookup_total_correct _ _ (core o)) by (by rewrite list_lookup_fmap, Ho). }
  assert (Hnone : forall l : list ptr, (forall s, s ∈ l -> exists q, q <> p /\ s ∈ queue_of (lad d L) q) ->
            filter (fun o => price_ o = p) (view (arena b) l) = []).
  { intros l Hin. apply filter_none, Forall_forall. intros x (s & Hs & ->)%elem_of_view.
    destruct (Hin s Hs) as (q & Hne & Hq).
    destruct (lr_order _ _ _ _ Hl q s Hq) as (o & Ho & <- & _).
    by rewrite (list_lookup_total_correct _ _ (core o)) by (by rewrite list_lookup_fmap, Ho). }
  rewrite (flat_split d p) by exact Hp. rewrite !view_app, !filter_app.
  rewrite (Hnone (above d p (lad d L))), (Hnone (below d p (lad d L))).
  - rewrite app_nil_r, filter_all; [apply length_fmap|]. by apply Hprice.
  - intros s Hs. apply elem_of_below in Hs as (q & _ & Hq & Hs); [|exact Hp].
    exists q. split; [|exact Hs]. intros ->. by rewrite before_irrefl in Hq.
  - intros s Hs. apply elem_of_above in Hs as (q & _ & Hq & Hs); [|exact Hp].
    exists q. split; [|exact Hs]. intros ->. by rewrite before_irrefl in Hq.
Qed.

(** * Refinement *)

(** C1. One call of [Orderbook::process] on a valid book returns (no exception, no
    wild access, every loop ends), answers what the specification answers, leaves a
    valid book with the specification's orders, and pushes exactly the
    specification's messages to the outbound ring, in order. *)
Theorem process_refines r b A : valid b A -> request_ok r ->
  exists b', process r b = Ok ((s_process r A).1.1, b') /\ valid b' (s_process r A).1.2 /\
             out_ring_ b' = push_all (s_process r A).2 (out_ring_ b).
Proof. apply process_valid. Qed.

Lemma process_refines_witness : exists b A b',
  process (limit 9 2 ASK 100 6) b = Ok (mkResult SUCCESS true, b') /\
  valid b' (s_process (limit 9 2 ASK 100 6) A).1.2 /\
  s_bids (s_process (limit 9 2 ASK 100 6) A).1.2 =
    [set_remaining 6 (new_Order 1 (limit 1 2 BID 100 7)); new_Order 2 (limit 2 1 BID 99 1)].
Proof.
  destruct sample_valid as (b & _ & Hv & _).
  destruct (process_refines (limit 9 2 ASK 100 6) b _ Hv) as (b' & H1 & H2 & _).
  { split; [unfold is_u32; simpl; lia|]. intros _ _. compute. split; congruence. }
  exists b, (s_run sample_run (mkSBook [] [] 8)).1.2, b'.
  split; [exact H1|]. split; [exact H2|reflexivity].
Defined.

(** C2. Any sequence of requests on a new book: the book implements the whole run of
    the specification, from any pool size below [2^32] slots. *)
Theorem run_refines n ring rs : Z.of_nat n < 2 ^ 32 -> Forall request_ok rs ->
  exists b', run_requests rs (book_init n ring) = Ok ((s_run rs (mkSBook [] [] n)).1.1, b') /\
             valid b' (s_run rs (mkSBook [] [] n)).1.2 /\
             out_ring_ b' = push_all (s_run rs (mkSBook [] [] n)).2 ring.
Proof. intros Hn Hrs. apply run_valid; [by apply valid_init|done]. Qed.

Lemma run_refines_witness : exists b',
  run_requests sample_run (book_init 8 sample_ring) = Ok (replicate 5 (mkResult SUCCESS false), b') /\
  order_count b' = 5%nat.
Proof.
  destruct (run_refines 8 sample_ring sample_run ltac:(lia) sample_ok) as (b' & H & _ & _).
  exists b'. split; [exact H|]. vm_compute in H. injection H as <-. reflexivity.
Defined.

(** * The state of a valid book *)

(** C23. The cached best prices are the front prices of the two sides (the worst
    price of the array when a side is empty), and a valid book is never crossed:
    with orders on both sides the best bid is strictly below the best ask. *)
Theorem best_prices_uncrossed b A : valid b A ->
  (forall d, best_price d b = front_price d (s_orders d A)) /\
  (0 < non_empty_bid_levels_ b -> 0 < non_empty_ask_levels_ b -> best_bid_price_ b < best_ask_price_ b).
Proof.
  intros [(L & Hrep & ->) Hinv].
  assert (Hbest : forall d, best_price d b = front_price d (s_orders d (abs b L)))
    by (intros d; by apply view_best_head).
  split; [exact Hbest|]. intros Hb Ha.
  apply (count_positive_orders b L Bids Hrep) in Hb. apply (count_positive_orders b L Asks Hrep) in Ha.
  pose proof (Hbest Bids) as Eb. pose proof (Hbest Asks) as Ea.
  pose proof (inv_uncrossed _ Hinv) as Hun.
  change (best_bid_price_ b) with (best_price Bids b). change (best_ask_price_ b) with (best_price Asks b).
  rewrite Eb, Ea. cbn [s_orders] in *.
  destruct (s_bids (abs b L)) as [|x xs]; [done|]. destruct (s_asks (abs b L)) as [|y ys]; [done|].
  apply Hun; by left.
Qed.

Lemma best_prices_uncrossed_witness : exists b A, valid b A /\
  best_price Bids b = front_price Bids (s_bids A) /\ front_price Bids (s_bids A) = 100 /\
  best_bid_price_ b < best_ask_price_ b.
Proof.
  destruct sample_valid as (b & Hrun & Hv & _). exists b, (s_run sample_run (mkSBook [] [] 8)).1.2.
  destruct (best_prices_uncrossed b _ Hv) as [H1 H2].
  split; [exact Hv|]. split; [exact (H1 Bids)|]. split; [reflexivity|].
  vm_compute in Hrun. injection Hrun as <-. apply H2; reflexivity.
Defined.

(** The level counters count the distinct prices of a side, and the queue at a
    price holds as many orders as the side has at that price. *)
Theorem levels_count_prices b A d p : valid b A -> MIN_PRICE <= p <= MAX_PRICE ->
  level_count d b = Z.of_nat (size (list_to_set (price_ <$> s_orders d A) : gset Z)) /\
  (match d with Bids => bids_at | Asks => asks_at end) p b =
    Ok (Z.of_nat (length (at_price p (s_orders d A))), b).
Proof.
  intros [(L & Hrep & ->) _] Hp. pose proof (br_store _ _ Hrep) as Hsr.
  rewrite s_orders_abs. fold (side_view d b L). split.
  - rewrite (mr_count _ _ _ _ (br_meta _ _ Hrep d)). f_equal. rewrite <- size_dom. f_equal.
    apply set_eq. intros q. by rewrite elem_of_dom, elem_of_list_to_set, (view_prices b L d q Hsr).
  - pose proof (level_rep b L d p Hsr Hp) as [_ _ Hsize _].
    rewrite (at_price_view b L d p Hsr Hp).
    assert (Hread : forall d', wp (q ← read_level d' (level_index p); mret (size_ q))
      (fun x b' => b' = b /\ x = size_ (default empty_queue (levels d' b !! level_index p))) b).
    { intros d'. apply wp_bind, wp_read_level; [exact Hp|]. by apply wp_ret. }
    destruct (wp_Ok _ _ _ (Hread d)) as (x & b' & E & -> & ->).
    destruct d; [unfold bids_at|unfold asks_at]; by rewrite E, Hsize.
Qed.

Lemma levels_count_prices_witness : exists b A,
  level_count Bids b = Z.of_nat (size (list_to_set (price_ <$> s_orders Bids A) : gset Z)) /\
  bids_at 100 b = Ok (2, b).
Proof.
  destruct sample_valid as (b & _ & Hv & _). exists b, (s_run sample_run (mkSBook [] [] 8)).1.2.
  exact (levels_count_prices b _ Bids 100 Hv ltac:(unfold MIN_PRICE, MAX_PRICE; lia)).
Defined.

(** The lookup map and the pool account for exactly the resting orders: as many
    map entries as slots in use as orders on the two sides, free slots for the
    rest, an id is known exactly when an order with it rests, and no two resting
    orders share an id. *)
Theorem accounting b A id : valid b A ->
  order_count b = length (s_all A) /\ pool_in_use (pool_ b) = length (s_all A) /\
  (pool_available (pool_ b) + order_count b = pool_capacity (pool_ b))%nat /\
  (has_order id b = true <-> exists o, o ∈ s_all A /\ id_ o = id) /\ NoDup (id_ <$> s_all A).
Proof.
  intros [(L & Hrep & ->) Hinv]. pose proof (br_store _ _ Hrep) as Hsr.
  pose proof (slots_length b L Hsr) as Hlen.
  unfold order_count, pool_in_use, pool_available, pool_capacity. rewrite length_s_all, (sr_size _ _ Hsr).
  split_and!; [done|lia|lia| |by destruct Hinv].
  unfold has_order. rewrite bool_decide_eq_true. split.
  - intros [s Hs]. destruct (orders_slot b L id s Hsr Hs) as (o & Ho & <-).
    exists (core o). split; [|done].
    apply (s_find_some_elem (id_ o)). by apply (s_find_some b L _ s).
  - intros (o & Ho & <-). destruct (orders_ b !! id_ o) as [s|] eqn:E; [by eexists|].
    apply (s_find_none b L _ Hsr) in E. apply s_find_none_ids in E.
    exfalso. apply E. by apply list_elem_of_fmap_2.
Qed.

Lemma accounting_witness : exists b A,
  order_count b = length (s_all A) /\ length (s_all A) = 5%nat /\ has_order 3 b = true.
Proof.
  destruct sample_valid as (b & _ & Hv & _). exists b, (s_run sample_run (mkSBook [] [] 8)).1.2.
  destruct (accounting b _ 3 Hv) as (H1 & _ & _ & H2 & _). split; [exact H1|]. split; [reflexivity|].
  apply H2. exists (new_Order 3 (limit 3 2 ASK 103 4)). split; [|reflexivity].
  apply (bool_decide_unpack _). vm_compute. exact I.
Defined.

(** * Limit orders *)

Lemma has_order_find b A id : valid b A -> has_order id b = false -> s_find id A = None.
Proof.
  intros [(L & Hrep & ->) _] H. apply (s_find_none b L _ (br_store _ _ Hrep)).
  unfold has_order in H. apply bool_decide_eq_false in H. by apply eq_None_not_Some.
Qed.

Lemma available_room b A : valid b A -> pool_available (pool_ b) <> 0%nat ->
  (length (s_all A) < s_capacity A)%nat.
Proof.
  intros [(L & Hrep & ->) _] H. pose proof (slots_length b L (br_store _ _ Hrep)) as Hlen.
  rewrite length_s_all. unfold pool_available in H. simpl. lia.
Qed.

(** The specification on a new limit order that is accepted. *)
Lemma s_process_limit r A : get_message_type r = NEW -> get_type r <> MARKET ->
  s_find (get_order_id r) A = None -> (length (s_all A) < s_capacity A)%nat ->
  let d := side_ladder (get_side r) in
  let A1 := s_set d (s_insert d (new_Order (get_order_id r) r) (s_orders d A)) A in
  s_process r A = (mkResult SUCCESS (s_match A1).1.1, (s_match A1).1.2, (s_match A1).2).
Proof.
  intros Hm Ht Hf Hroom. unfold s_process, s_add. rewrite Hm, Hf.
  rewrite decide_False by exact Ht. rewrite decide_False by lia. done.
Qed.

(** The accepted limit order, inserted: a well-formed state, ready to match. *)
Lemma limit_wf r A : s_inv A -> request_ok r -> s_find (get_order_id r) A = None ->
  (length (s_all A) < s_capacity A)%nat ->
  let d := side_ladder (get_side r) in
  s_wf (s_set d (s_insert d (new_Order (get_order_id r) r) (s_orders d A)) A).
Proof.
  intros Hinv Hr Hf Hroom. apply s_inv_split in Hinv as [Hwf _].
  apply s_insert_wf; [done|by apply s_find_none_ids|done|done|by apply request_quantity].
Qed.

(** C6. Price-time priority.  A new limit order is queued behind every order of its
    side at the same or a better price and ahead of every order at a strictly worse
    one; and fills go strictly from the front of each side, so an order trades
    only once everything ahead of it has been filled completely. *)
Theorem limit_price_time r b A : valid b A -> request_ok r ->
  get_message_type r = NEW -> get_type r <> MARKET ->
  has_order (get_order_id r) b = false -> pool_available (pool_ b) <> 0%nat ->
  let d := side_ladder (get_side r) in
  exists sa b' A' ahead behind, process r b = Ok (mkResult SUCCESS sa, b') /\ valid b' A' /\
    s_orders d A = ahead ++ behind /\
    Forall (fun x => before d (get_price r) (price_ x) = false) ahead /\
    Forall (fun x => before d (get_price r) (price_ x) = true) behind /\
    depleted (ahead ++ new_Order (get_order_id r) r :: behind) (s_orders d A') /\
    depleted (s_orders (opposite d) A) (s_orders (opposite d) A').
Proof.
  intros Hv Hr Hm Ht Hid Hpool d. pose proof (has_order_find b A _ Hv Hid) as Hf.
  pose proof (available_room b A Hv Hpool) as Hroom.
  destruct (process_valid r b A Hv Hr) as (b' & Hrun & Hv' & _).
  pose proof (limit_wf r A (proj2 Hv) Hr Hf Hroom) as Hwf. fold d in Hwf.
  rewrite (s_process_limit r A Hm Ht Hf Hroom) in Hrun, Hv'. fold d in Hrun, Hv'.
  destruct (s_insert_shape d (new_Order (get_order_id r) r) (s_orders d A))
    as (l1 & l2 & E1 & E2 & H1 & H2); [apply (inv_sorted _ (proj2 Hv))|].
  eexists _, b', _, l1, l2. split; [exact Hrun|]. split; [exact Hv'|].
  split_and!; [exact E1|exact H1|exact H2| |].
  - rewrite <- E2. pose proof (s_match_depleted _ d Hwf) as H. by rewrite s_orders_set, decide_True in H.
  - pose proof (s_match_depleted _ (opposite d) Hwf) as H.
    by rewrite s_orders_set, decide_False in H by (by destruct d).
Qed.

Lemma limit_price_time_witness : exists b sa b' A' ahead behind,
  process (limit 9 2 BID 100 3) b = Ok (mkResult SUCCESS sa, b') /\ valid b' A' /\
  s_orders Bids (s_run sample_run (mkSBook [] [] 8)).1.2 = ahead ++ behind /\
  depleted (ahead ++ new_Order 9 (limit 9 2 BID 100 3) :: behind) (s_orders Bids A').
Proof.
  destruct sample_valid as (b & Hrun & Hv & _). exists b.
  destruct (limit_price_time (limit 9 2 BID 100 3) b _ Hv) as (sa & b' & A' & l1 & l2 & H1 & H2 & H3 & _ & _ & H4 & _).
  - split; [unfold is_u32; simpl; lia|]. intros _ _. compute. split; congruence.
  - reflexivity.
  - discriminate.
  - vm_compute in Hrun. injection Hrun as <-. reflexivity.
  - vm_compute in Hrun. injection Hrun as <-. discriminate.
  - exists sa, b', A', l1, l2. split; [exact H1|]. split; [exact H2|]. split; [exact H3|exact H4].
Defined.

(** The messages of the specification are MATCH messages with status SUCCESS. *)
Definition is_match (m : OutboundMessage) : Prop := out_message_type m = MATCH /\ out_status m = SUCCESS.

Lemma cross_is_match bids asks : Forall is_match (cross bids asks).2.
Proof.
  unfold cross. generalize (length bids + length asks)%nat. intros n. revert bids asks.
  induction n as [|n IH]; intros bids asks; [constructor|]. simpl.
  destruct bids as [|b bs], asks as [|a asks]; try constructor.
  destruct (price_ b <? price_ a); [constructor|].
  specialize (IH (consume (Z.min (remaining_quantity_ b) (remaining_quantity_ a)) b bs)
                 (consume (Z.min (remaining_quantity_ b) (remaining_quantity_ a)) a asks)).
  destruct (cross_n n _ _) as [[B A] ms]. by repeat constructor.
Qed.

Lemma sweep_is_match r rem l : Forall is_match (sweep r rem l).2.
Proof.
  revert rem. induction l as [|o l IH]; intros rem; [constructor|]. simpl.
  destruct (0 <? rem); [|constructor]. destruct (is_filled _); [|by repeat constructor].
  specialize (IH (rem - Z.min rem (remaining_quantity_ o))).
  destruct (sweep _ _ _) as [[rem' l'] ms]. by repeat constructor.
Qed.

(** C7. Quantity is conserved: the quantity that leaves the bids of a limit order's
    book (the new order counted on its side) equals the quantity that leaves the
    asks.  Every trade sends two MATCH messages and nothing else is sent; the
    acknowledgement is suppressed exactly when something traded. *)
Theorem limit_conserves_quantity r b A : valid b A -> request_ok r ->
  get_message_type r = NEW -> get_type r <> MARKET ->
  has_order (get_order_id r) b = false -> pool_available (pool_ b) <> 0%nat ->
  let d := side_ladder (get_side r) in
  exists b' A' ms trades, process r b = Ok (mkResult SUCCESS (sent ms), b') /\ valid b' A' /\
    out_ring_ b' = push_all ms (out_ring_ b) /\ Forall is_match ms /\ length ms = (2 * trades)%nat /\
    total (s_orders d A) + get_quantity r - total (s_orders d A') =
    total (s_orders (opposite d) A) - total (s_orders (opposite d) A').
Proof.
  intros Hv Hr Hm Ht Hid Hpool d. pose proof (has_order_find b A _ Hv Hid) as Hf.
  pose proof (available_room b A Hv Hpool) as Hroom.
  destruct (process_valid r b A Hv Hr) as (b' & Hrun & Hv' & Hout).
  pose proof (limit_wf r A (proj2 Hv) Hr Hf Hroom) as Hwf. fold d in Hwf.
  rewrite (s_process_limit r A Hm Ht Hf Hroom) in Hrun, Hv', Hout. fold d in Hrun, Hv', Hout.
  set (A1 := s_set d _ A) in *. destruct (s_match_facts A1 Hwf) as [[_ _ Hvol _ (k & Hk & _)] [_ Hsa]].
  assert (Hd : total (s_orders d A1) = get_quantity r + total (s_orders d A)).
  { unfold A1. rewrite s_orders_set, decide_True by done.
    by rewrite (total_Permutation _ _ (s_insert_perm d _ _)). }
  assert (Ho : s_orders (opposite d) A1 = s_orders (opposite d) A).
  { unfold A1. by rewrite s_orders_set, decide_False by (by destruct d). }
  rewrite Hsa in Hrun. eexists b', _, _, k. split; [exact Hrun|]. split; [exact Hv'|].
  split_and!; [exact Hout| |exact Hk|].
  - unfold s_match. pose proof (cross_is_match (s_bids A1) (s_asks A1)) as H.
    by destruct (cross _ _) as [[? ?] ?].
  - simpl. apply (f_equal total) in Ho. clearbody A1 d. destruct d; simpl in *; lia.
Qed.

Lemma limit_conserves_quantity_witness : exists b b' A' ms trades,
  process (limit 9 2 ASK 99 20) b = Ok (mkResult SUCCESS (sent ms), b') /\ length ms = (2 * trades)%nat /\
  10 + 20 - total (s_asks A') = 13 - total (s_bids A').
Proof.
  destruct sample_valid as (b & Hrun & Hv & _). exists b.
  destruct (limit_conserves_quantity (limit 9 2 ASK 99 20) b _ Hv) as (b' & A' & ms & k & H1 & _ & _ & _ & H2 & H3).
  - split; [unfold is_u32; simpl; lia|]. intros _ _. compute. split; congruence.
  - reflexivity.
  - discriminate.
  - vm_compute in Hrun. injection Hrun as <-. reflexivity.
  - vm_compute in Hrun. injection Hrun as <-. discriminate.
  - exists b', A', ms, k. split; [exact H1|]. split; [exact H2|exact H3].
Defined.

(** * Market orders *)

(** The side a market order of side [s] trades against. *)
Definition resting_side (s : Side) : ladder := opposite (side_ladder s).

Lemma s_market_side r A : get_side r = BID \/ get_side r = ASK ->
  s_market r A = let '(rem, l, ms) := sweep r (get_quantity r) (s_orders (resting_side (get_side r)) A) in
                 (rem =? 0, s_set (resting_side (get_side r)) l A, ms).
Proof. unfold s_market, resting_side, side_ladder. by intros [-> | ->]. Qed.

(** C8. A market order trades against the opposite side from the best price on,
    front of the queue first, until it is filled or that side is empty: it takes
    exactly the smaller of its quantity and what rests there, never touches its own
    side and never rests.  Two messages per trade; the acknowledgement is suppressed
    exactly when the order was filled completely, so a partly filled order gets its
    MATCH messages and a plain acknowledgement as well. *)
Theorem market_fills r b A : valid b A -> request_ok r ->
  get_message_type r = NEW -> get_type r = MARKET -> get_side r = BID \/ get_side r = ASK ->
  let d := resting_side (get_side r) in
  exists b' A' ms trades,
    process r b = Ok (mkResult SUCCESS (get_quantity r <=? total (s_orders d A)), b') /\ valid b' A' /\
    out_ring_ b' = push_all ms (out_ring_ b) /\ Forall is_match ms /\ length ms = (2 * trades)%nat /\
    depleted (s_orders d A) (s_orders d A') /\ s_orders (opposite d) A' = s_orders (opposite d) A /\
    total (s_orders d A) - total (s_orders d A') = Z.min (get_quantity r) (total (s_orders d A)).
Proof.
  intros Hv Hr Hm Ht Hs d. destruct (process_valid r b A Hv Hr) as (b' & Hrun & Hv' & Hout).
  assert (Hp : s_process r A = (mkResult SUCCESS (s_market r A).1.1, (s_market r A).1.2, (s_market r A).2)).
  { unfold s_process, s_add. rewrite Hm. by rewrite decide_True. }
  rewrite Hp, (s_market_side r A Hs) in Hrun, Hv', Hout. fold d in Hrun, Hv', Hout.
  pose proof (request_quantity r Hr) as Hq.
  pose proof (sweep_spec r _ (s_orders d A) Hq (inv_quantities _ (proj2 Hv) d)) as Hsw.
  pose proof (sweep_is_match r (get_quantity r) (s_orders d A)) as Hmatch.
  destruct (sweep _ _ _) as [[rem l] ms]. destruct Hsw as [H1 H2 H3 (k & Hk & _)].
  exists b', (s_set d l A), ms, k.
  split; [|split; [exact Hv'|split; [exact Hout|split; [exact Hmatch|split; [exact Hk|]]]]].
  - assert ((rem =? 0) = (get_quantity r <=? total (s_orders d A))) as <- by (zcases; lia).
    exact Hrun.
  - rewrite !s_orders_set, decide_True, decide_False by (done || by destruct d).
    split; [exact H1|]. split; [done|]. lia.
Qed.

Lemma market_fills_witness : exists b b' A' (ms : list OutboundMessage) trades,
  process (market 9 3 BID 7) b = Ok (mkResult SUCCESS true, b') /\ length ms = (2 * trades)%nat /\
  s_bids A' = s_bids (s_run sample_run (mkSBook [] [] 8)).1.2 /\ 10 - total (s_asks A') = 7.
Proof.
  destruct sample_valid as (b & _ & Hv & _). exists b.
  destruct (market_fills (market 9 3 BID 7) b _ Hv) as (b' & A' & ms & k & H1 & _ & _ & _ & H2 & _ & H3 & H4).
  - split; [unfold is_u32; simpl; lia|]. intros H. by destruct H.
  - reflexivity.
  - reflexivity.
  - left. reflexivity.
  - exists b', A', ms, k. split; [exact H1|]. split; [exact H2|]. split; [exact H3|exact H4].
Defined.

(** A market order of quantity 0 is answered with a suppressed acknowledgement
    although nothing traded: the book and the outbound ring are as before, so no
    message at all is sent for it. *)
Theorem market_zero_unanswered r b A : valid b A ->
  get_message_type r = NEW -> get_type r = MARKET -> get_quantity r = 0 ->
  process r b = Ok (mkResult SUCCESS true, b).
Proof.
  intros _ Hm Ht Hq. unfold process, addOrder, matchMarket. rewrite Hm, decide_True by done.
  assert (Hstep : forall d n, loop (S n) (market_step d r) 0 b = Ok (true, b)).
  { intros d n. assert (market_step d r 0 b = Ok (inr true, b)) as Hs.
    { unfold market_step, mbind at 1, M_bind at 1, get. cbv beta iota.
      change (0 <? 0) with false. by rewrite andb_false_r. }
    cbn [loop]. unfold mbind, M_bind. by rewrite Hs. }
  rewrite Hq. unfold mbind, M_bind, get.
  destruct (decide (get_side r = BID)); [by rewrite Hstep|].
  destruct (decide (get_side r = ASK)); [by rewrite Hstep|done].
Qed.

Lemma market_zero_unanswered_witness : exists b,
  process (market 9 3 BID 0) b = Ok (mkResult SUCCESS true, b) /\ order_count b = 5%nat.
Proof.
  destruct sample_valid as (b & Hrun & Hv & _). exists b. split.
  - exact (market_zero_unanswered (market 9 3 BID 0) b _ Hv eq_refl eq_refl eq_refl).
  - vm_compute in Hrun. injection Hrun as <-. reflexivity.
Defined.

(** * Refused requests *)

(** A limit order with an id that is already known, or one that finds every slot
    of the pool in use, changes nothing and sends nothing, yet [process] answers
    SUCCESS with the acknowledgement not suppressed: the client is told OK for an
    order the book rejected. *)
Theorem rejected_order_acknowledged r b :
  get_message_type r = NEW -> get_type r <> MARKET ->
  has_order (get_order_id r) b = true \/ pool_available (pool_ b) = 0%nat ->
  process r b = Ok (mkResult SUCCESS false, b).
Proof.
  intros Hm Ht Hfull. unfold process, addOrder. rewrite Hm, decide_False by done.
  unfold mbind, M_bind, get. cbv zeta. unfold has_order, pool_available in Hfull.
  destruct (orders_ b !! get_order_id r) as [s|] eqn:E; [done|].
  destruct Hfull as [Hfull|Hfull]; [by apply bool_decide_eq_true in Hfull as [? ?]|].
  unfold allocate, pool_allocate, mbind, M_bind, get.
  destruct (free_list_ (pool_ b)); [|done]. simpl. by destruct b.
Qed.

Lemma rejected_order_acknowledged_witness :
  process (limit 7 1 BID 50 1) (book_init 0 sample_ring) = Ok (mkResult SUCCESS false, book_init 0 sample_ring).
Proof.
  apply (rejected_order_acknowledged (limit 7 1 BID 50 1) (book_init 0 sample_ring) eq_refl).
  - discriminate.
  - right. reflexivity.
Defined.

(** CANCEL and MODIFY are refused, with FAILURE and the book and the outbound ring
    exactly as they were, when no resting order has the id, when it belongs to
    another client, and (MODIFY) when it is on the other side. *)
Theorem refused_unchanged r b A : valid b A ->
  get_message_type r = CANCEL \/ get_message_type r = MODIFY ->
  (forall o, o ∈ s_all A -> id_ o = get_order_id r -> client_id_ o = get_clientId r ->
             get_message_type r = MODIFY /\ side_ o <> get_side r) ->
  process r b = Ok (mkResult FAILURE false, b).
Proof.
  intros [(L & Hrep & ->) _] Hm Hno. pose proof (br_store _ _ Hrep) as Hsr.
  assert (Hfound : forall s, orders_ b !! get_order_id r = Some s -> exists o, arena b !! s = Some o /\
    (client_id_ o = get_clientId r -> get_message_type r = MODIFY /\ side_ o <> get_side r)).
  { intros s Hs. destruct (orders_slot b L _ s Hsr Hs) as (o & Ho & Hid). exists o. split; [exact Ho|].
    intros Hc. apply (Hno (core o)); [|exact Hid|exact Hc].
    apply (s_find_some_elem (get_order_id r)). by apply (s_find_some b L _ s). }
  unfold process. destruct Hm as [E|E]; rewrite E; unfold mbind, M_bind, get;
    (destruct (orders_ b !! get_order_id r) as [s|]; [|done]);
    destruct (Hfound s eq_refl) as (o & Ho & Hc);
    assert (Hget : get_order s b = Ok (o, b)) by
      (unfold get_order, mbind, M_bind, get, of_res; by rewrite (deref_ok _ _ o)); rewrite Hget.
  - rewrite decide_False; [done|]. intros H. destruct (Hc H). congruence.
  - rewrite decide_False; [done|]. intros [H1 H2]. by destruct (Hc H1).
Qed.

Lemma refused_unchanged_witness : exists b, process (cancel 3 1) b = Ok (mkResult FAILURE false, b) /\
  has_order 3 b = true.
Proof.
  destruct sample_valid as (b & Hrun & Hv & _). exists b. split.
  - apply (refused_unchanged (cancel 3 1) b _ Hv); [left; reflexivity|].
    refine (proj1 (Forall_forall (fun o => id_ o = 3 -> client_id_ o = 1 ->
      CANCEL = MODIFY /\ side_ o <> BID) (s_all (s_run sample_run (mkSBook [] [] 8)).1.2)) _).
    vm_compute s_all. repeat (constructor; [intros H1 H2; vm_compute in H1, H2; discriminate|]). constructor.
  - vm_compute in Hrun. injection Hrun as <-. reflexivity.
Defined.

(** * Cancelling and modifying *)

Lemma find_owned A o id : s_inv A -> o ∈ s_all A -> id_ o = id -> s_find id A = Some o.
Proof.
  intros Hinv Ho Hid. destruct (s_find id A) as [x|] eqn:E.
  - apply s_find_some_elem in E as [Hx Hxid]. f_equal.
    pose proof (inv_ids _ Hinv) as Hnd. apply list_elem_of_lookup in Ho as [i Hi], Hx as [j Hj].
    assert (i = j) as ->; [|congruence].
    apply (NoDup_lookup _ i j id Hnd); rewrite list_lookup_fmap, ?Hi, ?Hj; simpl; congruence.
  - apply s_find_none_ids in E. exfalso. apply E. rewrite <- Hid. by apply list_elem_of_fmap_2.
Qed.

Lemma elem_of_s_cancel id A o : o ∈ s_all (s_cancel id A) <-> o ∈ s_all A /\ id_ o <> id.
Proof. unfold s_all. simpl. rewrite !elem_of_app, !elem_of_s_remove. tauto. Qed.

Lemma s_all_cancel id A : s_all (s_cancel id A) = filter (fun x => id_ x <> id) (s_all A).
Proof. unfold s_all. by rewrite filter_app. Qed.

(** Cancelling an order leaves the other side alone. *)
Lemma s_remove_other A o id : s_inv A -> o ∈ s_all A -> id_ o = id ->
  s_orders (opposite (side_ladder (side_ o))) (s_cancel id A) =
  s_orders (opposite (side_ladder (side_ o))) A.
Proof.
  intros Hinv Ho Hid. rewrite s_orders_s_cancel. apply filter_all, Forall_forall. intros x Hx Hxid.
  assert (Hxs : x ∈ s_all A).
  { unfold s_all. apply elem_of_app. destruct (side_ladder (side_ o)); [by right|by left]. }
  pose proof (find_owned A o id Hinv Ho Hid) as H1. rewrite (find_owned A x id Hinv Hxs Hxid) in H1.
  injection H1 as ->. pose proof (inv_side _ Hinv (opposite (side_ladder (side_ o)))) as Hs.
  rewrite Forall_forall in Hs. specialize (Hs _ Hx). by destruct (side_ladder (side_ o)).
Qed.

Lemma has_order_iff b A id : valid b A -> has_order id b = true <-> exists o, o ∈ s_all A /\ id_ o = id.
Proof.
  intros Hv. split.
  - intros H. destruct (s_find id A) as [o|] eqn:E; [exists o; by apply s_find_some_elem|].
    destruct Hv as [(L & Hrep & ->) _]. pose proof (br_store _ _ Hrep) as Hsr.
    unfold has_order in H. apply bool_decide_eq_true in H as [s Hs].
    destruct (orders_slot b L id s Hsr Hs) as (o & Ho & _).
    rewrite (s_find_some b L id s o Hsr Hs Ho) in E. done.
  - intros (o & Ho & Hid). destruct (has_order id b) eqn:E; [done|].
    apply (has_order_find b A id Hv) in E. apply s_find_none_ids in E.
    exfalso. apply E. rewrite <- Hid. by apply list_elem_of_fmap_2.
Qed.

(** C21. CANCEL by the owner of a resting order removes exactly that order: every other
    order keeps its fields and its place in its queue, nothing is sent by the book,
    and afterwards the id is unknown. *)
Theorem cancel_exact r b A o : valid b A -> request_ok r -> get_message_type r = CANCEL ->
  o ∈ s_all A -> id_ o = get_order_id r -> client_id_ o = get_clientId r ->
  exists b' A', process r b = Ok (mkResult SUCCESS false, b') /\ valid b' A' /\
    (forall d, s_orders d A' = filter (fun x => id_ x <> get_order_id r) (s_orders d A)) /\
    out_ring_ b' = out_ring_ b /\ has_order (get_order_id r) b' = false.
Proof.
  intros Hv Hr Hm Ho Hid Hc. destruct (process_valid r b A Hv Hr) as (b' & Hrun & Hv' & Hout).
  assert (Hp : s_process r A = (mkResult SUCCESS false, s_cancel (get_order_id r) A, [])).
  { unfold s_process. rewrite Hm, (find_owned A o _ (proj2 Hv) Ho Hid). by rewrite decide_True. }
  rewrite Hp in Hrun, Hv', Hout. exists b', (s_cancel (get_order_id r) A).
  split; [exact Hrun|]. split; [exact Hv'|]. split; [by intros []|]. split; [exact Hout|].
  apply not_true_is_false. intros H. apply (has_order_iff b' _ _ Hv') in H as (x & Hx & Hxid).
  simpl in Hx. by apply elem_of_s_cancel in Hx as [_ Hx].
Qed.

Lemma cancel_exact_witness : exists b b' A', process (cancel 1 2) b = Ok (mkResult SUCCESS false, b') /\
  (id_ <$> s_orders Bids A' = [0; 2]) /\ has_order 1 b' = false.
Proof.
  destruct sample_valid as (b & _ & Hv & _). exists b.
  destruct (cancel_exact (cancel 1 2) b _ (new_Order 1 (limit 1 2 BID 100 7)) Hv) as (b' & A' & H1 & _ & H2 & _ & H3).
  - split; [unfold is_u32; simpl; lia|]. intros _ [H|H]; discriminate H.
  - reflexivity.
  - apply (bool_decide_unpack _). vm_compute. exact I.
  - reflexivity.
  - reflexivity.
  - exists b', A'. split; [exact H1|]. split; [rewrite (H2 Bids); reflexivity|exact H3].
Defined.

(** An uncrossed book has nothing to match. *)
Lemma cross_uncrossed A : uncrossed A -> cross (s_bids A) (s_asks A) = (s_bids A, s_asks A, []).
Proof.
  unfold uncrossed. intros H. destruct (s_bids A) as [|x xs]; [apply cross_nil_l|].
  destruct (s_asks A) as [|y ys]; [apply cross_nil_r|]. rewrite cross_cons.
  assert (price_ x < price_ y) as Hlt by (apply H; by left).
  by destruct (Z.ltb_spec (price_ x) (price_ y)); [|lia].
Qed.

(** MODIFY by the owner that keeps the price and the order's initial quantity
    changes no order but for its timestamp: same orders, same quantities still
    open, same places in the queues; nothing trades and nothing is sent. *)
Theorem modify_same_keeps_place r b A o : valid b A -> request_ok r ->
  get_message_type r = MODIFY -> get_type r <> MARKET ->
  o ∈ s_all A -> id_ o = get_order_id r -> client_id_ o = get_clientId r -> side_ o = get_side r ->
  get_price r = price_ o -> get_quantity r = initial_quantity_ o ->
  exists b', process r b = Ok (mkResult SUCCESS false, b') /\
    valid b' (s_touch (get_order_id r) (get_recv_tsc r) A) /\ out_ring_ b' = out_ring_ b.
Proof.
  intros Hv Hr Hm Ht Ho Hid Hc Hs Hp Hq. destruct (process_valid r b A Hv Hr) as (b' & Hrun & Hv' & Hout).
  set (A1 := s_touch (get_order_id r) (get_recv_tsc r) A) in *.
  assert (Hstep : s_process r A = (mkResult SUCCESS false, A1, [])).
  { unfold s_process. rewrite Hm, (find_owned A o _ (proj2 Hv) Ho Hid), decide_True by done.
    unfold s_modify. rewrite decide_True, decide_False by done. fold A1.
    assert (uncrossed A1) as Hun by (exact (inv_uncrossed _ (s_touch_inv _ _ A (proj2 Hv)))).
    unfold s_match. rewrite (cross_uncrossed A1 Hun). done. }
  rewrite Hstep in Hrun, Hv', Hout. exists b'. split; [exact Hrun|]. split; [exact Hv'|exact Hout].
Qed.

Lemma modify_same_keeps_place_witness : exists b b' A',
  process (amend 0 1 BID 100 5) b = Ok (mkResult SUCCESS false, b') /\ valid b' A' /\
  id_ <$> s_bids A' = [0; 1; 2].
Proof.
  destruct sample_valid as (b & _ & Hv & _). exists b.
  destruct (modify_same_keeps_place (amend 0 1 BID 100 5) b _ (new_Order 0 (limit 0 1 BID 100 5)) Hv)
    as (b' & H1 & H2 & _).
  - split; [unfold is_u32; simpl; lia|]. intros _ _. compute. split; congruence.
  - reflexivity.
  - discriminate.
  - apply (bool_decide_unpack _). vm_compute. exact I.
  - reflexivity.
  - reflexivity.
  - reflexivity.
  - reflexivity.
  - reflexivity.
  - exists b', (s_touch 0 0 (s_run sample_run (mkSBook [] [] 8)).1.2).
    split; [exact H1|]. split; [exact H2|reflexivity].
Defined.

(** C22. MODIFY by the owner that changes the price or the quantity gives up the
    order's place: the old order is gone, and a new one with the new price and the
    full new quantity is queued behind every order of its side at the same or a
    better price, then matched like a new order.  A full pool cannot refuse it. *)
Theorem modify_change_loses_place r b A o : valid b A -> request_ok r ->
  get_message_type r = MODIFY -> get_type r <> MARKET ->
  o ∈ s_all A -> id_ o = get_order_id r -> client_id_ o = get_clientId r -> side_ o = get_side r ->
  get_price r <> price_ o \/ get_quantity r <> initial_quantity_ o ->
  let d := side_ladder (get_side r) in
  exists sa b' A' ahead behind, process r b = Ok (mkResult SUCCESS sa, b') /\ valid b' A' /\
    filter (fun x => id_ x <> get_order_id r) (s_orders d A) = ahead ++ behind /\
    Forall (fun x => before d (get_price r) (price_ x) = false) ahead /\
    Forall (fun x => before d (get_price r) (price_ x) = true) behind /\
    depleted (ahead ++ new_Order (get_order_id r) r :: behind) (s_orders d A') /\
    depleted (s_orders (opposite d) A) (s_orders (opposite d) A').
Proof.
  intros Hv Hr Hm Ht Ho Hid Hc Hs Hne d. destruct (process_valid r b A Hv Hr) as (b' & Hrun & Hv' & _).
  set (A0 := s_cancel (get_order_id r) A). pose proof (s_cancel_inv (get_order_id r) A (proj2 Hv)) as Hinv0.
  fold A0 in Hinv0. pose proof (find_owned A o _ (proj2 Hv) Ho Hid) as Hfind.
  assert (Hf0 : s_find (get_order_id r) A0 = None).
  { destruct (s_find (get_order_id r) A0) as [x|] eqn:E; [|done].
    apply s_find_some_elem in E as [Hx Hxid]. by apply elem_of_s_cancel in Hx as [_ Hx]. }
  assert (Hroom : (length (s_all A0) < s_capacity A0)%nat).
  { apply (Nat.lt_le_trans _ (length (s_all A))); [|exact (inv_capacity _ (proj2 Hv))].
    unfold A0. rewrite s_all_cancel. apply (filter_shorter _ _ o Ho). by intros H. }
  assert (Hopp : s_orders (opposite d) A0 = s_orders (opposite d) A).
  { unfold d, A0. rewrite <- Hs. exact (s_remove_other A o _ (proj2 Hv) Ho Hid). }
  pose proof (limit_wf r A0 Hinv0 Hr Hf0 Hroom) as Hwf. fold d in Hwf.
  set (A1 := s_set d (s_insert d (new_Order (get_order_id r) r) (s_orders d A0)) A0) in *.
  cbv zeta in Hwf.
  assert (Hp : s_process r A = (mkResult SUCCESS (s_match A1).1.1, (s_match A1).1.2, (s_match A1).2)).
  { unfold s_process. rewrite Hm, Hfind, decide_True by done. unfold s_modify.
    rewrite decide_False by (intros [? ?]; naive_solver). fold A0. unfold s_add.
    rewrite decide_False, Hf0, decide_False by (done || lia). done. }
  rewrite Hp in Hrun, Hv'. destruct (s_insert_shape d (new_Order (get_order_id r) r) (s_orders d A0))
    as (l1 & l2 & E1 & E2 & H1 & H2); [apply (inv_sorted _ Hinv0)|].
  eexists _, b', _, l1, l2. split; [exact Hrun|]. split; [exact Hv'|].
  split_and!; [rewrite <- E1; unfold A0; by rewrite s_orders_s_cancel|exact H1|exact H2| |].
  - rewrite <- E2. replace (s_insert _ _ _) with (s_orders d A1).
    + by apply s_match_depleted.
    + unfold A1. by rewrite s_orders_set, decide_True.
  - rewrite <- Hopp. replace (s_orders (opposite d) A0) with (s_orders (opposite d) A1).
    + by apply s_match_depleted.
    + unfold A1. by rewrite s_orders_set, decide_False by (by destruct d).
Qed.

Lemma modify_change_loses_place_witness : exists b sa b' A' ahead behind,
  process (amend 0 1 BID 99 5) b = Ok (mkResult SUCCESS sa, b') /\ valid b' A' /\
  [1; 2] = id_ <$> (ahead ++ behind) /\
  depleted (ahead ++ new_Order 0 (amend 0 1 BID 99 5) :: behind) (s_bids A').
Proof.
  destruct sample_valid as (b & _ & Hv & _). exists b.
  destruct (modify_change_loses_place (amend 0 1 BID 99 5) b _ (new_Order 0 (limit 0 1 BID 100 5)) Hv)
    as (sa & b' & A' & l1 & l2 & H1 & H2 & H3 & _ & _ & H4 & _).
  - split; [unfold is_u32; simpl; lia|]. intros _ _. compute. split; congruence.
  - reflexivity.
  - discriminate.
  - apply (bool_decide_unpack _). vm_compute. exact I.
  - reflexivity.
  - reflexivity.
  - reflexivity.
  - left. discriminate.
  - exists sa, b', A', l1, l2. split; [exact H1|]. split; [exact H2|].
    split; [rewrite <- H3; reflexivity|exact H4].
Defined.

(** * Queries and bounds *)

(** Some order of a side trades at [p] when the front one does. *)
Lemma side_crosses b L d p : book_rep b L -> s_inv (abs b L) ->
  (if level_count d b =? 0 then false else negb (before d p (best_price d b))) = true <->
  exists o, o ∈ s_orders d (abs b L) /\ before d p (price_ o) = false.
Proof.
  intros Hrep Hinv. rewrite (view_best_head b L d Hrep).
  pose proof (count_positive_orders b L d Hrep) as Hc. pose proof (inv_sorted _ Hinv d) as Hsort.
  pose proof (mr_count _ _ _ _ (br_meta _ _ Hrep d)) as Hn.
  destruct (s_orders d (abs b L)) as [|x xs].
  - destruct (Z.eqb_spec (level_count d b) 0) as [_|Hnz].
    + split; [done|]. intros (o & Ho & _). by apply not_elem_of_nil in Ho.
    + destruct Hc as [Hc _]. by destruct Hc; [lia|].
  - destruct (Z.eqb_spec (level_count d b) 0) as [Hz|_]; [destruct Hc as [_ Hc]; specialize (Hc ltac:(done)); lia|].
    cbn [front_price]. rewrite negb_true_iff. split; [intros H; exists x; split; [by left|done]|].
    intros (o & [->|Ho]%elem_of_cons & Hle); [done|].
    inversion Hsort as [|? ? _ Hx]; subst. rewrite Forall_forall in Hx. specialize (Hx o Ho).
    unfold not_after in Hx. destruct d; simpl in *; lia.
Qed.

(** [canMatch] answers whether some resting order of the other side would trade
    with a limit order of this side and price. *)
Theorem canMatch_correct b A side price : valid b A ->
  canMatch side price b = true <->
  exists o, o ∈ s_orders (opposite (side_ladder side)) A /\
            match side with BID => price_ o <= price | _ => price <= price_ o end.
Proof.
  intros [(L & Hrep & ->) Hinv]. pose proof (fun d => side_crosses b L d price Hrep Hinv) as H.
  assert (E : canMatch side price b = let d := opposite (side_ladder side) in
    if level_count d b =? 0 then false else negb (before d price (best_price d b))).
  { unfold canMatch, side_ladder. destruct (decide (side = BID)); simpl; zcases; try done; lia. }
  rewrite E. cbv zeta. rewrite H. unfold side_ladder.
  split; intros (o & Ho & Hp); exists o; (split; [exact Ho|]); destruct side; simpl in *; lia.
Qed.

Lemma canMatch_correct_witness : exists b, canMatch BID 102 b = true /\ canMatch BID 101 b = false.
Proof.
  destruct sample_valid as (b & Hrun & Hv & _). exists b. split.
  - apply (canMatch_correct b _ BID 102 Hv). exists (new_Order 4 (limit 4 1 ASK 102 6)).
    split; [|simpl; lia]. apply (bool_decide_unpack _). vm_compute. exact I.
  - vm_compute in Hrun. injection Hrun as <-. reflexivity.
Defined.

(** How many messages a request can send. *)
Lemma s_match_messages A : s_wf A -> (length (s_match A).2 <= 2 * length (s_all A))%nat.
Proof.
  intros Hwf. destruct (s_match_facts A Hwf) as [[_ _ _ _ (k & -> & Hk)] _].
  unfold s_all. rewrite length_app. lia.
Qed.

Lemma s_market_messages r A : s_wf A -> 0 <= get_quantity r ->
  (length (s_market r A).2 <= 2 * length (s_all A))%nat.
Proof.
  intros Hwf Hq. unfold s_market.
  destruct (if decide (get_side r = BID) then Some Asks else _) as [d|]; [|simpl; lia].
  pose proof (sweep_spec r _ _ Hq (wf_quantities A Hwf d)) as H.
  destruct (sweep _ _ _) as [[rem l] ms]. destruct H as [_ _ _ (k & Hk & Hkl)]. simpl. rewrite Hk.
  unfold s_all. rewrite length_app. destruct d; simpl in *; lia.
Qed.

Lemma s_add_messages r A : s_inv A -> 0 <= get_quantity r ->
  (length (s_add r A).2 <= 2 * (length (s_all A) + 1))%nat.
Proof.
  intros Hinv Hq. pose proof (proj1 (proj1 (s_inv_split A) Hinv)) as Hwf. unfold s_add.
  case_decide. { pose proof (s_market_messages r A Hwf Hq). lia. }
  destruct (s_find _ _) eqn:Hf; [simpl; lia|]. case_decide as Hc; [simpl; lia|]. cbv zeta.
  pose proof (wf_capacity A Hwf) as Hcap.
  pose proof (s_insert_wf (side_ladder (get_side r)) (new_Order (get_order_id r) r) A Hwf
    (s_find_none_ids _ _ Hf) ltac:(lia) eq_refl Hq) as Hwf1.
  pose proof (s_match_messages _ Hwf1) as Hm.
  rewrite (Permutation_length (s_all_set_insert _ _ A)) in Hm. simpl length in Hm. lia.
Qed.

Lemma s_process_messages r A : s_inv A -> 0 <= get_quantity r ->
  (length (s_process r A).2 <= 2 * (length (s_all A) + 1))%nat.
Proof.
  intros Hinv Hq. unfold s_process. cbv zeta. destruct (get_message_type r); try (simpl; lia).
  - by apply s_add_messages.
  - destruct (s_find _ _); [case_decide|]; simpl; lia.
  - destruct (s_find _ _) as [o|]; [case_decide|]; try (simpl; lia). cbn [snd].
    unfold s_modify. case_decide; cbv zeta.
    + pose proof (s_touch_inv (get_order_id r) (get_recv_tsc r) A Hinv) as Hi.
      pose proof (proj1 (proj1 (s_inv_split _) Hi)) as Hwf.
      assert (length (s_all (s_touch (get_order_id r) (get_recv_tsc r) A)) = length (s_all A)) as El.
      { unfold s_all, s_touch. simpl. by rewrite !length_app, !length_fmap. }
      case_decide; [pose proof (s_market_messages r _ Hwf Hq)|pose proof (s_match_messages _ Hwf)]; lia.
    + pose proof (s_add_messages r _ (s_cancel_inv (get_order_id r) A Hinv) Hq) as Hadd.
      rewrite s_all_cancel in Hadd. pose proof (length_filter (fun x => id_ x <> get_order_id r) (s_all A)) as Hle. lia.
Qed.

(** [process] ignores the result of [out_ring_.push].  When the ring has room for
    two messages per resting order and two more, nothing is dropped: the ring holds
    what it held followed by every message of the request, in order. *)
Theorem no_message_lost r b A : valid b A -> request_ok r -> ring_ok (out_ring_ b) ->
  used (out_ring_ b) + 2 * (Z.of_nat (order_count b) + 1) <= Ring.capacity (out_ring_ b) - 1 ->
  exists b', process r b = Ok ((s_process r A).1.1, b') /\ ring_ok (out_ring_ b') /\
    contents (out_ring_ b') = contents (out_ring_ b) ++ (s_process r A).2.
Proof.
  intros Hv Hr Hok Hroom. destruct (process_valid r b A Hv Hr) as (b' & Hrun & _ & Hout).
  pose proof (s_process_messages r A (proj2 Hv) (request_quantity r Hr)) as Hlen.
  exists b'. split; [exact Hrun|]. rewrite Hout.
  destruct (push_all_contents (s_process r A).2 _ Hok) as (H1 & _ & H2). split; [exact H1|].
  rewrite H2. apply take_ge. rewrite length_app.
  pose proof (length_contents _ Hok) as Hc. destruct Hv as [(L & Hrep & ->) _].
  unfold order_count in Hroom. rewrite (sr_size _ _ (br_store _ _ Hrep)), <- (length_s_all b L) in Hroom. lia.
Qed.

Lemma no_message_lost_witness : exists b b',
  process (limit 9 2 ASK 100 6) b = Ok (mkResult SUCCESS true, b') /\ length (contents (out_ring_ b')) = 4%nat.
Proof.
  destruct sample_valid as (b & Hrun & Hv & Hring). exists b.
  destruct (no_message_lost (limit 9 2 ASK 100 6) b _ Hv) as (b' & H1 & _ & H2).
  - split; [unfold is_u32; simpl; lia|]. intros _ _. compute. split; congruence.
  - rewrite Hring. exact (ring_init_ok 4 ltac:(lia)).
  - vm_compute in Hrun. injection Hrun as <-. vm_compute. discriminate.
  - exists b'. split; [exact H1|]. rewrite H2, Hring. reflexivity.
Defined.

(** The two scans for the next best price end, from any level array and any
    starting price with nothing better than it: they stop at the best non-empty
    level and change nothing but the cached price. *)
Theorem update_best_scan d b m : ladder_rep (arena_ (pool_ b)) d (levels d b) m -> m <> ∅ ->
  bounded_by d (best_price d b) m ->
  exists p, update_best d b = Ok (tt, set_best d p b) /\ is_Some (m !! p) /\
            forall q, is_Some (m !! q) -> before d q p = false.
Proof.
  intros Hl Hne Hb. assert (wp (update_best d) (fun _ b' => exists p, b' = set_best d p b /\ is_best d p m) b) as H.
  { apply (wp_update_best b m d); [exact Hl|exact Hne|exact Hb|]. intros x Hx. by exists x. }
  destruct (wp_Ok _ _ _ H) as ([] & b' & E & p & -> & Hp1 & Hp2). exists p. by split.
Qed.

Lemma update_best_scan_witness : exists b p,
  update_best Bids (set_best Bids MAX_PRICE b) = Ok (tt, set_best Bids p (set_best Bids MAX_PRICE b)).
Proof.
  destruct sample_valid as (b & _ & Hv & _). destruct Hv as [(L & Hrep & E) _]. exists b.
  destruct (update_best_scan Bids (set_best Bids MAX_PRICE b) (on_bids L)) as (p & Hp & _).
  - exact (sr_ladder _ _ (br_store _ _ Hrep) Bids).
  - apply (f_equal s_bids) in E. intros H. simpl in E. rewrite H, flat_empty in E. discriminate E.
  - split; [unfold in_range; simpl; unfold MIN_PRICE, MAX_PRICE; lia|]. intros q [l Hq].
    apply (lr_level _ _ _ _ (sr_ladder _ _ (br_store _ _ Hrep) Bids)) in Hq as [_ Hq].
    split; [exact Hq|]. unfold in_range in Hq. simpl. lia.
  - exists p. exact Hp.
Defined.
