(* ===== verification/Validation.v ===== *)
(** The gateway's validation of an inbound message
    ([exchange/server/include/validation.hpp]), and what it does and does not
    promise to the order book. *)

From S2P Require Import Prelude Types Ring Pool Book Spec.

Local Open Scope Z_scope.

(** * Definitions *)

Definition validate_new (msg : InboundMessage) : bool :=
  let raw_type := MessageType_byte (in_message_type msg) in
  let raw_side := Side_byte (in_side msg) in
  let raw_order_type := OrderType_byte (in_order_type msg) in
  if negb (raw_type =? 0) then false
  else if negb (raw_side =? 0) && negb (raw_side =? 1) then false
  else if negb (raw_order_type =? 0) && negb (raw_order_type =? 1) then false
  else if bool_decide (in_order_type msg = LIMIT) && (in_price msg =? 0) then false
  else if 1000000 <? in_quantity msg then false
  else true.

Definition validate_cancel (msg : InboundMessage) : bool :=
  let raw_type := MessageType_byte (in_message_type msg) in
  if negb (raw_type =? 1) then false else true.

Definition validate_modify (msg : InboundMessage) : bool :=
  let raw_type := MessageType_byte (in_message_type msg) in
  let raw_side := Side_byte (in_side msg) in
  let raw_order_type := OrderType_byte (in_order_type msg) in
  if negb (raw_type =? 2) then false
  else if negb (raw_side =? 0) && negb (raw_side =? 1) then false
  else if negb (raw_order_type =? 0) && negb (raw_order_type =? 1) then false
  else if bool_decide (in_order_type msg = LIMIT) && (in_price msg =? 0) then false
  else if 1000000 <? in_quantity msg then false
  else true.

Definition validate_message (msg : InboundMessage) : bool :=
  match in_message_type msg with
  | NEW => validate_new msg
  | CANCEL => validate_cancel msg
  | MODIFY => validate_modify msg
  | MATCH | MessageType_other _ => false
  end.

(** An enum value that stands for the byte it was read from: the constructors for
    the remaining bytes hold no byte of a named constructor. *)
Definition enums_read (msg : InboundMessage) : Prop :=
  in_side msg = Side_of_byte (Side_byte (in_side msg)) /\
  in_order_type msg = OrderType_of_byte (OrderType_byte (in_order_type msg)) /\
  in_message_type msg = MessageType_of_byte (MessageType_byte (in_message_type msg)).

(** The fields of a message as [memcpy] fills them. *)
Definition fields_ok (msg : InboundMessage) : Prop :=
  is_u32 (in_price msg) /\ is_u32 (in_quantity msg) /\ enums_read msg.

(** What a validated message satisfies. *)
Definition well_formed (msg : InboundMessage) : Prop :=
  (in_side msg = BID \/ in_side msg = ASK) /\
  (in_order_type msg = MARKET \/ in_order_type msg = LIMIT /\ in_price msg <> 0) /\
  in_quantity msg <= 1000000.

(** * Lemmas *)

Lemma side_byte_cases msg : enums_read msg ->
  negb (Side_byte (in_side msg) =? 0) && negb (Side_byte (in_side msg) =? 1) = false <->
  in_side msg = BID \/ in_side msg = ASK.
Proof.
  intros (E & _ & _). rewrite E at 3 4. unfold Side_of_byte.
  destruct (Z.eqb_spec (Side_byte (in_side msg)) 0) as [->|H0]; simpl; [split; [by left|done]|].
  rewrite decide_False by done.
  destruct (Z.eqb_spec (Side_byte (in_side msg)) 1) as [->|H1]; simpl; [split; [by right|done]|].
  rewrite decide_False by done. split; [done|]. by intros [H|H].
Qed.

Lemma order_type_byte_cases msg : enums_read msg ->
  negb (OrderType_byte (in_order_type msg) =? 0) && negb (OrderType_byte (in_order_type msg) =? 1) = false <->
  in_order_type msg = MARKET \/ in_order_type msg = LIMIT.
Proof.
  intros (_ & E & _). rewrite E at 3 4. unfold OrderType_of_byte.
  destruct (Z.eqb_spec (OrderType_byte (in_order_type msg)) 0) as [->|H0]; simpl; [split; [by left|done]|].
  rewrite decide_False by done.
  destruct (Z.eqb_spec (OrderType_byte (in_order_type msg)) 1) as [->|H1]; simpl; [split; [by right|done]|].
  rewrite decide_False by done. split; [done|]. by intros [H|H].
Qed.

(** The checks NEW and MODIFY share. *)
Lemma checks_spec msg : enums_read msg ->
  (if negb (Side_byte (in_side msg) =? 0) && negb (Side_byte (in_side msg) =? 1) then false
   else if negb (OrderType_byte (in_order_type msg) =? 0) && negb (OrderType_byte (in_order_type msg) =? 1) then false
   else if bool_decide (in_order_type msg = LIMIT) && (in_price msg =? 0) then false
   else if 1000000 <? in_quantity msg then false
   else true) = true <-> well_formed msg.
Proof.
  intros He. pose proof (side_byte_cases msg He) as Hs. pose proof (order_type_byte_cases msg He) as Ht.
  unfold well_formed. rewrite <- Hs. clear Hs.
  destruct (negb (Side_byte _ =? 0) && _); [naive_solver|].
  destruct (negb (OrderType_byte _ =? 0) && _); [naive_solver|].
  assert (in_order_type msg = MARKET \/ in_order_type msg = LIMIT) as Hc by (by apply Ht). clear Ht.
  case_bool_decide; zcases; simpl; intuition (congruence || lia).
Qed.

Lemma validate_message_spec msg : enums_read msg ->
  validate_message msg = true <->
  in_message_type msg = CANCEL \/
  (in_message_type msg = NEW \/ in_message_type msg = MODIFY) /\ well_formed msg.
Proof.
  intros He. pose proof (checks_spec msg He) as Hc. unfold validate_message.
  destruct (in_message_type msg) eqn:E; unfold validate_new, validate_cancel, validate_modify;
    rewrite ?E; simpl; naive_solver.
Qed.

(** * Properties *)

(** A message passes exactly when it is a CANCEL (whatever else it says), or a NEW
    or MODIFY with a real side, a real order type, a quantity of at most one
    million and, for a limit order, a price other than 0.  No upper bound on the
    price and no lower bound on the quantity is checked. *)
Theorem validation_exact msg : fields_ok msg ->
  validate_message msg = true <->
  in_message_type msg = CANCEL \/
  (in_message_type msg = NEW \/ in_message_type msg = MODIFY) /\
  (in_side msg = BID \/ in_side msg = ASK) /\
  (in_order_type msg = MARKET \/ in_order_type msg = LIMIT /\ in_price msg <> 0) /\
  in_quantity msg <= 1000000.
Proof. intros (_ & _ & He). by apply validate_message_spec. Qed.

(** A limit order far above the highest price of the book. *)
Definition overpriced : InboundMessage := mkInbound 0 0 0 0 7 100001 1 NEW BID LIMIT.

Lemma validation_exact_witness : validate_message overpriced = true /\ MAX_PRICE < in_price overpriced.
Proof.
  split; [|vm_compute; reflexivity]. apply (validation_exact overpriced).
  - repeat split; vm_compute; congruence.
  - right. split; [left; reflexivity|]. split; [left; reflexivity|].
    split; [right; split; [reflexivity|discriminate]|]. vm_compute. discriminate.
Defined.
