(* ===== verification/Engine.v ===== *)
(** The matching engine ([exchange/engine/include/engine.hpp],
    [exchange/engine/src/engine.cpp]): order ids, the translation of inbound messages
    to requests, acknowledgements, and the matching thread's loop with its one
    request of look-ahead. *)

From S2P Require Import Prelude Types Ring Pool Book Spec SpecProps Ladder Refine Match Process BookProps Validation.

Local Open Scope Z_scope.

(** * State and operations *)

(** The outbound ring is a reference the engine shares with its book: it is the
    book's [out_ring_]. *)
Record Engine : Type := mkEngine {
  book_ : Orderbook;
  next_id_ : Z;
  in_ring_ : InboundRing
}.

Definition EM (A : Type) : Type := M Engine A.

Definition engine_init (capacity : nat) (in_ring : InboundRing) (out_ring : OutboundRing) : Engine :=
  mkEngine (book_init capacity out_ring) 0 in_ring.

Definition set_book (b : Orderbook) (e : Engine) : Engine := mkEngine b (next_id_ e) (in_ring_ e).
Definition set_next_id (i : Z) (e : Engine) : Engine := mkEngine (book_ e) i (in_ring_ e).
Definition set_in_ring (r : InboundRing) (e : Engine) : Engine := mkEngine (book_ e) (next_id_ e) r.

(** A method of [book_]. *)
Definition on_book {A : Type} (m : BM A) : EM A :=
  fun e => match m (book_ e) with Ok (a, b) => Ok (a, set_book b e) | Err f => Err f end.

Definition request_of (id : Z) (msg : InboundMessage) : OrderRequest :=
  mkRequest (in_message_type msg) id (in_client_id msg) (in_side msg) (in_order_type msg)
            (in_price msg) (in_quantity msg) 0 0 0.

Definition ack_msg (msg : InboundMessage) (id : Z) (st : Status) : OutboundMessage :=
  mkOutbound (in_read_begin_tsc msg) 0 0 0 0 id (in_client_id msg) (in_message_type msg) st NONE.

Definition executeRequest (msg : InboundMessage) : EM unit :=
  assigned_id ← (if decide (in_message_type msg = NEW) then
                   e ← get; modify (set_next_id (u64 (next_id_ e + 1)));; mret (next_id_ e)
                 else mret (in_order_id msg));
  res ← on_book (process (request_of assigned_id msg));
  when (negb (suppress_ack res)) (on_book (push_out (ack_msg msg assigned_id (status res)))).

(** [in_ring_.pop(msg)]. *)
Definition pop_inbound : EM (option InboundMessage) :=
  e ← get;
  let '(m, r) := ring_pop (in_ring_ e) in
  modify (set_in_ring r);; mret m.

(** [step]: execute everything that is pending. *)
Definition step : EM unit :=
  e ← get;
  loop (S (Z.to_nat (ring_size (in_ring_ e))))
    (fun _ : unit =>
       m ← pop_inbound;
       match m with
       | Some msg => executeRequest msg;; mret (inl tt)
       | None => mret (inr tt)
       end) tt.

(** One iteration of the loop of [handleMatching]; the argument and the result are
    [cur] when [have] is set.  The prefetch reads the book and changes nothing. *)
Definition matching_iteration (have : option InboundMessage) : EM (option InboundMessage) :=
  cur ← (match have with Some m => mret (Some m) | None => pop_inbound end);
  match cur with
  | None => mret None
  | Some cur =>
      nxt ← pop_inbound;
      e ← get;
      let _ := prefetch <$> nxt in
      executeRequest cur;; mret nxt
  end.

(** The loop, until the stop flag is seen: one list of messages per iteration, which
    the gateway pushed before it. *)
Fixpoint handleMatching (arrivals : list (list InboundMessage)) (have : option InboundMessage)
  : EM (option InboundMessage) :=
  match arrivals with
  | [] => mret have
  | l :: arrivals' =>
      modify (fun e => set_in_ring (push_all l (in_ring_ e)) e);;
      have' ← matching_iteration have;
      handleMatching arrivals' have'
  end.

(** The messages of a list executed one after the other. *)
Fixpoint execute_all (l : list InboundMessage) : EM unit :=
  match l with [] => mret tt | m :: l' => executeRequest m;; execute_all l' end.

(** * Invariant and specification *)

(** A message the book can process: what validation checks, and the upper bound on
    the price that it does not check. *)
Definition executable (msg : InboundMessage) : Prop :=
  fields_ok msg /\ validate_message msg = true /\
  (in_order_type msg = LIMIT -> in_message_type msg <> CANCEL -> in_price msg <= MAX_PRICE).

(** A valid book, and ids that are still to be given are above those on the book. *)
Definition engine_ok (e : Engine) (A : SBook) : Prop :=
  valid (book_ e) A /\ 0 <= next_id_ e /\ (forall o, o ∈ s_all A -> id_ o < next_id_ e).

(** What executing a message answers: the id, the next state, all messages. *)
Definition s_execute (msg : InboundMessage) (id : Z) (A : SBook) : SBook * list OutboundMessage :=
  let '(x, A', ms) := s_process (request_of id msg) A in
  (A', ms ++ if suppress_ack x then [] else [ack_msg msg id (status x)]).

Definition assigned (msg : InboundMessage) (e : Engine) : Z :=
  if decide (in_message_type msg = NEW) then next_id_ e else in_order_id msg.

(** * Lemmas *)

(** Validation and the bound on the price make a request the book can represent. *)
Lemma executable_request msg id : executable msg -> request_ok (request_of id msg).
Proof.
  intros ((Hp & Hq & He) & Hv & Hmax). split; [exact Hq|]. simpl. intros Ht Hm.
  apply (validate_message_spec msg He) in Hv as [Hc|[_ (_ & [Hmk|[Hl Hp0]] & _)]];
    [destruct Hm; congruence|done|].
  assert (in_message_type msg <> CANCEL) as Hnc by (destruct Hm as [->| ->]; done).
  specialize (Hmax Hl Hnc). unfold is_u32, MIN_PRICE in *. lia.
Qed.

(** The ids on the book after a request. *)
Lemma depleted_ids l l' o : depleted l l' -> o ∈ l' -> exists o', o' ∈ l /\ id_ o' = id_ o.
Proof.
  intros H Ho. apply (depleted_sublist id_) in H; [|done].
  assert (id_ o ∈ id_ <$> l) as Hin.
  { eapply elem_of_submseteq; [|by apply sublist_submseteq]. by apply list_elem_of_fmap_2. }
  apply list_elem_of_fmap in Hin as (o' & E & Ho'). eauto.
Qed.

Definition ids_within (A A' : SBook) (P : Z -> Prop) : Prop :=
  forall o, o ∈ s_all A' -> (exists o', o' ∈ s_all A /\ id_ o' = id_ o) \/ P (id_ o).

Lemma ids_depleted A A' P : (forall d, depleted (s_orders d A) (s_orders d A')) -> ids_within A A' P.
Proof.
  intros H o Ho. left. unfold s_all in *. apply elem_of_app in Ho as [Ho|Ho].
  - destruct (depleted_ids _ _ o (H Bids) Ho) as (o' & Ho' & E). exists o'. rewrite elem_of_app. auto.
  - destruct (depleted_ids _ _ o (H Asks) Ho) as (o' & Ho' & E). exists o'. rewrite elem_of_app. auto.
Qed.

Lemma s_market_ids r A P : s_inv A -> 0 <= get_quantity r -> ids_within A (s_market r A).1.2 P.
Proof.
  intros Hinv Hq. apply ids_depleted. intros d. apply s_market_depleted; [by apply s_inv_split|done].
Qed.

Lemma s_match_ids A P : s_wf A -> ids_within A (s_match A).1.2 P.
Proof. intros Hwf. apply ids_depleted. intros d. by apply s_match_depleted. Qed.

Lemma s_add_ids r A : s_inv A -> 0 <= get_quantity r ->
  ids_within A (s_add r A).1.2 (fun i => i = get_order_id r).
Proof.
  intros Hinv Hq. unfold s_add. case_decide; [by apply s_market_ids|].
  destruct (s_find _ _) eqn:Hf; [by left; eauto|]. case_decide; [by left; eauto|]. cbv zeta.
  pose proof (proj1 (proj1 (s_inv_split A) Hinv)) as Hwf.
  pose proof (s_insert_wf (side_ladder (get_side r)) (new_Order (get_order_id r) r) A Hwf
    (s_find_none_ids _ _ Hf) ltac:(pose proof (wf_capacity A Hwf); lia) eq_refl Hq) as Hwf1.
  intros o Ho. destruct (s_match_ids _ (fun _ => False) Hwf1 o Ho) as [(o' & Ho' & E)|[]].
  rewrite s_all_set_insert in Ho'. apply elem_of_cons in Ho' as [->|Ho']; [by right|left; eauto].
Qed.

Lemma s_process_ids r A : s_inv A -> 0 <= get_quantity r ->
  ids_within A (s_process r A).1.2 (fun i => get_message_type r = NEW /\ i = get_order_id r).
Proof.
  intros Hinv Hq o. unfold s_process. cbv zeta. destruct (get_message_type r) eqn:Hm; try (by left; eauto).
  - intros Ho. destruct (s_add_ids r A Hinv Hq o Ho) as [H|H]; auto.
  - destruct (s_find _ _) as [x|]; [case_decide|]; try (by left; eauto).
    intros [Ho _]%elem_of_s_cancel. left. eauto.
  - destruct (s_find _ _) as [x|] eqn:Hf; [case_decide|]; try (by left; eauto).
    apply s_find_some_elem in Hf as [Hx Hxid]. cbn [fst snd]. unfold s_modify. case_decide; cbv zeta.
    + pose proof (s_touch_inv (get_order_id r) (get_recv_tsc r) A Hinv) as Hi. intros Ho. left.
      assert (exists o', o' ∈ s_all (s_touch (get_order_id r) (get_recv_tsc r) A) /\ id_ o' = id_ o) as (o' & Ho' & E).
      { case_decide; [pose proof (s_market_ids r _ (fun _ => False) Hi Hq o Ho) as H'
          |pose proof (s_match_ids _ (fun _ => False) (proj1 (proj1 (s_inv_split _) Hi)) o Ho) as H'];
          by destruct H' as [H'|[]]. }
      rewrite <- E. unfold s_all, s_touch in Ho'. simpl in Ho'. rewrite <- fmap_app in Ho'.
      apply list_elem_of_fmap in Ho' as (y & -> & Hy). exists y. split; [exact Hy|].
      by destruct (touch_keeps (get_order_id r) (get_recv_tsc r) y) as (-> & _).
    + intros Ho. left. destruct (s_add_ids r _ (s_cancel_inv _ A Hinv) Hq o Ho) as [(o' & Ho' & E)| ->].
      * apply elem_of_s_cancel in Ho' as [Ho' _]. eauto.
      * exists x. done.
Qed.

Lemma wp_on_book {A : Type} (m : BM A) (Q : A -> Engine -> Prop) e :
  wp m (fun a b => Q a (set_book b e)) (book_ e) -> wp (on_book m) Q e.
Proof. unfold wp, on_book. by destruct (m (book_ e)) as [[a b]|]. Qed.

Definition ids_after (msg : InboundMessage) (e : Engine) : Z :=
  next_id_ e + if decide (in_message_type msg = NEW) then 1 else 0.

(** One message whose request the book answers: the id, the acknowledgement and the
    invariant. *)
Lemma execute_run msg e A x b' A' ms : engine_ok e A -> next_id_ e + 1 < 2 ^ 64 ->
  process (request_of (assigned msg e) msg) (book_ e) = Ok (x, b') -> valid b' A' ->
  out_ring_ b' = push_all ms (out_ring_ (book_ e)) ->
  ids_within A A' (fun i => in_message_type msg = NEW /\ i = assigned msg e) ->
  exists e', executeRequest msg e = Ok (tt, e') /\ engine_ok e' A' /\
    out_ring_ (book_ e') = push_all (ms ++ if suppress_ack x then [] else [ack_msg msg (assigned msg e) (status x)]) (out_ring_ (book_ e)) /\
    in_ring_ e' = in_ring_ e /\ next_id_ e' = ids_after msg e.
Proof.
  intros (Hv & Hn & Hids) Hlt Hrun Hv' Hout Hids'. set (id := assigned msg e) in *.
  set (e1 := set_next_id (ids_after msg e) e).
  assert (Hassign : (if decide (in_message_type msg = NEW)
      then e ← get; modify (set_next_id (u64 (next_id_ e + 1)));; mret (next_id_ e)
      else mret (in_order_id msg)) e = Ok (id, e1)).
  { unfold e1, id, assigned, ids_after. case_decide; unfold mbind, M_bind, get, modify, mret, M_ret.
    - rewrite u64_small by (unfold is_u64; lia). done.
    - rewrite Z.add_0_r. by destruct e. }
  assert (Hrun1 : on_book (process (request_of id msg)) e1 = Ok (x, set_book b' e1)).
  { unfold on_book. change (book_ e1) with (book_ e). by rewrite Hrun. }
  assert (Hsafe : forall e', book_ e' = b' \/ (exists r, book_ e' = set_out_ring r b') ->
    next_id_ e' = ids_after msg e -> engine_ok e' A').
  { intros e' Hb Hid. split; [|split].
    - destruct Hb as [-> |[r ->]]; [exact Hv'|]. destruct Hv' as [(L & Hrep & ->) Hinv].
      split; [|exact Hinv]. exists L. split; [|done]. destruct Hrep as [Hst Hme].
      constructor; [by apply store_rep_set_out|]. intros d. specialize (Hme d). by destruct d.
    - rewrite Hid. unfold ids_after. case_decide; lia.
    - intros o Ho. rewrite Hid. unfold ids_after. destruct (Hids' o Ho) as [(o' & Ho' & <-)|[Hm ->]].
      + specialize (Hids o' Ho'). case_decide; lia.
      + unfold id, assigned. rewrite !decide_True by done. lia. }
  unfold executeRequest, mbind, M_bind in *. rewrite Hassign, Hrun1.
  destruct (suppress_ack x); cbn [negb when].
  - exists (set_book b' e1). split; [done|]. split; [apply Hsafe; [by left|done]|].
    rewrite app_nil_r. done.
  - eexists. split; [done|]. split; [apply Hsafe; [right; by eexists|done]|].
    split; [|done]. simpl. by rewrite Hout, push_all_app.
Qed.

(** A message the book can represent: the id, the state and the messages sent are those
    of [s_execute], and the inbound ring is left alone. *)
Lemma execute_ok msg e A : engine_ok e A -> executable msg -> next_id_ e + 1 < 2 ^ 64 ->
  exists e', executeRequest msg e = Ok (tt, e') /\
    engine_ok e' (s_execute msg (assigned msg e) A).1 /\
    out_ring_ (book_ e') = push_all (s_execute msg (assigned msg e) A).2 (out_ring_ (book_ e)) /\
    in_ring_ e' = in_ring_ e /\ next_id_ e' = ids_after msg e.
Proof.
  intros He Hex Hlt. pose proof (executable_request msg (assigned msg e) Hex) as Hr. pose proof He as (Hv & _ & _).
  destruct (process_valid (request_of (assigned msg e) msg) (book_ e) A Hv Hr) as (b' & Hrun & Hv' & Hout).
  pose proof (s_process_ids (request_of (assigned msg e) msg) A (proj2 Hv) (request_quantity _ Hr)) as Hids.
  unfold s_execute. destruct (s_process _ A) as [[x A'] ms]. cbn [fst snd] in *. by eapply execute_run.
Qed.

Lemma engine_init_ok n ring out : Z.of_nat n < 2 ^ 32 ->
  engine_ok (engine_init n ring out) (mkSBook [] [] n).
Proof.
  intros Hn. split; [by apply valid_init|]. split; [simpl; lia|].
  intros o Ho. by apply not_elem_of_nil in Ho.
Qed.

(** ** The answers *)

Lemma sweep_silent r rem l rem' l' : sweep r rem l = (rem', l', []) -> rem' = rem.
Proof.
  destruct l as [|o l]; simpl; [by inversion 1|]. destruct (0 <? rem); [|by inversion 1].
  destruct (is_filled _); [|by inversion 1]. by destruct (sweep _ _ _) as [[? ?] ?].
Qed.

Lemma s_market_silent r A : (s_market r A).2 = [] -> (s_market r A).1.1 = (get_quantity r =? 0).
Proof.
  unfold s_market. destruct (if decide (get_side r = BID) then Some Asks else _) as [d|]; [|done].
  destruct (sweep _ _ _) as [[rem l] ms] eqn:E. simpl. intros ->. by rewrite (sweep_silent _ _ _ _ _ E).
Qed.

Lemma s_match_silent A : (s_match A).2 = [] -> (s_match A).1.1 = false.
Proof. unfold s_match. destruct (cross _ _) as [[B A'] ms]. simpl. by intros ->. Qed.

(** The acknowledgement is suppressed without a message only for a market order of
    quantity 0. *)
Lemma s_add_silent r A : (s_add r A).2 = [] -> (s_add r A).1.1 = true ->
  get_type r = MARKET /\ get_quantity r = 0.
Proof.
  unfold s_add. case_decide.
  - intros H1 H2. rewrite (s_market_silent r A H1) in H2. by apply Z.eqb_eq in H2.
  - destruct (s_find _ _); [done|]. case_decide; [done|]. cbv zeta. intros H1 H2.
    by rewrite (s_match_silent _ H1) in H2.
Qed.

Lemma s_process_silent r A : (s_process r A).2 = [] -> suppress_ack (s_process r A).1.1 = true ->
  get_type r = MARKET /\ get_quantity r = 0.
Proof.
  unfold s_process. cbv zeta. destruct (get_message_type r); try done.
  - apply s_add_silent.
  - destruct (s_find _ _); [case_decide|]; done.
  - destruct (s_find _ _) as [o|]; [case_decide|]; try done. cbn [fst snd suppress_ack].
    unfold s_modify. case_decide; [|apply s_add_silent]. cbv zeta. case_decide; intros Hs1 Hs2.
    + rewrite (s_market_silent _ _ Hs1) in Hs2. by apply Z.eqb_eq in Hs2.
    + by rewrite (s_match_silent _ Hs1) in Hs2.
Qed.

(** * Properties *)

(** [executeRequest] on a message the book can process returns; it sends the
    book's MATCH messages first and then, unless the book suppressed it, exactly one
    acknowledgement with the client's id, the order's id and the status; the engine
    stays well formed. *)
Theorem execute_refines msg e A : engine_ok e A -> executable msg -> next_id_ e + 1 < 2 ^ 64 ->
  let id := assigned msg e in
  let '(x, A', ms) := s_process (request_of id msg) A in
  exists e', executeRequest msg e = Ok (tt, e') /\ engine_ok e' A' /\
    out_ring_ (book_ e') =
      push_all (ms ++ if suppress_ack x then [] else [ack_msg msg id (status x)]) (out_ring_ (book_ e)) /\
    next_id_ e' = next_id_ e + if decide (in_message_type msg = NEW) then 1 else 0.
Proof.
  intros He Hex Hlt id. destruct (execute_ok msg e A He Hex Hlt) as (e' & H1 & H2 & H3 & _ & H4).
  fold id in H2, H3. unfold s_execute in *. destruct (s_process _ A) as [[x A'] ms].
  exists e'. split; [exact H1|]. split; [exact H2|]. split; [exact H3|exact H4].
Qed.

Definition sample_msg : InboundMessage := mkInbound 0 0 0 0 7 100 5 NEW BID LIMIT.
Definition sample_engine : Engine := engine_init 4 (ring_init 8) (ring_init 16).

Lemma sample_executable : executable sample_msg.
Proof. split; [repeat split; vm_compute; congruence|]. split; [reflexivity|]. intros _ _. vm_compute. discriminate. Qed.

Lemma execute_refines_witness : exists e', executeRequest sample_msg sample_engine = Ok (tt, e') /\
  next_id_ e' = 1 /\ contents (out_ring_ (book_ e')) = [ack_msg sample_msg 0 SUCCESS].
Proof.
  destruct (execute_refines sample_msg sample_engine _ (engine_init_ok 4 (ring_init 8) (ring_init 16) eq_refl) sample_executable ltac:(simpl; lia))
    as (e' & H1 & _ & H3 & H4).
  exists e'. split; [exact H1|]. split; [exact H4|]. rewrite H3. reflexivity.
Defined.

(** The engine never gives out an id twice: the id of the next NEW message is not
    on the book, however the book was filled before, so a NEW is never refused as a
    duplicate and never disturbs a resting order. *)
Theorem assigned_ids_fresh msg e A : engine_ok e A -> in_message_type msg = NEW ->
  has_order (assigned msg e) (book_ e) = false.
Proof.
  intros (Hv & _ & Hids) Hm. unfold assigned. rewrite decide_True by done.
  apply not_true_is_false. intros H. apply (has_order_iff _ _ _ Hv) in H as (o & Ho & E).
  specialize (Hids o Ho). lia.
Qed.

Lemma assigned_ids_fresh_witness : exists e', executeRequest sample_msg sample_engine = Ok (tt, e') /\
  has_order 0 (book_ e') = true /\ has_order (assigned sample_msg e') (book_ e') = false.
Proof.
  destruct (execute_ok sample_msg sample_engine _ (engine_init_ok 4 (ring_init 8) (ring_init 16) eq_refl) sample_executable ltac:(simpl; lia))
    as (e' & H1 & H2 & _).
  exists e'. split; [exact H1|]. split; [|exact (assigned_ids_fresh sample_msg e' _ H2 eq_refl)].
  vm_compute in H1. injection H1 as <-. reflexivity.
Defined.

(** * The loop of the matching thread *)

Definition held (have : option InboundMessage) : list InboundMessage :=
  match have with Some m => [m] | None => [] end.

Lemma execute_frame msg e e' r : executeRequest msg e = Ok (tt, e') ->
  executeRequest msg (set_in_ring r e) = Ok (tt, set_in_ring r e').
Proof.
  unfold executeRequest, mbind, M_bind, on_book.
  destruct (decide (in_message_type msg = NEW)); unfold mbind, M_bind, get, modify, mret, M_ret; simpl;
    (destruct (process _ (book_ e)) as [[x b]|f]; [|discriminate]);
    destruct (suppress_ack x); simpl; intros H; injection H as <-; done.
Qed.

Lemma execute_all_app l l' e e1 e2 : execute_all l e = Ok (tt, e1) -> execute_all l' e1 = Ok (tt, e2) ->
  execute_all (l ++ l') e = Ok (tt, e2).
Proof.
  revert e. induction l as [|m l IH]; intros e; simpl.
  - intros H. unfold mret, M_ret in H. by injection H as ->.
  - unfold mbind, M_bind. destruct (executeRequest m e) as [[[] e0]|]; [apply IH|done].
Qed.

Lemma engine_ok_ring e A r : engine_ok e A <-> engine_ok (set_in_ring r e) A.
Proof. done. Qed.

Lemma pop_inbound_ok e : ring_ok (in_ring_ e) -> exists m r, pop_inbound e = Ok (m, set_in_ring r e) /\
  ring_ok r /\ Ring.capacity r = Ring.capacity (in_ring_ e) /\ contents (in_ring_ e) = held m ++ contents r.
Proof.
  intros Hok. unfold pop_inbound, mbind, M_bind, get, modify, mret, M_ret.
  destruct (contents (in_ring_ e)) as [|x l] eqn:E.
  - rewrite (pop_empty _ Hok E). exists None, (in_ring_ e). by split_and!.
  - destruct (pop_cons _ x l Hok E) as (r & -> & H1 & H2 & H3). exists (Some x), r.
    split_and!; [done|done|done|by rewrite H3].
Qed.

(** The state of the loop between iterations. *)
Record loop_ok (e : Engine) (A : SBook) (queue : list InboundMessage) (budget : Z) : Prop := {
  lo_engine : engine_ok e A;
  lo_ring : ring_ok (in_ring_ e);
  lo_executable : Forall executable queue;
  lo_ids : next_id_ e + Z.of_nat (length queue) < budget
}.

Lemma iteration_ok have e A tail : loop_ok e A (held have ++ contents (in_ring_ e) ++ tail) (2 ^ 64) ->
  exists have' e' A' ran, matching_iteration have e = Ok (have', e') /\
    held have ++ contents (in_ring_ e) = ran ++ held have' ++ contents (in_ring_ e') /\
    Ring.capacity (in_ring_ e') = Ring.capacity (in_ring_ e) /\
    loop_ok e' A' (held have' ++ contents (in_ring_ e') ++ tail) (2 ^ 64) /\
    forall r, execute_all ran (set_in_ring r e) = Ok (tt, set_in_ring r e').
Proof.
  intros [He Hring Hex Hids].
  assert (exists cur e1, (match have with Some m => mret (Some m) | None => pop_inbound end) e = Ok (cur, e1) /\
    (forall r, set_in_ring r e1 = set_in_ring r e) /\ ring_ok (in_ring_ e1) /\
    Ring.capacity (in_ring_ e1) = Ring.capacity (in_ring_ e) /\
    held have ++ contents (in_ring_ e) = held cur ++ contents (in_ring_ e1)) as (cur & e1 & Hcur & Hsame & Hring1 & Hcap1 & Hq1).
  { destruct have as [m|]; [by exists (Some m), e|].
    destruct (pop_inbound_ok e Hring) as (m & r & Hpop & H1 & H2 & H3).
    exists m, (set_in_ring r e). split_and!; done. }
  rewrite app_assoc, Hq1, <- app_assoc in Hex, Hids.
  assert (He1 : engine_ok e1 A) by (apply (engine_ok_ring e1 A (in_ring_ e)); rewrite Hsame; by apply engine_ok_ring).
  assert (Hn1 : next_id_ e1 = next_id_ e) by exact (f_equal next_id_ (Hsame (in_ring_ e))).
  unfold matching_iteration, mbind at 1, M_bind at 1. rewrite Hcur. destruct cur as [m|].
  2: { exists None, e1, A, []. split_and!; [done|by rewrite Hq1|done| |].
       - constructor; [done|done|exact Hex|by rewrite Hn1].
       - intros r. by rewrite Hsame. }
  destruct (pop_inbound_ok e1 Hring1) as (nxt & r1 & Hpop & Hring2 & Hcap2 & Hq2).
  unfold mbind, M_bind. rewrite Hpop. unfold get, mret, M_ret. cbv zeta.
  apply Forall_app in Hex as [Hexm Hex]. apply (Forall_cons_1 executable) in Hexm as [Hexm _].
  rewrite length_app in Hids. cbn [length held] in Hids.
  destruct (execute_ok m (set_in_ring r1 e1) A He1 Hexm) as (e2 & Hrun & He2 & _ & Hin2 & Hid2).
  { simpl. rewrite Hn1. lia. }
  rewrite Hrun. exists nxt, e2, (s_execute m (assigned m (set_in_ring r1 e1)) A).1, [m].
  rewrite Hq1, Hq2 in *. rewrite Hin2 in *. cbn [in_ring_ set_in_ring] in *.
  split_and!; [done|done|congruence| |].
  - constructor; [done|by rewrite Hin2|by rewrite app_assoc|].
    rewrite Hid2, app_assoc. unfold ids_after. cbn [next_id_ set_in_ring]. case_decide; lia.
  - intros r. simpl. unfold mbind, M_bind. rewrite <- Hsame.
    change (set_in_ring r e1) with (set_in_ring r (set_in_ring r1 e1)).
    by rewrite (execute_frame _ _ _ r Hrun).
Qed.

(** C33. The matching thread's look-ahead changes nothing: whatever the gateway pushes
    between the iterations (as long as the ring never fills), the thread executes
    exactly the messages it pops, in the order they were pushed, as plain
    sequential execution would.  When the loop is left on the stop flag, one popped
    message ([have']) may remain that is never executed. *)
Theorem pipeline_in_order arrivals have e A :
  let queue := held have ++ contents (in_ring_ e) ++ concat arrivals in
  engine_ok e A -> ring_ok (in_ring_ e) -> Forall executable queue ->
  Z.of_nat (length queue) <= Ring.capacity (in_ring_ e) - 1 ->
  next_id_ e + Z.of_nat (length queue) < 2 ^ 64 ->
  exists have' e' ran, handleMatching arrivals have e = Ok (have', e') /\
    queue = ran ++ held have' ++ contents (in_ring_ e') /\
    forall r, execute_all ran (set_in_ring r e) = Ok (tt, set_in_ring r e').
Proof.
  intros queue He Hring Hex Hfit Hids. subst queue.
  assert (loop_ok e A (held have ++ contents (in_ring_ e) ++ concat arrivals) (2 ^ 64)) as Hlo by by constructor.
  clear He Hring Hex Hids. revert have e A Hfit Hlo. induction arrivals as [|l arrivals IH]; intros have e A Hfit Hlo.
  { exists have, e, []. simpl. split_and!; [done|by rewrite app_nil_r|done]. }
  destruct Hlo as [He Hring Hex Hids]. simpl handleMatching. unfold mbind at 1, M_bind at 1, modify at 1.
  destruct (push_all_contents l (in_ring_ e) Hring) as (Hring1 & Hcap1 & Hc1).
  simpl concat in *. rewrite !length_app in Hfit. rewrite take_ge in Hc1 by (rewrite length_app; lia).
  set (e1 := set_in_ring (push_all l (in_ring_ e)) e).
  assert (Hlo1 : loop_ok e1 A (held have ++ contents (in_ring_ e1) ++ concat arrivals) (2 ^ 64)).
  { constructor; [done|done|..]; cbn [in_ring_ set_in_ring e1 next_id_]; rewrite Hc1, <- (app_assoc (contents _)); done. }
  destruct (iteration_ok have e1 A (concat arrivals) Hlo1) as (h2 & e2 & A2 & ran & Hrun & Hq & Hcap2 & Hlo2 & Hx).
  unfold mbind at 1, M_bind at 1. rewrite Hrun.
  destruct (IH h2 e2 A2) as (h3 & e3 & ran' & Hrun3 & Hq3 & Hx3); [|done|].
  { apply (f_equal length) in Hq. cbn [in_ring_ set_in_ring e1] in Hq, Hcap2.
    rewrite Hc1, !length_app in Hq. rewrite Hcap2, Hcap1, !length_app. lia. }
  exists h3, e3, (ran ++ ran'). split; [done|]. split.
  - rewrite <- !app_assoc, <- Hq3. cbn [in_ring_ set_in_ring e1] in Hq. rewrite Hc1 in Hq.
    rewrite !app_assoc in *. by rewrite Hq.
  - intros r. eapply execute_all_app; [|apply Hx3]. exact (Hx r).
Qed.

Lemma pipeline_in_order_witness : exists have' e' ran,
  handleMatching [[sample_msg; sample_msg]; [sample_msg]] None sample_engine = Ok (have', e') /\
  [sample_msg; sample_msg; sample_msg] = ran ++ held have' ++ contents (in_ring_ e').
Proof.
  destruct (pipeline_in_order [[sample_msg; sample_msg]; [sample_msg]] None sample_engine _
    (engine_init_ok 4 (ring_init 8) (ring_init 16) eq_refl)) as (h & e' & ran & H1 & H2 & _).
  - exact (ring_init_ok 3 ltac:(lia)).
  - repeat (constructor; [exact sample_executable|]). constructor.
  - vm_compute. discriminate.
  - vm_compute. reflexivity.
  - exists h, e', ran. split; [exact H1|exact H2].
Defined.

(** [step] drains: it returns with the inbound ring empty, having executed exactly
    the messages that were pending, in order. *)
Theorem step_drains e A : engine_ok e A -> ring_ok (in_ring_ e) ->
  Forall executable (contents (in_ring_ e)) ->
  next_id_ e + Z.of_nat (length (contents (in_ring_ e))) < 2 ^ 64 ->
  exists e', step e = Ok (tt, e') /\ contents (in_ring_ e') = [] /\
    forall r, execute_all (contents (in_ring_ e)) (set_in_ring r e) = Ok (tt, set_in_ring r e').
Proof.
  intros He Hring Hex Hids. unfold step, mbind at 1, M_bind at 1, get at 1.
  assert (Hfuel : (length (contents (in_ring_ e)) < S (Z.to_nat (ring_size (in_ring_ e))))%nat).
  { rewrite (ring_size_contents _ Hring). lia. }
  revert Hfuel. generalize (S (Z.to_nat (ring_size (in_ring_ e)))). intros fuel.
  revert e A He Hring Hex Hids. induction fuel as [|fuel IH]; intros e A He Hring Hex Hids Hlt; [lia|].
  cbn [loop]. destruct (pop_inbound_ok e Hring) as (m & r & Hpop & Hring1 & _ & Hq).
  unfold mbind at 1, M_bind at 1, mbind at 1, M_bind at 1. rewrite Hpop. rewrite Hq in *.
  destruct m as [m|]; cbn [held app] in *.
  - apply Forall_cons in Hex as [Hexm Hex]. cbn [length] in *.
    destruct (execute_ok m (set_in_ring r e) A He Hexm) as (e2 & Hrun & He2 & _ & Hin2 & Hid2); [simpl; lia|].
    cbn [in_ring_ set_in_ring] in Hin2. unfold mbind at 1, M_bind at 1. rewrite Hrun.
    unfold mret at 1, M_ret at 1. cbv iota beta.
    destruct (IH e2 _ He2) as (e3 & H1 & H2 & H3).
    + by rewrite Hin2.
    + by rewrite Hin2.
    + rewrite Hin2, Hid2. unfold ids_after. cbn [next_id_ set_in_ring]. case_decide; lia.
    + rewrite Hin2. lia.
    + exists e3. split_and!; [done|done|]. intros r'. cbn [execute_all]. unfold mbind, M_bind.
      change (set_in_ring r' e) with (set_in_ring r' (set_in_ring r e)).
      rewrite (execute_frame _ _ _ r' Hrun). rewrite Hin2 in H3. apply H3.
  - assert (contents r = []) as Hr0.
    { destruct (contents r) as [|x l] eqn:E; [done|]. exfalso.
      destruct (pop_cons (in_ring_ e) x l Hring Hq) as (r' & Hp & _).
      unfold pop_inbound, mbind, M_bind, get in Hpop. rewrite Hp in Hpop. done. }
    rewrite Hr0. by exists (set_in_ring r e).
Qed.

Lemma step_drains_witness : exists e',
  step (set_in_ring (push_all [sample_msg; sample_msg] (ring_init 8)) sample_engine) = Ok (tt, e') /\
  contents (in_ring_ e') = [].
Proof.
  destruct (step_drains (set_in_ring (push_all [sample_msg; sample_msg] (ring_init 8)) sample_engine) _
    (engine_init_ok 4 (ring_init 8) (ring_init 16) eq_refl)) as (e' & H1 & H2 & _).
  - exact (proj1 (push_all_contents [sample_msg; sample_msg] _ (ring_init_ok 3 ltac:(lia)))).
  - repeat (constructor; [exact sample_executable|]). constructor.
  - vm_compute. reflexivity.
  - exists e'. split; [exact H1|exact H2].
Defined.
