(* ===== verification/Overprice.v ===== *)
(** Limit orders above [MAX_PRICE].  Validation lets them through
    ([exchange/server/include/validation.hpp]), and the book indexes its array of levels
    with the price ([exchange/engine/include/orderbook.hpp], [level_index]).  This file
    says what the engine of [Engine] does with such a message in every case: it leaves
    the array exactly when the order would come to rest, and refuses it otherwise.  With
    it, [execute_total] covers every message that validation accepts. *)

From S2P Require Import Prelude Types Ring Pool Book Spec SpecProps Ladder Refine Match Process BookProps Validation Engine.

Local Open Scope Z_scope.

(** * Specification *)

(** The price does not fit the array, and the request may want to rest. *)
Definition above_range (msg : InboundMessage) : Prop :=
  in_order_type msg = LIMIT /\ in_message_type msg <> CANCEL /\ MAX_PRICE < in_price msg.
#[export] Instance above_range_dec msg : Decision (above_range msg).
Proof. unfold above_range. apply _. Defined.

(** What the gateway hands on: fields of their widths that validation accepts. *)
Definition checked (msg : InboundMessage) : Prop := fields_ok msg /\ validate_message msg = true.

(** A request gets as far as the array of levels. *)
Definition reaches_level (r : OrderRequest) (A : SBook) : Prop :=
  match get_message_type r with
  | NEW => s_find (get_order_id r) A = None /\ length (s_all A) <> s_capacity A
  | MODIFY => exists o, s_find (get_order_id r) A = Some o /\ client_id_ o = get_clientId r /\ side_ o = get_side r
  | _ => False
  end.

(** The answer when it does not: a NEW order that the pool has no room for is reported as
    accepted. *)
Definition turned_away (r : OrderRequest) : ProcessResult :=
  mkResult (if decide (get_message_type r = NEW) then SUCCESS else FAILURE) false.

(** Every checked message, whatever its price. *)
Definition s_serve (msg : InboundMessage) (id : Z) (A : SBook) : SBook * list OutboundMessage :=
  if decide (above_range msg) then (A, [ack_msg msg id (status (turned_away (request_of id msg)))])
  else s_execute msg id A.

Lemma checked_executable msg : checked msg -> ~ above_range msg -> executable msg.
Proof.
  intros [Hf Hv] Hn. split; [done|]. split; [done|]. intros Ht Hc.
  destruct (Z.le_gt_cases (in_price msg) MAX_PRICE); [done|]. destruct Hn. split_and!; [done|done|lia].
Qed.

(** * The array is left exactly when the order would rest *)

Section OutOfRange.
Context (r : OrderRequest).
Hypothesis Hlimit : get_type r = LIMIT.
Hypothesis Hprice : is_u32 (get_price r) /\ MAX_PRICE < get_price r.

Lemma read_level_above d b : read_level d (level_index (get_price r)) b = Err OutOfBounds.
Proof.
  destruct Hprice as [Hu Hmax]. unfold read_level, level_index, LEVELS. unfold is_u32, MAX_PRICE, MIN_PRICE in *.
  rewrite u32_small by (unfold is_u32; lia). by destruct (Z.ltb_spec (get_price r - 1) (1000 * 100 - 1 + 1)); [lia|].
Qed.

Lemma addOrder_above b L : book_rep b L -> orders_ b !! get_order_id r = None ->
  addOrder r b = if decide (length (s_all (abs b L)) = s_capacity (abs b L)) then Ok (false, b) else Err OutOfBounds.
Proof.
  intros Hrep Hid. pose proof (br_store _ _ Hrep) as Hsr. unfold addOrder. rewrite Hlimit, decide_False by done.
  unfold mbind, M_bind, get. rewrite Hid. unfold allocate, pool_allocate, mbind, M_bind, get, modify.
  destruct (free_list_ (pool_ b)) as [|p rest] eqn:Hf.
  - rewrite decide_True by (by apply (pool_exhausted b L)). unfold mret, M_ret.
    by replace (set_pool (pool_ b) b) with b by (by destruct b).
  - rewrite decide_False by (intros E; apply (pool_exhausted b L) in E; congruence).
    unfold mret, M_ret, get_order, mbind, M_bind, get, of_res, deref. cbn [pool_ arena_ set_orders set_pool].
    rewrite list_lookup_insert_eq by (by eapply fresh_lt). cbn [side_ price_ new_Order].
    by destruct (decide (get_side r = BID)); rewrite read_level_above.
Qed.

Lemma modify_above b L s o : book_rep b L -> s_inv (abs b L) -> orders_ b !! get_order_id r = Some s ->
  arena b !! s = Some o -> modifyOrder r b = Err OutOfBounds.
Proof.
  intros Hrep Hinv Hid Ho. pose proof (br_store _ _ Hrep) as Hsr.
  pose proof (s_find_some b L _ s o Hsr Hid Ho) as [Hin Hoid]%s_find_some_elem.
  assert (Hne : (get_price r =? price_ o) = false).
  { apply Z.eqb_neq. apply (sr_orders _ _ Hsr) in Hid as [[d Hs]%elem_of_slots _].
    destruct (flat_order _ _ _ _ (sr_ladder _ _ Hsr d) s Hs) as (o' & Ho' & _ & [_ Hp] & _).
    assert (o' = o) as -> by congruence. destruct Hprice. lia. }
  unfold modifyOrder, mbind, M_bind, get. rewrite Hid. unfold get_order, mbind, M_bind, get, of_res, deref.
  change (arena_ (pool_ b)) with (arena b). rewrite Ho, Hne. cbn [negb orb].
  destruct (wp_Ok (cancelOrder (get_order_id r)) (fun _ b' => exists L', book_rep b' L' /\ abs b' L' = s_cancel (get_order_id r) (abs b L)) b)
    as (u & b' & -> & L' & Hrep' & Habs').
  { apply (wp_cancel b L _ s o); [done..|]. intros b' L' H1 H2 _. by exists L'. }
  rewrite (addOrder_above b' L' Hrep').
  - rewrite decide_False; [done|]. rewrite Habs', s_all_cancel. cbn [s_capacity s_cancel].
    pose proof (filter_shorter (fun x => id_ x <> get_order_id r) (s_all (abs b L)) _ Hin ltac:(naive_solver)).
    pose proof (inv_capacity _ Hinv). lia.
  - destruct (orders_ b' !! get_order_id r) as [s'|] eqn:E; [|done].
    destruct (orders_slot b' L' _ s' (br_store _ _ Hrep') E) as (o' & Ho' & _).
    pose proof (s_find_some b' L' _ s' o' (br_store _ _ Hrep') E Ho') as [Hx Hxid]%s_find_some_elem.
    rewrite Habs', elem_of_s_cancel in Hx. by destruct Hx.
Qed.

End OutOfRange.

Lemma process_above r b A : valid b A -> get_type r = LIMIT -> get_message_type r <> CANCEL ->
  is_u32 (get_price r) /\ MAX_PRICE < get_price r ->
  reaches_level r A /\ process r b = Err OutOfBounds \/ ~ reaches_level r A /\ process r b = Ok (turned_away r, b).
Proof.
  intros [(L & Hrep & ->) Hinv] Hl Hc Hp. pose proof (br_store _ _ Hrep) as Hsr. unfold process, reaches_level, turned_away.
  destruct (get_message_type r) eqn:Hm; [|done| |by right; split; [intros []|]..].
  - destruct (orders_ b !! get_order_id r) as [s|] eqn:Hid.
    + destruct (orders_slot b L _ s Hsr Hid) as (o & Ho & _). rewrite (s_find_some b L _ s o Hsr Hid Ho).
      right. split; [by intros []|]. unfold addOrder. rewrite Hl, decide_False by done.
      unfold mbind, M_bind, get. by rewrite Hid.
    + rewrite (s_find_none b L _ Hsr Hid). unfold mbind, M_bind. rewrite (addOrder_above r Hl Hp b L Hrep Hid).
      case_decide; [right; split; [by intros []|done]|by left].
  - unfold mbind, M_bind, get. destruct (orders_ b !! get_order_id r) as [s|] eqn:Hid.
    + destruct (orders_slot b L _ s Hsr Hid) as (o & Ho & _). rewrite (s_find_some b L _ s o Hsr Hid Ho).
      unfold get_order, mbind, M_bind, get, of_res, deref. change (arena_ (pool_ b)) with (arena b). rewrite Ho.
      destruct (decide (client_id_ o = get_clientId r /\ side_ o = get_side r)) as [[H1 H2]|Hno].
      * left. split; [by exists (core o)|]. by rewrite (modify_above r Hl Hp b L s o Hrep Hinv Hid Ho).
      * right. split; [|done]. intros (o' & [= <-] & H1 & H2). by apply Hno.
    + rewrite (s_find_none b L _ Hsr Hid). right. split; [|done]. by intros (o' & ? & _).
Qed.

(** * Every checked message *)

(** Validation, with the order type it has checked. *)
Lemma above_request msg id : checked msg -> above_range msg ->
  let r := request_of id msg in
  get_type r = LIMIT /\ get_message_type r <> CANCEL /\ is_u32 (get_price r) /\ MAX_PRICE < get_price r.
Proof. intros [(Hp & _) _] (H1 & H2 & H3). done. Qed.

(** The engine never faults on a checked message but by leaving the array of levels, and
    otherwise implements [s_serve]. *)
Lemma execute_total msg e A : engine_ok e A -> checked msg -> next_id_ e + 1 < 2 ^ 64 ->
  above_range msg /\ reaches_level (request_of (assigned msg e) msg) A /\ executeRequest msg e = Err OutOfBounds \/
  (above_range msg -> ~ reaches_level (request_of (assigned msg e) msg) A) /\
  exists e', executeRequest msg e = Ok (tt, e') /\ engine_ok e' (s_serve msg (assigned msg e) A).1 /\
    out_ring_ (book_ e') = push_all (s_serve msg (assigned msg e) A).2 (out_ring_ (book_ e)) /\
    in_ring_ e' = in_ring_ e /\ next_id_ e' = ids_after msg e.
Proof.
  intros He Hck Hid. unfold s_serve. destruct (decide (above_range msg)) as [Hab|Hab].
  - destruct (above_request msg (assigned msg e) Hck Hab) as (H1 & H2 & H3). pose proof He as (Hv & _ & _).
    destruct (process_above _ (book_ e) A Hv H1 H2 H3) as [[Hr Hrun]|[Hr Hrun]].
    + left. split_and!; [done|done|]. unfold executeRequest, mbind, M_bind, assigned in *.
      destruct (decide (in_message_type msg = NEW)); unfold get, modify, mret, M_ret, mbind, M_bind, on_book;
        cbn [book_ set_next_id]; by rewrite Hrun.
    + right. split; [done|]. apply (execute_run msg e A _ (book_ e) A [] He Hid Hrun Hv eq_refl).
      intros o Ho. left. by exists o.
  - right. split; [done|]. by apply execute_ok; [|apply checked_executable|].
Qed.

(** C14. What a limit price above [MAX_PRICE] does.  Validation lets the message through.
    The engine then accesses its array of levels out of bounds exactly when the request
    gets as far as the array: a NEW order when the pool has a free slot, a MODIFY that
    names a resting order of the same client and side - after the old order has been
    taken off the book.  In every other case nothing changes but the id counter, and
    the client is answered; a NEW order the pool has no room for is reported as
    accepted. *)
Theorem overpriced_exact msg e A : engine_ok e A -> checked msg -> above_range msg -> next_id_ e + 1 < 2 ^ 64 ->
  let r := request_of (assigned msg e) msg in
  (executeRequest msg e = Err OutOfBounds <-> reaches_level r A) /\
  (~ reaches_level r A -> exists e', executeRequest msg e = Ok (tt, e') /\ engine_ok e' A /\
     out_ring_ (book_ e') = push_all [ack_msg msg (assigned msg e) (status (turned_away r))] (out_ring_ (book_ e)) /\
     next_id_ e' = ids_after msg e).
Proof.
  intros He Hck Hab Hid r. destruct (execute_total msg e A He Hck Hid) as [(_ & Hr & Hrun)|[Hr (e' & Hrun & H1 & H2 & _ & H3)]].
  - split; [by split|]. by intros [].
  - split; [by split; [rewrite Hrun|intros H; destruct (Hr Hab)]|]. intros _. exists e'. unfold s_serve in *.
    rewrite decide_True in H1, H2 by done. done.
Qed.

Lemma overpriced_exact_witness : validate_message overpriced = true /\
  executeRequest overpriced (engine_init 4 (ring_init 8) (ring_init 16)) = Err OutOfBounds /\
  exists e', executeRequest overpriced (engine_init 0 (ring_init 8) (ring_init 16)) = Ok (tt, e') /\
    contents (out_ring_ (book_ e')) = [ack_msg overpriced 0 SUCCESS].
Proof.
  assert (Hck : checked overpriced) by (split; [repeat split; vm_compute; congruence|reflexivity]).
  assert (Hab : above_range overpriced) by (split_and!; [reflexivity|discriminate|reflexivity]).
  split; [reflexivity|]. split.
  - apply (overpriced_exact overpriced _ _ (engine_init_ok 4 (ring_init 8) (ring_init 16) eq_refl) Hck Hab eq_refl).
    split; [reflexivity|discriminate].
  - destruct (proj2 (overpriced_exact overpriced _ _ (engine_init_ok 0 (ring_init 8) (ring_init 16) eq_refl) Hck Hab eq_refl))
      as (e' & H1 & _ & H2 & _); [intros [_ H]; by apply H|].
    exists e'. split; [exact H1|]. rewrite H2. reflexivity.
Defined.
