(* ===== verification/Answered.v ===== *)
(** What a client hears of a request ([exchange/engine/src/engine.cpp],
    [Engine::executeRequest]): for every message that validation accepts, which messages
    the engine sends, to whom, and the one kind of request that it leaves without an
    answer. *)

From S2P Require Import Prelude Types Ring Pool Book Spec SpecProps BookProps Validation Engine Overprice.

Local Open Scope Z_scope.

(** * Definitions *)

(** A trade of the order that a request is about, reported to the request's client. *)
Definition trade_of (r : OrderRequest) (x : OutboundMessage) : Prop :=
  out_message_type x = MATCH /\ out_client_id x = get_clientId r /\ out_order_id x = get_order_id r.

(** An acknowledgement of the request. *)
Definition reply_to (r : OrderRequest) (x : OutboundMessage) : Prop :=
  out_message_type x = get_message_type r /\ out_client_id x = get_clientId r /\ out_order_id x = get_order_id r.

(** The requests that the engine does not answer: market orders of quantity 0, whether
    they are new or made out of an order that rests. *)
Definition unanswered (r : OrderRequest) (A : SBook) : Prop :=
  get_type r = MARKET /\ get_quantity r = 0 /\
  match get_message_type r with
  | NEW => True
  | MODIFY => exists o, s_find (get_order_id r) A = Some o /\ client_id_ o = get_clientId r /\ side_ o = get_side r
  | _ => False
  end.

(** * The trades of a request *)

Lemma sweep_first r rem l : (sweep r rem l).2 = [] \/ exists ms, (sweep r rem l).2 = market_msg r :: ms.
Proof.
  destruct l as [|o l]; cbn [sweep]; [by left|]. destruct (0 <? rem); [|by left]. cbv zeta. right.
  destruct (is_filled _); [|by eexists]. destruct (sweep _ _ l) as [[? ?] ms]. by eexists.
Qed.

Lemma sweep_nothing r l : sweep r 0 l = (0, l, []).
Proof. by destruct l. Qed.

Lemma s_market_first r A x : x = market_msg r -> (s_market r A).2 <> [] -> x ∈ take 2 (s_market r A).2.
Proof.
  intros -> Hne. unfold s_market in *. destruct (if decide (get_side r = BID) then Some Asks else _) as [d|]; [|done].
  destruct (sweep_first r (get_quantity r) (s_orders d A)) as [E|[ms E]]; destruct (sweep _ _ _) as [[rem l] ms']; cbn [snd] in *.
  - done.
  - rewrite E. by left.
Qed.

Lemma s_market_nothing r A : get_quantity r = 0 -> (s_market r A).1.1 = true /\ (s_market r A).2 = [].
Proof.
  intros E. unfold s_market. rewrite E. destruct (if decide (get_side r = BID) then Some Asks else _) as [d|]; [|done].
  by rewrite sweep_nothing.
Qed.

(** Insertion leaves the head of the list, or the order is the new head. *)
Lemma s_insert_head d o l : exists l', s_insert d o l = o :: l' \/ exists x, head l = Some x /\ s_insert d o l = x :: l'.
Proof. destruct l as [|x l]; [exists []; by left|]. cbn. case_match; eexists; [by left|right; by exists x]. Qed.

(** An order that is added to an uncrossed book trades in the first trade, if at all. *)
Lemma insert_first d o A : uncrossed A ->
  let A1 := s_set d (s_insert d o (s_orders d A)) A in (s_match A1).2 <> [] -> match_msg o ∈ take 2 (s_match A1).2.
Proof.
  intros Hun. cbv zeta. unfold s_match. destruct (s_insert_head d o (s_orders d A)) as [l' [->|(x & Hx & ->)]].
  - destruct d; cbn [s_set s_bids s_asks].
    + destruct (s_asks A) as [|a asks]; [by rewrite cross_nil_r|]. rewrite cross_cons. destruct (_ <? _); [done|]. cbv zeta.
      destruct (cross _ _) as [[? ?] ms]. intros _. by left.
    + destruct (s_bids A) as [|b bids]; [by rewrite cross_nil_l|]. rewrite cross_cons. destruct (_ <? _); [done|]. cbv zeta.
      destruct (cross _ _) as [[? ?] ms]. intros _. right. by left.
  - destruct d; cbn [s_set s_bids s_asks s_orders] in *.
    + destruct (s_bids A) as [|b bids] eqn:Eb; [done|]. injection Hx as ->.
      destruct (s_asks A) as [|a asks] eqn:Ea; [by rewrite cross_nil_r|]. rewrite cross_cons.
      assert (price_ x < price_ a) by (apply Hun; [rewrite Eb|rewrite Ea]; by left). by destruct (Z.ltb_spec (price_ x) (price_ a)); [|lia].
    + destruct (s_asks A) as [|a asks] eqn:Ea; [done|]. injection Hx as ->.
      destruct (s_bids A) as [|b bids] eqn:Eb; [by rewrite cross_nil_l|]. rewrite cross_cons.
      assert (price_ b < price_ x) by (apply Hun; [rewrite Eb|rewrite Ea]; by left). by destruct (Z.ltb_spec (price_ b) (price_ x)); [|lia].
Qed.

Lemma s_match_uncrossed A : uncrossed A -> s_match A = (false, A, []).
Proof. intros H. unfold s_match. rewrite (cross_uncrossed A H). by destruct A. Qed.

Lemma s_add_first r A : s_inv A -> (s_add r A).2 <> [] -> exists x, x ∈ take 2 (s_add r A).2 /\ trade_of r x.
Proof.
  intros Hinv. unfold s_add. case_decide.
  - intros Hne. exists (market_msg r). split; [by apply s_market_first|done].
  - destruct (s_find _ _); [done|]. case_decide; [done|]. cbv zeta. intros Hne. eexists. split; [by apply insert_first; [apply s_inv_split in Hinv as []|]|done].
Qed.

(** The trades of a request: the first reports one of its own. *)
Lemma s_process_first r A : s_inv A -> (s_process r A).2 <> [] -> exists x, x ∈ take 2 (s_process r A).2 /\ trade_of r x.
Proof.
  intros Hinv. unfold s_process. cbv zeta. destruct (get_message_type r); try done.
  - by apply s_add_first.
  - destruct (s_find _ _); [case_decide|]; done.
  - destruct (s_find _ _) as [o|]; [case_decide|]; try done. cbn [fst snd]. unfold s_modify. case_decide.
    + cbv zeta. pose proof (s_touch_inv (get_order_id r) (get_recv_tsc r) A Hinv) as Hi. case_decide.
      * intros Hne. exists (market_msg r). split; [by apply s_market_first|done].
      * rewrite s_match_uncrossed by (by apply s_inv_split in Hi as []). done.
    + apply s_add_first, s_cancel_inv, Hinv.
Qed.

(** A request is suppressed in silence exactly when it is [unanswered]. *)
Lemma s_process_unanswered r A :
  unanswered r A <-> suppress_ack (s_process r A).1.1 = true /\ (s_process r A).2 = [].
Proof.
  split.
  - intros (Ht & Hq & Hm). unfold s_process. cbv zeta. destruct (get_message_type r); try done.
    + unfold s_add. rewrite decide_True by done. by apply s_market_nothing.
    + destruct Hm as (o & -> & H1 & H2). rewrite decide_True by done. cbn [fst snd suppress_ack]. unfold s_modify.
      case_decide; cbv zeta; [|unfold s_add]; rewrite decide_True by done; by apply s_market_nothing.
  - intros [H1 H2]. destruct (s_process_silent r A H2 H1) as [Ht Hq]. split; [done|]. split; [done|].
    unfold s_process in H1. cbv zeta in H1. destruct (get_message_type r); try done.
    + destruct (s_find _ _) as [o|]; [|done]. by destruct (decide (client_id_ o = get_clientId r)).
    + destruct (s_find _ _) as [o|]; [|done]. destruct (decide (client_id_ o = _ /\ _)) as [Ho|]; [|done]. by exists o.
Qed.

(** What [s_serve] sends. *)
Lemma s_serve_answers msg id A : s_inv A -> checked msg ->
  let ms := (s_serve msg id A).2 in let r := request_of id msg in
  (unanswered r A <-> ms = []) /\
  (ms <> [] -> exists x, reply_to r x /\ last ms = Some x \/ trade_of r x /\ x ∈ take 2 ms).
Proof.
  intros Hinv Hck. cbv zeta. unfold s_serve. destruct (decide (above_range msg)) as [(H1 & _)|_]; cbn [snd].
  - split; [|intros _; eexists; left; split; [|reflexivity]; by split_and!]. split; [|done]. intros [E _]. cbn in E. congruence.
  - pose proof (s_process_unanswered (request_of id msg) A) as Hs. pose proof (s_process_first (request_of id msg) A Hinv) as Hf.
    unfold s_execute. destruct (s_process _ A) as [[x A'] ms]. cbn [fst snd] in *. destruct (suppress_ack x); cbn [fst snd].
    + rewrite app_nil_r. split; [rewrite Hs; naive_solver|]. intros Hne. destruct (Hf Hne) as (y & Hy & Ht). exists y. by right.
    + split; [rewrite Hs; split; [by intros []|by intros [_ ?]%app_nil]|]. intros _. eexists. left. split; [|apply last_snoc]. done.
Qed.

(** * Property *)

(** C34. Every request is answered.  For every message that validation accepts,
    [executeRequest] either leaves the array of levels (a limit order above [MAX_PRICE]
    that gets that far), or returns and pushes the messages of the specification.  There
    are none exactly for a market order of quantity 0; otherwise one of them goes to the
    client of the request and carries the id of its order: the acknowledgement, as the
    last of them, or, when the order trades, a MATCH in the first trade.  The ring holds
    them behind what it held: all of them when it has room, else the first that fit. *)
Theorem every_request_answered msg e A : engine_ok e A -> checked msg -> next_id_ e + 1 < 2 ^ 64 -> ring_ok (out_ring_ (book_ e)) ->
  let r := request_of (assigned msg e) msg in
  let ms := (s_serve msg (assigned msg e) A).2 in
  let ring := out_ring_ (book_ e) in
  (above_range msg /\ reaches_level r A /\ executeRequest msg e = Err OutOfBounds) \/
  (unanswered r A <-> ms = []) /\
  (ms <> [] -> exists x, out_client_id x = in_client_id msg /\ out_order_id x = assigned msg e /\
     (out_message_type x = in_message_type msg /\ last ms = Some x \/ out_message_type x = MATCH /\ x ∈ take 2 ms)) /\
  exists e', executeRequest msg e = Ok (tt, e') /\
    contents (out_ring_ (book_ e')) = take (Z.to_nat (Ring.capacity ring - 1)) (contents ring ++ ms) /\
    (Z.of_nat (length (contents ring ++ ms)) < Ring.capacity ring -> contents (out_ring_ (book_ e')) = contents ring ++ ms).
Proof.
  intros He Hck Hid Hring r ms ring. destruct (execute_total msg e A He Hck Hid) as [H|(_ & e' & Hrun & _ & Hout & _)]; [by left|right].
  pose proof He as ((_ & Hinv) & _). destruct (s_serve_answers msg (assigned msg e) A Hinv Hck) as [H1 H2].
  split; [exact H1|]. split.
  - intros Hne. destruct (H2 Hne) as (x & [[(E1 & E2 & E3) Hx]|[(E1 & E2 & E3) Hx]]); exists x; split_and!; try done; [by left|by right].
  - exists e'. rewrite Hout. destruct (push_all_contents ms ring Hring) as (_ & _ & Hc). fold ms ring. rewrite Hc.
    split_and!; [done|done|]. intros Hroom. apply take_ge. lia.
Qed.

Definition zero_market : InboundMessage := mkInbound 0 0 0 0 7 0 0 NEW BID MARKET.

(** A limit order that rests is acknowledged; a market order of quantity 0 hears nothing. *)
Lemma every_request_answered_witness :
  (exists e' x, executeRequest sample_msg sample_engine = Ok (tt, e') /\ contents (out_ring_ (book_ e')) = [x] /\
     out_client_id x = 7 /\ out_order_id x = 0) /\
  exists e', executeRequest zero_market sample_engine = Ok (tt, e') /\ contents (out_ring_ (book_ e')) = [].
Proof.
  pose proof (engine_init_ok 4 (ring_init 8) (ring_init 16) eq_refl) as He.
  assert (Hring : ring_ok (out_ring_ (book_ sample_engine))) by exact (ring_init_ok 4 ltac:(lia)).
  assert (Hck : checked sample_msg /\ checked zero_market) by (split; (split; [repeat split; vm_compute; congruence|reflexivity])).
  split.
  - destruct (every_request_answered sample_msg sample_engine _ He (proj1 Hck) eq_refl Hring)
      as [[(_ & _ & H) _]|(_ & H1 & e' & H2 & _ & H3)]; [discriminate H|].
    destruct H1 as (x & E1 & E2 & E3); [discriminate|]. exists e', x. split; [exact H2|]. rewrite H3 by reflexivity.
    split; [|split; [exact E1|exact E2]]. destruct E3 as [[_ E]|[E Hin]]; [injection E as <-; reflexivity|].
    apply list_elem_of_singleton in Hin. rewrite Hin in E. discriminate E.
  - destruct (every_request_answered zero_market sample_engine _ He (proj2 Hck) eq_refl Hring)
      as [[(H & _) _]|(H1 & _ & e' & H2 & _ & H3)]; [discriminate H|].
    exists e'. split; [exact H2|]. rewrite H3 by reflexivity. apply H1. split; [reflexivity|]. split; [reflexivity|exact I].
Defined.
