(* ===== verification/Protocol.v ===== *)
(** The wire format: frame sizes, status prefixes and error strings
    ([infra/protocol.hpp]), the bytes of the messages as [memcpy] moves them
    ([infra/communication_types.hpp]), the server's response frames
    ([Server::appendResponse]) and the client's request frames
    ([OrderFactory::frame_message]).

    A byte is an integer in [0, 256); [char] buffers are lists of bytes.  The build
    is little endian (x86-64), and the offsets are those of the structs. *)

From Stdlib Require Import String Ascii.
From S2P Require Import Prelude Types.

Local Open Scope Z_scope.

(** * Bytes *)

Fixpoint le_bytes (n : nat) (z : Z) : list Z :=
  match n with O => [] | S n' => z mod 256 :: le_bytes n' (z / 256) end.

Fixpoint le_value (l : list Z) : Z :=
  match l with [] => 0 | b :: l' => b + 256 * le_value l' end.

(** The bytes of a string literal, without the final zero. *)
Fixpoint chars (s : string) : list Z :=
  match s with EmptyString => [] | String c s' => Z.of_nat (nat_of_ascii c) :: chars s' end.

Definition newline : Z := 10.

(** [memcpy(dst + off, src, n)] into an array: writing past its end faults. *)
Definition memcpy (off : nat) (src dst : list Z) : res (list Z) :=
  if decide (off + length src <= length dst)%nat
  then Ok (take off dst ++ src ++ drop (off + length src) dst)
  else Err OutOfBounds.

(** [n] bytes at [off]. *)
Definition slice (off n : nat) (l : list Z) : list Z := take n (drop off l).

(** * Constants *)

Definition INBOUND_BSIZE : nat := 72.
Definition OUTBOUND_BSIZE : nat := 32.

Definition HEADER : list Z := chars "EXCHANGE" ++ [newline].
Definition OK_STATUS : list Z := HEADER ++ chars "OK" ++ [newline].
Definition MATCH_STATUS : list Z := HEADER ++ chars "MATCH" ++ [newline].
Definition ERROR_STATUS : list Z := HEADER ++ chars "ERROR" ++ [newline].

Definition server_error_string (error : ServerError) : list Z :=
  match error with
  | MALFORMED_REQUEST => chars "malformed req"
  | INVALID_ORDER => chars "invalid order"
  | SYSTEM_ERROR => chars "system error"
  | EXECUTION_ERROR => chars "execution error"
  | NONE => chars "null"
  end.

(** * Response frames *)

(** The frame [appendResponse] builds for a message. *)
Definition response_frame (msg : OutboundMessage) : res (list Z) :=
  let frame := replicate OUTBOUND_BSIZE 0 in
  if decide (out_message_type msg = MATCH) then
    f1 ← memcpy 0 MATCH_STATUS frame;
    f2 ← memcpy (length MATCH_STATUS) (le_bytes 4 (out_client_id msg)) f1;
    memcpy (length MATCH_STATUS + 4) (le_bytes 8 (out_order_id msg)) f2
  else if decide (out_server_error msg = NONE) then
    f1 ← memcpy 0 OK_STATUS frame;
    f2 ← memcpy (length OK_STATUS) (le_bytes 4 (out_client_id msg)) f1;
    memcpy (length OK_STATUS + 4) (le_bytes 8 (out_order_id msg)) f2
  else
    let err_str := server_error_string (out_server_error msg) in
    f1 ← memcpy 0 ERROR_STATUS frame;
    f2 ← memcpy (length ERROR_STATUS) err_str f1;
    memcpy (length ERROR_STATUS + length err_str) [newline] f2.

(** What the client reads in a response frame: the type byte, and for the two kinds
    that carry them the client id and the order id. *)
Definition frame_has_header (frame : list Z) : bool := bool_decide (slice 0 9 frame = HEADER).
Definition frame_type (frame : list Z) : Z := default 0 (frame !! 9%nat).
Definition ack_order_id (frame : list Z) : Z := le_value (slice 16 8 frame).
Definition ack_client_id (frame : list Z) : Z := le_value (slice 12 4 frame).
Definition match_order_id (frame : list Z) : Z := le_value (slice 19 8 frame).
Definition match_client_id (frame : list Z) : Z := le_value (slice 15 4 frame).
Definition char_O : Z := 79.
Definition char_M : Z := 77.
Definition char_E : Z := 69.

(** * Request frames *)

(** The 56 bytes of an [InboundMessage]; [pad] are the bytes of the padding, which
    the struct copies as they are. *)
Definition inbound_bytes (m : InboundMessage) (pad : list Z) : list Z :=
  le_bytes 8 (in_read_begin_tsc m) ++ le_bytes 8 (in_recv_tsc m) ++ le_bytes 8 (in_server_push m) ++
  le_bytes 8 (in_order_id m) ++ le_bytes 4 (in_client_id m) ++ le_bytes 4 (in_price m) ++
  le_bytes 4 (in_quantity m) ++
  [MessageType_byte (in_message_type m); Side_byte (in_side m); OrderType_byte (in_order_type m)] ++ pad.

Definition byte_at (i : nat) (l : list Z) : Z := default 0 (l !! i).

(** [memcpy(&msg, bytes, sizeof(InboundMessage))]. *)
Definition inbound_of_bytes (l : list Z) : InboundMessage :=
  mkInbound (le_value (slice 0 8 l)) (le_value (slice 8 8 l)) (le_value (slice 16 8 l))
            (le_value (slice 24 8 l)) (le_value (slice 32 4 l)) (le_value (slice 36 4 l))
            (le_value (slice 40 4 l)) (MessageType_of_byte (byte_at 44 l))
            (Side_of_byte (byte_at 45 l)) (OrderType_of_byte (byte_at 46 l)).

(** [frame_message] into the client's frame buffer. *)
Definition frame_message (m : InboundMessage) (pad dst : list Z) : res (list Z) :=
  d1 ← memcpy 0 HEADER dst;
  d2 ← memcpy (length HEADER) (inbound_bytes m pad) d1;
  memcpy (length HEADER + 56) [newline] d2.

(** What the server reads in a request frame: nothing when the header is wrong. *)
Definition parse_request (frame : list Z) : option InboundMessage :=
  if decide (slice 0 9 frame = HEADER) then Some (inbound_of_bytes (slice 9 56 frame)) else None.

(** * Lemmas *)

Lemma length_le_bytes n z : length (le_bytes n z) = n.
Proof. revert z. induction n as [|n IH]; intros z; simpl; [done|]. by rewrite IH. Qed.

Lemma le_value_bytes n z : 0 <= z < 2 ^ (8 * Z.of_nat n) -> le_value (le_bytes n z) = z.
Proof.
  revert z. induction n as [|n IH]; intros z Hz; cbn [le_bytes le_value].
  - simpl in Hz. lia.
  - rewrite IH; [pose proof (Z.div_mod z 256); lia|].
    replace (8 * Z.of_nat (S n)) with (8 + 8 * Z.of_nat n) in Hz by lia.
    rewrite Z.pow_add_r in Hz by lia. change (2 ^ 8) with 256 in Hz. split.
    + apply Z.div_pos; lia.
    + apply Z.div_lt_upper_bound; lia.
Qed.

Lemma memcpy_ok off src dst : (off + length src <= length dst)%nat ->
  memcpy off src dst = Ok (take off dst ++ src ++ drop (off + length src) dst).
Proof. intros H. unfold memcpy. by rewrite decide_True. Qed.

(** A copy that starts where the last one ended. *)
Lemma memcpy_after pre src rest : (length src <= length rest)%nat ->
  memcpy (length pre) src (pre ++ rest) = Ok ((pre ++ src) ++ drop (length src) rest).
Proof.
  intros H. rewrite memcpy_ok by (rewrite length_app; lia).
  rewrite take_app_length, <- app_assoc. do 2 f_equal.
  rewrite drop_app_ge by lia. do 2 f_equal. lia.
Qed.

Lemma slice_app pre src rest n : length src = n -> slice (length pre) n (pre ++ src ++ rest) = src.
Proof. intros <-. unfold slice. rewrite drop_app_length. apply take_app_length. Qed.

(** Three consecutive copies into a zeroed frame. *)
Lemma memcpy_three s1 s2 s3 (k n : nat) : length s2 = k -> (length s1 + k + length s3 <= n)%nat ->
  (f1 ← memcpy 0 s1 (replicate n 0); f2 ← memcpy (length s1) s2 f1; memcpy (length s1 + k) s3 f2) =
  Ok (s1 ++ s2 ++ s3 ++ replicate (n - length s1 - k - length s3) 0).
Proof.
  intros <- H. change 0%nat with (length (@nil Z)). change (replicate n 0) with ([] ++ replicate n 0).
  rewrite memcpy_after by (rewrite length_replicate; lia). cbn [mbind res_bind app].
  rewrite memcpy_after by (rewrite length_drop, length_replicate; lia). cbn [mbind res_bind].
  rewrite <- length_app, memcpy_after by (rewrite !length_drop, length_replicate; lia).
  rewrite !drop_replicate, <- !app_assoc. done.
Qed.

Lemma response_frame_shape msg :
  exists body rest, response_frame msg = Ok (body ++ replicate rest 0) /\ length (body ++ replicate rest 0) = OUTBOUND_BSIZE /\
    body = if decide (out_message_type msg = MATCH) then
             MATCH_STATUS ++ le_bytes 4 (out_client_id msg) ++ le_bytes 8 (out_order_id msg)
           else if decide (out_server_error msg = NONE) then
             OK_STATUS ++ le_bytes 4 (out_client_id msg) ++ le_bytes 8 (out_order_id msg)
           else ERROR_STATUS ++ server_error_string (out_server_error msg) ++ [newline].
Proof.
  unfold response_frame. case_decide; [|case_decide].
  - assert (length MATCH_STATUS + 4 + 8 <= OUTBOUND_BSIZE)%nat as Hle by (vm_compute; lia).
    eexists _, _. split; [|split; [|reflexivity]].
    + rewrite (memcpy_three _ _ _ 4) by (rewrite ?length_le_bytes; done).
      by rewrite <- !app_assoc.
    + rewrite !length_app, !length_le_bytes, length_replicate. unfold OUTBOUND_BSIZE in *. lia.
  - assert (length OK_STATUS + 4 + 8 <= OUTBOUND_BSIZE)%nat as Hle by (vm_compute; lia).
    eexists _, _. split; [|split; [|reflexivity]].
    + rewrite (memcpy_three _ _ _ 4) by (rewrite ?length_le_bytes; done).
      by rewrite <- !app_assoc.
    + rewrite !length_app, !length_le_bytes, length_replicate. unfold OUTBOUND_BSIZE in *. lia.
  - assert (length ERROR_STATUS + length (server_error_string (out_server_error msg)) + 1 <= OUTBOUND_BSIZE)%nat
      as Hle by (destruct (out_server_error msg); vm_compute; lia).
    eexists _, _. split; [|split; [|reflexivity]].
    + cbv zeta. rewrite (memcpy_three _ _ _ _ _ eq_refl) by exact Hle. by rewrite <- !app_assoc.
    + rewrite !length_app, length_replicate. cbn [length]. unfold OUTBOUND_BSIZE in *. lia.
Qed.

Lemma slice_prefix_app pre n l : (n <= length pre)%nat -> slice 0 n (pre ++ l) = take n pre.
Proof. intros H. unfold slice. rewrite drop_0. by rewrite take_app_le. Qed.

Lemma slice_at off n pre src rest : length pre = off -> length src = n ->
  slice off n (pre ++ src ++ rest) = src.
Proof. intros <- <-. by apply slice_app. Qed.

(** ** The bytes of a message *)

Definition message_ranges (m : InboundMessage) : Prop :=
  is_u64 (in_read_begin_tsc m) /\ is_u64 (in_recv_tsc m) /\ is_u64 (in_server_push m) /\
  is_u64 (in_order_id m) /\ is_u32 (in_client_id m) /\ is_u32 (in_price m) /\ is_u32 (in_quantity m) /\
  in_side m = Side_of_byte (Side_byte (in_side m)) /\
  in_order_type m = OrderType_of_byte (OrderType_byte (in_order_type m)) /\
  in_message_type m = MessageType_of_byte (MessageType_byte (in_message_type m)).

Lemma le_value_8 z : is_u64 z -> le_value (le_bytes 8 z) = z.
Proof. intros H. apply le_value_bytes. exact H. Qed.
Lemma le_value_4 z : is_u32 z -> le_value (le_bytes 4 z) = z.
Proof. intros H. apply le_value_bytes. exact H. Qed.

Lemma inbound_bytes_round m pad : message_ranges m -> inbound_of_bytes (inbound_bytes m pad) = m.
Proof.
  intros (H1 & H2 & H3 & H4 & H5 & H6 & H7 & H8 & H9 & H10).
  assert (E : forall l1 l2 l3 l4 l5 l6 l7 l8 : list Z,
    length l1 = 8%nat -> length l2 = 8%nat -> length l3 = 8%nat -> length l4 = 8%nat ->
    length l5 = 4%nat -> length l6 = 4%nat -> length l7 = 4%nat ->
    let l := l1 ++ l2 ++ l3 ++ l4 ++ l5 ++ l6 ++ l7 ++ l8 in
    slice 0 8 l = l1 /\ slice 8 8 l = l2 /\ slice 16 8 l = l3 /\ slice 24 8 l = l4 /\
    slice 32 4 l = l5 /\ slice 36 4 l = l6 /\ slice 40 4 l = l7 /\ forall i, (44 <= i)%nat -> l !! i = l8 !! (i - 44)%nat).
  { intros. subst l. split_and!.
    - apply (slice_at 0 8 []); done.
    - apply slice_at; done.
    - rewrite app_assoc. apply slice_at; [rewrite length_app; lia|done].
    - rewrite 2!app_assoc. apply slice_at; [rewrite !length_app; lia|done].
    - rewrite 3!app_assoc. apply slice_at; [rewrite !length_app; lia|done].
    - rewrite 4!app_assoc. apply slice_at; [rewrite !length_app; lia|done].
    - rewrite 5!app_assoc. apply slice_at; [rewrite !length_app; lia|done].
    - intros i Hi. rewrite 6!app_assoc, lookup_app_r by (rewrite !length_app; lia).
      f_equal. rewrite !length_app. lia. }
  destruct (E _ _ _ _ _ _ _ ([MessageType_byte (in_message_type m); Side_byte (in_side m); OrderType_byte (in_order_type m)] ++ pad)
    (length_le_bytes 8 (in_read_begin_tsc m)) (length_le_bytes 8 (in_recv_tsc m))
    (length_le_bytes 8 (in_server_push m)) (length_le_bytes 8 (in_order_id m))
    (length_le_bytes 4 (in_client_id m)) (length_le_bytes 4 (in_price m)) (length_le_bytes 4 (in_quantity m)))
    as (E1 & E2 & E3 & E4 & E5 & E6 & E7 & E8).
  unfold inbound_of_bytes, inbound_bytes, byte_at. rewrite E1, E2, E3, E4, E5, E6, E7, !E8 by lia.
  rewrite !le_value_8, !le_value_4 by done. simpl. rewrite <- H8, <- H9, <- H10. by destruct m.
Qed.

Lemma length_inbound_bytes m pad : length (inbound_bytes m pad) = (47 + length pad)%nat.
Proof. unfold inbound_bytes. rewrite !length_app, !length_le_bytes. simpl. lia. Qed.

(** * Properties *)

(** C25. Response frames round trip.  Every outbound message fits the 32-byte frame,
    padding included, and the client reads back what the server put in: the header,
    the kind, and for MATCH and OK frames the client id and the order id at the
    offsets where the client looks; an ERROR frame carries the error string closed
    by a newline. *)
Theorem response_roundtrip msg : is_u32 (out_client_id msg) -> is_u64 (out_order_id msg) ->
  exists frame, response_frame msg = Ok frame /\ length frame = OUTBOUND_BSIZE /\
    frame_has_header frame = true /\
    if decide (out_message_type msg = MATCH) then
      frame_type frame = char_M /\ match_client_id frame = out_client_id msg /\
      match_order_id frame = out_order_id msg
    else if decide (out_server_error msg = NONE) then
      frame_type frame = char_O /\ ack_client_id frame = out_client_id msg /\
      ack_order_id frame = out_order_id msg
    else
      let err := server_error_string (out_server_error msg) in
      frame_type frame = char_E /\ slice 15 (S (length err)) frame = err ++ [newline].
Proof.
  intros Hc Ho. destruct (response_frame_shape msg) as (body & rest & Hf & Hlen & Hbody).
  exists (body ++ replicate rest 0). split; [exact Hf|]. split; [exact Hlen|]. subst body. clear Hf Hlen.
  case_decide; [|case_decide]; rewrite <- !app_assoc.
  - split; [by apply bool_decide_eq_true|]. split; [done|].
    unfold match_client_id, match_order_id. split.
    + rewrite (slice_at 15 4) by (done || apply length_le_bytes). by apply le_value_4.
    + rewrite app_assoc, (slice_at 19 8) by (rewrite ?length_app, ?length_le_bytes; done). by apply le_value_8.
  - split; [by apply bool_decide_eq_true|]. split; [done|].
    unfold ack_client_id, ack_order_id. split.
    + rewrite (slice_at 12 4) by (done || apply length_le_bytes). by apply le_value_4.
    + rewrite app_assoc, (slice_at 16 8) by (rewrite ?length_app, ?length_le_bytes; done). by apply le_value_8.
  - split; [by apply bool_decide_eq_true|]. cbv zeta. split; [done|].
    rewrite (app_assoc (server_error_string _)). apply slice_at; [done|]. rewrite length_app. simpl. lia.
Qed.

Definition sample_response : OutboundMessage := mkOutbound 0 0 0 0 0 1234567890123 77 MATCH SUCCESS NONE.

Lemma response_roundtrip_witness : exists frame, response_frame sample_response = Ok frame /\
  match_client_id frame = 77 /\ match_order_id frame = 1234567890123.
Proof.
  destruct (response_roundtrip sample_response) as (f & H1 & _ & _ & H2).
  - vm_compute. split; congruence.
  - vm_compute. split; congruence.
  - exists f. split; [exact H1|]. destruct H2 as (_ & H3 & H4). split; [exact H3|exact H4].
Defined.

(** The status of an acknowledgement never reaches the client: frames are built from
    the message type and the server error only, and the engine always leaves the
    server error at NONE, so a refused CANCEL or MODIFY (status FAILURE) is sent as
    the very same OK frame as an executed one. *)
Theorem failure_sent_as_ok t0 id cid mt : mt <> MATCH ->
  exists frame, response_frame (mkOutbound t0 0 0 0 0 id cid mt FAILURE NONE) = Ok frame /\
    response_frame (mkOutbound t0 0 0 0 0 id cid mt SUCCESS NONE) = Ok frame /\ frame_type frame = char_O.
Proof.
  intros Hm. destruct (response_frame_shape (mkOutbound t0 0 0 0 0 id cid mt FAILURE NONE)) as (body & rest & Hf & _ & Hb).
  exists (body ++ replicate rest 0). split; [exact Hf|]. split; [exact Hf|]. subst body. simpl.
  rewrite decide_False by done. done.
Qed.

Lemma failure_sent_as_ok_witness : exists frame,
  response_frame (mkOutbound 0 0 0 0 0 3 7 CANCEL FAILURE NONE) = Ok frame /\ frame_type frame = char_O.
Proof.
  destruct (failure_sent_as_ok 0 3 7 CANCEL ltac:(discriminate)) as (f & H1 & _ & H2).
  exists f. split; [exact H1|exact H2].
Defined.

(** Framing a message never fails, and the frame parses back. *)
Lemma frame_message_ok m pad dst : length pad = 9%nat -> length dst = INBOUND_BSIZE ->
  exists frame, frame_message m pad dst = Ok frame /\ length frame = INBOUND_BSIZE /\
                (message_ranges m -> parse_request frame = Some m).
Proof.
  intros Hp Hd. assert (Hb : length (inbound_bytes m pad) = 56%nat) by (by rewrite length_inbound_bytes, Hp).
  unfold frame_message. change (memcpy 0 HEADER dst) with (memcpy (length (@nil Z)) HEADER ([] ++ dst)).
  rewrite memcpy_after by (rewrite Hd; vm_compute; lia).
  cbn [mbind res_bind]. change ([] ++ HEADER) with HEADER.
  rewrite memcpy_after by (rewrite length_drop, Hd, Hb; vm_compute; lia). cbn [mbind res_bind].
  change (length HEADER + 56)%nat with (9 + 56)%nat. rewrite <- Hb.
  change 9%nat with (length HEADER) at 1. rewrite <- length_app.
  rewrite memcpy_after by (rewrite !length_drop, Hd, Hb; vm_compute; lia).
  rewrite <- !app_assoc. eexists. split; [done|]. split.
  - rewrite !length_app, !length_drop, Hd, Hb. done.
  - intros Hm. unfold parse_request. rewrite slice_prefix_app by done. rewrite decide_True by done.
    f_equal. rewrite (slice_at 9 56) by (done || exact Hb). by apply inbound_bytes_round.
Qed.

(** C26. Request frames round trip: the server reads back every field of the message the
    client framed, whatever the padding bytes and the previous contents of the
    client's frame buffer are. *)
Theorem request_roundtrip m pad dst : message_ranges m -> length pad = 9%nat -> length dst = INBOUND_BSIZE ->
  exists frame, frame_message m pad dst = Ok frame /\ length frame = INBOUND_BSIZE /\
                parse_request frame = Some m.
Proof.
  intros Hm Hp Hd. destruct (frame_message_ok m pad dst Hp Hd) as (frame & H1 & H2 & H3).
  exists frame. split; [exact H1|]. split; [exact H2|by apply H3].
Qed.

Lemma request_roundtrip_witness :
  let m := mkInbound 1 2 3 4 5 100 6 MODIFY ASK LIMIT in
  exists frame, frame_message m (replicate 9 0) (replicate 72 255) = Ok frame /\ parse_request frame = Some m.
Proof.
  destruct (request_roundtrip (mkInbound 1 2 3 4 5 100 6 MODIFY ASK LIMIT) (replicate 9 0) (replicate 72 255)) as (f & H1 & _ & H2).
  - repeat split; vm_compute; congruence.
  - reflexivity.
  - reflexivity.
  - exists f. split; [exact H1|exact H2].
Defined.
(** ** What the bytes of a frame can hold *)

Lemma le_value_range l : Forall is_u8 l -> 0 <= le_value l < 2 ^ (8 * Z.of_nat (length l)).
Proof.
  induction 1 as [|b l Hb _ IH]; cbn [le_value length]; [lia|].
  replace (8 * Z.of_nat (S (length l))) with (8 + 8 * Z.of_nat (length l)) by lia.
  rewrite Z.pow_add_r by lia. unfold is_u8 in Hb. change (2 ^ 8) with 256 in *. lia.
Qed.

Lemma le_bytes_value l : Forall is_u8 l -> le_bytes (length l) (le_value l) = l.
Proof.
  induction 1 as [|b l Hb _ IH]; [done|]. cbn [le_value length le_bytes]. unfold is_u8 in Hb.
  change (2 ^ 8) with 256 in *. rewrite Z.mul_comm, Z.mod_add, Z.mod_small, Z.div_add, Z.div_small by lia. by rewrite Z.add_0_l, IH.
Qed.

Lemma Forall_slice {P : Z -> Prop} off n l : Forall P l -> Forall P (slice off n l).
Proof. intros H. by apply Forall_take, Forall_drop. Qed.

Lemma length_slice off n l : (off + n <= length l)%nat -> length (slice off n l) = n.
Proof. intros H. unfold slice. rewrite length_take, length_drop. lia. Qed.

Lemma slice_join off n k l : slice off (n + k) l = slice off n l ++ slice (off + n) k l.
Proof.
  unfold slice. rewrite <- drop_drop. generalize (drop off l). clear l. intros l. revert l.
  induction n as [|n IH]; intros [|x l]; cbn [take drop app Nat.add]; [done|done|by rewrite take_nil|by rewrite IH].
Qed.

Lemma byte_at_slice i l : (i < length l)%nat -> slice i 1 l = [byte_at i l].
Proof.
  intros H. unfold slice, byte_at. destruct (lookup_lt_is_Some_2 l i H) as [x E].
  rewrite E, (drop_S _ x) by done. done.
Qed.

Lemma Side_byte_of b : Side_byte (Side_of_byte b) = b.
Proof. unfold Side_of_byte. by repeat case_decide; subst. Qed.
Lemma OrderType_byte_of b : OrderType_byte (OrderType_of_byte b) = b.
Proof. unfold OrderType_of_byte. by repeat case_decide; subst. Qed.
Lemma MessageType_byte_of b : MessageType_byte (MessageType_of_byte b) = b.
Proof. unfold MessageType_of_byte. by repeat case_decide; subst. Qed.

Lemma field_range off n l : (off + n <= length l)%nat -> Forall is_u8 l ->
  0 <= le_value (slice off n l) < 2 ^ (8 * Z.of_nat n).
Proof. intros Hn H. pose proof (le_value_range _ (Forall_slice off n l H)) as B. by rewrite length_slice in B. Qed.

Lemma field_bytes off n l : (off + n <= length l)%nat -> Forall is_u8 l ->
  le_bytes n (le_value (slice off n l)) = slice off n l.
Proof. intros Hn H. rewrite <- (length_slice off n l Hn) at 1. by apply le_bytes_value, Forall_slice. Qed.

Lemma inbound_of_bytes_ranges l : length l = 56%nat -> Forall is_u8 l -> message_ranges (inbound_of_bytes l).
Proof.
  intros Hl H. unfold message_ranges, inbound_of_bytes. cbn. unfold is_u64, is_u32. split_and!.
  all: try (apply field_range; [rewrite Hl; lia|done]).
  - by rewrite Side_byte_of.
  - by rewrite OrderType_byte_of.
  - by rewrite MessageType_byte_of.
Qed.

Lemma inbound_bytes_of l : length l = 56%nat -> Forall is_u8 l -> inbound_bytes (inbound_of_bytes l) (slice 47 9 l) = l.
Proof.
  intros Hl H. unfold inbound_bytes, inbound_of_bytes. cbn [in_read_begin_tsc in_recv_tsc in_server_push in_order_id in_client_id
    in_price in_quantity in_message_type in_side in_order_type].
  rewrite Side_byte_of, OrderType_byte_of, MessageType_byte_of, !field_bytes by (rewrite ?Hl; done || lia).
  transitivity (slice 0 56 l); [|by apply firstn_all2; rewrite Hl].
  change 56%nat with (8 + (8 + (8 + (8 + (4 + (4 + (4 + (1 + (1 + (1 + 9))))))))))%nat at 1. rewrite !slice_join.
  rewrite !byte_at_slice by (rewrite Hl; lia). done.
Qed.

Lemma parse_ranges frame m : length frame = INBOUND_BSIZE -> Forall is_u8 frame -> parse_request frame = Some m ->
  message_ranges m.
Proof.
  intros Hl H Hp. unfold parse_request in Hp. destruct (decide (slice 0 9 frame = HEADER)); [|done]. injection Hp as <-.
  apply inbound_of_bytes_ranges, Forall_slice; [|done]. apply length_slice. rewrite Hl. unfold INBOUND_BSIZE. lia.
Qed.

(** C27. Whatever bytes a client sends, the message read from a frame is well typed: every
    field is in the range of its width, every enumeration value is one of its
    enumerators or the byte that is none, and no byte is lost: writing the message back,
    with the padding of the frame, gives the payload that was read. *)
Theorem parsed_message_typed frame m : length frame = INBOUND_BSIZE -> Forall is_u8 frame ->
  parse_request frame = Some m ->
  message_ranges m /\ inbound_bytes m (slice 56 9 frame) = slice 9 56 frame.
Proof.
  intros Hl H Hp. split; [by apply (parse_ranges frame)|]. unfold parse_request in Hp.
  destruct (decide (slice 0 9 frame = HEADER)); [|done]. injection Hp as <-.
  assert (H56 : length (slice 9 56 frame) = 56%nat) by (apply length_slice; rewrite Hl; unfold INBOUND_BSIZE; lia).
  rewrite <- (inbound_bytes_of (slice 9 56 frame) H56 (Forall_slice 9 56 frame H)) at 2. f_equal.
  unfold slice. rewrite skipn_firstn_comm, drop_drop, firstn_firstn. done.
Qed.

(** A frame with a side and an order type that are no enumerators. *)
Definition odd_frame : list Z := HEADER ++ replicate 44 255 ++ [1; 7; 200] ++ replicate 16 0.

Lemma parsed_message_typed_witness : exists m, parse_request odd_frame = Some m /\ message_ranges m /\
  in_side m = Side_other 7 /\ in_price m = 2 ^ 32 - 1.
Proof.
  eexists. split; [reflexivity|]. split; [|split; vm_compute; reflexivity].
  apply (parsed_message_typed odd_frame); [reflexivity| |reflexivity].
  let l := eval vm_compute in odd_frame in change odd_frame with l.
  repeat (apply Forall_cons_2; [unfold is_u8; lia|]). apply Forall_nil_2.
Defined.
