(* ===== verification/Buffer.v ===== *)
(** The fixed-capacity byte buffer ([infra/buffer.hpp]), for any capacity [N]: the
    read path (receive, view, advance, compaction) and the write path (append,
    send, reset).

    [recv] and [send] are system calls: each operation that makes one takes its
    answer as an argument.  [pending] is what a buffer holds for its reader,
    [unsent] what it holds for the socket; the lemmas show that no operation loses,
    repeats or reorders a byte of them. *)

From S2P Require Import Prelude Types Protocol.

Local Open Scope Z_scope.

(** * System calls *)

Inductive errno : Set := EAGAIN | ECONNRESET | errno_other (e : Z).

#[export] Instance errno_eq_dec : EqDecision errno.
Proof. solve_decision. Defined.

(** What [recv] answers: bytes (at least one), the end of the stream, an error. *)
Inductive recv_result : Set :=
  | Received (first : Z) (rest : list Z)
  | Closed
  | RecvError (e : errno).

(** What [send] answers: a number of bytes taken, or an error. *)
Inductive send_result : Set :=
  | Sent (n : nat)
  | SendError (e : errno).

(** * State and operations *)

Record Buffer : Set := mkBuffer {
  data_ : list Z;
  len_ : nat;
  bytes_written_ : nat;
  read_off_ : nat
}.

Definition buffer_init (N : nat) : Buffer := mkBuffer (replicate N 0) 0 0 0.

Definition capacity (b : Buffer) : nat := length (data_ b).
Definition buf_length (b : Buffer) : nat := len_ b - read_off_ b.
Definition remaining_capacity (b : Buffer) : nat := capacity b - len_ b.
Definition buf_view (b : Buffer) : list Z := slice (read_off_ b) (len_ b - read_off_ b) (data_ b).

(** The compaction at the start of [read_from]. *)
Definition compact (b : Buffer) : Buffer :=
  if decide (0 < read_off_ b /\ len_ b = capacity b)%nat then
    let remaining := (len_ b - read_off_ b)%nat in
    let moved := slice (read_off_ b) remaining (data_ b) in
    mkBuffer (moved ++ drop remaining (data_ b)) remaining (bytes_written_ b) 0
  else b.

(** [read_from(fd)] when [recv] answers [r]: the answer's sign and the new buffer.  The
    kernel is asked for at most the free bytes; a longer answer would be a write
    past the array. *)
Definition read_from (r : recv_result) (b : Buffer) : res (Z * Buffer) :=
  let b := compact b in
  match r with
  | Received x l =>
      data ← memcpy (len_ b) (x :: l) (data_ b);
      Ok (Z.of_nat (length (x :: l)),
          mkBuffer data (len_ b + length (x :: l)) (bytes_written_ b) (read_off_ b))
  | Closed => Ok (0, b)
  | RecvError _ => Ok (-1, b)
  end.

Definition advance (n : nat) (b : Buffer) : Buffer :=
  let off := (read_off_ b + n)%nat in
  if decide (len_ b <= off)%nat then mkBuffer (data_ b) 0 (bytes_written_ b) 0
  else mkBuffer (data_ b) (len_ b) (bytes_written_ b) off.

Definition remaining_to_send (b : Buffer) : nat := len_ b - bytes_written_ b.
Definition has_room (n : nat) (b : Buffer) : bool := bool_decide (len_ b + n <= capacity b)%nat.

Definition append (src : list Z) (b : Buffer) : bool * Buffer :=
  if has_room (length src) b then
    (true, mkBuffer (take (len_ b) (data_ b) ++ src ++ drop (len_ b + length src) (data_ b))
                    (len_ b + length src) (bytes_written_ b) (read_off_ b))
  else (false, b).

(** [write_to(fd)] when [send] answers [r]. *)
Definition write_to (r : send_result) (b : Buffer) : Z * Buffer :=
  match r with
  | Sent n => (Z.of_nat n, mkBuffer (data_ b) (len_ b) (bytes_written_ b + n) (read_off_ b))
  | SendError _ => (-1, b)
  end.

Definition try_reset (b : Buffer) : Buffer :=
  if decide (bytes_written_ b = len_ b) then mkBuffer (data_ b) 0 0 (read_off_ b) else b.

Definition clear (b : Buffer) : Buffer := mkBuffer (data_ b) 0 0 0.

(** * Invariant and contents *)

Record buffer_ok (b : Buffer) : Prop := {
  buf_len : (len_ b <= capacity b)%nat;
  buf_read : (read_off_ b <= len_ b)%nat;
  buf_sent : (bytes_written_ b <= len_ b)%nat
}.

Definition pending (b : Buffer) : list Z := buf_view b.
Definition unsent (b : Buffer) : list Z := slice (bytes_written_ b) (len_ b - bytes_written_ b) (data_ b).

(** The answer of [recv] fits what it was asked for. *)
Definition recv_fits (r : recv_result) (b : Buffer) : Prop :=
  match r with Received x l => (S (length l) <= remaining_capacity (compact b))%nat | _ => True end.
Definition send_fits (r : send_result) (b : Buffer) : Prop :=
  match r with Sent n => (n <= remaining_to_send b)%nat | _ => True end.
Definition sent_count (r : send_result) : nat := match r with Sent n => n | SendError _ => 0 end.
Definition received (r : recv_result) : list Z := match r with Received x l => x :: l | _ => [] end.

(** * Lemmas *)

Lemma length_pending b : buffer_ok b -> length (pending b) = buf_length b.
Proof. intros [H1 H2 H3]. unfold pending, buf_view, buf_length. apply length_slice. unfold capacity in *. lia. Qed.

Lemma length_unsent b : buffer_ok b -> length (unsent b) = remaining_to_send b.
Proof.
  intros [H1 H2 H3]. unfold unsent, remaining_to_send. apply length_slice. unfold capacity in *. lia.
Qed.

Lemma slice_extend off n src (l rest : list Z) : (off + n = length l)%nat ->
  slice off (n + length src) (l ++ src ++ rest) = slice off n l ++ src.
Proof.
  intros H. unfold slice. rewrite drop_app_le by lia.
  rewrite take_app_ge by (rewrite length_drop; lia). rewrite length_drop.
  replace (n + length src - (length l - off))%nat with (length src) by lia.
  rewrite take_app_length, (take_ge (drop off l)) by (rewrite length_drop; lia). done.
Qed.

Lemma slice_take off n m (l : list Z) : (off + n <= m)%nat -> slice off n (take m l) = slice off n l.
Proof. intros H. unfold slice. rewrite skipn_firstn_comm, take_take. f_equal. lia. Qed.

(** Overwriting from the length on extends what is stored. *)
Lemma slice_overwrite off len src (l : list Z) : (off <= len)%nat -> (len + length src <= length l)%nat ->
  slice off (len + length src - off) (take len l ++ src ++ drop (len + length src) l) =
  slice off (len - off) l ++ src.
Proof.
  intros H1 H2. replace (len + length src - off)%nat with ((len - off) + length src)%nat by lia.
  rewrite slice_extend by (rewrite length_take; lia). by rewrite slice_take by lia.
Qed.

Lemma compact_ok b : buffer_ok b -> buffer_ok (compact b) \/ ~ (bytes_written_ b = 0)%nat.
Proof.
  intros [H1 H2 H3]. unfold compact. case_decide as Hd; [|left; by constructor].
  destruct (decide (bytes_written_ b = 0%nat)) as [E|]; [left|by right].
  unfold capacity in *. constructor; unfold capacity; simpl; [|lia|lia].
  rewrite length_app, length_slice, length_drop by lia. lia.
Qed.

Lemma compact_pending b : buffer_ok b -> pending (compact b) = pending b.
Proof.
  intros [H1 H2 H3]. unfold compact. case_decide as Hd; [|done]. unfold pending, buf_view, capacity in *. simpl.
  rewrite Nat.sub_0_r. apply (slice_at 0 _ [] _ _ eq_refl). apply length_slice. lia.
Qed.

Lemma compact_capacity b : buffer_ok b -> capacity (compact b) = capacity b.
Proof.
  intros [H1 H2 H3]. unfold compact. case_decide as Hd; [|done]. unfold capacity in *. simpl.
  rewrite length_app, length_slice, length_drop by lia. lia.
Qed.

(** [read_from] never overruns, and appends what the kernel delivered. *)
Lemma read_from_ok r b : buffer_ok b -> bytes_written_ b = 0%nat -> recv_fits r b ->
  exists n b', read_from r b = Ok (n, b') /\ buffer_ok b' /\ capacity b' = capacity b /\
    bytes_written_ b' = 0%nat /\ pending b' = pending b ++ received r /\
    match r with Received x l => n = Z.of_nat (length (x :: l)) | Closed => n = 0 | RecvError _ => n = -1 end /\
    ((0 < remaining_capacity b)%nat ->
     len_ b' = (len_ b + length (received r))%nat /\ read_off_ b' = read_off_ b).
Proof.
  intros Hok Hw Hfit. pose proof (compact_pending b Hok) as Hp. pose proof (compact_capacity b Hok) as Hcap.
  destruct (compact_ok b Hok) as [[H1 H2 H3]|]; [|done].
  assert (bytes_written_ (compact b) = 0%nat) as Hw' by (unfold compact; by case_decide).
  assert (Hno : (0 < remaining_capacity b)%nat -> compact b = b).
  { unfold remaining_capacity, compact. intros H. rewrite decide_False; [done|lia]. }
  unfold recv_fits in Hfit. unfold read_from. set (c := compact b) in *. clearbody c. cbv zeta. destruct r as [x l| |e].
  - unfold remaining_capacity, capacity in *.
    rewrite memcpy_ok by (cbn [length]; lia).
    cbn [mbind res_bind]. eexists _, _. split; [done|].
    assert (Hlen : length (take (len_ c) (data_ c) ++ (x :: l) ++ drop (len_ c + length (x :: l)) (data_ c)) = length (data_ b)).
    { rewrite !length_app, length_take, length_drop. cbn [length]. lia. }
    split_and!; [|exact Hlen|done| |done|intros H; by rewrite (Hno H)].
    + constructor; unfold capacity; cbn [len_ data_ read_off_ bytes_written_]; rewrite ?Hlen; cbn [length]; lia.
    + rewrite <- Hp. unfold pending, buf_view. cbn [data_ len_ read_off_ received].
      apply slice_overwrite; [done|]. cbn [length]. lia.
  - eexists _, _. split; [done|]. split_and!; try done; [by rewrite app_nil_r|].
    intros H. rewrite (Hno H). simpl. lia.
  - eexists _, _. split; [done|]. split_and!; try done; [by rewrite app_nil_r|].
    intros H. rewrite (Hno H). simpl. lia.
Qed.

Lemma advance_ok n b : buffer_ok b -> (n <= buf_length b)%nat -> bytes_written_ b = 0%nat ->
  buffer_ok (advance n b) /\ capacity (advance n b) = capacity b /\ bytes_written_ (advance n b) = 0%nat /\
  pending (advance n b) = drop n (pending b).
Proof.
  intros [H1 H2 H3] Hn Hw. unfold advance, buf_length in *. case_decide as Hd.
  - split_and!; [constructor; simpl; lia|done|done|].
    unfold pending, buf_view, slice. simpl. symmetry. apply drop_ge.
    rewrite length_take, length_drop. lia.
  - split_and!; [constructor; unfold capacity in *; simpl; lia|done|done|].
    unfold pending, buf_view, slice. simpl.
    rewrite skipn_firstn_comm, drop_drop. f_equal. lia.
Qed.

Lemma append_ok src b : buffer_ok b -> has_room (length src) b = true ->
  exists b', append src b = (true, b') /\ buffer_ok b' /\ capacity b' = capacity b /\
    len_ b' = (len_ b + length src)%nat /\ bytes_written_ b' = bytes_written_ b /\
    unsent b' = unsent b ++ src.
Proof.
  intros [H1 H2 H3] Hroom. unfold append. rewrite Hroom. unfold has_room in Hroom.
  apply bool_decide_eq_true in Hroom. eexists. split; [done|].
  assert (Hlen : length (take (len_ b) (data_ b) ++ src ++ drop (len_ b + length src) (data_ b)) = capacity b).
  { rewrite !length_app, length_take, length_drop. unfold capacity in *. lia. }
  split_and!; [|exact Hlen|done|done|].
  - constructor; unfold capacity; cbn [len_ data_ read_off_ bytes_written_]; [rewrite Hlen|..]; lia.
  - unfold unsent. cbn [data_ len_ bytes_written_]. by apply slice_overwrite.
Qed.

Lemma write_to_ok r b : buffer_ok b -> send_fits r b ->
  let b' := (write_to r b).2 in
  buffer_ok b' /\ capacity b' = capacity b /\ len_ b' = len_ b /\
  unsent b = take (match r with Sent n => n | _ => 0 end) (unsent b) ++ unsent b'.
Proof.
  intros [H1 H2 H3] Hfit. destruct r as [n|e]; simpl.
  - unfold send_fits, remaining_to_send in Hfit. split_and!; [constructor; unfold capacity in *; simpl; lia|done|done|].
    unfold unsent. simpl. rewrite <- (take_drop n (slice _ _ _)) at 1. f_equal.
    unfold slice. rewrite skipn_firstn_comm, drop_drop. f_equal. lia.
  - split_and!; [by constructor|done|done|done].
Qed.

Lemma try_reset_ok b : buffer_ok b -> read_off_ b = 0%nat ->
  buffer_ok (try_reset b) /\ unsent (try_reset b) = unsent b /\ capacity (try_reset b) = capacity b.
Proof.
  intros [H1 H2 H3] Hr. unfold try_reset. case_decide as Hd; [|by split_and!; [constructor|..]].
  split_and!; [constructor; simpl; lia| |done].
  unfold unsent, slice. simpl. by rewrite Hd, Nat.sub_diag.
Qed.
