(* ===== verification/ServerState.v ===== *)
(** The state of the gateway ([exchange/server/include/server.hpp],
    [connection_info.hpp], [latency.hpp]): the two halves of each connection, the
    routing map, the close flags, the rings, and what the operations ask of the
    operating system.

    The system calls are parameters of the model: [Kernel] holds the answers that
    are still to come ([recv], [send], [accept], [__rdtsc]), in order, and records
    what the program told the kernel (the bytes [send] took, the epoll sets, the closed descriptors).  A
    [recv] or [send] with no answer left answers EAGAIN.  [errno] is a field that only
    failing calls write, as in C. *)

From S2P Require Import Prelude Types Ring Protocol Buffer.

Local Open Scope Z_scope.

(** * Connections *)

Record PendingError : Set := mkPendingError { pe_fd : Z; pe_err : ServerError }.
#[export] Instance PendingError_inhabited : Inhabited PendingError := populate (mkPendingError 0 NONE).

(** The samples of the build with [DIAGNOSTICS] 0: first and last time stamp. *)
Record PendingLatency : Set := mkPendingLatency { pl_read_begin_tsc : Z; pl_record : bool }.
Record LatencySample : Set := mkSample { t0 : Z; t7 : Z }.
Definition LATENCY_SAMPLE_DROP : Z := 100000.
Definition LATENCY_SAMPLE_COUNT : Z := 100000000 + LATENCY_SAMPLE_DROP.

(** [LatencyHandler::push_sample]. *)
Definition push_sample (x : LatencySample) (l : list LatencySample) : list LatencySample :=
  if Z.of_nat (length l) <? LATENCY_SAMPLE_COUNT then l ++ [x] else l.

Definition READ_BUFFER : nat := 32 * INBOUND_BSIZE.
Definition WRITE_BUFFER : nat := 32 * OUTBOUND_BSIZE.

Record InboundState : Type := mkInboundState {
  is_fd : Z;
  read_buf_ : Buffer;
  inbound_ : InboundMessage;
  read_begin_tsc_ : Z
}.

Definition inbound_state_init (fd : Z) : InboundState :=
  mkInboundState fd (buffer_init READ_BUFFER) inhabitant 0.
Definition set_read_buf (b : Buffer) (i : InboundState) : InboundState :=
  mkInboundState (is_fd i) b (inbound_ i) (read_begin_tsc_ i).
Definition set_inbound (m : InboundMessage) (i : InboundState) : InboundState :=
  mkInboundState (is_fd i) (read_buf_ i) m (read_begin_tsc_ i).
Definition set_read_begin_tsc (t : Z) (i : InboundState) : InboundState :=
  mkInboundState (is_fd i) (read_buf_ i) (inbound_ i) t.
Definition is_client_id (i : InboundState) : Z := in_client_id (inbound_ i).

Record OutboundState : Type := mkOutboundState {
  write_buf_ : Buffer;
  staging_ : RingBuffer OutboundMessage;
  latency_batch_ : list PendingLatency
}.

Definition outbound_state_init : OutboundState :=
  mkOutboundState (buffer_init WRITE_BUFFER) (ring_init RINGBUF_SIZE) [].

Definition push_outbound (m : OutboundMessage) (o : OutboundState) : OutboundState :=
  mkOutboundState (write_buf_ o) (ring_push m (staging_ o)).2 (latency_batch_ o).
(** [pop_outbound]: the default message when the staging ring is empty. *)
Definition pop_outbound (o : OutboundState) : OutboundMessage * OutboundState :=
  let '(m, r) := ring_pop (staging_ o) in
  (default inhabitant m, mkOutboundState (write_buf_ o) r (latency_batch_ o)).
Definition has_pending_outbound (o : OutboundState) : bool := negb (ring_empty (staging_ o)).
(** [latency_batch_] is an array of [PIPELINE_DEPTH] entries: the list holds the used
    ones. *)
Definition push_latency (e : PendingLatency) (o : OutboundState) : OutboundState :=
  if Z.of_nat (length (latency_batch_ o)) <? PIPELINE_DEPTH
  then mkOutboundState (write_buf_ o) (staging_ o) (latency_batch_ o ++ [e]) else o.
Definition clear_latency_batch (o : OutboundState) : OutboundState :=
  mkOutboundState (write_buf_ o) (staging_ o) [].
Definition set_write_buf (b : Buffer) (o : OutboundState) : OutboundState :=
  mkOutboundState b (staging_ o) (latency_batch_ o).

(** * Server *)

(** One answer of [accept]: the descriptor, whether both [fcntl] calls succeed on it,
    and whether [epoll_ctl] does. *)
Record Accepted : Set := mkAccepted { acc_fd : Z; acc_nonblock : bool; acc_epoll : bool }.

(** [errno_] stands for the [errno] of the thread that runs; each thread reads its own only
    after a call of its own has failed, and the theorems hold for any value it may have
    before. *)
Record Kernel : Type := mkKernel {
  recvs : gmap Z (list recv_result);
  sends : gmap Z (list send_result);
  accepts : list Accepted;
  errno_ : errno;
  clock : list Z;
  out_ctls : list bool;
  epoll_in_ : gset Z;
  epoll_out_ : gset Z;
  closed : list Z;
  taken : gmap Z (list Z)
}.

Record Server : Type := mkServer {
  inbound_map_ : gmap Z InboundState;
  outbound_map_ : gmap Z OutboundState;
  client_map_ : gmap Z Z;
  condemned_inbound_ : gset Z;
  condemned_outbound_ : gset Z;
  to_engine : InboundRing;
  from_engine : OutboundRing;
  error_channel_ : RingBuffer PendingError;
  writable_fds_ : list Z;
  epollout_armed_ : gset Z;
  latency_ : list LatencySample;
  os : Kernel
}.

Definition set_inbound_map (x : gmap Z InboundState) (s : Server) : Server :=
  mkServer x (outbound_map_ s) (client_map_ s) (condemned_inbound_ s) (condemned_outbound_ s)
           (to_engine s) (from_engine s) (error_channel_ s) (writable_fds_ s)
           (epollout_armed_ s) (latency_ s) (os s).
Definition set_outbound_map (x : gmap Z OutboundState) (s : Server) : Server :=
  mkServer (inbound_map_ s) x (client_map_ s) (condemned_inbound_ s) (condemned_outbound_ s)
           (to_engine s) (from_engine s) (error_channel_ s) (writable_fds_ s)
           (epollout_armed_ s) (latency_ s) (os s).
Definition set_client_map (x : gmap Z Z) (s : Server) : Server :=
  mkServer (inbound_map_ s) (outbound_map_ s) x (condemned_inbound_ s) (condemned_outbound_ s)
           (to_engine s) (from_engine s) (error_channel_ s) (writable_fds_ s)
           (epollout_armed_ s) (latency_ s) (os s).
Definition set_condemned_inbound (x : gset Z) (s : Server) : Server :=
  mkServer (inbound_map_ s) (outbound_map_ s) (client_map_ s) x (condemned_outbound_ s) (to_engine
           s) (from_engine s) (error_channel_ s) (writable_fds_ s) (epollout_armed_ s)
           (latency_ s) (os s).
Definition set_condemned_outbound (x : gset Z) (s : Server) : Server :=
  mkServer (inbound_map_ s) (outbound_map_ s) (client_map_ s) (condemned_inbound_ s) x (to_engine
           s) (from_engine s) (error_channel_ s) (writable_fds_ s) (epollout_armed_ s)
           (latency_ s) (os s).
Definition set_to_engine (x : InboundRing) (s : Server) : Server :=
  mkServer (inbound_map_ s) (outbound_map_ s) (client_map_ s) (condemned_inbound_ s)
           (condemned_outbound_ s) x (from_engine s) (error_channel_ s) (writable_fds_
           s) (epollout_armed_ s) (latency_ s) (os s).
Definition set_from_engine (x : OutboundRing) (s : Server) : Server :=
  mkServer (inbound_map_ s) (outbound_map_ s) (client_map_ s) (condemned_inbound_ s)
           (condemned_outbound_ s) (to_engine s) x (error_channel_ s) (writable_fds_ s)
           (epollout_armed_ s) (latency_ s) (os s).
Definition set_error_channel (x : RingBuffer PendingError) (s : Server) : Server :=
  mkServer (inbound_map_ s) (outbound_map_ s) (client_map_ s) (condemned_inbound_ s)
           (condemned_outbound_ s) (to_engine s) (from_engine s) x (writable_fds_ s)
           (epollout_armed_ s) (latency_ s) (os s).
Definition set_writable (x : list Z) (s : Server) : Server :=
  mkServer (inbound_map_ s) (outbound_map_ s) (client_map_ s) (condemned_inbound_ s)
           (condemned_outbound_ s) (to_engine s) (from_engine s) (error_channel_ s) x
           (epollout_armed_ s) (latency_ s) (os s).
Definition set_armed (x : gset Z) (s : Server) : Server :=
  mkServer (inbound_map_ s) (outbound_map_ s) (client_map_ s) (condemned_inbound_ s)
           (condemned_outbound_ s) (to_engine s) (from_engine s) (error_channel_ s)
           (writable_fds_ s) x (latency_ s) (os s).
Definition set_latency (x : list LatencySample) (s : Server) : Server :=
  mkServer (inbound_map_ s) (outbound_map_ s) (client_map_ s) (condemned_inbound_ s)
           (condemned_outbound_ s) (to_engine s) (from_engine s) (error_channel_ s)
           (writable_fds_ s) (epollout_armed_ s) x (os s).
Definition set_os (x : Kernel) (s : Server) : Server :=
  mkServer (inbound_map_ s) (outbound_map_ s) (client_map_ s) (condemned_inbound_ s)
           (condemned_outbound_ s) (to_engine s) (from_engine s) (error_channel_ s)
           (writable_fds_ s) (epollout_armed_ s) (latency_ s) x.

Definition ERROR_CHANNEL_SIZE : Z := MAX_CLIENTS * PIPELINE_DEPTH.

(** The constructor: the two rings are the engine's. *)
Definition server_init (in_ring : InboundRing) (out_ring : OutboundRing) (k : Kernel) : Server :=
  mkServer ∅ ∅ ∅ ∅ ∅ in_ring out_ring (ring_init ERROR_CHANNEL_SIZE) [] ∅ [] k.

Definition SM (A : Type) : Type := M Server A.

(** The arrays indexed by descriptor have [MAX_CLIENTS + 10] entries. *)
Definition FD_SLOTS : Z := MAX_CLIENTS + 10.
Definition check_fd (fd : Z) : SM unit :=
  if (0 <=? fd) && (fd <? FD_SLOTS) then mret tt else fail OutOfBounds.

(** * System calls *)

Definition with_kernel (f : Kernel -> Kernel) : SM unit := modify (fun s => set_os (f (os s)) s).

Definition sys_rdtsc : SM Z :=
  s ← get;
  let k := os s in
  modify (set_os (mkKernel (recvs k) (sends k) (accepts k) (errno_ k) (tail (clock k)) (out_ctls k) (epoll_in_ k)
                           (epoll_out_ k) (closed k) (taken k)));;
  mret (default 0 (head (clock k))).

(** [recv] of at most [n] bytes: the first answer, or as much of it as was asked for. *)
Definition recv_answer (n : nat) (answers : list recv_result) : recv_result * list recv_result :=
  match answers with
  | [] => (RecvError EAGAIN, [])
  | Received x l :: rest =>
      match n with
      | O => (Closed, answers)
      | S n' => (Received x (take n' l),
                 match drop n' l with y :: l' => Received y l' :: rest | [] => rest end)
      end
  | r :: rest => (r, rest)
  end.

Definition sys_recv (fd : Z) (n : nat) : SM recv_result :=
  s ← get;
  let k := os s in
  let '(r, rest) := recv_answer n (default [] (recvs k !! fd)) in
  let e := match r with RecvError e => e | _ => errno_ k end in
  modify (set_os (mkKernel (<[fd := rest]> (recvs k)) (sends k) (accepts k) e (clock k)
                           (out_ctls k) (epoll_in_ k) (epoll_out_ k) (closed k) (taken k)));;
  mret r.

(** [send] of [bytes]: the kernel takes some prefix of them and records it. *)
Definition bytes_of (fd : Z) (k : Kernel) : list Z := default [] (taken k !! fd).
Definition sys_send (fd : Z) (bytes : list Z) : SM send_result :=
  s ← get;
  let k := os s in
  let answers := default [] (sends k !! fd) in
  let r := match head answers with
           | None => SendError EAGAIN
           | Some (Sent m) => Sent (min m (length bytes))
           | Some (SendError e) => SendError e
           end in
  let e := match r with SendError e => e | _ => errno_ k end in
  let n := match r with Sent n => n | SendError _ => 0%nat end in
  modify (set_os (mkKernel (recvs k) (<[fd := tail answers]> (sends k)) (accepts k) e (clock k)
                           (out_ctls k) (epoll_in_ k) (epoll_out_ k) (closed k)
                           (<[fd := bytes_of fd k ++ take n bytes]> (taken k))));;
  mret r.

(** [close] also takes the descriptor out of every epoll set. *)
Definition sys_close (fd : Z) : SM unit :=
  with_kernel (fun k => mkKernel (recvs k) (sends k) (accepts k) (errno_ k) (clock k) (out_ctls k) (epoll_in_ k ∖ {[fd]})
                                 (epoll_out_ k ∖ {[fd]}) (fd :: closed k) (taken k)).
Definition epoll_in_set (f : gset Z -> gset Z) : SM unit :=
  with_kernel (fun k => mkKernel (recvs k) (sends k) (accepts k) (errno_ k) (clock k) (out_ctls k) (f (epoll_in_ k))
                                 (epoll_out_ k) (closed k) (taken k)).
Definition epoll_out_set (f : gset Z -> gset Z) : SM unit :=
  with_kernel (fun k => mkKernel (recvs k) (sends k) (accepts k) (errno_ k) (clock k) (out_ctls k) (epoll_in_ k)
                                 (f (epoll_out_ k)) (closed k) (taken k)).
(** [epoll_ctl(epoll_out_, ADD, fd)]: it fails on a descriptor that is in the set, and when
    the kernel answers so ([out_ctls]: memory or watches are exhausted). *)
Definition sys_add_out (fd : Z) : SM bool :=
  s ← get;
  let k := os s in
  let ok := default true (head (out_ctls k)) && negb (bool_decide (fd ∈ epoll_out_ k)) in
  modify (set_os (mkKernel (recvs k) (sends k) (accepts k) (errno_ k) (clock k) (tail (out_ctls k)) (epoll_in_ k)
                           (if ok then {[fd]} ∪ epoll_out_ k else epoll_out_ k) (closed k) (taken k)));;
  mret ok.
Definition sys_errno : SM errno := gets (fun s => errno_ (os s)).

(** * Connection state and flags *)

Definition get_istate (fd : Z) : SM InboundState :=
  s ← get; match inbound_map_ s !! fd with Some i => mret i | None => fail BadPointer end.
Definition put_istate (fd : Z) (i : InboundState) : SM unit :=
  modify (fun s => set_inbound_map (<[fd := i]> (inbound_map_ s)) s).
Definition get_ostate (fd : Z) : SM OutboundState :=
  s ← get; match outbound_map_ s !! fd with Some o => mret o | None => fail BadPointer end.
Definition put_ostate (fd : Z) (o : OutboundState) : SM unit :=
  modify (fun s => set_outbound_map (<[fd := o]> (outbound_map_ s)) s).

Definition is_condemned_inbound (fd : Z) (s : Server) : bool := bool_decide (fd ∈ condemned_inbound_ s).
Definition is_condemned_outbound (fd : Z) (s : Server) : bool := bool_decide (fd ∈ condemned_outbound_ s).
Definition store_condemned_inbound (fd : Z) (v : bool) : SM unit :=
  modify (fun s => set_condemned_inbound (if v then {[fd]} ∪ condemned_inbound_ s
                                          else condemned_inbound_ s ∖ {[fd]}) s).
Definition store_condemned_outbound (fd : Z) (v : bool) : SM unit :=
  modify (fun s => set_condemned_outbound (if v then {[fd]} ∪ condemned_outbound_ s
                                           else condemned_outbound_ s ∖ {[fd]}) s).
Definition erase_writable (fd : Z) : SM unit :=
  modify (fun s => set_writable (filter (fun x => x <> fd) (writable_fds_ s)) s).
Definition insert_writable (fd : Z) : SM unit :=
  modify (fun s => set_writable (if decide (fd ∈ writable_fds_ s) then writable_fds_ s
                                 else fd :: writable_fds_ s) s).

(** Take the descriptor out of [epoll_out_] if it is armed. *)
Definition disarm (fd : Z) : SM unit :=
  s ← get;
  when (bool_decide (fd ∈ epollout_armed_ s))
    (epoll_out_set (fun e => e ∖ {[fd]});;
     modify (fun s => set_armed (epollout_armed_ s ∖ {[fd]}) s)).

Definition condemnConnection (fd : Z) (caller_inbound : bool) : SM unit :=
  check_fd fd;;
  if caller_inbound then
    epoll_in_set (fun e => e ∖ {[fd]});; store_condemned_inbound fd true
  else
    erase_writable fd;;
    disarm fd;;
    modify (fun s => set_outbound_map (delete fd (outbound_map_ s)) s);;
    store_condemned_outbound fd true.
