(* ===== verification/Latency.v ===== *)
(** The latency histogram ([exchange/server/include/latency.hpp]): the calibration of the
    time stamp counter, the samples, and what the destructor records of them.  The
    histogram itself is third-party (hdr_histogram): a parameter with one operation.

    [ticks_per_ns_] is a [double]; the model keeps the two differences it is the quotient
    of, so its rounding to 53 bits is not modelled. *)

From S2P Require Import Prelude Types ServerState.

Local Open Scope Z_scope.

(** * Calibration *)

(** [int64_t] and the conversion from [uint64_t]. *)
Definition s64 (z : Z) : Z := if decide (u64 z < 2 ^ 63) then u64 z else u64 z - 2 ^ 64.

(** [ticks_per_ns_]: [tsc2 - tsc1] and [wall2 - wall1]. *)
Record Calibration : Set := mkCalibration { cal_ticks : Z; cal_ns : Z }.

(** The constructor's two readings of each clock. *)
Definition calibrate (tsc1 wall1 tsc2 wall2 : Z) : Calibration := mkCalibration (u64 (tsc2 - tsc1)) (wall2 - wall1).

(** [static_cast<int64_t>(ticks_per_ns_)]. *)
Definition whole_ticks (c : Calibration) : Z := Z.quot (cal_ticks c) (cal_ns c).

Definition calc_latency (c : Calibration) (t1 t2 : Z) : res Z :=
  let diff := s64 (t2 - t1) in
  if whole_ticks c =? 0 then Err DivisionByZero else Ok (Z.quot diff (whole_ticks c)).

(** * The destructor *)

Section Histogram.
Context {H : Type} (hdr_record_value : H -> Z -> H) (hdr_init : H).

(** The loop over the samples from [LATENCY_SAMPLE_DROP] on: the histogram, or nothing when
    no sample was collected. *)
Definition record_sample (c : Calibration) (samples_ : list LatencySample) (i : nat) : M H (nat + unit) :=
  match samples_ !! i with
  | None => mret (inr tt)
  | Some s =>
      v ← of_res (calc_latency c (t0 s) (t7 s));
      modify (fun h => hdr_record_value h v);;
      mret (inl (S i))
  end.

Definition end_to_end (c : Calibration) (samples_ : list LatencySample) : res (option H) :=
  if decide (samples_ = []) then Ok None
  else match loop (S (length samples_ - Z.to_nat LATENCY_SAMPLE_DROP)) (record_sample c samples_) (Z.to_nat LATENCY_SAMPLE_DROP) hdr_init with
       | Ok (_, h) => Ok (Some h)
       | Err f => Err f
       end.

(** * Specification *)

(** The samples of a run: a hundred thousand are dropped, a hundred million kept. *)
Definition measured (l : list LatencySample) : list LatencySample :=
  take (Z.to_nat 100000000) (drop (Z.to_nat LATENCY_SAMPLE_DROP) l).

(** A sample whose two stamps are in order and less than 2^63 ticks apart. *)
Definition sample_ok (s : LatencySample) : Prop := 0 <= t7 s - t0 s < 2 ^ 63.

Definition reported (c : Calibration) (s : LatencySample) : Z := (t7 s - t0 s) / whole_ticks c.

Lemma s64_small z : 0 <= z < 2 ^ 63 -> s64 z = z.
Proof. intros Hz. unfold s64. rewrite u64_small by (unfold is_u64; lia). by rewrite decide_True by lia. Qed.

Lemma calc_latency_ok c s : 0 < whole_ticks c -> sample_ok s -> calc_latency c (t0 s) (t7 s) = Ok (reported c s).
Proof.
  intros Hc Hs. unfold calc_latency, sample_ok in *. rewrite s64_small by lia.
  destruct (Z.eqb_spec (whole_ticks c) 0); [lia|]. by rewrite Z.quot_div_nonneg by lia.
Qed.

Lemma pushed_samples l : foldl (fun kept s => push_sample s kept) [] l = take (Z.to_nat LATENCY_SAMPLE_COUNT) l.
Proof.
  unfold push_sample. assert (Hn : 0 <= LATENCY_SAMPLE_COUNT) by (vm_compute; discriminate).
  generalize dependent LATENCY_SAMPLE_COUNT. intros n Hn.
  induction l as [|x l IH] using rev_ind; [by rewrite take_nil|]. rewrite foldl_app. cbn [foldl]. rewrite IH, length_take.
  destruct (Z.ltb_spec (Z.of_nat (min (Z.to_nat n) (length l))) n).
  - rewrite !(take_ge _ (Z.to_nat n)) by (rewrite ?length_app; cbn [length]; lia). done.
  - by rewrite take_app_le by lia.
Qed.

Lemma record_loop c samples_ i h fuel : 0 < whole_ticks c -> Forall sample_ok samples_ -> (length samples_ - i < fuel)%nat ->
  loop fuel (record_sample c samples_) i h = Ok (tt, foldl hdr_record_value h (reported c <$> drop i samples_)).
Proof.
  intros Hc Hs. revert i h. induction fuel as [|fuel IH]; intros i h Hf; [lia|]. cbn [loop].
  unfold mbind at 1, M_bind at 1. destruct (samples_ !! i) as [s|] eqn:E.
  - pose proof (Forall_lookup_1 _ _ _ _ Hs E) as Hok.
    assert (record_sample c samples_ i h = Ok (inl (S i), hdr_record_value h (reported c s))) as ->.
    { unfold record_sample. rewrite E. unfold mbind, M_bind, of_res, modify, mret, M_ret. by rewrite calc_latency_ok. }
    rewrite (drop_S _ s) by done. apply lookup_lt_Some in E. by rewrite IH by lia.
  - assert (record_sample c samples_ i h = Ok (inr tt, h)) as -> by (unfold record_sample; by rewrite E).
    apply lookup_ge_None in E. by rewrite drop_ge.
Qed.

Lemma end_to_end_ok c samples_ : 0 < whole_ticks c -> Forall sample_ok samples_ -> samples_ <> [] ->
  end_to_end c samples_ = Ok (Some (foldl hdr_record_value hdr_init (reported c <$> drop (Z.to_nat LATENCY_SAMPLE_DROP) samples_))).
Proof.
  intros Hc Hs Hne. unfold end_to_end. rewrite decide_False by done.
  generalize (Z.to_nat LATENCY_SAMPLE_DROP). intros d. by rewrite record_loop by (done || lia).
Qed.

(** C38. The latency report.  Of all the samples a run pushes, the histogram gets exactly
    the hundred million that follow the first hundred thousand, each once and in
    order.  But the value is the number of ticks divided by the *whole* number of
    ticks per nanosecond: it never falls short of the true latency by a nanosecond, and
    exceeds it by the factor by which the clock rate exceeds the integer below it. *)
Theorem latency_report c l : 0 < cal_ns c -> cal_ns c <= cal_ticks c -> Forall sample_ok l -> l <> [] ->
  end_to_end c (foldl (fun kept s => push_sample s kept) [] l) =
    Ok (Some (foldl hdr_record_value hdr_init (reported c <$> measured l))) /\
  (forall s, s ∈ l -> let ticks := t7 s - t0 s in
     reported c s * whole_ticks c <= ticks < (reported c s + 1) * whole_ticks c /\
     ticks * cal_ns c < (reported c s + 1) * cal_ticks c).
Proof.
  intros Hn Ht Hl Hne. assert (Hw : 0 < whole_ticks c /\ whole_ticks c * cal_ns c <= cal_ticks c).
  { unfold whole_ticks. rewrite Z.quot_div_nonneg by lia. split; [apply Z.div_str_pos; lia|].
    rewrite Z.mul_comm. apply Z.mul_div_le. lia. }
  destruct Hw as [Hw Hle]. split.
  - rewrite pushed_samples. rewrite end_to_end_ok; [|done|by apply Forall_take|].
    + do 4 f_equal. unfold measured. rewrite skipn_firstn_comm, <- Z2Nat.inj_sub by (vm_compute; discriminate). reflexivity.
    + intros E. destruct l as [|x l]; [done|].
      assert (Z.to_nat LATENCY_SAMPLE_COUNT = S (Z.to_nat (LATENCY_SAMPLE_COUNT - 1))) as Es.
      { rewrite <- Z2Nat.inj_succ by (vm_compute; discriminate). f_equal; lia. }
      rewrite Es in E. discriminate E.
  - intros s Hin ticks. pose proof (proj1 (Forall_forall _ _) Hl s Hin) as Hok. unfold sample_ok in Hok. fold ticks in Hok.
    unfold reported. fold ticks. pose proof (Z.mul_div_le ticks (whole_ticks c) Hw). pose proof (Z.mul_succ_div_gt ticks (whole_ticks c) Hw).
    set (v := ticks / whole_ticks c) in *. split; [lia|]. assert (0 <= v) by (apply Z.div_pos; lia). nia.
Qed.

End Histogram.

(** At 1.999 ticks per nanosecond a millisecond is reported as almost two; a counter slower
    than one tick per nanosecond ends the program. *)
Definition slow_clock : Calibration := calibrate 0 0 199900000 100000000.

Lemma latency_report_witness :
  let l := replicate (Z.to_nat 100000) (mkSample 0 0) ++ [mkSample 5000 2004000] in
  end_to_end (fun h v => h ++ [v]) [] slow_clock (foldl (fun kept s => push_sample s kept) [] l) = Ok (Some [1999000]) /\
  calc_latency (calibrate 0 0 99000000 100000000) 0 1000 = Err DivisionByZero.
Proof.
  split; [|reflexivity].
  destruct (latency_report (fun h v => h ++ [v]) [] slow_clock (replicate (Z.to_nat 100000) (mkSample 0 0) ++ [mkSample 5000 2004000])) as [H _].
  - reflexivity.
  - vm_compute. discriminate.
  - apply Forall_app. split; [apply Forall_replicate; split; vm_compute; congruence|].
    constructor; [split; vm_compute; congruence|constructor].
  - intros E. apply (f_equal length) in E. rewrite length_app, length_replicate in E. cbn [length] in E. lia.
  - rewrite H. unfold measured, LATENCY_SAMPLE_DROP. rewrite drop_app_length' by (by rewrite length_replicate). reflexivity.
Defined.
