(* ===== verification/Gateway.v ===== *)
(** The inbound thread of the gateway ([exchange/server/src/server.cpp]:
    [handleRequests] and what it calls): accepting connections, reading bytes,
    cutting them into request frames, validating, and handing messages to the
    engine; and the inbound half of the close protocol. *)

From S2P Require Import Prelude Types Ring Validation Protocol Buffer ServerState.

Local Open Scope Z_scope.

(** * Operations *)

(** [error_channel_.push({fd, e})], the result ignored. *)
Definition push_error (fd : Z) (e : ServerError) : SM unit :=
  modify (fun s => set_error_channel (ring_push (mkPendingError fd e) (error_channel_ s)).2 s).

Definition header_matches (data : list Z) : bool := bool_decide (slice 0 9 data = HEADER).

(** The body of [processRequest]'s loop. *)
Definition process_frame (fd : Z) : SM unit :=
  st ← get_istate fd;
  let data := buf_view (read_buf_ st) in
  if negb (header_matches data) then
    push_error fd MALFORMED_REQUEST;;
    put_istate fd (set_read_buf (advance INBOUND_BSIZE (read_buf_ st)) st)
  else
    let raw := inbound_of_bytes (slice 9 56 data) in
    let msg := mkInbound (read_begin_tsc_ st) (in_recv_tsc raw) (in_server_push raw) (in_order_id raw)
                         (in_client_id raw) (in_price raw) (in_quantity raw) (in_message_type raw)
                         (in_side raw) (in_order_type raw) in
    let st := set_read_buf (advance INBOUND_BSIZE (read_buf_ st)) st in
    put_istate fd st;;
    if negb (validate_message msg) then push_error fd INVALID_ORDER
    else
      put_istate fd (set_inbound msg st);;
      modify (fun s => set_client_map (<[in_client_id msg := fd]> (client_map_ s)) s);;
      modify (fun s => set_to_engine (ring_push msg (to_engine s)).2 s).

Definition processRequest (fd : Z) : SM unit :=
  st0 ← get_istate fd;
  loop (S (buf_length (read_buf_ st0)))
    (fun _ : unit =>
       st ← get_istate fd;
       if bool_decide (INBOUND_BSIZE <= buf_length (read_buf_ st))%nat
       then process_frame fd;; mret (inl tt)
       else mret (inr tt)) tt.

(** The body of [readRequest]'s loop: [inr true] after a break, [inr false] after the
    connection was condemned. *)
Definition read_more (fd : Z) (_ : unit) : SM (unit + bool) :=
  st ← get_istate fd;
  if bool_decide (0 < remaining_capacity (read_buf_ st))%nat then
    r ← sys_recv fd (remaining_capacity (compact (read_buf_ st)));
    nb ← of_res (read_from r (read_buf_ st));
    put_istate fd (set_read_buf nb.2 st);;
    if nb.1 <=? 0 then
      e ← sys_errno;
      if decide (e = EAGAIN) then mret (inr true)
      else condemnConnection fd true;; mret (inr false)
    else mret (inl tt)
  else mret (inr true).

Definition readRequest (fd : Z) : SM bool :=
  st ← get_istate fd;
  t ← sys_rdtsc;
  put_istate fd (set_read_begin_tsc t st);;
  alive ← loop (S (S (capacity (read_buf_ st)))) (read_more fd) tt;
  if alive : bool then
    processRequest fd;;
    st' ← get_istate fd;
    mret (bool_decide (remaining_capacity (read_buf_ st') <= 0)%nat)
  else mret false.

Definition readAndProcessBytes (client_fd : Z) : SM unit :=
  check_fd client_fd;;
  s ← get;
  if is_condemned_inbound client_fd s then mret tt
  else if is_condemned_outbound client_fd s then mret tt
  else match inbound_map_ s !! client_fd with
       | None => mret tt
       | Some _ =>
           loop 2 (fun _ : unit =>
             again ← readRequest client_fd;
             mret (if again : bool then inl tt else inr tt)) tt
       end.

(** The connection's descriptor is reported [n] times. *)
Fixpoint reads (n : nat) (fd : Z) : SM unit :=
  match n with O => mret tt | S n' => readAndProcessBytes fd;; reads n' fd end.

(** One accepted connection: [true] when accepting goes on. *)
Definition register_one (a : Accepted) : SM bool :=
  if negb (acc_nonblock a) then sys_close (acc_fd a);; mret true
  else if negb (acc_epoll a) then sys_close (acc_fd a);; mret false
  else
    epoll_in_set (fun e => {[acc_fd a]} ∪ e);;
    check_fd (acc_fd a);;
    store_condemned_inbound (acc_fd a) false;;
    store_condemned_outbound (acc_fd a) false;;
    put_ostate (acc_fd a) outbound_state_init;;
    put_istate (acc_fd a) (inbound_state_init (acc_fd a));;
    mret true.

(** [accept] until it fails: the kernel's list of connections that wait. *)
Definition registerConnections : SM unit :=
  s0 ← get;
  loop (S (length (accepts (os s0))))
    (fun _ : unit =>
       s ← get;
       match accepts (os s) with
       | [] => mret (inr tt)
       | a :: rest =>
           with_kernel (fun k => mkKernel (recvs k) (sends k) rest (errno_ k) (clock k) (out_ctls k) (epoll_in_ k)
                                          (epoll_out_ k) (closed k) (taken k));;
           go ← register_one a;
           mret (if go : bool then inl tt else inr tt)
       end) tt.

(** The descriptors of the arrays, in the order of the scans. *)
Definition all_fds : list Z := seqZ 0 FD_SLOTS.

(** One descriptor of [handleDisconnectsInbound]. *)
Definition disconnect_inbound (fd : Z) : SM unit :=
  s ← get;
  if negb (is_condemned_outbound fd s) then mret tt
  else match inbound_map_ s !! fd with
       | None => mret tt
       | Some i =>
           let cid := is_client_id i in
           when ((0 <? cid) && bool_decide (is_Some (client_map_ s !! cid)))
             (modify (fun s => set_client_map (<[cid := -1]> (client_map_ s)) s));;
           epoll_in_set (fun e => e ∖ {[fd]});;
           sys_close fd;;
           modify (fun s => set_inbound_map (delete fd (inbound_map_ s)) s);;
           store_condemned_inbound fd false;;
           store_condemned_outbound fd false
       end.

Fixpoint for_each {S A : Type} (f : A -> M S unit) (l : list A) : M S unit :=
  match l with [] => mret tt | x :: l' => f x;; for_each f l' end.

Definition handleDisconnectsInbound : SM unit := for_each disconnect_inbound all_fds.

(** One event of [epoll_wait]: the descriptor and whether it hung up. *)
Definition handle_event_in (listen_fd : Z) (ev : Z * bool) : SM unit :=
  if decide (ev.1 = listen_fd) then registerConnections
  else if ev.2 then
    epoll_in_set (fun e => e ∖ {[ev.1]});; check_fd ev.1;; store_condemned_inbound ev.1 true
  else readAndProcessBytes ev.1.

(** One iteration of [handleRequests]' loop, for the events [epoll_wait] returned. *)
Definition handle_requests_once (listen_fd : Z) (events : list (Z * bool)) : SM unit :=
  handleDisconnectsInbound;; for_each (handle_event_in listen_fd) events.

(** * Specification of the framing *)

(** The complete frames at the front of a byte stream, and what is left over. *)
Definition frame_count (l : list Z) : nat := length l / INBOUND_BSIZE.
Fixpoint cut (n : nat) (l : list Z) : list (list Z) :=
  match n with O => [] | S n' => take INBOUND_BSIZE l :: cut n' (drop INBOUND_BSIZE l) end.
Definition frames (l : list Z) : list (list Z) := cut (frame_count l) l.
Definition leftover (l : list Z) : list Z := drop (frame_count l * INBOUND_BSIZE) l.

(** What a frame means to the gateway: an error for the client, or a message. *)
Definition classify (t : Z) (frame : list Z) : ServerError + InboundMessage :=
  match parse_request frame with
  | None => inl MALFORMED_REQUEST
  | Some raw =>
      let msg := mkInbound t (in_recv_tsc raw) (in_server_push raw) (in_order_id raw)
                           (in_client_id raw) (in_price raw) (in_quantity raw) (in_message_type raw)
                           (in_side raw) (in_order_type raw) in
      if validate_message msg then inr msg else inl INVALID_ORDER
  end.

(** The effect of a frame on what the rest of the system sees. *)
Definition deliver (fd t : Z) (s : Server) (frame : list Z) : Server :=
  match classify t frame with
  | inl e => set_error_channel (ring_push (mkPendingError fd e) (error_channel_ s)).2 s
  | inr msg =>
      set_to_engine (ring_push msg (to_engine s)).2
        (set_client_map (<[in_client_id msg := fd]> (client_map_ s)) s)
  end.

(** * Framing *)

Lemma cut_S n l : cut (S n) l = take INBOUND_BSIZE l :: cut n (drop INBOUND_BSIZE l).
Proof. done. Qed.

Lemma frames_cons l : (INBOUND_BSIZE <= length l)%nat ->
  frames l = take INBOUND_BSIZE l :: frames (drop INBOUND_BSIZE l) /\
  leftover l = leftover (drop INBOUND_BSIZE l).
Proof.
  intros H. unfold frames, leftover, frame_count. rewrite length_drop.
  assert (length l / INBOUND_BSIZE = S ((length l - INBOUND_BSIZE) / INBOUND_BSIZE))%nat as ->.
  { replace (length l) with ((length l - INBOUND_BSIZE) + 1 * INBOUND_BSIZE)%nat at 1 by lia.
    rewrite Nat.div_add by (unfold INBOUND_BSIZE; lia). lia. }
  split; [done|]. rewrite drop_drop. f_equal.
Qed.

Lemma frames_short l : (length l < INBOUND_BSIZE)%nat -> frames l = [] /\ leftover l = l.
Proof.
  intros H. unfold frames, leftover, frame_count. rewrite Nat.div_small by done. done.
Qed.

Lemma length_leftover l : (length (leftover l) < INBOUND_BSIZE)%nat.
Proof.
  unfold leftover, frame_count. rewrite length_drop.
  pose proof (Nat.div_mod (length l) INBOUND_BSIZE ltac:(unfold INBOUND_BSIZE; lia)).
  pose proof (Nat.mod_upper_bound (length l) INBOUND_BSIZE ltac:(unfold INBOUND_BSIZE; lia)). lia.
Qed.

(** Frames found in two steps are the frames found in one. *)
Lemma frames_app l m : frames (l ++ m) = frames l ++ frames (leftover l ++ m) /\
  leftover (l ++ m) = leftover (leftover l ++ m).
Proof.
  remember (length l) as n eqn:Hn. revert l Hn. induction (lt_wf n) as [n _ IH]. intros l ->.
  destruct (decide (length l < INBOUND_BSIZE)%nat) as [Hlt|Hge].
  - destruct (frames_short l Hlt) as [-> ->]. done.
  - destruct (frames_cons l) as [E1 E2]; [lia|].
    destruct (frames_cons (l ++ m)) as [F1 F2]; [rewrite length_app; lia|].
    rewrite take_app_le in F1 by lia. rewrite drop_app_le in F1, F2 by lia.
    destruct (IH (length (drop INBOUND_BSIZE l))) with (l := drop INBOUND_BSIZE l) as [G1 G2];
      [rewrite length_drop; unfold INBOUND_BSIZE in *; lia|done|].
    rewrite F1, F2, E1, E2, G1, G2. done.
Qed.

(** * Processing the frames in the buffer *)

Lemma deliver_inbound_map fd t s m frame :
  deliver fd t (set_inbound_map m s) frame = set_inbound_map m (deliver fd t s frame).
Proof. unfold deliver. by destruct (classify t frame). Qed.

Lemma deliver_all_inbound_map fd t s m l :
  foldl (deliver fd t) (set_inbound_map m s) l = set_inbound_map m (foldl (deliver fd t) s l).
Proof. revert s. induction l as [|f l IH]; intros s; simpl; [done|]. by rewrite deliver_inbound_map, IH. Qed.

Lemma deliver_keeps fd t s frame : inbound_map_ (deliver fd t s frame) = inbound_map_ s /\
  outbound_map_ (deliver fd t s frame) = outbound_map_ s /\ os (deliver fd t s frame) = os s.
Proof. unfold deliver. by destruct (classify t frame). Qed.

(** A read buffer between two calls: nothing is written from it, and what was
    consumed are whole frames. *)
Record read_ok (b : Buffer) : Prop := {
  ro_buffer : buffer_ok b;
  ro_unwritten : bytes_written_ b = 0%nat;
  ro_aligned : exists k, read_off_ b = (INBOUND_BSIZE * k)%nat;
  ro_tidy : (read_off_ b < len_ b)%nat \/ read_off_ b = 0%nat
}.

Lemma advance_read_ok b : read_ok b -> (INBOUND_BSIZE <= buf_length b)%nat ->
  read_ok (advance INBOUND_BSIZE b) /\ capacity (advance INBOUND_BSIZE b) = capacity b /\
  pending (advance INBOUND_BSIZE b) = drop INBOUND_BSIZE (pending b).
Proof.
  intros [Hb Hw [k Hk] Ht] Hlen. destruct (advance_ok INBOUND_BSIZE b Hb Hlen Hw) as (H1 & H2 & H3 & H4).
  split_and!; [|done|done]. split; [done|done|..]; unfold advance; case_decide as Hd; simpl.
  - by exists 0%nat.
  - exists (S k). rewrite Hk. unfold INBOUND_BSIZE. lia.
  - by right.
  - left. lia.
Qed.

Lemma process_frame_ok fd s st : inbound_map_ s !! fd = Some st -> read_ok (read_buf_ st) ->
  (INBOUND_BSIZE <= buf_length (read_buf_ st))%nat ->
  exists st', read_buf_ st' = advance INBOUND_BSIZE (read_buf_ st) /\
    read_begin_tsc_ st' = read_begin_tsc_ st /\
    process_frame fd s = Ok (tt, set_inbound_map (<[fd := st']> (inbound_map_ s))
      (deliver fd (read_begin_tsc_ st) s (take INBOUND_BSIZE (pending (read_buf_ st))))).
Proof.
  intros Hst Hro Hlen. unfold process_frame, get_istate, mbind, M_bind, get. rewrite Hst.
  unfold mret, M_ret. cbv beta iota zeta. change (buf_view (read_buf_ st)) with (pending (read_buf_ st)).
  set (data := pending (read_buf_ st)). unfold deliver, classify, parse_request, header_matches.
  rewrite !slice_take by (unfold INBOUND_BSIZE; lia).
  destruct (decide (slice 0 9 data = HEADER)) as [Hh|Hh].
  - rewrite bool_decide_eq_true_2 by done. cbn [negb].
    match goal with |- context [validate_message ?m] => set (msg := m) end.
    unfold put_istate, modify. cbn [read_begin_tsc_ set_read_buf].
    destruct (validate_message msg); cbn [negb].
    + exists (set_inbound msg (set_read_buf (advance INBOUND_BSIZE (read_buf_ st)) st)).
      split; [done|]. split; [done|]. do 2 f_equal. cbn. f_equal. by rewrite insert_insert_eq.
    + by exists (set_read_buf (advance INBOUND_BSIZE (read_buf_ st)) st).
  - rewrite bool_decide_eq_false_2 by done. cbn [negb].
    by exists (set_read_buf (advance INBOUND_BSIZE (read_buf_ st)) st).
Qed.

(** [processRequest] handles exactly the complete frames, in order, and keeps the
    rest for later. *)
Lemma processRequest_ok fd s st : inbound_map_ s !! fd = Some st -> read_ok (read_buf_ st) ->
  exists st', read_ok (read_buf_ st') /\ capacity (read_buf_ st') = capacity (read_buf_ st) /\
    read_begin_tsc_ st' = read_begin_tsc_ st /\
    pending (read_buf_ st') = leftover (pending (read_buf_ st)) /\
    processRequest fd s = Ok (tt, set_inbound_map (<[fd := st']> (inbound_map_ s))
      (foldl (deliver fd (read_begin_tsc_ st)) s (frames (pending (read_buf_ st))))).
Proof.
  intros Hst Hro. unfold processRequest, mbind at 1, M_bind at 1, get_istate at 1, mbind at 1, M_bind at 1, get at 1.
  rewrite Hst. unfold mret at 1, M_ret at 1. cbv beta iota.
  set (fuel := S (buf_length (read_buf_ st))). assert (Hfuel : (buf_length (read_buf_ st) < fuel)%nat) by (unfold fuel; lia).
  clearbody fuel. revert s st Hst Hro Hfuel. induction fuel as [|fuel IH]; intros s st Hst Hro Hfuel; [lia|].
  pose proof (length_pending _ (ro_buffer _ Hro)) as Hpl.
  cbn [loop]. unfold mbind at 1, M_bind at 1, mbind at 1, M_bind at 1, get_istate at 1, mbind at 1, M_bind at 1, get at 1.
  rewrite Hst. unfold mret at 1, M_ret at 1. cbv beta iota.
  case_bool_decide as Hd.
  - destruct (process_frame_ok fd s st Hst Hro Hd) as (st1 & Hb1 & Ht1 & Hrun1).
    destruct (advance_read_ok _ Hro Hd) as (Hro1 & Hcap1 & Hp1).
    unfold mbind at 1, M_bind at 1. rewrite Hrun1. unfold mret at 1, M_ret at 1. cbv beta iota.
    match goal with |- context [loop fuel _ tt ?x] => set (s1 := x) end.
    destruct (IH s1 st1) as (st2 & H1 & H2 & H3 & H4 & H5).
    + unfold s1. simpl. by rewrite lookup_insert_eq.
    + by rewrite Hb1.
    + rewrite Hb1. rewrite <- (length_pending _ (ro_buffer _ Hro1)), Hp1, length_drop, Hpl.
      unfold INBOUND_BSIZE in *. lia.
    + rewrite Hb1 in H2, H4, H5. rewrite Hp1 in H4, H5. rewrite Ht1 in H3, H5.
      destruct (frames_cons (pending (read_buf_ st))) as [F1 F2]; [lia|].
      exists st2. split_and!; [done|congruence|done|by rewrite F2|].
      rewrite H5, F1. unfold s1. rewrite deliver_all_inbound_map. do 2 f_equal. cbn. 
      by rewrite insert_insert_eq.
  - destruct (frames_short (pending (read_buf_ st))) as [F1 F2]; [lia|].
    exists st. split_and!; [done|done|done|by rewrite F2|].
    rewrite F1. simpl. unfold mret, M_ret. do 2 f_equal.
    rewrite insert_id by done. by destruct s.
Qed.

(** * Reading *)

(** The bytes the kernel still holds for a descriptor. *)
Definition incoming (fd : Z) (k : Kernel) : list Z := concat (received <$> default [] (recvs k !! fd)).

Lemma recv_answer_ok n answers r rest : recv_answer n answers = (r, rest) ->
  concat (received <$> answers) = received r ++ concat (received <$> rest) /\
  match r with Received x l => (S (length l) <= n)%nat | _ => True end.
Proof.
  destruct answers as [|[x l| |e] answers]; simpl; [by inversion 1|..]; [|by inversion 1..].
  destruct n as [|n]; [by inversion 1|]. intros [= <- <-]. split; [|simpl; rewrite length_take; lia].
  cbn [received]. rewrite <- (take_drop n l) at 1. destruct (drop n l) as [|y l'] eqn:E; simpl.
  - by rewrite app_nil_r.
  - by rewrite <- app_assoc.
Qed.

(** The server after some reading for [fd]: only the connection and the kernel moved. *)
Definition after_read (fd : Z) (st : InboundState) (k : Kernel) (s : Server) : Server :=
  set_inbound_map (<[fd := st]> (inbound_map_ s)) (set_os k s).

Lemma after_read_put fd st b b' k k' s :
  set_inbound_map (<[fd := set_read_buf b' (set_read_buf b st)]>
    (inbound_map_ (set_os k' (after_read fd (set_read_buf b st) k s))))
    (set_os k' (after_read fd (set_read_buf b st) k s)) = after_read fd (set_read_buf b' st) k' s.
Proof. unfold after_read, set_inbound_map, set_os. simpl. by rewrite insert_insert_eq. Qed.

(** What a loop of reads has achieved. *)
Record read_progress (fd : Z) (s : Server) (st : InboundState) (b : Buffer) (k : Kernel) (got : list Z) : Prop := {
  rp_ok : read_ok b;
  rp_capacity : capacity b = capacity (read_buf_ st);
  rp_pending : pending b = pending (read_buf_ st) ++ got;
  rp_kernel : incoming fd (os s) = got ++ incoming fd k
}.

Lemma sys_recv_ok fd n s : exists r k, sys_recv fd n s = Ok (r, set_os k s) /\
  incoming fd (os s) = received r ++ incoming fd k /\
  match r with Received x l => (S (length l) <= n)%nat | _ => True end.
Proof.
  unfold sys_recv, mbind, M_bind, get.
  destruct (recv_answer n (default [] (recvs (os s) !! fd))) as [r rest] eqn:E.
  eexists r, _. split; [reflexivity|].
  destruct (recv_answer_ok _ _ _ _ E) as [H1 H2]. split; [|exact H2].
  unfold incoming at 1. rewrite H1. unfold incoming. cbn [recvs]. by rewrite lookup_insert_eq.
Qed.

Definition read_post (fd : Z) (s : Server) (st : InboundState) (alive : bool) (s' : Server) : Prop :=
  exists b k got, read_progress fd s st b k got /\
    if alive then s' = after_read fd (set_read_buf b st) k s
    else exists s1, s1 = after_read fd (set_read_buf b st) k s /\ condemnConnection fd true s1 = Ok (tt, s').

(** Condemning from the inbound side never faults on a descriptor of the arrays. *)
Lemma condemn_post fd s st b k got (Q : unit + bool -> Server -> Prop) :
  0 <= fd < FD_SLOTS -> read_progress fd s st b k got ->
  (forall s', read_post fd s st false s' -> Q (inr false) s') ->
  wp (condemnConnection fd true) (fun _ s' => wp (mret (inr false)) Q s') (after_read fd (set_read_buf b st) k s).
Proof.
  intros Hfd Hp HQ. assert (Hchk : forall s1, check_fd fd s1 = Ok (tt, s1)).
  { intros s1. unfold check_fd. destruct (Z.leb_spec 0 fd), (Z.ltb_spec fd FD_SLOTS); try lia. done. }
  set (s1 := after_read fd (set_read_buf b st) k s).
  assert (exists s', condemnConnection fd true s1 = Ok (tt, s')) as (s' & Hrun).
  { unfold condemnConnection, mbind at 1, M_bind at 1. rewrite Hchk. by eexists. }
  apply (wp_intro _ _ _ _ _ Hrun), wp_ret, HQ. exists b, k, got. split; [done|]. by exists s1.
Qed.

Lemma read_more_ok fd s st b k got (Q : unit + bool -> Server -> Prop) :
  0 <= fd < FD_SLOTS -> read_progress fd s st b k got ->
  (forall alive s', read_post fd s st alive s' -> Q (inr alive) s') ->
  (forall b' k' got', read_progress fd s st b' k' got' -> (remaining_capacity b' < remaining_capacity b)%nat ->
     Q (inl tt) (after_read fd (set_read_buf b' st) k' s)) ->
  wp (read_more fd tt) Q (after_read fd (set_read_buf b st) k s).
Proof.
  intros Hfd Hp HQr HQl. pose proof Hp as [[Hb Hw [j Hj] Htidy] Hcap Hpend Hinc].
  unfold read_more, get_istate. wp_steps. cbn [inbound_map_ after_read set_inbound_map].
  rewrite lookup_insert_eq. wp_steps. cbn [read_buf_ set_read_buf]. case_bool_decide as Hroom.
  2: { wp_steps. apply HQr. by exists b, k, got. }
  apply wp_bind. destruct (sys_recv_ok fd (remaining_capacity (compact b)) (after_read fd (set_read_buf b st) k s))
    as (r & k' & Hrun & Hstream & Hfits). apply (wp_intro _ _ _ _ _ Hrun).
  cbn [os after_read set_inbound_map set_os] in Hstream.
  destruct (read_from_ok r b Hb Hw) as (n & b' & Hread & Hb' & Hcap' & Hw' & Hpend' & Hn & Hlen);
    [by destruct r|]. destruct (Hlen Hroom) as [Hlen' Hoff'].
  apply wp_bind. eapply (wp_intro _ _ _ (n, b')); [unfold of_res; by rewrite Hread|].
  unfold put_istate. wp_steps. cbn [fst snd].
  assert (Hp' : read_progress fd s st b' k' (got ++ received r)).
  { constructor; [constructor; [done|done|by exists j; rewrite Hoff'|]|congruence| |].
    - rewrite Hlen', Hoff'. lia.
    - by rewrite Hpend', Hpend, app_assoc.
    - by rewrite Hinc, Hstream, app_assoc. }
  rewrite after_read_put.
  assert (Hstop : n <= 0 -> wp (e ← sys_errno; if decide (e = EAGAIN) then mret (inr true)
    else condemnConnection fd true;; mret (inr false)) Q (after_read fd (set_read_buf b' st) k' s)).
  { intros _. unfold sys_errno. wp_steps. case_decide; wp_steps.
    - apply HQr. by eexists b', k', _.
    - eapply (condemn_post fd s st b' k' _ Q Hfd Hp'). intros s' Hs. by apply HQr. }
  destruct (Z.leb_spec n 0) as [Hle|Hgt]; [by apply Hstop|]. wp_steps.
  apply (HQl b' k' _ Hp'). unfold remaining_capacity in *. rewrite Hcap', Hlen'.
  destruct r as [x l| |e]; [simpl; lia|lia|lia].
Qed.

(** A connection between two calls of the gateway. *)
Definition conn_ok (st : InboundState) : Prop :=
  read_ok (read_buf_ st) /\ capacity (read_buf_ st) = READ_BUFFER /\
  (length (pending (read_buf_ st)) < INBOUND_BSIZE)%nat.

(** What the rest of the system sees of the inbound side. *)
Definition outside (s : Server) : InboundRing * RingBuffer PendingError * gmap Z Z :=
  (to_engine s, error_channel_ s, client_map_ s).

Lemma deliver_outside fd t s1 s2 l : outside s1 = outside s2 ->
  outside (foldl (deliver fd t) s1 l) = outside (foldl (deliver fd t) s2 l).
Proof.
  revert s1 s2. induction l as [|f l IH]; intros s1 s2 E; [done|]. simpl. apply IH.
  unfold outside in *. injection E as E1 E2 E3. unfold deliver. destruct (classify t f); simpl; congruence.
Qed.

Lemma deliver_rest fd t s l :
  let s' := foldl (deliver fd t) s l in
  os s' = os s /\ condemned_inbound_ s' = condemned_inbound_ s /\ condemned_outbound_ s' = condemned_outbound_ s.
Proof.
  revert s. induction l as [|f l IH]; intros s; [done|]. simpl.
  destruct (IH (deliver fd t s f)) as (-> & -> & ->). unfold deliver. by destruct (classify t f).
Qed.

(** After the frames are handled there is room again: the buffer is a whole number of
    frames, so a full one holds no partial frame. *)
Lemma room_after b : read_ok b -> capacity b = READ_BUFFER -> (length (pending b) < INBOUND_BSIZE)%nat ->
  (0 < remaining_capacity b)%nat.
Proof.
  intros [Hb Hw [k Hk] Ht] Hcap Hlen. rewrite (length_pending b Hb) in Hlen.
  destruct Hb as [H1 H2 H3]. unfold buf_length, remaining_capacity in *. rewrite Hcap in *.
  unfold READ_BUFFER, INBOUND_BSIZE in *. lia.
Qed.

(** The reads of one [readRequest]. *)
Lemma read_loop_ok fd s st (Q : bool -> Server -> Prop) :
  0 <= fd < FD_SLOTS -> inbound_map_ s !! fd = Some st -> conn_ok st ->
  (forall alive s', read_post fd s st alive s' -> Q alive s') ->
  wp (loop (S (S (capacity (read_buf_ st)))) (read_more fd) tt) Q s.
Proof.
  intros Hfd Hst (Hro & Hcap & Hlen) HQ.
  apply (wp_loop (fun n _ s' => exists b k got, s' = after_read fd (set_read_buf b st) k s /\
    read_progress fd s st b k got /\ (remaining_capacity b <= n)%nat)) with (n := capacity (read_buf_ st)); [|..|lia].
  - intros n [] s' (b & k & got & -> & Hp & Hn).
    apply (read_more_ok fd s st b k got); [done|done|exact HQ|].
    intros b' k' got' Hp' Hlt. exists (remaining_capacity b'). split; [lia|]. by eexists b', k', got'.
  - exists (read_buf_ st), (os s), []. split_and!.
    + unfold after_read, set_inbound_map, set_os. destruct s. simpl in *.
      by rewrite insert_id by (destruct st; exact Hst).
    + constructor; [done|done|by rewrite app_nil_r|done].
    + unfold remaining_capacity. lia.
Qed.

Lemma check_fd_ok fd s : 0 <= fd < FD_SLOTS -> check_fd fd s = Ok (tt, s).
Proof. intros H. unfold check_fd. destruct (Z.leb_spec 0 fd), (Z.ltb_spec fd FD_SLOTS); try lia. done. Qed.

Lemma condemn_inbound_run fd s : 0 <= fd < FD_SLOTS -> exists s', condemnConnection fd true s = Ok (tt, s') /\
  outside s' = outside s /\ inbound_map_ s' = inbound_map_ s /\ fd ∈ condemned_inbound_ s' /\
  condemned_outbound_ s' = condemned_outbound_ s /\ incoming fd (os s') = incoming fd (os s).
Proof.
  intros Hfd. unfold condemnConnection, mbind at 1, M_bind at 1. rewrite check_fd_ok by done.
  eexists. split; [reflexivity|]. split_and!; try done. simpl. set_solver.
Qed.

(** What one [readRequest] has done with the stream of the descriptor. *)
Record read_done (fd : Z) (s s' : Server) (st : InboundState) (used lost : list Z) (ts : list Z) : Prop := {
  rd_state : fd ∉ condemned_inbound_ s' -> exists st', inbound_map_ s' !! fd = Some st' /\ conn_ok st' /\
    pending (read_buf_ st') = leftover (pending (read_buf_ st) ++ used);
  rd_stream : incoming fd (os s) = used ++ lost ++ incoming fd (os s');
  rd_frames : length ts = length (frames (pending (read_buf_ st) ++ used));
  rd_outside : outside s' = outside (foldl (fun s0 tf => deliver fd tf.1 s0 tf.2) s
                                        (zip ts (frames (pending (read_buf_ st) ++ used))));
  rd_alive : fd ∉ condemned_inbound_ s' -> lost = [] /\ condemned_inbound_ s' = condemned_inbound_ s;
  rd_other : condemned_outbound_ s' = condemned_outbound_ s
}.

Lemma foldl_zip_const {A} (f : Z -> A -> list Z -> A) t s l :
  foldl (fun s0 tf => f tf.1 s0 tf.2) s (zip (replicate (length l) t) l) = foldl (f t) s l.
Proof. revert s. induction l as [|x l IH]; intros s; [done|]. apply IH. Qed.

Lemma readRequest_ok fd s st : 0 <= fd < FD_SLOTS -> inbound_map_ s !! fd = Some st -> conn_ok st ->
  fd ∉ condemned_inbound_ s ->
  wp (readRequest fd) (fun again s' => again = false /\
    exists used lost ts, read_done fd s s' st used lost ts) s.
Proof.
  intros Hfd Hst Hok Hnc. unfold readRequest, get_istate, sys_rdtsc, put_istate. wp_steps. rewrite Hst.
  wp_steps. unfold with_kernel. wp_steps.
  set (t := default 0 (head (clock (os s)))).
  match goal with |- wp _ _ ?x => set (s0 := x) end.
  assert (Hst0 : inbound_map_ s0 !! fd = Some (set_read_begin_tsc t st)) by (simpl; apply lookup_insert_eq).
  assert (Hinc0 : incoming fd (os s0) = incoming fd (os s)) by done.
  assert (Hout0 : outside s0 = outside s) by done.
  assert (Hco0 : condemned_outbound_ s0 = condemned_outbound_ s) by done.
  assert (Hci0 : condemned_inbound_ s0 = condemned_inbound_ s) by done.
  clearbody s0. apply (read_loop_ok fd s0 _ _ Hfd Hst0 Hok).
  intros alive s' (b & k & got & [Hro Hcap Hpend Hinc] & Hs').
  cbn [set_read_begin_tsc read_buf_] in Hcap, Hpend. destruct Hok as (Hro0 & Hcap0 & Hlen0). destruct alive.
  - subst s'. set (s1 := after_read _ _ _ _).
    destruct (processRequest_ok fd s1 (set_read_buf b (set_read_begin_tsc t st))) as (st' & H1 & H2 & H3 & H4 & H5);
      [simpl; apply lookup_insert_eq|done|].
    cbn [set_read_buf set_read_begin_tsc read_buf_ read_begin_tsc_] in *. rewrite Hpend in H4, H5.
    apply wp_bind. apply (wp_intro _ _ _ _ _ H5). wp_steps. cbn [inbound_map_ set_inbound_map].
    rewrite lookup_insert_eq. wp_steps.
    assert (Hok' : conn_ok st').
    { split_and!; [done|congruence|]. rewrite H4. apply length_leftover. }
    pose proof (room_after (read_buf_ st') ltac:(apply Hok') ltac:(apply Hok') ltac:(apply Hok')) as Hroom.
    split; [apply bool_decide_eq_false; lia|].
    destruct (deliver_rest fd t s1 (frames (pending (read_buf_ st) ++ got))) as (Ho & Hc1 & Hc2).
    exists got, [], (replicate (length (frames (pending (read_buf_ st) ++ got))) t). constructor.
    + intros _. exists st'. split_and!; [apply lookup_insert_eq|done|done].
    + cbn [os set_inbound_map]. rewrite Ho. simpl. by rewrite <- Hinc0.
    + by rewrite length_replicate.
    + rewrite (foldl_zip_const (deliver fd)). etransitivity; [|apply (deliver_outside fd t s1 s); exact Hout0].
      done.
    + intros _. split; [done|]. cbn [condemned_inbound_ set_inbound_map]. by rewrite Hc1.
    + cbn [condemned_outbound_ set_inbound_map]. by rewrite Hc2.
  - destruct Hs' as (s1 & -> & Hrun).
    destruct (condemn_inbound_run fd (after_read fd (set_read_buf b (set_read_begin_tsc t st)) k s0) Hfd)
      as (s2 & Hrun' & Ho & Hm & Hin & Hout & Hi).
    rewrite Hrun in Hrun'. injection Hrun' as <-. split; [done|]. exists [], got, [].
    destruct (frames_short (pending (read_buf_ st)) Hlen0) as [F1 F2].
    constructor; rewrite ?app_nil_r, ?F1; simpl; try done.
    + by rewrite Hi, <- Hinc0.
    + by rewrite Ho.
    + by rewrite Hout.
Qed.

Lemma read_done_refl fd s st : inbound_map_ s !! fd = Some st -> conn_ok st -> read_done fd s s st [] [] [].
Proof.
  intros Hst Hok. destruct (frames_short (pending (read_buf_ st)) ltac:(apply Hok)) as [F1 F2].
  constructor; rewrite ?app_nil_r, ?F1; try done. intros _. exists st. by rewrite F2.
Qed.

Lemma read_done_trans fd s s1 s2 st st1 u1 l1 ts1 u2 l2 ts2 :
  read_done fd s s1 st u1 l1 ts1 -> fd ∉ condemned_inbound_ s1 -> inbound_map_ s1 !! fd = Some st1 ->
  read_done fd s1 s2 st1 u2 l2 ts2 -> read_done fd s s2 st (u1 ++ u2) l2 (ts1 ++ ts2).
Proof.
  intros [A1 A2 A3 A4 A5 A6] Hc Hst1 [B1 B2 B3 B4 B5 B6].
  destruct (A1 Hc) as (st' & Hst' & Hok & Hleft). rewrite Hst1 in Hst'. injection Hst' as <-.
  destruct (A5 Hc) as [-> Hc1]. destruct (frames_app (pending (read_buf_ st) ++ u1) u2) as [F1 F2].
  rewrite <- Hleft in F1, F2. constructor; rewrite ?(app_assoc _ u1 u2), ?F1, ?F2.
  - exact B1.
  - by rewrite A2, B2, <- app_assoc.
  - by rewrite !length_app, A3, B3.
  - rewrite B4. rewrite zip_with_app by done. rewrite foldl_app.
    revert A4. clear. generalize (zip ts2 (frames (pending (read_buf_ st1) ++ u2))) as l.
    generalize (foldl (fun s0 tf => deliver fd tf.1 s0 tf.2) s (zip ts1 (frames (pending (read_buf_ st) ++ u1)))) as s0.
    intros s0 l. revert s1 s0. induction l as [|[t f] l IH]; intros s1 s0 E; [done|]. simpl. apply IH.
    by apply (deliver_outside fd t s1 s0 [f]).
  - intros H. destruct (B5 H) as [-> ->]. done.
  - congruence.
Qed.

Lemma readAndProcessBytes_ok fd s st : 0 <= fd < FD_SLOTS -> inbound_map_ s !! fd = Some st -> conn_ok st ->
  fd ∉ condemned_inbound_ s ->
  wp (readAndProcessBytes fd) (fun _ s' => exists used lost ts, read_done fd s s' st used lost ts) s.
Proof.
  intros Hfd Hst Hok Hnc. unfold readAndProcessBytes. apply wp_bind.
  apply (wp_intro _ _ _ _ _ (check_fd_ok fd s Hfd)). wp_steps. unfold is_condemned_inbound, is_condemned_outbound.
  rewrite bool_decide_eq_false_2 by done. case_bool_decide.
  - wp_steps. exists [], [], []. by apply read_done_refl.
  - rewrite Hst. cbn [loop]. wp_steps.
    eapply wp_mono; [by apply (readRequest_ok fd s st)|]. intros again s' [-> Hdone]. by wp_steps.
Qed.

Lemma readAndProcessBytes_condemned fd s : 0 <= fd < FD_SLOTS -> fd ∈ condemned_inbound_ s ->
  readAndProcessBytes fd s = Ok (tt, s).
Proof.
  intros Hfd Hc. unfold readAndProcessBytes, mbind, M_bind. rewrite check_fd_ok by done. cbn.
  unfold is_condemned_inbound. by rewrite bool_decide_eq_true_2.
Qed.

Lemma reads_condemned n fd s : 0 <= fd < FD_SLOTS -> fd ∈ condemned_inbound_ s -> reads n fd s = Ok (tt, s).
Proof.
  intros Hfd Hc. induction n as [|n IH]; [done|]. simpl. unfold mbind, M_bind.
  by rewrite readAndProcessBytes_condemned.
Qed.

(** C11. However the stream of a connection is cut into [recv] answers and however often
    its descriptor is reported, the gateway never faults, never overruns its buffer
    and never wedges; the frames it hands on, in order, are exactly the frames of the
    bytes it used, every byte received is used unless the connection was condemned,
    and a partial frame is kept for the next call. *)
Theorem reads_deliver_frames n fd s st :
  0 <= fd < FD_SLOTS -> inbound_map_ s !! fd = Some st -> conn_ok st -> fd ∉ condemned_inbound_ s ->
  wp (reads n fd) (fun _ s' => exists used lost ts, read_done fd s s' st used lost ts) s.
Proof.
  intros Hfd. revert s st. induction n as [|n IH]; intros s st Hst Hok Hnc; simpl; wp_steps.
  - exists [], [], []. by apply read_done_refl.
  - eapply wp_mono; [by apply (readAndProcessBytes_ok fd s st)|].
    intros _ s1 (u1 & l1 & ts1 & H1). destruct (decide (fd ∈ condemned_inbound_ s1)) as [Hc|Hc].
    + apply (wp_intro _ _ _ _ _ (reads_condemned n fd s1 Hfd Hc)). by exists u1, l1, ts1.
    + destruct (rd_state _ _ _ _ _ _ _ H1 Hc) as (st1 & Hst1 & Hok1 & _).
      eapply wp_mono; [by apply (IH s1 st1)|]. intros _ s2 (u2 & l2 & ts2 & H2).
      exists (u1 ++ u2), l2, (ts1 ++ ts2). by apply (read_done_trans fd s s1 s2 st st1 u1 l1).
Qed.

(** A request in two pieces, on a fresh connection. *)
Definition sample_request : InboundMessage := mkInbound 0 2 3 4 7 100 5 NEW BID LIMIT.
Definition sample_frame : list Z := HEADER ++ inbound_bytes sample_request (replicate 9 0) ++ replicate 7 0.
Definition as_answer (l : list Z) : recv_result := match l with x :: l' => Received x l' | [] => Closed end.
Definition sample_kernel (answers : list recv_result) : Kernel :=
  mkKernel {[5 := answers]} ∅ [] (errno_other 0) [1000; 2000; 3000] [] ∅ ∅ [] ∅.
Definition sample_server (answers : list recv_result) : Server :=
  set_inbound_map {[5 := inbound_state_init 5]}
    (set_outbound_map {[5 := outbound_state_init]} (server_init (ring_init 8) (ring_init 8) (sample_kernel answers))).

Lemma fresh_conn_ok fd : conn_ok (inbound_state_init fd).
Proof.
  split_and!; [|reflexivity|vm_compute; lia]. split; [|done|by exists 0%nat|by right].
  split; vm_compute; lia.
Qed.

Lemma reads_deliver_frames_witness :
  let s := sample_server [as_answer (take 40 sample_frame); RecvError EAGAIN; as_answer (drop 40 sample_frame)] in
  wp (reads 2 5) (fun _ s' => exists used lost ts, read_done 5 s s' (inbound_state_init 5) used lost ts) s /\
  match reads 2 5 s with Ok (_, s') => Ring.contents (to_engine s') = [mkInbound 2000 2 3 4 7 100 5 NEW BID LIMIT] | Err _ => False end.
Proof.
  split; [|vm_compute; reflexivity].
  apply (reads_deliver_frames 2 5 _ (inbound_state_init 5)).
  - vm_compute. split; congruence.
  - reflexivity.
  - apply fresh_conn_ok.
  - apply not_elem_of_empty.
Defined.

(** * How a burst ends *)

(** The [errno] that [readRequest] sees when a read delivers nothing: a closed stream
    leaves the one of the last failing call. *)
Definition end_errno (r : recv_result) (s : Server) : errno :=
  match r with RecvError e => e | _ => errno_ (os s) end.

Lemma sys_recv_exact fd n s r rest : recvs (os s) !! fd = Some (r :: rest) ->
  match r with Received x l => (S (length l) <= n)%nat | _ => True end ->
  exists k, sys_recv fd n s = Ok (r, set_os k s) /\ recvs k !! fd = Some rest /\ errno_ k = end_errno r s.
Proof.
  intros Hr Hfit. unfold sys_recv, mbind, M_bind, get. rewrite Hr. cbv beta iota zeta. change (default [] (Some (r :: rest))) with (r :: rest).
  assert (recv_answer n (r :: rest) = (r, rest)) as ->.
  { destruct r as [x l| |e]; [|done..]. destruct n as [|n]; [lia|]. simpl.
    rewrite take_ge, drop_ge by lia. done. }
  eexists. split; [reflexivity|]. cbn [recvs errno_]. split; [apply lookup_insert_eq|]. by destruct r.
Qed.

(** One read of the loop, when the kernel's next answer is known. *)
Lemma read_more_exact fd s st r rest : inbound_map_ s !! fd = Some st -> read_ok (read_buf_ st) ->
  (0 < remaining_capacity (read_buf_ st))%nat -> recvs (os s) !! fd = Some (r :: rest) ->
  match r with Received x l => (S (length l) <= remaining_capacity (read_buf_ st))%nat | _ => True end ->
  exists b k, let s' := after_read fd (set_read_buf b st) k s in
    read_ok b /\ capacity b = capacity (read_buf_ st) /\ pending b = pending (read_buf_ st) ++ received r /\
    len_ b = (len_ (read_buf_ st) + length (received r))%nat /\
    recvs k !! fd = Some rest /\ errno_ k = end_errno r s /\
    read_more fd tt s = match r with
                        | Received _ _ => Ok (inl tt, s')
                        | _ => if decide (end_errno r s = EAGAIN) then Ok (inr true, s')
                               else (condemnConnection fd true;; mret (inr false)) s'
                        end.
Proof.
  intros Hst [Hb Hw [j Hj] Ht] Hroom Hr Hfit.
  assert (Hcomp : compact (read_buf_ st) = read_buf_ st).
  { unfold compact. rewrite decide_False; [done|]. unfold remaining_capacity in Hroom. lia. }
  destruct (sys_recv_exact fd (remaining_capacity (read_buf_ st)) s r rest Hr Hfit) as (k & Hrun & Hk & He).
  destruct (read_from_ok r (read_buf_ st) Hb Hw) as (n & b & Hread & Hb' & Hcap & Hw' & Hpend & Hn & Hlen).
  { unfold recv_fits. rewrite Hcomp. exact Hfit. }
  destruct (Hlen Hroom) as [Hlen' Hoff']. exists b, k. cbv zeta. split_and!; try done.
  { constructor; [done|done|exists j; congruence|]. rewrite Hlen', Hoff'. lia. }
  unfold read_more, get_istate, mbind, M_bind, get. rewrite Hst. cbn [mret M_ret].
  rewrite bool_decide_eq_true_2 by done. rewrite Hcomp, Hrun. unfold of_res. rewrite Hread.
  unfold put_istate, modify, sys_errno, gets. cbn [fst snd].
  change (set_inbound_map (<[fd:=set_read_buf b st]> (inbound_map_ (set_os k s))) (set_os k s))
    with (after_read fd (set_read_buf b st) k s).
  destruct r as [x l| |e]; subst n.
  - destruct (Z.leb_spec (Z.of_nat (length (x :: l))) 0); [simpl in *; lia|]. done.
  - change (0 <=? 0) with true. cbv beta iota. cbn [os after_read set_os set_inbound_map]. rewrite He.
    by destruct (decide _).
  - change (-1 <=? 0) with true. cbv beta iota. cbn [os after_read set_os set_inbound_map]. rewrite He.
    by destruct (decide _).
Qed.

(** The two reads of a burst followed by an answer without bytes. *)
Lemma burst_loop fd s st x l r rest fuel : 0 <= fd < FD_SLOTS -> inbound_map_ s !! fd = Some st ->
  read_ok (read_buf_ st) -> (S (length l) < remaining_capacity (read_buf_ st))%nat ->
  recvs (os s) !! fd = Some (Received x l :: r :: rest) -> received r = [] ->
  exists b k, let s' := after_read fd (set_read_buf b st) k s in
    read_ok b /\ capacity b = capacity (read_buf_ st) /\ pending b = pending (read_buf_ st) ++ x :: l /\
    loop (S (S fuel)) (read_more fd) tt s =
      if decide (end_errno r s = EAGAIN) then Ok (true, s')
      else (condemnConnection fd true;; mret false) s'.
Proof.
  intros Hfd Hst Hro Hfit Hr Hempty. unfold remaining_capacity in Hfit.
  destruct (read_more_exact fd s st (Received x l) (r :: rest) Hst Hro) as (b1 & k1 & H1 & H2 & H3 & H4 & H5 & H6 & H7);
    [unfold remaining_capacity; lia|done|unfold remaining_capacity; lia|].
  set (s1 := after_read fd (set_read_buf b1 st) k1 s) in *.
  assert (Hst1 : inbound_map_ s1 !! fd = Some (set_read_buf b1 st)) by (simpl; apply lookup_insert_eq).
  destruct (read_more_exact fd s1 (set_read_buf b1 st) r rest Hst1 H1) as (b2 & k2 & G1 & G2 & G3 & G4 & G5 & G6 & G7);
    [unfold remaining_capacity; simpl; rewrite H2, H4; simpl; lia|done|by destruct r|].
  cbn [set_read_buf read_buf_] in *. exists b2, k2. cbv zeta. split_and!; [done|congruence| |].
  { by rewrite G3, H3, Hempty, app_nil_r. }
  assert (E2 : after_read fd (set_read_buf b2 (set_read_buf b1 st)) k2 s1 = after_read fd (set_read_buf b2 st) k2 s).
  { unfold s1, after_read, set_inbound_map, set_os. simpl. by rewrite insert_insert_eq. }
  assert (Ee : end_errno r s1 = end_errno r s) by (destruct r as [? ?| |e]; [discriminate Hempty|exact H6|done]).
  cbn [loop]. unfold mbind, M_bind in *. rewrite H7. cbn [loop]. unfold mbind, M_bind. rewrite G7, Ee, E2.
  destruct r as [y l'| |e]; [discriminate Hempty|..]; destruct (decide (end_errno _ s = EAGAIN)); try done;
    unfold condemnConnection, mbind, M_bind; rewrite check_fd_ok by done; done.
Qed.

(** C37. Requests that arrive in the same burst as the end of the connection are lost: when
    a read that delivered bytes is followed by a fatal error, or by the end of the
    stream, the connection is condemned before the bytes are looked at, and nothing
    reaches the engine or the error channel.  Whether an end of stream counts as
    fatal depends on the [errno] of an earlier call: after EAGAIN it is taken for
    would-block, the requests are handled and the connection stays open. *)
Theorem burst_before_close fd s st x l r rest :
  0 <= fd < FD_SLOTS -> inbound_map_ s !! fd = Some st -> conn_ok st -> fd ∉ condemned_inbound_ s ->
  recvs (os s) !! fd = Some (Received x l :: r :: rest) -> received r = [] ->
  (S (length l) < remaining_capacity (read_buf_ st))%nat ->
  wp (readRequest fd) (fun again s' => again = false /\
    (if decide (end_errno r s = EAGAIN)
     then (fd ∉ condemned_inbound_ s') /\
          exists t, outside s' = outside (foldl (deliver fd t) s (frames (pending (read_buf_ st) ++ x :: l)))
     else fd ∈ condemned_inbound_ s' /\ outside s' = outside s)) s.
Proof.
  intros Hfd Hst (Hro & Hcap & Hlen) Hnc Hr Hempty Hfit.
  unfold readRequest, get_istate, sys_rdtsc, put_istate. wp_steps. rewrite Hst. wp_steps.
  set (t := default 0 (head (clock (os s)))). match goal with |- wp _ _ ?y => set (s0 := y) end.
  assert (Hst0 : inbound_map_ s0 !! fd = Some (set_read_begin_tsc t st)) by (simpl; apply lookup_insert_eq).
  assert (Ho0 : outside s0 = outside s) by done.
  assert (Hc0 : condemned_inbound_ s0 = condemned_inbound_ s) by done.
  assert (Hee : end_errno r s0 = end_errno r s) by (by destruct r).
  destruct (burst_loop fd s0 (set_read_begin_tsc t st) x l r rest (capacity (read_buf_ st)))
    as (b & k & H1 & H2 & H3 & H4); try done.
  clearbody s0. cbn [set_read_begin_tsc read_buf_] in *. rewrite Hee in H4. case_decide.
  - eapply wp_intro; [exact H4|]. cbv iota. set (s1 := after_read _ _ _ _) in *.
    destruct (processRequest_ok fd s1 (set_read_buf b (set_read_begin_tsc t st))) as (st' & G1 & G2 & G3 & G4 & G5);
      [simpl; apply lookup_insert_eq|done|].
    cbn [set_read_buf set_read_begin_tsc read_buf_ read_begin_tsc_] in *. rewrite H3 in G4, G5.
    apply wp_bind, (wp_intro _ _ _ _ _ G5). wp_steps. cbn [inbound_map_ set_inbound_map].
    rewrite lookup_insert_eq. wp_steps. split.
    + apply bool_decide_eq_false. pose proof (room_after (read_buf_ st') G1 ltac:(congruence)) as Hroom.
      rewrite G4 in Hroom. specialize (Hroom (length_leftover _)). lia.
    + destruct (deliver_rest fd t s1 (frames (pending (read_buf_ st) ++ x :: l))) as (_ & Hd & _).
      split; [cbn [condemned_inbound_ set_inbound_map]; by rewrite Hd, <- Hc0 in *|].
      exists t. etransitivity; [|exact (deliver_outside fd t s1 s _ Ho0)]. done.
  - destruct (condemn_inbound_run fd (after_read fd (set_read_buf b (set_read_begin_tsc t st)) k s0) Hfd)
      as (s2 & Hrun & Ho & _ & Hin & _).
    eapply (wp_intro _ _ _ false s2); [rewrite H4; unfold mbind, M_bind; by rewrite Hrun|].
    cbv iota. wp_steps. split; [done|]. split; [done|]. by rewrite Ho.
Qed.

Lemma burst_before_close_witness :
  wp (readRequest 5) (fun again s' => again = false /\ 5 ∈ condemned_inbound_ s' /\ Ring.contents (to_engine s') = [])
    (sample_server [as_answer sample_frame; Closed]).
Proof.
  eapply wp_mono.
  - apply (burst_before_close 5 (sample_server [as_answer sample_frame; Closed]) (inbound_state_init 5)
             69 (tail sample_frame) Closed []).
    + vm_compute. split; congruence.
    + reflexivity.
    + apply fresh_conn_ok.
    + apply not_elem_of_empty.
    + reflexivity.
    + reflexivity.
    + vm_compute. lia.
  - cbv beta. intros again s'. rewrite decide_False by discriminate. intros (H1 & H2 & H3).
    split; [exact H1|]. split; [exact H2|]. injection H3 as -> _ _. reflexivity.
Defined.

(** * The inbound scan of the close protocol *)

(** The connections a scan tears down: the outbound thread has let go of them. *)
Definition torn (s : Server) (fd : Z) : Prop := fd ∈ condemned_outbound_ s /\ is_Some (inbound_map_ s !! fd).
#[export] Instance torn_dec s fd : Decision (torn s fd).
Proof. unfold torn. apply _. Defined.
Definition last_id (s : Server) (fd : Z) : option Z := is_client_id <$> inbound_map_ s !! fd.

(** What the scan of the descriptors of [l] does. *)
Record scanned (l : list Z) (s s' : Server) : Prop := {
  sc_torn fd : fd ∈ l -> torn s fd -> inbound_map_ s' !! fd = None /\ fd ∈ closed (os s') /\
    (fd ∉ condemned_inbound_ s') /\ (fd ∉ condemned_outbound_ s') /\ (fd ∉ epoll_in_ (os s'));
  sc_kept fd : fd ∉ l \/ ~ torn s fd -> inbound_map_ s' !! fd = inbound_map_ s !! fd /\
    (fd ∈ condemned_inbound_ s' <-> fd ∈ condemned_inbound_ s) /\
    (fd ∈ condemned_outbound_ s' <-> fd ∈ condemned_outbound_ s) /\
    (fd ∈ closed (os s') <-> fd ∈ closed (os s)) /\ (fd ∈ epoll_in_ (os s') <-> fd ∈ epoll_in_ (os s));
  sc_cleared fd c : fd ∈ l -> torn s fd -> last_id s fd = Some c -> 0 < c ->
    client_map_ s' !! c = ((fun _ => -1) <$> (client_map_ s !! c));
  sc_route c : (forall fd, fd ∈ l -> torn s fd -> last_id s fd = Some c -> c <= 0) ->
    client_map_ s' !! c = client_map_ s !! c;
  sc_outbound : outbound_map_ s' = outbound_map_ s /\ to_engine s' = to_engine s /\ error_channel_ s' = error_channel_ s
}.

(** The state after a connection is torn down. *)
Definition teardown (fd : Z) (i : InboundState) (s : Server) : Server :=
  let s1 := if (0 <? is_client_id i) && bool_decide (is_Some (client_map_ s !! is_client_id i))
            then set_client_map (<[is_client_id i := -1]> (client_map_ s)) s else s in
  let k := os s in
  mkServer (delete fd (inbound_map_ s)) (outbound_map_ s) (client_map_ s1) (condemned_inbound_ s ∖ {[fd]})
    (condemned_outbound_ s ∖ {[fd]}) (to_engine s) (from_engine s) (error_channel_ s) (writable_fds_ s)
    (epollout_armed_ s) (latency_ s)
    (mkKernel (recvs k) (sends k) (accepts k) (errno_ k) (clock k) (out_ctls k) (epoll_in_ k ∖ {[fd]} ∖ {[fd]})
              (epoll_out_ k ∖ {[fd]}) (fd :: closed k) (taken k)).

Lemma disconnect_inbound_run fd s : disconnect_inbound fd s =
  Ok (tt, match inbound_map_ s !! fd with
          | Some i => if is_condemned_outbound fd s then teardown fd i s else s
          | None => s
          end).
Proof.
  unfold disconnect_inbound, mbind, M_bind, get, is_condemned_outbound.
  case_bool_decide; cbn [negb]; [|by destruct (inbound_map_ s !! fd)].
  destruct (inbound_map_ s !! fd) as [i|]; [|done]. unfold when, teardown. by destruct (_ && _).
Qed.

Lemma teardown_routes fd i s c : client_map_ (teardown fd i s) !! c =
  if decide (c = is_client_id i /\ 0 < c) then (fun _ => -1) <$> (client_map_ s !! c) else client_map_ s !! c.
Proof.
  unfold teardown. cbn [client_map_]. destruct (Z.ltb_spec 0 (is_client_id i)); cbn [andb].
  - case_bool_decide as Hb; case_decide as Hd; cbn [client_map_ set_client_map].
    + destruct Hd as [-> _]. rewrite lookup_insert_eq. by destruct Hb as [f ->].
    + rewrite lookup_insert_ne; [done|]. intros <-. by apply Hd.
    + destruct Hd as [-> _]. destruct (client_map_ s !! is_client_id i); [|done]. by destruct Hb.
    + done.
  - rewrite decide_False; [done|]. lia.
Qed.

Lemma scanned_nothing l s : (forall fd, fd ∈ l -> ~ torn s fd) -> scanned l s s.
Proof. intros H. constructor; naive_solver. Qed.

Lemma scanned_one fd i s : inbound_map_ s !! fd = Some i -> fd ∈ condemned_outbound_ s ->
  scanned [fd] s (teardown fd i s).
Proof.
  intros Hi Hc. assert (Ht : torn s fd) by (split; [done|by exists i]).
  constructor.
  - intros f ->%list_elem_of_singleton _. cbn. split_and!; [apply lookup_delete_eq|set_solver..].
  - intros f Hf. assert (f <> fd) by (intros ->; destruct Hf as [[]%not_elem_of_cons|]; done).
    cbn. split_and!; [by apply lookup_delete_ne|set_solver..].
  - intros f c ->%list_elem_of_singleton _ Hl Hpos. unfold last_id in Hl. rewrite Hi in Hl. injection Hl as <-.
    rewrite teardown_routes. by rewrite decide_True.
  - intros c Hc'. rewrite teardown_routes. rewrite decide_False; [done|]. intros [-> Hpos].
    specialize (Hc' fd ltac:(set_solver) Ht). unfold last_id in Hc'. rewrite Hi in Hc'. specialize (Hc' eq_refl). lia.
  - done.
Qed.

Lemma scanned_cons fd l s s1 s2 : fd ∉ l -> scanned [fd] s s1 -> scanned l s1 s2 -> scanned (fd :: l) s s2.
Proof.
  intros Hfd [A1 A2 A3 A4 A5] [B1 B2 B3 B4 B5].
  assert (Hsame : forall f, f ∈ l -> (torn s1 f <-> torn s f) /\ last_id s1 f = last_id s f).
  { intros f Hf. destruct (A2 f) as (E & _ & Ec & _); [left; set_solver|]. unfold torn, last_id. by rewrite E, Ec. }
  constructor.
  - intros f Hf Ht. apply elem_of_cons in Hf as [->|Hf].
    + destruct (A1 fd ltac:(set_solver) Ht) as (a & b & c & d & e). destruct (B2 fd (or_introl Hfd)) as (a' & -> & -> & -> & ->).
      rewrite a'. done.
    + apply B1; [done|]. by apply Hsame.
  - intros f Hf. destruct (A2 f) as (a & b & c & d & e); [set_solver|].
    destruct (B2 f) as (a' & b' & c' & d' & e').
    { destruct (decide (f ∈ l)) as [Hl|]; [right|by left]. rewrite (proj1 (Hsame f Hl)). set_solver. }
    rewrite a', b', c', d', e'. done.
  - intros f c Hf Ht Hl Hpos. apply elem_of_cons in Hf as [->|Hf].
    + pose proof (A3 fd c ltac:(set_solver) Ht Hl Hpos) as E.
      destruct (decide (Exists (fun f => torn s1 f /\ last_id s1 f = Some c) l))
        as [(f & H1 & H2 & H3)%Exists_exists|Hno].
      * rewrite (B3 f c H1 H2 H3 Hpos), E. by destruct (client_map_ s !! c).
      * rewrite (B4 c); [done|]. intros f H1 H2 H3. exfalso. apply Hno, Exists_exists. by exists f.
    + destruct (Hsame f Hf) as [H1 H2].
      rewrite (B3 f c Hf); [|by apply H1|by rewrite H2|done].
      destruct (decide (torn s fd /\ last_id s fd = Some c)) as [[H3 H4]|Hno].
      * rewrite (A3 fd c ltac:(set_solver) H3 H4 Hpos). by destruct (client_map_ s !! c).
      * rewrite (A4 c); [done|]. intros f' ->%list_elem_of_singleton H3 H4. by destruct Hno.
  - intros c Hc. rewrite (B4 c); [rewrite (A4 c); [done|]|].
    + intros f Hf%list_elem_of_singleton. subst f. apply Hc. set_solver.
    + intros f Hf Ht Hl. destruct (Hsame f Hf) as [H1 H2]. apply (Hc f); [set_solver|by apply H1|by rewrite <- H2].
  - destruct A5 as (? & ? & ?), B5 as (? & ? & ?). split_and!; congruence.
Qed.

Lemma scan_inbound_ok l s : NoDup l -> wp (for_each disconnect_inbound l) (fun _ s' => scanned l s s') s.
Proof.
  intros Hnd. revert s. induction Hnd as [|fd l Hfd Hnd IH]; intros s; simpl; [by apply wp_ret, scanned_nothing; set_solver|].
  apply wp_bind. eapply wp_intro; [apply disconnect_inbound_run|]. eapply wp_mono; [apply IH|].
  intros ? s2. apply scanned_cons; [done|].
  destruct (inbound_map_ s !! fd) as [i|] eqn:Ei.
  - unfold is_condemned_outbound. case_bool_decide; [by apply scanned_one|].
    apply scanned_nothing. intros f ->%list_elem_of_singleton [? _]. done.
  - apply scanned_nothing. intros f ->%list_elem_of_singleton [_ [? ?]]. congruence.
Qed.

(** C36. The inbound scan closes exactly the connections the outbound thread has let go of
    and touches no other, and resets their flags; but of the routes that lead to a
    closed descriptor it only clears the one of the last client id the connection
    used, and never that of client id 0: every other id stays routed to the
    descriptor, which the next connection will reuse. *)
Theorem teardown_leaves_routes s fd c :
  0 <= fd < FD_SLOTS -> fd ∈ condemned_outbound_ s -> is_Some (inbound_map_ s !! fd) ->
  client_map_ s !! c = Some fd ->
  (forall fd', torn s fd' -> last_id s fd' = Some c -> c <= 0) ->
  wp handleDisconnectsInbound (fun _ s' => inbound_map_ s' !! fd = None /\ fd ∈ closed (os s') /\
    (fd ∉ condemned_outbound_ s') /\ client_map_ s' !! c = Some fd /\ scanned all_fds s s') s.
Proof.
  intros Hfd Hc Hi Hr Hlast. unfold handleDisconnectsInbound.
  eapply wp_mono; [apply scan_inbound_ok, NoDup_seqZ|].
  intros ? s' Hs. assert (Hin : fd ∈ all_fds) by (apply elem_of_seqZ; lia).
  destruct (sc_torn _ _ _ Hs fd Hin (conj Hc Hi)) as (H1 & H2 & H3 & H4 & H5). split_and!; try done.
  rewrite (sc_route _ _ _ Hs c); [done|]. intros fd' _. apply Hlast.
Qed.

(** Client ids 7 and 9 share descriptor 5; 9 was used last. *)
Definition shared_server : Server :=
  set_inbound_map {[5 := set_inbound (mkInbound 0 0 0 0 9 100 5 NEW BID LIMIT) (inbound_state_init 5)]}
    (set_client_map {[7 := 5; 9 := 5]} (set_condemned_outbound {[5]} (sample_server []))).

Lemma teardown_leaves_routes_witness :
  wp handleDisconnectsInbound (fun _ s' => inbound_map_ s' !! 5 = None /\ client_map_ s' !! 7 = Some 5 /\
    client_map_ s' !! 9 = Some (-1)) shared_server.
Proof.
  eapply wp_mono.
  - apply (teardown_leaves_routes shared_server 5 7).
    + vm_compute. split; congruence.
    + apply (proj2 (elem_of_singleton 5 5)). reflexivity.
    + eexists. reflexivity.
    + reflexivity.
    + intros fd' [H1 _] H2. apply (proj1 (elem_of_singleton fd' 5)) in H1. subst fd'. vm_compute in H2. discriminate.
  - intros ? s' (H1 & _ & _ & H2 & H3). split; [exact H1|]. split; [exact H2|].
    rewrite (sc_cleared _ _ _ H3 5 9); [reflexivity|..|reflexivity|lia].
    + apply elem_of_seqZ. vm_compute. split; congruence.
    + split; [apply (proj2 (elem_of_singleton 5 5)); reflexivity|eexists; reflexivity].
Defined.
