(* ===== verification/Responder.v ===== *)
(** The outbound thread of the gateway ([exchange/server/src/server.cpp]:
    [serveResponses] and what it calls): routing the engine's messages and the
    inbound thread's errors to the connections, writing frames, sending, the latency
    samples, and the outbound half of the close protocol. *)

From S2P Require Import Prelude Types Ring Protocol Buffer ServerState Gateway.

Local Open Scope Z_scope.

(** * Routing *)

(** The destination of a message: a positive descriptor, or -1. *)
Definition resolve (m : OutboundMessage) (s : Server) : Z :=
  match client_map_ s !! out_client_id m with
  | None => -1
  | Some fd => if 0 <? fd then fd else -1
  end.

Definition pop_from_engine : SM (option OutboundMessage) :=
  s ← get;
  let '(m, r) := ring_pop (from_engine s) in
  modify (set_from_engine r);; mret m.

Definition pop_error : SM (option PendingError) :=
  s ← get;
  let '(pe, r) := ring_pop (error_channel_ s) in
  modify (set_error_channel r);; mret pe.

(** [outbound_map_[fd]->push_outbound(m)] and the mark, if the connection is alive. *)
Definition push_to (fd : Z) (m : OutboundMessage) : SM unit :=
  check_fd fd;;
  s ← get;
  if is_condemned_inbound fd s then mret tt
  else match outbound_map_ s !! fd with
       | None => mret tt
       | Some o => put_ostate fd (push_outbound m o);; insert_writable fd
       end.

(** A popped message with its destination: [cur] and [cur_fd], or nothing. *)
Definition pop_resolved : SM (option (OutboundMessage * Z)) :=
  m ← pop_from_engine;
  s ← get;
  mret ((fun m => (m, resolve m s)) <$> m).

Definition route_message (m : OutboundMessage) (fd : Z) : SM unit :=
  if 0 <? fd then push_to fd m else mret tt.

Definition error_message (pe : PendingError) : OutboundMessage :=
  mkOutbound 0 0 0 0 0 0 0 NEW FAILURE (pe_err pe).

(** One pass of the pipeline: the next message is popped and resolved before the
    current one is pushed. *)
Definition route_current (cur : option (OutboundMessage * Z)) : SM (option (OutboundMessage * Z) + unit) :=
  match cur with
  | None => mret (inr tt)
  | Some (m, fd) =>
      nxt ← pop_resolved;
      route_message m fd;;
      mret (inl nxt)
  end.

Definition drain_error (_ : unit) : SM (unit + unit) :=
  pe ← pop_error;
  match pe with
  | None => mret (inr tt)
  | Some pe => push_to (pe_fd pe) (error_message pe);; mret (inl tt)
  end.

Definition routeOutboundMessages : SM unit :=
  s0 ← get;
  cur ← pop_resolved;
  loop (S (Z.to_nat (ring_size (from_engine s0)))) route_current cur;;
  loop (S (Z.to_nat (ring_size (error_channel_ s0)))) drain_error tt.

(** * Writing and sending *)

Definition pending_latency (m : OutboundMessage) : PendingLatency :=
  mkPendingLatency (out_read_begin_tsc m)
    (bool_decide (out_server_error m = NONE) && bool_decide (out_message_type m <> MATCH)).

Definition appendResponse (fd : Z) : SM unit :=
  o ← get_ostate fd;
  let '(msg, o1) := pop_outbound o in
  frame ← of_res (response_frame msg);
  put_ostate fd (push_latency (pending_latency msg) (set_write_buf (append frame (write_buf_ o1)).2 o1)).

(** The samples of a batch. *)
Definition record_samples (t7 : Z) (batch : list PendingLatency) (l : list LatencySample) : list LatencySample :=
  foldl (fun l e => if pl_record e then push_sample (mkSample (pl_read_begin_tsc e) t7) l else l) l batch.

Definition finishBatch (fd : Z) : SM unit :=
  t7 ← sys_rdtsc;
  o ← get_ostate fd;
  modify (fun s => set_latency (record_samples t7 (latency_batch_ o) (latency_ s)) s);;
  let o1 := clear_latency_batch o in
  put_ostate fd (set_write_buf (try_reset (write_buf_ o1)) o1).

(** Ask for EPOLLOUT once: the descriptor is marked as armed only when that succeeds. *)
Definition arm (fd : Z) : SM unit :=
  s ← get;
  when (negb (bool_decide (fd ∈ epollout_armed_ s)))
    (ok ← sys_add_out fd;
     when ok (modify (fun s => set_armed ({[fd]} ∪ epollout_armed_ s) s))).

(** One pass of [sendResponse]'s loop: [inr None] when everything is sent. *)
Definition send_more (fd : Z) (_ : unit) : SM (unit + option bool) :=
  o ← get_ostate fd;
  if bool_decide (0 < remaining_to_send (write_buf_ o))%nat then
    r ← sys_send fd (unsent (write_buf_ o));
    let '(n, b) := write_to r (write_buf_ o) in
    put_ostate fd (set_write_buf b o);;
    if n <=? 0 then
      e ← sys_errno;
      if decide (e = EAGAIN) then arm fd;; mret (inr (Some true)) else mret (inr (Some false))
    else mret (inl tt)
  else mret (inr None).

Definition sendResponse (fd : Z) : SM bool :=
  o ← get_ostate fd;
  r ← loop (S (remaining_to_send (write_buf_ o))) (send_more fd) tt;
  match r with
  | None => finishBatch fd;; mret true
  | Some ok => mret ok
  end.

(** The appends of [beginSends]: while messages are staged and a frame fits. *)
Definition append_staged (fd : Z) : SM unit :=
  o0 ← get_ostate fd;
  loop (S (Z.to_nat (ring_size (staging_ o0))))
    (fun _ : unit =>
       o ← get_ostate fd;
       if has_pending_outbound o && has_room OUTBOUND_BSIZE (write_buf_ o)
       then appendResponse fd;; mret (inl tt) else mret (inr tt)) tt.

(** The end of an iteration of [beginSends]: keep the descriptor only if it has work. *)
Definition keep_or_erase (fd : Z) : SM unit :=
  s ← get;
  if is_condemned_inbound fd s then erase_writable fd
  else
    o ← get_ostate fd;
    if bool_decide (remaining_to_send (write_buf_ o) = 0)%nat && negb (has_pending_outbound o)
    then erase_writable fd else mret tt.

(** One descriptor of [writable_fds_]. *)
Definition begin_send (fd : Z) : SM unit :=
  check_fd fd;;
  s ← get;
  if is_condemned_inbound fd s then erase_writable fd
  else match outbound_map_ s !! fd with
       | None => erase_writable fd
       | Some _ =>
           append_staged fd;;
           o ← get_ostate fd;
           if bool_decide (0 < remaining_to_send (write_buf_ o))%nat then
             ok ← sendResponse fd;
             if negb ok then erase_writable fd;; condemnConnection fd false
             else keep_or_erase fd
           else keep_or_erase fd
       end.

(** Each iteration erases at most its own descriptor, so the set is walked as it was. *)
Definition beginSends : SM unit :=
  s ← get; for_each begin_send (writable_fds_ s).

(** * The outbound scan of the close protocol, and the thread's loop *)

Definition disconnect_outbound (fd : Z) : SM unit :=
  s ← get;
  if negb (is_condemned_inbound fd s) then mret tt
  else match outbound_map_ s !! fd with
       | None => mret tt
       | Some _ =>
           erase_writable fd;;
           disarm fd;;
           modify (fun s => set_outbound_map (delete fd (outbound_map_ s)) s);;
           store_condemned_outbound fd true
       end.

Definition handleDisconnectsOutbound : SM unit := for_each disconnect_outbound all_fds.

(** One event of [epoll_wait]: the descriptor and whether it hung up. *)
Definition handle_event_out (ev : Z * bool) : SM unit :=
  let fd := ev.1 in
  check_fd fd;;
  s ← get;
  if is_condemned_inbound fd s then mret tt
  else if ev.2 then erase_writable fd;; condemnConnection fd false
  else match outbound_map_ s !! fd with
       | None => mret tt
       | Some _ =>
           ok ← sendResponse fd;
           if negb ok then condemnConnection fd false
           else
             s' ← get;
             o ← get_ostate fd;
             when (bool_decide (fd ∈ epollout_armed_ s') &&
                   bool_decide (remaining_to_send (write_buf_ o) = 0)%nat) (disarm fd)
       end.

(** One iteration of [serveResponses]' loop, for the events [epoll_wait] returned. *)
Definition serve_responses_once (events : list (Z * bool)) : SM unit :=
  handleDisconnectsOutbound;;
  routeOutboundMessages;;
  beginSends;;
  for_each handle_event_out events.

(** * Invariant and specification *)

Definition frame_of (m : OutboundMessage) : list Z :=
  match response_frame m with Ok f => f | Err _ => [] end.

(** The outbound half of a connection.  The write buffer holds one frame for each entry
    of the latency batch, so the batch never overflows its array. *)
Record out_ok (o : OutboundState) : Prop := {
  oo_buffer : buffer_ok (write_buf_ o);
  oo_capacity : capacity (write_buf_ o) = WRITE_BUFFER;
  oo_unread : read_off_ (write_buf_ o) = 0%nat;
  oo_staging : ring_ok (staging_ o);
  oo_size : Ring.capacity (staging_ o) = RINGBUF_SIZE;
  oo_batch : len_ (write_buf_ o) = (OUTBOUND_BSIZE * length (latency_batch_ o))%nat
}.

Definition staged (o : OutboundState) : list OutboundMessage := contents (staging_ o).

(** The bytes of a connection that are on their way: buffered frames, then the frames
    of the staged messages. *)
Definition backlog (o : OutboundState) : list Z :=
  unsent (write_buf_ o) ++ concat (frame_of <$> staged o).

(** The stream of a connection: what its socket has taken, then the backlog. *)
Definition stream (fd : Z) (s : Server) (o : OutboundState) : list Z :=
  bytes_of fd (os s) ++ backlog o.

Record out_inv (s : Server) : Prop := {
  oi_conn : forall fd o, outbound_map_ s !! fd = Some o -> out_ok o;
  oi_range : forall fd, is_Some (outbound_map_ s !! fd) \/ fd ∈ writable_fds_ s -> 0 <= fd < FD_SLOTS
}.

(** What an operation of the outbound thread does to the stream of a connection that
    gets no new message: it stays as it is, or the connection is let go of, its
    socket having taken a prefix. *)
Definition kept (fd : Z) (s s' : Server) : Prop :=
  match outbound_map_ s !! fd with
  | None => outbound_map_ s' !! fd = None /\ bytes_of fd (os s') = bytes_of fd (os s)
  | Some o =>
      (exists o', outbound_map_ s' !! fd = Some o' /\ stream fd s' o' = stream fd s o) \/
      outbound_map_ s' !! fd = None /\ fd ∈ condemned_outbound_ s' /\
        bytes_of fd (os s') `prefix_of` stream fd s o
  end.

Record out_step (s s' : Server) : Prop := {
  st_inv : out_inv s';
  st_kept : forall fd, kept fd s s';
  st_condemned : condemned_inbound_ s' = condemned_inbound_ s /\
    condemned_outbound_ s ⊆ condemned_outbound_ s';
  st_frame : client_map_ s' = client_map_ s /\ from_engine s' = from_engine s /\
    error_channel_ s' = error_channel_ s /\ inbound_map_ s' = inbound_map_ s
}.

Lemma out_step_refl s : out_inv s -> out_step s s.
Proof.
  intros H. constructor; [done| |done|done]. intros fd. unfold kept.
  destruct (outbound_map_ s !! fd) as [o|]; [left; by exists o|done].
Qed.

Lemma out_step_trans s1 s2 s3 : out_step s1 s2 -> out_step s2 s3 -> out_step s1 s3.
Proof.
  intros [A1 A2 [A3 A4] (A5 & A6 & A7 & A8)] [B1 B2 [B3 B4] (B5 & B6 & B7 & B8)]. constructor; [done| |split; [congruence|set_solver]|].
  2: by split_and!; congruence.
  intros fd. specialize (A2 fd). specialize (B2 fd). unfold kept in *.
  destruct (outbound_map_ s1 !! fd) as [o1|].
  - destruct A2 as [(o2 & E2 & S2)|(E2 & C2 & P2)]; rewrite E2 in B2.
    + rewrite <- S2. done.
    + right. destruct B2 as [-> ->]. split; [done|]. split; [set_solver|done].
  - destruct A2 as [E2 P2]. rewrite E2 in B2. destruct B2 as [-> ->]. done.
Qed.

(** * Frames *)

Lemma frame_ok m : response_frame m = Ok (frame_of m) /\ length (frame_of m) = OUTBOUND_BSIZE.
Proof. destruct (response_frame_shape m) as (body & rest & E & H & _). unfold frame_of. by rewrite E. Qed.

Lemma pop_outbound_ok o m l : out_ok o -> staged o = m :: l ->
  exists o1, pop_outbound o = (m, o1) /\ staged o1 = l /\ write_buf_ o1 = write_buf_ o /\
    latency_batch_ o1 = latency_batch_ o /\ ring_ok (staging_ o1) /\ Ring.capacity (staging_ o1) = RINGBUF_SIZE.
Proof.
  intros Ho Hc. destruct (pop_cons (staging_ o) m l (oo_staging o Ho) Hc) as (r' & E & H1 & H2 & H3).
  unfold pop_outbound. rewrite E. eexists. split; [reflexivity|]. cbn.
  split_and!; try done. rewrite H2. apply Ho.
Qed.

Lemma batch_room o : out_ok o -> has_room OUTBOUND_BSIZE (write_buf_ o) = true ->
  Z.of_nat (length (latency_batch_ o)) < PIPELINE_DEPTH.
Proof.
  intros Ho Hr. apply bool_decide_eq_true in Hr. rewrite (oo_capacity o Ho), (oo_batch o Ho) in Hr.
  unfold WRITE_BUFFER, OUTBOUND_BSIZE, PIPELINE_DEPTH in *. lia.
Qed.

Lemma appendResponse_ok fd s o m l : outbound_map_ s !! fd = Some o -> out_ok o ->
  staged o = m :: l -> has_room OUTBOUND_BSIZE (write_buf_ o) = true ->
  exists o', appendResponse fd s = Ok (tt, set_outbound_map (<[fd := o']> (outbound_map_ s)) s) /\ out_ok o' /\
    staged o' = l /\ backlog o' = backlog o /\ latency_batch_ o' = latency_batch_ o ++ [pending_latency m].
Proof.
  intros Hs Ho Hc Hroom. destruct (pop_outbound_ok o m l Ho Hc) as (o1 & Epop & H1 & H2 & H3 & H4 & H5).
  destruct (frame_ok m) as [Ef Hf].
  destruct (append_ok (frame_of m) (write_buf_ o) (oo_buffer o Ho)) as (b' & Ea & B1 & B2 & B3 & B4 & B5); [by rewrite Hf|].
  unfold appendResponse, get_ostate, mbind, M_bind, get, of_res. rewrite Hs. cbn [mret M_ret]. rewrite Epop, Ef.
  unfold put_ostate, modify. rewrite H2, Ea. cbn [snd].
  pose proof (batch_room o Ho Hroom) as Hb. unfold push_latency. cbn [latency_batch_ set_write_buf].
  rewrite H3. destruct (Z.ltb_spec (Z.of_nat (length (latency_batch_ o))) PIPELINE_DEPTH); [|lia].
  eexists. split; [reflexivity|]. split_and!; [|exact H1| |done].
  - constructor; cbn; [done|by rewrite B2; apply Ho| |done|done|].
    + revert Ea. unfold append. case_match; intros [= <-]. cbn. apply Ho.
    + rewrite B3, Hf, length_app, (oo_batch o Ho). cbn [length]. unfold OUTBOUND_BSIZE. lia.
  - unfold backlog, staged in *. cbn. rewrite B5, H1, Hc. cbn. by rewrite <- app_assoc.
Qed.

(** * Operations on one connection *)

Lemma step_put fd s o o' : out_inv s -> outbound_map_ s !! fd = Some o -> out_ok o' -> backlog o' = backlog o ->
  out_step s (set_outbound_map (<[fd := o']> (outbound_map_ s)) s).
Proof.
  intros [Hc Hr] Hs Ho Hb. constructor; [|..|done|done].
  - constructor; cbn.
    + intros f o1 [[-> <-]|[_ H]]%lookup_insert_Some; [done|by apply (Hc f)].
    + intros f [[o1 [[-> <-]|[_ H]]%lookup_insert_Some]|H]; apply Hr; [left; by exists o|left; by exists o1|by right].
  - intros f. unfold kept. cbn. destruct (decide (f = fd)) as [->|Hne].
    + rewrite Hs, lookup_insert_eq. left. exists o'. split; [done|]. unfold stream. by rewrite Hb.
    + rewrite lookup_insert_ne by done. destruct (outbound_map_ s !! f) as [o1|]; [left; by exists o1|done].
Qed.

Lemma append_staged_ok fd s o : out_inv s -> outbound_map_ s !! fd = Some o ->
  wp (append_staged fd) (fun _ s' => exists o', out_step s s' /\
    s' = set_outbound_map (<[fd := o']> (outbound_map_ s)) s /\ out_ok o' /\ backlog o' = backlog o /\
    latency_batch_ o' ++ (pending_latency <$> staged o') = latency_batch_ o ++ (pending_latency <$> staged o) /\
    (staged o' = [] \/ has_room OUTBOUND_BSIZE (write_buf_ o') = false)) s.
Proof.
  intros Hinv Hs. pose proof (oi_conn s Hinv fd o Hs) as Ho. unfold append_staged, get_ostate. wp_steps. rewrite Hs. wp_steps.
  apply (wp_loop (fun n _ s' => exists o', s' = set_outbound_map (<[fd := o']> (outbound_map_ s)) s /\ out_ok o' /\
    backlog o' = backlog o /\
    latency_batch_ o' ++ (pending_latency <$> staged o') = latency_batch_ o ++ (pending_latency <$> staged o) /\
    (length (staged o') <= n)%nat)) with (n := length (staged o)).
  - intros n [] s' (o' & -> & Ho' & Hb & Hl & Hn). wp_steps. cbn [outbound_map_ set_outbound_map].
    rewrite lookup_insert_eq. wp_steps. unfold has_pending_outbound.
    destruct (ring_empty (staging_ o')) eqn:He; cbn [negb andb].
    + apply ring_empty_contents in He; [|apply Ho']. wp_steps. exists o'. split_and!; try done; [by apply (step_put fd s o)|by left].
    + destruct (has_room OUTBOUND_BSIZE (write_buf_ o')) eqn:Hroom.
      2: { wp_steps. exists o'. split_and!; try done; [by apply (step_put fd s o)|by right]. }
      destruct (staged o') as [|m l] eqn:Hst.
      { exfalso. assert (ring_empty (staging_ o') = true) by (apply ring_empty_contents; [apply Ho'|done]). congruence. }
      destruct (appendResponse_ok fd (set_outbound_map (<[fd := o']> (outbound_map_ s)) s) o' m l) as (o2 & Hrun & H1 & H2 & H3 & H4);
        [cbn; apply lookup_insert_eq|done..|].
      apply wp_bind, (wp_intro _ _ _ _ _ Hrun). wp_steps. exists (n - 1)%nat. cbn [length] in Hn. split; [lia|].
      exists o2. split_and!; [|done|congruence| |rewrite H2; lia].
      * unfold set_outbound_map. cbn. by rewrite insert_insert_eq.
      * rewrite <- Hl, H2, H4, <- app_assoc. done.
  - exists o. split_and!; try done. destruct s; unfold set_outbound_map; simpl in *. by rewrite insert_id.
  - rewrite (ring_size_contents _ (oo_staging o Ho)), Nat2Z.id. unfold staged. lia.
Qed.

(** The kernel's side of a step: only it moves. *)
Lemma step_os s k : out_inv s -> (forall fd, bytes_of fd k = bytes_of fd (os s)) -> out_step s (set_os k s).
Proof.
  intros Hinv Hk. destruct (out_step_refl s Hinv) as [_ Hkept Hc Hf]. destruct Hinv as [H1 H2].
  constructor; [by constructor| |done|done]. intros fd. specialize (Hkept fd). unfold kept, stream in *. cbn. by rewrite Hk.
Qed.

Lemma arm_ok fd s : out_inv s ->
  wp (arm fd) (fun _ s' => out_step s s' /\ outbound_map_ s' = outbound_map_ s /\ latency_ s' = latency_ s /\
                           writable_fds_ s' = writable_fds_ s) s.
Proof.
  intros Hinv. pose proof (out_step_refl s Hinv) as Hrefl. unfold arm, when. wp_steps.
  destruct (negb _); [|by wp_steps]. unfold sys_add_out. wp_steps.
  destruct Hrefl as [[H1 H2] Hkept Hc Hf]. destruct (default true _ && _); wp_steps; (split_and!; try done); by constructor.
Qed.

Lemma sys_send_ok fd bytes s : exists r k, sys_send fd bytes s = Ok (r, set_os k s) /\
  bytes_of fd k = bytes_of fd (os s) ++ take (sent_count r) bytes /\ (sent_count r <= length bytes)%nat /\
  (forall fd', fd' <> fd -> bytes_of fd' k = bytes_of fd' (os s)).
Proof.
  unfold sys_send, mbind, M_bind, get. cbv zeta. eexists _, _. split; [reflexivity|].
  split_and!.
  - unfold bytes_of. cbn. by rewrite lookup_insert_eq.
  - destruct (head _) as [[m|e]|]; cbn; lia.
  - intros fd' Hne. unfold bytes_of. cbn. by rewrite lookup_insert_ne.
Qed.

(** A connection in the middle of [sendResponse]. *)
Record sending (fd : Z) (s : Server) (o : OutboundState) (s' : Server) (o' : OutboundState) : Prop := {
  sg_step : out_step s s';
  sg_state : outbound_map_ s' = <[fd := o']> (outbound_map_ s);
  sg_ok : out_ok o';
  sg_staged : staged o' = staged o;
  sg_batch : latency_batch_ o' = latency_batch_ o;
  sg_latency : latency_ s' = latency_ s;
  sg_writable : writable_fds_ s' = writable_fds_ s;
  sg_shrinks : (remaining_to_send (write_buf_ o') <= remaining_to_send (write_buf_ o))%nat
}.

Lemma step_send fd s o r k : out_inv s -> outbound_map_ s !! fd = Some o ->
  bytes_of fd k = bytes_of fd (os s) ++ take (sent_count r) (unsent (write_buf_ o)) ->
  (sent_count r <= length (unsent (write_buf_ o)))%nat ->
  (forall fd', fd' <> fd -> bytes_of fd' k = bytes_of fd' (os s)) ->
  let o' := set_write_buf (write_to r (write_buf_ o)).2 o in
  sending fd s o (set_outbound_map (<[fd := o']> (outbound_map_ s)) (set_os k s)) o' /\
  remaining_to_send (write_buf_ o') = (remaining_to_send (write_buf_ o) - sent_count r)%nat.
Proof.
  intros Hinv Hs Hk Hn Hother o'. pose proof (oi_conn s Hinv fd o Hs) as Ho.
  rewrite (length_unsent _ (oo_buffer o Ho)) in Hn.
  assert (Hfit : send_fits r (write_buf_ o)) by (destruct r; [exact Hn|done]).
  destruct (write_to_ok r (write_buf_ o) (oo_buffer o Ho) Hfit) as (B1 & B2 & B3 & B4).
  assert (Hro : read_off_ (write_to r (write_buf_ o)).2 = read_off_ (write_buf_ o)) by (by destruct r).
  assert (Ho' : out_ok o') by (destruct Ho; constructor; cbn in *; congruence).
  assert (Hleft : remaining_to_send (write_buf_ o') = (remaining_to_send (write_buf_ o) - sent_count r)%nat)
    by (destruct r; unfold o', remaining_to_send; simpl; lia).
  split; [|done]. constructor; try done; [|lia].
  destruct Hinv as [Hc Hr]. constructor; cbn; [|..|done|done].
  - constructor; cbn.
    + intros f o1 [[-> <-]|[_ H]]%lookup_insert_Some; [done|by apply (Hc f)].
    + intros f [[o1 [[-> <-]|[_ H]]%lookup_insert_Some]|H]; apply Hr; [left; by exists o|left; by exists o1|by right].
  - intros f. unfold kept, stream. cbn. destruct (decide (f = fd)) as [->|Hne].
    + rewrite Hs, lookup_insert_eq. left. exists o'. split; [done|]. rewrite Hk, <- !app_assoc. f_equal.
      unfold backlog. rewrite B4 at 2. rewrite <- app_assoc. done.
    + rewrite lookup_insert_ne, Hother by done. destruct (outbound_map_ s !! f) as [o1|]; [left; by exists o1|done].
Qed.

Lemma sending_trans fd s o s1 o1 s2 o2 : sending fd s o s1 o1 -> sending fd s1 o1 s2 o2 -> sending fd s o s2 o2.
Proof.
  intros [A1 A2 A3 A4 A5 A6 A7 A8] [B1 B2 B3 B4 B5 B6 B7 B8].
  constructor; [by apply (out_step_trans s s1)|by rewrite B2, A2, insert_insert_eq|done|congruence..|lia].
Qed.

Lemma sending_refl fd s o : out_inv s -> outbound_map_ s !! fd = Some o -> sending fd s o s o.
Proof.
  intros Hinv Hs. constructor; try done; [by apply out_step_refl|by rewrite insert_id|by apply (oi_conn s Hinv fd)].
Qed.

(** One pass of the send loop. *)
Lemma send_more_ok fd s o (Q : unit + option bool -> Server -> Prop) : out_inv s -> outbound_map_ s !! fd = Some o ->
  (unsent (write_buf_ o) = [] -> Q (inr None) s) ->
  (forall ok s' o', sending fd s o s' o' -> unsent (write_buf_ o') <> [] -> Q (inr (Some ok)) s') ->
  (forall s' o', sending fd s o s' o' ->
     (remaining_to_send (write_buf_ o') < remaining_to_send (write_buf_ o))%nat -> Q (inl tt) s') ->
  wp (send_more fd tt) Q s.
Proof.
  intros Hinv Hs Hdone Hstop Hmore. pose proof (oi_conn s Hinv fd o Hs) as Ho.
  pose proof (length_unsent _ (oo_buffer o Ho)) as Hlen. unfold send_more, get_ostate. wp_steps. rewrite Hs. wp_steps.
  case_bool_decide as Hrem.
  2: { wp_steps. apply Hdone, length_zero_iff_nil. lia. }
  destruct (sys_send_ok fd (unsent (write_buf_ o)) s) as (r & k & Hrun & Hk & Hn & Hoth).
  apply wp_bind, (wp_intro _ _ _ _ _ Hrun).
  destruct (step_send fd s o r k Hinv Hs Hk Hn Hoth) as [Hsend Hleft].
  destruct (write_to r (write_buf_ o)) as [n b] eqn:Ew. cbn [snd] in *.
  set (o' := set_write_buf b o) in *. set (s' := set_outbound_map _ (set_os k s)) in Hsend.
  unfold put_ostate. wp_steps. change (wp (if n <=? 0 then e ← sys_errno; if decide (e = EAGAIN) then
    arm fd;; mret (inr (Some true)) else mret (inr (Some false)) else mret (inl tt)) Q s').
  assert (En : n = match r with Sent m => Z.of_nat m | SendError _ => -1 end) by (destruct r; by injection Ew).
  destruct (Z.leb_spec n 0) as [Hle|Hgt].
  - assert (Hzero : sent_count r = 0%nat) by (destruct r; simpl; lia).
    assert (Hne : unsent (write_buf_ o') <> []).
    { intros E. apply (f_equal length) in E. rewrite (length_unsent _ (oo_buffer o' (sg_ok _ _ _ _ _ Hsend))) in E. cbn [length] in E. rewrite E in Hleft. lia. }
    unfold sys_errno. wp_steps. case_decide; wp_steps; [|by apply (Hstop false s' o')].
    eapply wp_mono; [apply (arm_ok fd s'), Hsend|]. intros ? s2 (A1 & A2 & A3 & A4). wp_steps.
    apply (Hstop true s2 o'); [|done]. destruct Hsend as [C1 C2 C3 C4 C5 C6 C7 C8].
    constructor; [by apply (out_step_trans s s')|by rewrite A2|done..|congruence|congruence|done].
  - wp_steps. apply (Hmore s' o'); [done|]. destruct r; simpl in *; lia.
Qed.

Lemma finishBatch_ok fd s o : out_inv s -> outbound_map_ s !! fd = Some o -> unsent (write_buf_ o) = [] ->
  wp (finishBatch fd) (fun _ s' => exists o' t7, outbound_map_ s' = <[fd := o']> (outbound_map_ s) /\ out_step s s' /\
    staged o' = staged o /\ unsent (write_buf_ o') = [] /\ latency_batch_ o' = [] /\
    writable_fds_ s' = writable_fds_ s /\
    latency_ s' = record_samples t7 (latency_batch_ o) (latency_ s)) s.
Proof.
  intros Hinv Hs Hempty. pose proof (oi_conn s Hinv fd o Hs) as Ho. unfold finishBatch, sys_rdtsc, get_ostate. wp_steps.
  cbn [outbound_map_ set_os]. rewrite Hs. wp_steps. unfold put_ostate. wp_steps.
  set (t7 := default 0 (head (clock (os s)))).
  set (o' := set_write_buf _ _). match goal with |- context [set_outbound_map _ ?x] => set (s1 := x) end.
  destruct (try_reset_ok (write_buf_ o) (oo_buffer o Ho) (oo_unread o Ho)) as (B1 & B2 & B3).
  assert (Hlen : (bytes_written_ (write_buf_ o) = len_ (write_buf_ o))%nat).
  { pose proof (length_unsent _ (oo_buffer o Ho)) as Hl. rewrite Hempty in Hl. unfold remaining_to_send in Hl.
    pose proof (buf_sent _ (oo_buffer o Ho)). cbn [length] in Hl. lia. }
  assert (Ho' : out_ok o').
  { destruct Ho. constructor; cbn; try done; try congruence; unfold try_reset; rewrite decide_True by done; done. }
  assert (Hs1 : out_step s s1).
  { destruct (out_step_refl s Hinv) as [[H1 H2] H3 H4 H5]. constructor; [by constructor|exact H3|exact H4|exact H5]. }
  exists o', t7. split_and!; try done.
  - apply (out_step_trans s s1); [done|]. apply (step_put fd s1 o o'); [apply Hs1|exact Hs|done|].
    unfold backlog, staged. cbn. by rewrite B2.
  - cbn. by rewrite B2.
Qed.

Lemma sendResponse_ok fd s o : out_inv s -> outbound_map_ s !! fd = Some o ->
  wp (sendResponse fd) (fun ok s' => exists o', outbound_map_ s' = <[fd := o']> (outbound_map_ s) /\ out_step s s' /\
    staged o' = staged o /\ (backlog o = [] -> backlog o' = []) /\ writable_fds_ s' = writable_fds_ s /\
    (ok = true /\ unsent (write_buf_ o') = [] /\ latency_batch_ o' = [] /\
       (exists t7, latency_ s' = record_samples t7 (latency_batch_ o) (latency_ s)) \/
     unsent (write_buf_ o') <> [] /\ latency_batch_ o' = latency_batch_ o /\ latency_ s' = latency_ s)) s.
Proof.
  intros Hinv Hs. unfold sendResponse, get_ostate. wp_steps. rewrite Hs. wp_steps.
  apply (wp_loop (fun n _ s' => exists o', sending fd s o s' o' /\ (remaining_to_send (write_buf_ o') <= n)%nat))
    with (n := remaining_to_send (write_buf_ o)); [|exists o; split; [by apply sending_refl|done]|lia].
  intros n [] s1 (o1 & Hsend & Hn). pose proof Hsend as [A1 A2 A3 A4 A5 A6 A7 A8].
  assert (Hs1 : outbound_map_ s1 !! fd = Some o1) by (rewrite A2; apply lookup_insert_eq).
  apply (send_more_ok fd s1 o1); [apply A1|done|..].
  - intros Hempty. wp_steps. eapply wp_mono; [apply (finishBatch_ok fd s1 o1); [apply A1|done|done]|].
    intros ? s2 (o2 & t7 & B1 & B2 & B3 & B4 & B5 & B6 & B7). wp_steps. exists o2.
    split_and!; [by rewrite B1, A2, insert_insert_eq|by apply (out_step_trans s s1)|congruence| |congruence|left].
    + unfold backlog. rewrite B3, B4, A4. by intros [_ ->]%app_eq_nil.
    + split_and!; try done. exists t7. by rewrite B7, A5, A6.
  - intros ok s2 o2 Hs2 Hne. wp_steps. destruct (sending_trans _ _ _ _ _ _ _ Hsend Hs2) as [C1 C2 C3 C4 C5 C6 C7 C8].
    exists o2. split_and!; try done; [|by right]. intros [Hu _]%app_eq_nil. exfalso. apply Hne, length_zero_iff_nil.
    rewrite (length_unsent _ (oo_buffer o2 C3)). pose proof (length_unsent _ (oo_buffer o (oi_conn s Hinv fd o Hs))) as Hl.
    rewrite Hu in Hl. cbn [length] in Hl. lia.
  - intros s2 o2 Hs2 Hlt. exists (remaining_to_send (write_buf_ o2)). split; [lia|].
    exists o2. split; [by apply (sending_trans _ _ _ s1 o1)|done].
Qed.

(** * No connection with work is forgotten *)

(** Every live connection with a backlog is in [writable_fds_]. *)
Definition marked (s : Server) : Prop := forall fd o, outbound_map_ s !! fd = Some o ->
  fd ∉ condemned_inbound_ s -> backlog o <> [] -> fd ∈ writable_fds_ s.

Lemma marked_conn s s' fd o o' : marked s -> outbound_map_ s !! fd = Some o ->
  outbound_map_ s' = <[fd := o']> (outbound_map_ s) -> condemned_inbound_ s' = condemned_inbound_ s ->
  (writable_fds_ s' = writable_fds_ s /\ (backlog o = [] -> backlog o' = []) \/
   writable_fds_ s' = filter (fun x => x <> fd) (writable_fds_ s) /\ (fd ∈ condemned_inbound_ s \/ backlog o' = [])) ->
  marked s'.
Proof.
  intros Hm Hs E1 E2 Hw f x Hf Hc Hb. rewrite E1 in Hf. rewrite E2 in Hc.
  apply lookup_insert_Some in Hf as [[<- <-]|[Hne Hf]].
  - destruct Hw as [[-> H]|[-> [H|H]]]; [|done..]. apply (Hm fd o Hs Hc). naive_solver.
  - pose proof (Hm f x Hf Hc Hb). destruct Hw as [[-> _]|[-> _]]; [done|]. by apply list_elem_of_filter.
Qed.

Lemma marked_gone s s' fd : marked s -> outbound_map_ s' = delete fd (outbound_map_ s) ->
  condemned_inbound_ s' = condemned_inbound_ s -> writable_fds_ s' = filter (fun x => x <> fd) (writable_fds_ s) -> marked s'.
Proof.
  intros Hm E1 E2 E3 f x Hf Hc Hb. rewrite E1 in Hf. rewrite E2 in Hc. apply lookup_delete_Some in Hf as [Hne Hf].
  rewrite E3. apply list_elem_of_filter. split; [done|]. by apply (Hm f x).
Qed.

Lemma marked_same s s' : marked s -> outbound_map_ s' = outbound_map_ s ->
  condemned_inbound_ s' = condemned_inbound_ s -> writable_fds_ s' = writable_fds_ s -> marked s'.
Proof. intros Hm E1 E2 E3 f x. rewrite E1, E2, E3. apply Hm. Qed.

(** * Letting go of a connection *)

Lemma step_writable s w : out_inv s -> (forall fd, fd ∈ w -> 0 <= fd < FD_SLOTS) -> out_step s (set_writable w s).
Proof.
  intros Hinv Hw. destruct (out_step_refl s Hinv) as [[H1 H2] H3 H4 H5]. constructor; [|exact H3|exact H4|exact H5].
  constructor; [exact H1|]. intros fd [H|H]; [apply H2; by left|by apply Hw].
Qed.

Lemma erase_writable_ok fd s : out_inv s ->
  wp (erase_writable fd) (fun _ s' => out_step s s' /\ s' = set_writable (filter (fun x => x <> fd) (writable_fds_ s)) s) s.
Proof.
  intros Hinv. unfold erase_writable. wp_steps. split; [|done]. apply step_writable; [done|].
  intros f [_ Hf]%list_elem_of_filter. apply (oi_range s Hinv). by right.
Qed.

(** Giving up the outbound state and telling the inbound thread. *)
Definition let_go (fd : Z) : SM unit :=
  erase_writable fd;; disarm fd;;
  modify (fun s => set_outbound_map (delete fd (outbound_map_ s)) s);; store_condemned_outbound fd true.

Lemma let_go_ok fd s : out_inv s ->
  wp (let_go fd) (fun _ s' => out_step s s' /\ outbound_map_ s' !! fd = None /\ fd ∈ condemned_outbound_ s' /\
    writable_fds_ s' = filter (fun x => x <> fd) (writable_fds_ s) /\ (fd ∉ epollout_armed_ s') /\
    outbound_map_ s' = delete fd (outbound_map_ s)) s.
Proof.
  intros Hinv. unfold let_go. wp_steps.
  eapply wp_mono; [by apply erase_writable_ok|]. intros ? s1 [S1 ->]. set (s1 := set_writable _ s) in *. wp_steps.
  unfold disarm, when. wp_steps.
  assert (Hcore : forall s2, out_step s1 s2 -> outbound_map_ s2 = outbound_map_ s ->
    bytes_of fd (os s2) = bytes_of fd (os s) -> writable_fds_ s2 = writable_fds_ s1 -> (fd ∉ epollout_armed_ s2) ->
    wp (modify (fun s => set_outbound_map (delete fd (outbound_map_ s)) s);; store_condemned_outbound fd true)
      (fun _ s' => out_step s s' /\ outbound_map_ s' !! fd = None /\ fd ∈ condemned_outbound_ s' /\
        writable_fds_ s' = filter (fun x => x <> fd) (writable_fds_ s) /\ (fd ∉ epollout_armed_ s') /\
        outbound_map_ s' = delete fd (outbound_map_ s)) s2).
  { intros s2 S2 Hm Hb Hw Ha. unfold store_condemned_outbound. wp_steps. cbn. split_and!; try done.
    2: by rewrite lookup_delete_eq.
    2: set_solver.
    2: by rewrite Hm.
    apply (out_step_trans s s1); [done|]. apply (out_step_trans s1 s2); [done|].
    destruct (out_step_refl s2 (st_inv _ _ S2)) as [[H1 H2] H3 H4 H5].
    constructor; [constructor| |cbn; split; [done|set_solver]|done]; cbn.
    - intros f o' [_ H]%lookup_delete_Some. by apply (H1 f).
    - intros f [[o' [_ H]%lookup_delete_Some]|H]; apply H2; [left; by exists o'|by right].
    - intros f. specialize (H3 f). unfold kept in *. cbn. destruct (decide (f = fd)) as [->|Hne].
      + rewrite lookup_delete_eq. destruct (outbound_map_ s2 !! fd) as [o|]; [|done].
        right. split; [done|]. split; [set_solver|]. unfold stream. by eexists.
      + rewrite lookup_delete_ne by done. destruct (outbound_map_ s2 !! f) as [o2|]; [left; by exists o2|done]. }
  case_bool_decide as Harmed.
  - unfold epoll_out_set, with_kernel. wp_steps. apply Hcore; try done; [|cbn; set_solver].
    destruct (out_step_refl s1 (st_inv _ _ S1)) as [[H1 H2] H3 H4 H5]. by constructor.
  - wp_steps. apply Hcore; try done. apply out_step_refl, S1.
Qed.

Lemma condemn_outbound_eq fd s : 0 <= fd < FD_SLOTS -> condemnConnection fd false s = let_go fd s.
Proof. intros H. unfold condemnConnection, mbind at 1, M_bind at 1. by rewrite check_fd_ok. Qed.

(** A step that also keeps every live connection with work marked. *)
Definition live_step (s s' : Server) : Prop := out_step s s' /\ (marked s -> marked s').

Lemma live_step_refl s : out_inv s -> live_step s s.
Proof. intros H. split; [by apply out_step_refl|done]. Qed.

Lemma live_step_trans s1 s2 s3 : live_step s1 s2 -> live_step s2 s3 -> live_step s1 s3.
Proof. intros [A1 A2] [B1 B2]. split; [by apply (out_step_trans s1 s2)|auto]. Qed.

Lemma let_go_live fd s : out_inv s ->
  wp (let_go fd) (fun _ s' => live_step s s' /\ outbound_map_ s' = delete fd (outbound_map_ s)) s.
Proof.
  intros Hinv. eapply wp_mono; [by apply let_go_ok|]. intros ? s' (H1 & _ & _ & H2 & _ & H3).
  split; [|done]. split; [done|]. intros Hm. by apply (marked_gone s s' fd); [..|apply (st_condemned _ _ H1)|].
Qed.

(** [condemnConnection] after the mark is erased, as the callers do. *)
Lemma erase_condemn_ok fd s : 0 <= fd < FD_SLOTS -> out_inv s ->
  wp (erase_writable fd;; condemnConnection fd false) (fun _ s' => live_step s s') s.
Proof.
  intros Hfd Hinv. wp_steps. eapply wp_mono; [by apply erase_writable_ok|]. intros ? s1 [S1 ->].
  unfold wp at 1. rewrite condemn_outbound_eq by done.
  eapply wp_mono; [apply let_go_ok, S1|]. intros ? s' (H1 & _ & _ & H2 & _ & H3).
  split; [by apply (out_step_trans s _ s') in S1|]. intros Hm. apply (marked_gone s s' fd); [done|done|apply (st_condemned _ _ H1)|].
  rewrite H2. cbn [writable_fds_ set_writable]. rewrite list_filter_filter. apply list_filter_iff. naive_solver.
Qed.

(** * The thread's steps *)

Lemma disconnect_outbound_ok fd s : out_inv s ->
  wp (disconnect_outbound fd) (fun _ s' => live_step s s' /\ outbound_map_ s' ⊆ outbound_map_ s) s.
Proof.
  intros Hinv. pose proof (live_step_refl s Hinv). unfold disconnect_outbound. wp_steps.
  destruct (is_condemned_inbound fd s); cbn [negb]; [|by wp_steps].
  destruct (outbound_map_ s !! fd) as [o|]; [|by wp_steps].
  change (wp (let_go fd) (fun _ s' => live_step s s' /\ outbound_map_ s' ⊆ outbound_map_ s) s).
  eapply wp_mono; [by apply let_go_live|]. intros ? s' [H1 ->]. split; [done|apply delete_subseteq].
Qed.

(** The end of an iteration: the mark is only erased when there is no work left. *)
Lemma keep_or_erase_ok fd s o : out_inv s -> outbound_map_ s !! fd = Some o ->
  wp (keep_or_erase fd) (fun _ s' => out_step s s' /\ outbound_map_ s' = outbound_map_ s /\
    (writable_fds_ s' = writable_fds_ s \/
     writable_fds_ s' = filter (fun x => x <> fd) (writable_fds_ s) /\ (fd ∈ condemned_inbound_ s \/ backlog o = []))) s.
Proof.
  intros Hinv Hs. pose proof (oi_conn s Hinv fd o Hs) as Ho. unfold keep_or_erase. wp_steps.
  destruct (is_condemned_inbound fd s) eqn:Hc.
  { eapply wp_mono; [by apply erase_writable_ok|]. intros ? s' [H ->]. split_and!; [done..|]. right. split; [done|].
    left. by apply bool_decide_eq_true in Hc. }
  unfold get_ostate. wp_steps. rewrite Hs. wp_steps.
  case_bool_decide as Hrem; cbn [andb]; [|by wp_steps; split_and!; [apply out_step_refl|done|left]].
  unfold has_pending_outbound. destruct (ring_empty (staging_ o)) eqn:He; cbn [negb].
  2: by wp_steps; split_and!; [apply out_step_refl|done|left].
  eapply wp_mono; [by apply erase_writable_ok|]. intros ? s' [H ->]. split_and!; [done..|]. right. split; [done|]. right.
  apply ring_empty_contents in He; [|apply Ho]. unfold backlog, staged. rewrite He.
  assert (unsent (write_buf_ o) = []) as -> by (apply length_zero_iff_nil; rewrite length_unsent; [done|apply Ho]). done.
Qed.

(** A pass over a connection whose state went from [o] to [o1]. *)
Lemma finish_pass fd s o s1 o1 : out_step s s1 -> outbound_map_ s !! fd = Some o ->
  outbound_map_ s1 = <[fd := o1]> (outbound_map_ s) -> (backlog o = [] -> backlog o1 = []) ->
  writable_fds_ s1 = writable_fds_ s -> wp (keep_or_erase fd) (fun _ s' => live_step s s') s1.
Proof.
  intros S1 Hs E1 Hb Hw. pose proof (st_inv _ _ S1) as Hinv1.
  assert (Hs1 : outbound_map_ s1 !! fd = Some o1) by (rewrite E1; apply lookup_insert_eq).
  eapply wp_mono; [by apply (keep_or_erase_ok fd s1 o1)|]. intros ? s' (S2 & E2 & Hm).
  split; [by apply (out_step_trans s s1)|]. intros Hmark. apply (marked_conn s s' fd o o1); [done|done|congruence| |].
  - destruct (st_condemned _ _ S1) as [<- _]. apply (st_condemned _ _ S2).
  - destruct (st_condemned _ _ S1) as [Ec _]. rewrite Ec, Hw in Hm. destruct Hm as [Hm|Hm]; [by left|by right].
Qed.

Lemma begin_send_ok fd s : 0 <= fd < FD_SLOTS -> out_inv s -> wp (begin_send fd) (fun _ s' => live_step s s') s.
Proof.
  intros Hfd Hinv. unfold begin_send. apply wp_bind, (wp_intro _ _ _ _ _ (check_fd_ok fd s Hfd)). wp_steps.
  assert (Herase : (forall o, outbound_map_ s !! fd = Some o -> fd ∈ condemned_inbound_ s) ->
                   wp (erase_writable fd) (fun _ s' => live_step s s') s).
  { intros Hc. eapply wp_mono; [by apply erase_writable_ok|]. intros ? s' [H ->]. split; [done|].
    intros Hm f x Hf Hcf Hb. cbn in *. apply list_elem_of_filter. split; [|by apply (Hm f x)]. intros ->. by apply Hcf, (Hc x). }
  destruct (is_condemned_inbound fd s) eqn:Hc; [apply Herase; intros; by apply bool_decide_eq_true in Hc|].
  destruct (outbound_map_ s !! fd) as [o|] eqn:Hs; [|by apply Herase]. clear Herase. wp_steps.
  eapply wp_mono; [by apply (append_staged_ok fd s o)|]. intros ? s1 (o1 & S1 & E1 & Ho1 & Hb1 & _ & _).
  assert (Em1 : outbound_map_ s1 = <[fd := o1]> (outbound_map_ s)) by (by rewrite E1).
  assert (Ew1 : writable_fds_ s1 = writable_fds_ s) by (by rewrite E1). clear E1.
  assert (Hs1 : outbound_map_ s1 !! fd = Some o1) by (rewrite Em1; apply lookup_insert_eq).
  pose proof (st_inv _ _ S1) as Hinv1. unfold get_ostate. wp_steps. rewrite Hs1. wp_steps. case_bool_decide.
  - wp_steps. eapply wp_mono; [by apply (sendResponse_ok fd s1 o1)|].
    intros ok s2 (o2 & Em2 & S2 & _ & Hb2 & Ew2 & _). pose proof (out_step_trans _ _ _ S1 S2) as S12.
    rewrite Hb1 in Hb2. rewrite Em1, insert_insert_eq in Em2. rewrite Ew1 in Ew2. destruct ok; cbn [negb].
    + by apply (finish_pass fd s o s2 o2).
    + eapply wp_mono; [apply erase_condemn_ok; [done|apply S12]|]. intros ? s3 S3.
      apply (live_step_trans s s2); [|done]. split; [done|]. intros Hm.
      apply (marked_conn s s2 fd o o2); [done..|apply (st_condemned _ _ S12)|by left].
  - apply (finish_pass fd s o s1 o1); [done..|by rewrite Hb1|done].
Qed.

Lemma disarm_ok fd s : out_inv s -> wp (disarm fd) (fun _ s' => live_step s s') s.
Proof.
  intros Hinv. unfold disarm, when, epoll_out_set, with_kernel. wp_steps.
  case_bool_decide; wp_steps; [|by apply live_step_refl].
  destruct (out_step_refl s Hinv) as [[H1 H2] H3 H4 H5]. split; [by constructor|]. intros Hm. by apply (marked_same s).
Qed.

Lemma handle_event_out_ok ev s : 0 <= ev.1 < FD_SLOTS -> out_inv s ->
  wp (handle_event_out ev) (fun _ s' => live_step s s') s.
Proof.
  intros Hfd Hinv. destruct ev as [fd hup]. cbn [fst snd] in *. unfold handle_event_out. cbn [fst snd].
  apply wp_bind, (wp_intro _ _ _ _ _ (check_fd_ok fd s Hfd)). wp_steps.
  destruct (is_condemned_inbound fd s); [by wp_steps; apply live_step_refl|]. destruct hup; [by apply erase_condemn_ok|].
  destruct (outbound_map_ s !! fd) as [o|] eqn:Hs; [|by wp_steps; apply live_step_refl]. wp_steps.
  eapply wp_mono; [by apply (sendResponse_ok fd s o)|]. intros ok s1 (o1 & Em1 & S1 & _ & Hb & Ew & _).
  pose proof (st_inv _ _ S1) as Hinv1. assert (Hs1 : outbound_map_ s1 !! fd = Some o1) by (rewrite Em1; apply lookup_insert_eq).
  assert (L1 : live_step s s1).
  { split; [done|]. intros Hm. apply (marked_conn s s1 fd o o1); [done..|apply (st_condemned _ _ S1)|by left]. }
  destruct ok; cbn [negb].
  - wp_steps. unfold get_ostate. wp_steps. rewrite Hs1. wp_steps.
    destruct (_ && _); unfold when; [|by wp_steps].
    eapply wp_mono; [by apply disarm_ok|]. intros ? s2 S2. by apply (live_step_trans s s1).
  - unfold wp. rewrite condemn_outbound_eq by done.
    eapply wp_mono; [by apply let_go_live|]. intros ? s2 [S2 _]. by apply (live_step_trans s s1).
Qed.

Lemma for_each_ok {A} (f : A -> SM unit) (P : A -> Prop) l s :
  (forall x s, P x -> out_inv s -> wp (f x) (fun _ s' => live_step s s') s) -> Forall P l -> out_inv s ->
  wp (for_each f l) (fun _ s' => live_step s s') s.
Proof.
  intros Hf. revert s. induction l as [|x l IH]; intros s HP Hinv; simpl; wp_steps; [by apply live_step_refl|].
  inversion HP as [|? ? Hx Hl]; subst. eapply wp_mono; [by apply Hf|]. intros ? s1 S1.
  eapply wp_mono; [apply IH; [done|apply S1]|]. intros ? s2 S2. by apply (live_step_trans s s1).
Qed.

Lemma beginSends_ok s : out_inv s -> wp beginSends (fun _ s' => live_step s s') s.
Proof.
  intros Hinv. unfold beginSends. wp_steps. apply (for_each_ok _ (fun fd => 0 <= fd < FD_SLOTS)); [|
    apply Forall_forall; intros fd H; apply (oi_range s Hinv); by right|done].
  intros fd s1 Hfd Hi. by apply begin_send_ok.
Qed.

(** The scan of the close flags leaves what it does not delete. *)
Lemma disconnects_ok l s : out_inv s ->
  wp (for_each disconnect_outbound l) (fun _ s' => live_step s s' /\ outbound_map_ s' ⊆ outbound_map_ s) s.
Proof.
  revert s. induction l as [|fd l IH]; intros s Hinv; simpl; wp_steps; [split; [by apply live_step_refl|done]|].
  eapply wp_mono; [by apply disconnect_outbound_ok|]. intros ? s1 [S1 H1].
  eapply wp_mono; [apply IH, S1|]. intros ? s2 [S2 H2]. split; [by apply (live_step_trans s s1)|by etransitivity].
Qed.

(** * What routing does *)

(** Deliveries: messages with the descriptor they go to. *)
Definition delivery : Type := Z * OutboundMessage.
Definition pushes (l : list OutboundMessage) (o : OutboundState) : OutboundState :=
  foldl (fun o m => push_outbound m o) o l.
Definition to (fd : Z) (l : list delivery) : list OutboundMessage := snd <$> filter (fun x => x.1 = fd) l.

(** What the routing of one iteration delivers: the engine's messages with a route,
    then the inbound thread's errors. *)
Definition routed_messages (s : Server) (l : list OutboundMessage) : list delivery :=
  filter (fun x => 0 < x.1) ((fun m => (resolve m s, m)) <$> l).
Definition routed_errors (l : list PendingError) : list delivery := (fun pe => (pe_fd pe, error_message pe)) <$> l.
Definition deliveries (s : Server) : list delivery :=
  routed_messages s (contents (from_engine s)) ++ routed_errors (contents (error_channel_ s)).

(** The messages a connection gets: none once it is condemned. *)
Definition new_messages (s : Server) (fd : Z) (l : list delivery) : list OutboundMessage :=
  if is_condemned_inbound fd s then [] else to fd l.

Record routed (l : list delivery) (s s' : Server) : Prop := {
  ro_map fd : outbound_map_ s' !! fd = pushes (new_messages s fd l) <$> (outbound_map_ s !! fd);
  ro_writable fd : fd ∈ writable_fds_ s' -> fd ∈ writable_fds_ s \/ is_Some (outbound_map_ s !! fd);
  ro_marks fd : fd ∈ writable_fds_ s -> fd ∈ writable_fds_ s';
  ro_new fd : new_messages s fd l <> [] -> is_Some (outbound_map_ s !! fd) -> fd ∈ writable_fds_ s';
  ro_same : condemned_inbound_ s' = condemned_inbound_ s /\ condemned_outbound_ s' = condemned_outbound_ s /\
    client_map_ s' = client_map_ s /\ inbound_map_ s' = inbound_map_ s /\ os s' = os s /\ latency_ s' = latency_ s
}.

Lemma to_app fd l1 l2 : to fd (l1 ++ l2) = to fd l1 ++ to fd l2.
Proof. unfold to. by rewrite filter_app, fmap_app. Qed.

Lemma pushes_app l1 l2 o : pushes (l1 ++ l2) o = pushes l2 (pushes l1 o).
Proof. apply foldl_app. Qed.

Lemma pushes_fields l o : staging_ (pushes l o) = push_all l (staging_ o) /\
  write_buf_ (pushes l o) = write_buf_ o /\ latency_batch_ (pushes l o) = latency_batch_ o.
Proof. revert o. induction l as [|m l IH]; intros o; [done|]. exact (IH (push_outbound m o)). Qed.

Lemma is_condemned_same fd s s' : condemned_inbound_ s' = condemned_inbound_ s ->
  is_condemned_inbound fd s' = is_condemned_inbound fd s.
Proof. unfold is_condemned_inbound. by intros ->. Qed.

Lemma routed_nil s s' : outbound_map_ s' = outbound_map_ s -> writable_fds_ s' = writable_fds_ s ->
  (condemned_inbound_ s' = condemned_inbound_ s /\ condemned_outbound_ s' = condemned_outbound_ s /\
   client_map_ s' = client_map_ s /\ inbound_map_ s' = inbound_map_ s /\ os s' = os s /\ latency_ s' = latency_ s) ->
  routed [] s s'.
Proof.
  intros E1 E2 E3. assert (Hnew : forall fd, new_messages s fd [] = []) by (intros fd; unfold new_messages; by case_match).
  constructor; [|rewrite E2; by left|by rewrite E2|intros fd; by rewrite Hnew|done].
  intros fd. rewrite E1, Hnew. by destruct (outbound_map_ s !! fd).
Qed.

Lemma routed_trans l1 l2 s1 s2 s3 : routed l1 s1 s2 -> routed l2 s2 s3 -> routed (l1 ++ l2) s1 s3.
Proof.
  intros [A1 A2 A9 A10 (A3 & A4 & A5 & A6 & A7 & A8)] [B1 B2 B9 B10 (B3 & B4 & B5 & B6 & B7 & B8)]. constructor.
  - intros fd. rewrite B1, A1. unfold new_messages. rewrite (is_condemned_same fd s1 s2) by done.
    destruct (is_condemned_inbound fd s1), (outbound_map_ s1 !! fd); try done.
    simpl. by rewrite to_app, pushes_app.
  - intros fd [H|[o H]]%B2; [by apply A2|]. rewrite A1 in H. destruct (outbound_map_ s1 !! fd); [by right; eexists|done].
  - auto.
  - intros fd Hn Hs. specialize (A10 fd). specialize (B10 fd). unfold new_messages in Hn, A10, B10.
    rewrite (is_condemned_same fd s1 s2) in B10 by done. destruct (is_condemned_inbound fd s1) eqn:Hc; [done|]. rewrite to_app in Hn.
    destruct (to fd l1) as [|m l] eqn:E1.
    + apply B10; [done|]. rewrite A1. destruct Hs as [o ->]. by eexists.
    + by apply B9, A10.
  - split_and!; congruence.
Qed.

Lemma push_to_ok fd m s : 0 <= fd < FD_SLOTS ->
  exists s', push_to fd m s = Ok (tt, s') /\ routed [(fd, m)] s s' /\
    from_engine s' = from_engine s /\ error_channel_ s' = error_channel_ s.
Proof.
  intros Hfd. unfold push_to, mbind, M_bind, get. rewrite check_fd_ok by done.
  assert (Hskip : is_condemned_inbound fd s = true \/ outbound_map_ s !! fd = None -> routed [(fd, m)] s s).
  { intros Hc. constructor; [|by left|done| |done].
    2: { intros f Hn [o Ho]. exfalso. apply Hn. unfold new_messages, to. rewrite filter_cons. cbn [fst].
         destruct (decide (fd = f)) as [->|]; [destruct Hc as [-> |]; [done|congruence]|]. by destruct (is_condemned_inbound f s). }
    intros f. unfold new_messages, to. rewrite filter_cons. cbn [fst].
    destruct (decide (fd = f)) as [->|Hne]; [destruct Hc as [->| ->]; [|by destruct (is_condemned_inbound f s)]|];
      destruct (outbound_map_ s !! f); try done. by destruct (is_condemned_inbound f s). }
  destruct (is_condemned_inbound fd s) eqn:Hc; [exists s; split_and!; [done|apply Hskip; by left|done..]|].
  destruct (outbound_map_ s !! fd) as [o|] eqn:Ho; [|exists s; split_and!; [done|apply Hskip; by right|done..]].
  clear Hskip. eexists. split; [reflexivity|]. split_and!; [|done..]. constructor; [|..|done].
  - intros f. unfold new_messages, to. rewrite filter_cons. cbn [fst outbound_map_ set_outbound_map set_writable].
    destruct (decide (fd = f)) as [<-|Hne].
    + by rewrite lookup_insert_eq, Hc, Ho.
    + rewrite lookup_insert_ne by done. destruct (outbound_map_ s !! f); [|done]. by destruct (is_condemned_inbound f s).
  - intros f. cbn. case_decide as Hd; [by left|]. intros [->|H]%elem_of_cons; [right; by exists o|by left].
  - intros f Hf. cbn. case_decide; [done|by right].
  - intros f Hn _. cbn. assert (f = fd) as ->; [|case_decide; [done|by left]].
    unfold new_messages, to in Hn. rewrite filter_cons in Hn. cbn [fst] in Hn.
    destruct (decide (fd = f)) as [|Hne]; [done|]. by destruct (is_condemned_inbound f s).
Qed.

(** Every route leads to a slot of the arrays: the values of the map are accepted
    descriptors, or -1. *)
Definition routes_ok (s : Server) : Prop := forall c fd, client_map_ s !! c = Some fd -> fd < FD_SLOTS.

Lemma route_message_ok m s : routes_ok s ->
  exists s', route_message m (resolve m s) s = Ok (tt, s') /\ routed (routed_messages s [m]) s s' /\
    from_engine s' = from_engine s /\ error_channel_ s' = error_channel_ s.
Proof.
  intros Hr. unfold route_message, routed_messages. cbn [fmap list_fmap]. rewrite filter_cons. cbn [fst].
  destruct (Z.ltb_spec 0 (resolve m s)) as [H|H].
  - rewrite decide_True by done. apply push_to_ok. split; [lia|]. unfold resolve in *.
    destruct (client_map_ s !! out_client_id m) as [fd|] eqn:E; [|lia].
    destruct (Z.ltb_spec 0 fd); [by apply (Hr (out_client_id m))|lia].
  - rewrite decide_False by lia. exists s. split_and!; try done. by apply routed_nil.
Qed.

Lemma pop_resolved_ok s : ring_ok (from_engine s) ->
  exists r, ring_ok r /\ contents r = tail (contents (from_engine s)) /\
    pop_resolved s = Ok ((fun m => (m, resolve m s)) <$> head (contents (from_engine s)), set_from_engine r s).
Proof.
  intros Hr. unfold pop_resolved, pop_from_engine, mbind, M_bind, get.
  destruct (contents (from_engine s)) as [|m l] eqn:E.
  - rewrite pop_empty by done. exists (from_engine s). by rewrite E.
  - destruct (pop_cons _ m l Hr E) as (r & Epop & H1 & _ & H2). rewrite Epop. by exists r.
Qed.

Lemma resolve_same m s s' : client_map_ s' = client_map_ s -> resolve m s' = resolve m s.
Proof. unfold resolve. by intros ->. Qed.

Lemma routed_messages_same s s' l : client_map_ s' = client_map_ s -> routed_messages s' l = routed_messages s l.
Proof.
  intros E. unfold routed_messages. f_equal. apply list_fmap_ext. intros i m _. f_equal. by apply resolve_same.
Qed.

Lemma routed_messages_cons s m l : routed_messages s (m :: l) = routed_messages s [m] ++ routed_messages s l.
Proof. unfold routed_messages. by rewrite <- filter_app. Qed.

Lemma routed_pop s r l s' : routed l (set_from_engine r s) s' -> routed l s s'.
Proof. intros H. apply (routed_trans [] l s (set_from_engine r s)); [by apply routed_nil|done]. Qed.

(** A ring that has been emptied. *)
Definition drained {T : Type} `{Inhabited T} (r : RingBuffer T) : Prop := ring_ok r /\ contents r = [].

(** The look-ahead pipeline routes the messages one after the other. *)
Lemma route_loop_ok l m s fuel : routes_ok s -> ring_ok (from_engine s) -> contents (from_engine s) = l ->
  (length l + 2 <= fuel)%nat ->
  wp (loop fuel route_current (Some (m, resolve m s))) (fun _ s' => routed (routed_messages s (m :: l)) s s' /\
    drained (from_engine s') /\ error_channel_ s' = error_channel_ s) s.
Proof.
  revert m s fuel. induction l as [|m2 l IH]; intros m s fuel Hr Hok Hc Hfuel; (destruct fuel as [|fuel]; [simpl in *; lia|]).
  - cbn [loop route_current]. wp_steps. destruct (pop_resolved_ok s Hok) as (r & R1 & R2 & R3). rewrite Hc in R2, R3.
    apply (wp_intro _ _ _ _ _ R3). wp_steps.
    destruct (route_message_ok m (set_from_engine r s) Hr) as (s1 & E1 & E2 & E3 & E4).
    apply (wp_intro _ _ _ tt s1 E1). wp_steps. destruct fuel; [simpl in *; lia|]. cbn [loop route_current fmap option_fmap option_map head].
    wp_steps. split_and!; [by apply (routed_pop s r)|by rewrite E3; split|by rewrite E4].
  - cbn [loop route_current]. wp_steps. destruct (pop_resolved_ok s Hok) as (r & R1 & R2 & R3). rewrite Hc in R2, R3.
    apply (wp_intro _ _ _ _ _ R3). wp_steps.
    destruct (route_message_ok m (set_from_engine r s) Hr) as (s1 & E1 & E2 & E3 & E4).
    apply (wp_intro _ _ _ tt s1 E1). wp_steps. cbn [fmap option_fmap option_map head].
    assert (Hcm : client_map_ s1 = client_map_ s) by apply E2.
    rewrite <- (resolve_same m2 s s1 Hcm).
    eapply wp_mono; [apply (IH m2 s1 fuel)|].
    + unfold routes_ok. by rewrite Hcm.
    + by rewrite E3.
    + by rewrite E3.
    + simpl in Hfuel. lia.
    + intros ? s2 (F1 & F2 & F3). rewrite (routed_messages_same s s1) in F1 by done.
      split_and!; [|done|by rewrite F3, E4]. rewrite routed_messages_cons.
      apply (routed_trans _ _ s s1); [by apply (routed_pop s r)|done].
Qed.

Lemma drain_error_ok s : ring_ok (error_channel_ s) ->
  Forall (fun pe => 0 <= pe_fd pe < FD_SLOTS) (contents (error_channel_ s)) ->
  match contents (error_channel_ s) with
  | [] => drain_error tt s = Ok (inr tt, set_error_channel (error_channel_ s) s)
  | pe :: l => exists s1, drain_error tt s = Ok (inl tt, s1) /\ routed (routed_errors [pe]) s s1 /\
      from_engine s1 = from_engine s /\ ring_ok (error_channel_ s1) /\ contents (error_channel_ s1) = l
  end.
Proof.
  intros Hok Hfd. unfold drain_error, pop_error, mbind, M_bind, get.
  destruct (contents (error_channel_ s)) as [|pe l] eqn:Hc; [by rewrite pop_empty|].
  destruct (pop_cons _ pe l Hok Hc) as (r & E & H1 & _ & H2). rewrite E. unfold modify. cbn [mret M_ret].
  inversion Hfd as [|? ? Hpe Hl]; subst.
  destruct (push_to_ok (pe_fd pe) (error_message pe) (set_error_channel r s) Hpe) as (s1 & E1 & E2 & E3 & E4).
  rewrite E1. exists s1. split_and!; [done| |done|by rewrite E4|by rewrite E4].
  apply (routed_trans [] _ s (set_error_channel r s)); [by apply routed_nil|done].
Qed.

Lemma error_loop_ok l s fuel : ring_ok (error_channel_ s) -> contents (error_channel_ s) = l ->
  Forall (fun pe => 0 <= pe_fd pe < FD_SLOTS) l -> (length l < fuel)%nat ->
  wp (loop fuel drain_error tt) (fun _ s' => routed (routed_errors l) s s' /\
    from_engine s' = from_engine s /\ drained (error_channel_ s')) s.
Proof.
  revert s fuel. induction l as [|pe l IH]; intros s fuel Hok Hc Hfd Hfuel; (destruct fuel as [|fuel]; [simpl in *; lia|]);
    pose proof (drain_error_ok s Hok) as H; rewrite Hc in H; specialize (H Hfd); cbn [loop]; apply wp_bind.
  - apply (wp_intro _ _ _ _ _ H). wp_steps. split_and!; [by apply routed_nil|done|by split].
  - destruct H as (s1 & E & E1 & E2 & E3 & E4). apply (wp_intro _ _ _ _ _ E).
    inversion Hfd as [|? ? Hpe Hl]; subst.
    eapply wp_mono; [apply (IH s1 fuel); [done|done|done|simpl in Hfuel; lia]|].
    intros ? s2 (F1 & F2 & F3). split_and!; [|by rewrite F2|done].
    by apply (routed_trans [(pe_fd pe, error_message pe)] _ s s1).
Qed.

Lemma routeOutboundMessages_ok s : routes_ok s -> ring_ok (from_engine s) -> ring_ok (error_channel_ s) ->
  Forall (fun pe => 0 <= pe_fd pe < FD_SLOTS) (contents (error_channel_ s)) ->
  wp routeOutboundMessages (fun _ s' => routed (deliveries s) s s' /\ drained (from_engine s') /\
    drained (error_channel_ s')) s.
Proof.
  intros Hr Hok Hoke Hfd. unfold routeOutboundMessages. wp_steps.
  destruct (pop_resolved_ok s Hok) as (r & R1 & R2 & R3). apply (wp_intro _ _ _ _ _ R3). wp_steps.
  rewrite (ring_size_contents _ Hok), (ring_size_contents _ Hoke), !Nat2Z.id.
  assert (Hfirst : wp (loop (S (length (contents (from_engine s)))) route_current
      ((fun m => (m, resolve m s)) <$> head (contents (from_engine s))))
    (fun _ s' => routed (routed_messages s (contents (from_engine s))) s s' /\ drained (from_engine s') /\
                 error_channel_ s' = error_channel_ s) (set_from_engine r s)).
  { destruct (contents (from_engine s)) as [|m l] eqn:E; cbn [head fmap option_fmap option_map].
    - cbn [loop route_current length]. wp_steps. split_and!; [by apply routed_nil|by split|done].
    - eapply wp_mono; [apply (route_loop_ok l m (set_from_engine r s)); [done|done|done|simpl; lia]|].
      intros ? s1 (F1 & F2 & F3). split_and!; [by apply (routed_pop s r)|done|done]. }
  eapply wp_mono; [exact Hfirst|]. intros ? s1 (F1 & F2 & F3).
  eapply wp_mono; [apply (error_loop_ok (contents (error_channel_ s)) s1); rewrite ?F3; try done; lia|].
  intros ? s2 (G1 & G2 & G3). split_and!; [by apply (routed_trans _ _ s s1)|by rewrite G2|done].
Qed.

(** What fits the staging ring: the rest is dropped, as [push]'s result is ignored. *)
Definition accepted (o : OutboundState) (l : list OutboundMessage) : list OutboundMessage :=
  take (Z.to_nat (RINGBUF_SIZE - 1) - length (staged o)) l.

Lemma staged_bound o : out_ok o -> (length (staged o) <= Z.to_nat (RINGBUF_SIZE - 1))%nat.
Proof.
  intros Ho. pose proof (length_contents _ (oo_staging o Ho)) as H1.
  pose proof (used_bounds _ (oo_staging o Ho)) as H2. rewrite (oo_size o Ho) in H2.
  unfold staged, RINGBUF_SIZE in *. lia.
Qed.

Lemma pushes_ok l o : out_ok o -> out_ok (pushes l o) /\ backlog (pushes l o) = backlog o ++ concat (frame_of <$> accepted o l).
Proof.
  intros Ho. destruct (pushes_fields l o) as (E1 & E2 & E3).
  destruct (push_all_contents l (staging_ o) (oo_staging o Ho)) as (P1 & P2 & P3).
  split.
  - constructor; rewrite ?E1, ?E2, ?E3; try apply Ho; [done|]. rewrite P2. apply Ho.
  - unfold backlog, staged at 1. rewrite E1, E2, P3, (oo_size o Ho), take_app.
    pose proof (staged_bound o Ho) as Hb. unfold staged in Hb. rewrite (take_ge (contents (staging_ o))) by done.
    rewrite fmap_app, concat_app, app_assoc. done.
Qed.

Lemma routed_inv l s s' : out_inv s -> routed l s s' -> out_inv s'.
Proof.
  intros [H1 H2] [R1 R2 _ _ _]. constructor.
  - intros fd o' H. rewrite R1 in H. destruct (outbound_map_ s !! fd) as [o|] eqn:E; [|done].
    injection H as <-. by apply pushes_ok, (H1 fd).
  - intros fd [[o' H]|H]; apply H2.
    + left. rewrite R1 in H. destruct (outbound_map_ s !! fd); [by eexists|done].
    + destruct (R2 fd H); [by right|by left].
Qed.

Lemma deliveries_same s s' : client_map_ s' = client_map_ s -> from_engine s' = from_engine s ->
  error_channel_ s' = error_channel_ s -> deliveries s' = deliveries s.
Proof. intros E1 E2 E3. unfold deliveries. by rewrite E2, E3, (routed_messages_same s s'). Qed.

Definition with_new (s : Server) (fd : Z) (o : OutboundState) : list Z :=
  stream fd s o ++ concat (frame_of <$> accepted o (new_messages s fd (deliveries s))).

(** The streams after the scan and the routing. *)
Lemma scan_route_stream s s1 s2 fd o : out_inv s -> out_step s s1 -> outbound_map_ s1 ⊆ outbound_map_ s ->
  routed (deliveries s1) s1 s2 -> outbound_map_ s !! fd = Some o ->
  (exists o2, outbound_map_ s2 !! fd = Some o2 /\ stream fd s2 o2 = with_new s fd o) \/
  outbound_map_ s2 !! fd = None /\ fd ∈ condemned_outbound_ s2 /\ bytes_of fd (os s2) `prefix_of` with_new s fd o.
Proof.
  intros Hinv [_ Hk [Hc _] (F1 & F2 & F3 & F4)] Hsub [R1 R2 _ _ (R3 & R4 & R5 & R6 & R7 & R8)] Hs.
  specialize (Hk fd). unfold kept in Hk. rewrite Hs in Hk. unfold with_new.
  destruct Hk as [(o1 & H1 & Hst)|(H1 & H2 & H3)].
  - assert (o1 = o) as -> by (eapply lookup_weaken in H1; [|done]; congruence).
    left. rewrite R1, H1. eexists. split; [reflexivity|]. unfold stream at 1.
    destruct (pushes_ok (new_messages s1 fd (deliveries s1)) o) as [_ ->]; [by apply (oi_conn s Hinv fd)|].
    rewrite app_assoc, R7. change (bytes_of fd (os s1) ++ backlog o) with (stream fd s1 o). rewrite Hst.
    unfold new_messages. rewrite (is_condemned_same fd s s1 Hc), (deliveries_same s s1) by done. done.
  - right. rewrite R1, H1, R4, R7. split_and!; [done|done|by apply prefix_app_r].
Qed.

Lemma routed_marked l s s' : out_inv s -> routed l s s' -> marked s -> marked s'.
Proof.
  intros Hinv [R1 _ R2 R3 (R4 & _)] Hm fd o' Hs Hc Hb. rewrite R1 in Hs. rewrite R4 in Hc.
  destruct (outbound_map_ s !! fd) as [o|] eqn:E; [|done]. injection Hs as <-.
  destruct (decide (backlog o = [])) as [Hz|Hnz]; [|by apply R2, (Hm fd o)].
  apply R3; [|by eexists]. intros Hn. apply Hb. rewrite Hn. done.
Qed.

(** The state the outbound thread's iteration starts from. *)
Record outbound_ready (s : Server) : Prop := {
  or_inv : out_inv s;
  or_routes : routes_ok s;
  or_rings : ring_ok (from_engine s) /\ ring_ok (error_channel_ s);
  or_errors : Forall (fun pe => 0 <= pe_fd pe < FD_SLOTS) (contents (error_channel_ s))
}.

Lemma serve_iteration_ok s events : outbound_ready s -> Forall (fun ev : Z * bool => 0 <= ev.1 < FD_SLOTS) events ->
  wp (serve_responses_once events) (fun _ s' => exists s1 s2, out_step s s1 /\ outbound_map_ s1 ⊆ outbound_map_ s /\
    routed (deliveries s1) s1 s2 /\ out_step s2 s' /\ (marked s -> marked s') /\
    drained (from_engine s') /\ drained (error_channel_ s')) s.
Proof.
  intros [Hinv Hr [Hok Hoke] Hpe] Hev. unfold serve_responses_once, handleDisconnectsOutbound. wp_steps.
  eapply wp_mono; [by apply disconnects_ok|]. intros ? s1 [[S1 M1] Hsub].
  pose proof S1 as [Hinv1 _ _ (F1 & F2 & F3 & _)]. wp_steps.
  eapply wp_mono; [apply (routeOutboundMessages_ok s1); unfold routes_ok; by rewrite ?F1, ?F2, ?F3|].
  intros ? s2 (R & C1 & C2). pose proof (routed_inv _ _ _ Hinv1 R) as Hinv2. wp_steps.
  eapply wp_mono; [by apply beginSends_ok|]. intros ? s3 S3.
  eapply wp_mono; [apply (for_each_ok handle_event_out (fun ev => 0 <= ev.1 < FD_SLOTS)); [by apply handle_event_out_ok|done|apply S3]|].
  intros ? s4 S4. destruct (live_step_trans _ _ _ S3 S4) as [S24 M24]. exists s1, s2.
  pose proof S24 as [_ _ _ (_ & G2 & G3 & _)]. split_and!; try done; [|by rewrite G2|by rewrite G3].
  intros Hm. by apply M24, (routed_marked _ _ _ Hinv1 R), M1.
Qed.

(** C12. The stream of responses.  In one iteration of the outbound thread (close scan,
    routing with look-ahead, sends that may be partial or refused at any byte, writable
    events) each connection's stream - what its socket has taken, then the buffered
    frames, then the staged messages - is extended by exactly the frames of the
    messages routed to it, in order, up to the capacity of its staging ring: no byte
    is lost, repeated or reordered; a connection that is let go has been sent a
    prefix.  The rings are drained, and no step faults. *)
Theorem responses_in_order s events :
  outbound_ready s -> Forall (fun ev : Z * bool => 0 <= ev.1 < FD_SLOTS) events ->
  wp (serve_responses_once events) (fun _ s' => out_inv s' /\
    contents (from_engine s') = [] /\ contents (error_channel_ s') = [] /\
    forall fd o, outbound_map_ s !! fd = Some o ->
      (exists o', outbound_map_ s' !! fd = Some o' /\ stream fd s' o' = with_new s fd o) \/
      outbound_map_ s' !! fd = None /\ fd ∈ condemned_outbound_ s' /\
        bytes_of fd (os s') `prefix_of` with_new s fd o) s.
Proof.
  intros Hready Hev. eapply wp_mono; [by apply serve_iteration_ok|].
  intros ? s4 (s1 & s2 & S1 & Hsub & R & [Hinv4 Hk [_ Hmono] _] & _ & [_ G1] & [_ G2]). split_and!; try done.
  intros fd o Hs. specialize (Hk fd). unfold kept in Hk.
  destruct (scan_route_stream s s1 s2 fd o (or_inv s Hready) S1 Hsub R Hs) as [(o2 & E2 & Hst)|(E2 & E3 & E4)]; rewrite E2 in Hk.
  - by rewrite Hst in Hk.
  - right. destruct Hk as [-> ->]. split_and!; [done|set_solver|done].
Qed.

(** C31. No connection with work is forgotten: if every live connection with buffered bytes
    or staged messages is in [writable_fds_] before an iteration of the outbound
    thread, so is every one after it, so [beginSends] visits it again - whatever the
    sockets answered, and although EPOLLOUT may never have been armed. *)
Theorem no_response_forgotten s events :
  outbound_ready s -> Forall (fun ev : Z * bool => 0 <= ev.1 < FD_SLOTS) events -> marked s ->
  wp (serve_responses_once events) (fun _ s' => out_inv s' /\ forall fd o, outbound_map_ s' !! fd = Some o ->
    fd ∉ condemned_inbound_ s' -> backlog o <> [] -> fd ∈ writable_fds_ s') s.
Proof.
  intros Hready Hev Hm. eapply wp_mono; [by apply serve_iteration_ok|].
  intros ? s4 (s1 & s2 & _ & _ & _ & [Hinv4 _ _ _] & Hm4 & _). split; [done|by apply Hm4].
Qed.

Lemma outbound_init_ok : out_ok outbound_state_init.
Proof.
  constructor; try reflexivity; [constructor; vm_compute; lia|]. exact (ring_init_ok 6 ltac:(lia)).
Qed.

(** Client 7 is on descriptor 5: one acknowledgement from the engine and one error; the
    socket takes 10 bytes, refuses once, then takes 100. *)
Definition sample_response_server : Server :=
  set_client_map {[7 := 5]} (set_from_engine (push_all [mkOutbound 9 0 0 0 0 3 7 NEW SUCCESS NONE] (ring_init 8))
    (set_error_channel (push_all [mkPendingError 5 INVALID_ORDER] (ring_init 8))
      (set_outbound_map {[5 := outbound_state_init]}
        (server_init (ring_init 8) (ring_init 8)
          (mkKernel ∅ {[5 := [Sent 10; SendError EAGAIN; Sent 100]]} [] (errno_other 0) [1000; 2000] [] ∅ ∅ [] ∅))))).

Lemma sample_ready : outbound_ready sample_response_server.
Proof.
  assert (H5 : 0 <= 5 < FD_SLOTS) by (vm_compute; split; congruence).
  constructor.
  - constructor.
    + intros fd o H. apply (proj1 (lookup_singleton_Some 5 fd outbound_state_init o)) in H as [_ <-].
      exact outbound_init_ok.
    + intros fd [[o H]|H]; [|by apply elem_of_nil in H].
      apply (proj1 (lookup_singleton_Some 5 fd outbound_state_init o)) in H as [<- _]. exact H5.
  - intros c fd H. apply (proj1 (lookup_singleton_Some 7 c 5 fd)) in H as [_ <-]. apply H5.
  - split; apply push_all_contents; exact (ring_init_ok 3 ltac:(lia)).
  - vm_compute. constructor; [split; congruence|constructor].
Qed.

Lemma responses_in_order_witness :
  wp (serve_responses_once [(5, false)]) (fun _ s' => out_inv s' /\ contents (from_engine s') = [])
    sample_response_server /\
  match serve_responses_once [(5, false)] sample_response_server with
  | Ok (_, s') => latency_ s' = [mkSample 9 1000] /\ bytes_of 5 (os s') =
      frame_of (mkOutbound 9 0 0 0 0 3 7 NEW SUCCESS NONE) ++ frame_of (error_message (mkPendingError 5 INVALID_ORDER))
  | Err _ => False
  end.
Proof.
  split; [|vm_compute; split; reflexivity].
  eapply wp_mono.
  - apply (responses_in_order sample_response_server [(5, false)]); [exact sample_ready|].
    constructor; [vm_compute; split; congruence|constructor].
  - intros ? s' (H1 & H2 & _). split; [exact H1|exact H2].
Defined.

Lemma no_response_forgotten_witness :
  wp (serve_responses_once []) (fun _ s' => out_inv s') sample_response_server /\
  match serve_responses_once [] sample_response_server with
  | Ok (_, s') => writable_fds_ s' = [5] /\ length (bytes_of 5 (os s')) = 10%nat
  | Err _ => False
  end.
Proof.
  split; [|vm_compute; split; reflexivity].
  eapply wp_mono.
  - apply (no_response_forgotten sample_response_server []); [exact sample_ready|constructor|].
    intros fd o H _ Hb. apply (proj1 (lookup_singleton_Some 5 fd outbound_state_init o)) in H as [_ <-].
    exfalso. apply Hb. vm_compute. reflexivity.
  - intros ? s' (H1 & _). exact H1.
Defined.
