(* ===== verification/Close.v ===== *)
(** The two-phase close of a connection ([exchange/server/src/server.cpp]:
    [registerConnections], [handleDisconnectsInbound], [handleDisconnectsOutbound],
    [condemnConnection] and the guards of the outbound thread) as steps of two threads
    on one descriptor.

    A step is one access to shared state: a load or a store of a flag, a test or a change
    of an [optional].  Accesses interleave in any order, each seen by the other thread at
    once; the weaker orders that the relaxed loads permit add behaviours, so the bad
    executions shown here exist in the program, and the invariant is proved for
    sequentially consistent executions.

    Connections that use the descriptor one after the other are numbered; [doomed] and
    [destroyed] are history: the connections that some thread decided to close, and those
    whose outbound half was destroyed. *)

From S2P Require Import Prelude Types Ring Protocol Buffer ServerState Gateway Responder.

(** * The protocol *)

Inductive inbound_pc : Set :=
  | IIdle
  (* registerConnections: condemned_inbound_ cleared; condemned_outbound_ cleared;
     outbound_map_ emplaced *)
  | IAccept1 | IAccept2 | IAccept3
  (* handleDisconnectsInbound: condemned_outbound_ seen; inbound_map_ reset;
     condemned_inbound_ cleared *)
  | IScanned | IClosed | ICleared.

Inductive outbound_pc : Set :=
  | OIdle
  (* handleDisconnectsOutbound: condemned_inbound_ seen *)
  | OScan
  (* push_outbound, beginSends, an event: condemned_inbound_ seen false; has_value seen *)
  | OCheck | OUsing
  (* a hang-up event; outbound_map_ reset, condemned_outbound_ still to be set *)
  | OHup | ODropped.

Record Conn : Set := mkConn {
  cond_in : bool;
  cond_out : bool;
  inb : option nat;
  outb : option nat;
  armed : bool;
  ipc : inbound_pc;
  opc : outbound_pc;
  next_gen : nat;
  doomed : list nat;
  destroyed : list nat
}.

Definition held_by (o : option nat) : list nat := match o with Some g => [g] | None => [] end.

Inductive close_step : Conn -> Conn -> Prop :=
  (* condemned_inbound_[fd].store(false) *)
  | accept_flag_in ci co ou ar op n d x :
      close_step (mkConn ci co None ou ar IIdle op n d x) (mkConn false co None ou ar IAccept1 op n d x)
  (* condemned_outbound_[fd].store(false) *)
  | accept_flag_out ci co i ou ar op n d x :
      close_step (mkConn ci co i ou ar IAccept1 op n d x) (mkConn ci false i ou ar IAccept2 op n d x)
  (* outbound_map_[fd].emplace() *)
  | accept_outbound ci co i ou ar op n d x :
      close_step (mkConn ci co i ou ar IAccept2 op n d x) (mkConn ci co i (Some n) ar IAccept3 op n d x)
  (* inbound_map_[fd].emplace(client_sock) *)
  | accept_inbound ci co i ou ar op n d x :
      close_step (mkConn ci co i ou ar IAccept3 op n d x) (mkConn ci co (Some n) ou ar IIdle op (S n) d x)
  (* condemnConnection(fd, true), and the hang-up event of the inbound thread *)
  | condemn_inbound ci co g ou ar op n d x :
      close_step (mkConn ci co (Some g) ou ar IIdle op n d x) (mkConn true co (Some g) ou ar IIdle op n (g :: d) x)
  (* condemned_outbound_[fd].load(), istate.has_value() *)
  | scan_in_load ci g ou ar op n d x :
      close_step (mkConn ci true (Some g) ou ar IIdle op n d x) (mkConn ci true (Some g) ou ar IScanned op n d x)
  (* istate.reset(): close(fd) *)
  | scan_in_close ci co i ou ar op n d x :
      close_step (mkConn ci co i ou ar IScanned op n d x) (mkConn ci co None ou ar IClosed op n d x)
  (* condemned_inbound_[fd].store(false) *)
  | scan_in_clear_in ci co i ou ar op n d x :
      close_step (mkConn ci co i ou ar IClosed op n d x) (mkConn false co i ou ar ICleared op n d x)
  (* condemned_outbound_[fd].store(false) *)
  | scan_in_clear_out ci co i ou ar op n d x :
      close_step (mkConn ci co i ou ar ICleared op n d x) (mkConn ci false i ou ar IIdle op n d x)
  (* condemned_inbound_[fd].load() in the outbound scan *)
  | scan_out_load co i ou ar ip n d x :
      close_step (mkConn true co i ou ar ip OIdle n d x) (mkConn true co i ou ar ip OScan n d x)
  (* !ostate.has_value() *)
  | scan_out_skip ci co i ar ip n d x :
      close_step (mkConn ci co i None ar ip OScan n d x) (mkConn ci co i None ar ip OIdle n d x)
  (* epoll_ctrl(DEL), ostate.reset() *)
  | scan_out_reset ci co i g ar ip n d x :
      close_step (mkConn ci co i (Some g) ar ip OScan n d x) (mkConn ci co i None false ip ODropped n d (g :: x))
  (* condemned_outbound_[fd].store(true) *)
  | drop_store ci co i ou ar ip n d x :
      close_step (mkConn ci co i ou ar ip ODropped n d x) (mkConn ci true i ou ar ip OIdle n d x)
  (* condemned_inbound_[fd].load() before a use *)
  | use_load co i ou ar ip n d x :
      close_step (mkConn false co i ou ar ip OIdle n d x) (mkConn false co i ou ar ip OCheck n d x)
  (* !ostate.has_value() *)
  | use_skip ci co i ar ip n d x :
      close_step (mkConn ci co i None ar ip OCheck n d x) (mkConn ci co i None ar ip OIdle n d x)
  (* ostate.has_value() *)
  | use_check ci co i g ar ip n d x :
      close_step (mkConn ci co i (Some g) ar ip OCheck n d x) (mkConn ci co i (Some g) ar ip OUsing n d x)
  (* push_outbound, or a send that leaves EPOLLOUT armed or not *)
  | use_done ci co i ou ar ar' ip n d x :
      close_step (mkConn ci co i ou ar ip OUsing n d x) (mkConn ci co i ou ar' ip OIdle n d x)
  (* a fatal send error: condemnConnection(fd, false) *)
  | use_fail ci co i ou ar ip n d x :
      close_step (mkConn ci co i ou ar ip OUsing n d x) (mkConn ci co i None false ip ODropped n (held_by ou ++ d) (held_by ou ++ x))
  (* a hang-up event, only for an armed descriptor *)
  | hup_load co i ou ip n d x :
      close_step (mkConn false co i ou true ip OIdle n d x) (mkConn false co i ou true ip OHup n d x)
  | hup_reset ci co i ou ar ip n d x :
      close_step (mkConn ci co i ou ar ip OHup n d x) (mkConn ci co i None false ip ODropped n (held_by ou ++ d) (held_by ou ++ x)).

Definition close_init : Conn := mkConn false false None None false IIdle OIdle 0 [] [].
Definition close_reachable (c : Conn) : Prop := rtc close_step close_init c.

(** * Invariant *)

(** The inbound thread is between seeing the outbound flag and clearing it; it is
    accepting; the outbound thread works on the connection's outbound half. *)
Definition closing (p : inbound_pc) : bool := match p with IScanned | IClosed | ICleared => true | _ => false end.
Definition accepting (p : inbound_pc) : bool := match p with IAccept1 | IAccept2 | IAccept3 => true | _ => false end.
Definition cleared (p : inbound_pc) : bool := match p with IAccept2 => true | _ => false end.
Definition working (p : outbound_pc) : bool := match p with OUsing | OHup => true | _ => false end.
Definition dropped (p : outbound_pc) : bool := match p with ODropped => true | _ => false end.
Definition live (o : option nat) : bool := match o with Some _ => true | None => false end.

(** The connection is published: its outbound half is the outbound thread's. *)
Definition published (c : Conn) : bool :=
  match inb c, ipc c with Some _, IIdle => true | None, IAccept3 => true | _, _ => false end.

Definition close_ok (c : Conn) : bool :=
  implb (cond_out c) (negb (live (outb c)) && negb (dropped (opc c))) &&
  implb (closing (ipc c)) (cond_out c) &&
  implb (live (outb c)) (published c) &&
  implb (dropped (opc c)) (negb (live (outb c)) && published c) &&
  implb (working (opc c) || armed c) (live (outb c)) &&
  implb (accepting (ipc c)) (negb (live (inb c))) &&
  implb (cleared (ipc c)) (negb (cond_out c)).

Lemma close_step_ok c c' : close_step c c' -> close_ok c = true -> close_ok c' = true.
Proof.
  destruct 1; unfold close_ok, published; cbn;
    repeat match goal with
    | |- context [implb ?b _] => is_var b; destruct b; cbn
    | |- context [live ?o] => is_var o; destruct o; cbn
    | |- context [match ?o with Some _ => _ | None => _ end] => is_var o; destruct o; cbn
    | |- context [match ?p with IIdle => _ | _ => _ end] => is_var p; destruct p; cbn
    | |- context [closing ?p] => is_var p; destruct p; cbn
    | |- context [accepting ?p] => is_var p; destruct p; cbn
    | |- context [cleared ?p] => is_var p; destruct p; cbn
    | |- context [working ?p] => is_var p; destruct p; cbn
    | |- context [dropped ?p] => is_var p; destruct p; cbn
    | |- context [_ || ?b] => is_var b; destruct b; cbn
    | |- context [implb ?b] => is_var b; destruct b; cbn
    end; try done; try discriminate.
Qed.

Lemma close_reachable_ok c : close_reachable c -> close_ok c = true.
Proof.
  intros H. apply (rtc_ind_r (R := close_step) (fun c => close_ok c = true) close_init); [done| |exact H].
  intros c1 c2 _ Hs Hok. by apply (close_step_ok c1).
Qed.

(** One step of a run. *)
Tactic Notation "takes" constr(rule) := eapply rtc_l; [apply rule|].

(** * The handlers run the protocol *)

(** The descriptor's part of the server, between two handlers. *)
Record shows (s : Server) (fd : Z) (c : Conn) : Prop := {
  sh_in : fd ∈ condemned_inbound_ s <-> cond_in c = true;
  sh_out : fd ∈ condemned_outbound_ s <-> cond_out c = true;
  sh_inb : is_Some (inbound_map_ s !! fd) <-> live (inb c) = true;
  sh_outb : is_Some (outbound_map_ s !! fd) <-> live (outb c) = true;
  sh_armed : fd ∈ epollout_armed_ s <-> armed c = true;
  sh_idle : ipc c = IIdle /\ opc c = OIdle
}.

Lemma live_none {A} (m : gmap Z A) fd o : (is_Some (m !! fd) <-> live o = true) -> m !! fd = None -> o = None.
Proof. intros [_ H] E. destruct o; [|done]. destruct (H eq_refl). congruence. Qed.

Lemma live_some {A} (m : gmap Z A) fd o x : (is_Some (m !! fd) <-> live o = true) -> m !! fd = Some x -> exists g, o = Some g.
Proof. intros [H _] E. destruct o as [g|]; [by exists g|]. by specialize (H (mk_is_Some _ _ E)). Qed.

Lemma flag_set (fd : Z) (X : gset Z) : fd ∈ {[fd]} ∪ X <-> true = true.
Proof. split; [done|]. intros _. apply elem_of_union_l, elem_of_singleton. done. Qed.
Lemma flag_clear (fd : Z) (X : gset Z) : fd ∈ X ∖ {[fd]} <-> false = true.
Proof. split; [|done]. intros [_ H]%elem_of_difference. destruct H. by apply elem_of_singleton. Qed.
Lemma flag_off (fd : Z) (X : gset Z) : fd ∉ X -> fd ∈ X <-> false = true.
Proof. by intros H. Qed.
Lemma slot_gone {A} (m : gmap Z A) fd : is_Some (delete fd m !! fd) <-> false = true.
Proof. rewrite lookup_delete_eq. split; [by intros [? ?]|done]. Qed.
Lemma slot_set {A} (m : gmap Z A) fd x : is_Some (<[fd := x]> m !! fd) <-> true = true.
Proof. rewrite lookup_insert_eq. split; [done|by eexists]. Qed.
Lemma idle_pcs : IIdle = IIdle /\ OIdle = OIdle.
Proof. done. Qed.
#[export] Hint Resolve flag_set flag_clear flag_off slot_gone slot_set idle_pcs : exch.

(** The outbound thread lets go. *)
Lemma let_go_shows s fd c d x : shows s fd c ->
  wp (let_go fd) (fun _ s' => shows s' fd (mkConn (cond_in c) true (inb c) None false IIdle OIdle (next_gen c) d x)) s.
Proof.
  intros [H1 H2 H3 H4 H5 H6]. unfold let_go, erase_writable, disarm, epoll_out_set, with_kernel, store_condemned_outbound, when.
  wp_steps. cbn [epollout_armed_ set_writable].
  case_bool_decide as Ha; wp_steps; constructor; cbn; auto with exch.
Qed.

Lemma init_shows in_ring out_ring k fd : shows (server_init in_ring out_ring k) fd close_init.
Proof. constructor; cbn; rewrite ?lookup_empty; auto with exch; try (split; [by intros [? ?]|done]); by apply flag_off, not_elem_of_empty. Qed.

(** What a handler run alone does to the descriptor is a run of the protocol. *)
Definition follows {A : Type} (m : SM A) (fd : Z) : Prop := forall s c, shows s fd c ->
  wp m (fun _ s' => exists c', rtc close_step c c' /\ shows s' fd c') s.

Lemma follows_nothing s fd c : shows s fd c -> exists c', rtc close_step c c' /\ shows s fd c'.
Proof. intros H. exists c. split; [apply rtc_refl|done]. Qed.

Lemma disconnect_outbound_follows fd : follows (disconnect_outbound fd) fd.
Proof.
  intros s c H. unfold disconnect_outbound, is_condemned_inbound. wp_steps.
  case_bool_decide as Hci; cbn [negb]; [|wp_steps; by apply follows_nothing].
  destruct (outbound_map_ s !! fd) as [o|] eqn:E; [|wp_steps; by apply follows_nothing].
  pose proof H as [H1 H2 H3 H4 H5 [H6 H7]]. destruct (live_some _ _ _ _ H4 E) as [g Hg]. apply H1 in Hci.
  eapply wp_mono; [exact (let_go_shows s fd c (doomed c) (g :: destroyed c) H)|]. intros ? s' Hs'. eexists. split; [|exact Hs'].
  destruct c as [ci co i ou ar ip op n d x]. cbn in *. subst. takes scan_out_load. takes scan_out_reset. takes drop_store. apply rtc_refl.
Qed.

Lemma disconnect_inbound_follows fd : follows (disconnect_inbound fd) fd.
Proof.
  intros s c H. eapply wp_intro; [apply disconnect_inbound_run|].
  destruct (inbound_map_ s !! fd) as [i|] eqn:E; [|by apply follows_nothing].
  unfold is_condemned_outbound. case_bool_decide as Hco; [|by apply follows_nothing].
  destruct H as [H1 H2 H3 H4 H5 [H6 H7]]. destruct (live_some _ _ _ _ H3 E) as [g Hg]. apply H2 in Hco.
  exists (mkConn false false None (outb c) (armed c) IIdle OIdle (next_gen c) (doomed c) (destroyed c)). split.
  - destruct c as [ci co i' ou ar ip op n d x]. cbn in *. subst. takes scan_in_load. takes scan_in_close. takes scan_in_clear_in. takes scan_in_clear_out. apply rtc_refl.
  - constructor; cbn; auto with exch.
Qed.

(** The inbound thread gives up a connection it serves. *)
Lemma condemn_inbound_follows fd : (0 <= fd < FD_SLOTS)%Z ->
  forall s c, shows s fd c -> is_Some (inbound_map_ s !! fd) ->
  wp (condemnConnection fd true) (fun _ s' => exists c', rtc close_step c c' /\ shows s' fd c') s.
Proof.
  intros Hfd s c [H1 H2 H3 H4 H5 [H6 H7]] [st E]. destruct (live_some _ _ _ _ H3 E) as [g Hg].
  unfold condemnConnection. apply wp_bind, (wp_intro _ _ _ _ _ (check_fd_ok fd s Hfd)).
  unfold epoll_in_set, with_kernel, store_condemned_inbound. wp_steps.
  exists (mkConn true (cond_out c) (inb c) (outb c) (armed c) IIdle OIdle (next_gen c) (g :: doomed c) (destroyed c)). split.
  - destruct c as [ci co i' ou ar ip op n d x]. cbn in *. subst. takes condemn_inbound. apply rtc_refl.
  - constructor; cbn; auto with exch.
Qed.

(** The outbound thread gives up a connection it serves, after a fatal send error. *)
Lemma condemn_outbound_follows fd : (0 <= fd < FD_SLOTS)%Z ->
  forall s c, shows s fd c -> fd ∉ condemned_inbound_ s -> is_Some (outbound_map_ s !! fd) ->
  wp (condemnConnection fd false) (fun _ s' => exists c', rtc close_step c c' /\ shows s' fd c') s.
Proof.
  intros Hfd s c H Hci [o E]. pose proof H as [H1 H2 H3 H4 H5 [H6 H7]]. destruct (live_some _ _ _ _ H4 E) as [g Hg].
  assert (Hcf : cond_in c = false) by (destruct (cond_in c); [destruct Hci; by apply H1|done]).
  unfold wp at 1. rewrite condemn_outbound_eq by done.
  eapply wp_mono; [exact (let_go_shows s fd c (g :: doomed c) (g :: destroyed c) H)|]. intros ? s' Hs'. eexists. split; [|exact Hs'].
  destruct c as [ci co i ou ar ip op n d x]. cbn in *. subst. takes use_load. takes use_check. takes use_fail. takes drop_store. apply rtc_refl.
Qed.

(** A new connection on a free descriptor. *)
Lemma register_follows a : (0 <= acc_fd a < FD_SLOTS)%Z -> acc_nonblock a = true -> acc_epoll a = true ->
  forall s c, shows s (acc_fd a) c -> inbound_map_ s !! acc_fd a = None ->
  wp (register_one a) (fun _ s' => exists c', rtc close_step c c' /\ shows s' (acc_fd a) c') s.
Proof.
  intros Hfd Hn He s c [H1 H2 H3 H4 H5 [H6 H7]] E. pose proof (live_none _ _ _ H3 E) as Hi.
  unfold register_one. rewrite Hn, He. cbn [negb]. unfold epoll_in_set, with_kernel. wp_steps.
  apply (wp_intro _ _ _ _ _ (check_fd_ok _ _ Hfd)). unfold store_condemned_inbound, store_condemned_outbound, put_ostate, put_istate.
  wp_steps. exists (mkConn false false (Some (next_gen c)) (Some (next_gen c)) (armed c) IIdle OIdle (S (next_gen c)) (doomed c) (destroyed c)). split.
  - destruct c as [ci co i ou ar ip op n d x]. cbn in *. subst. takes accept_flag_in. takes accept_flag_out. takes accept_outbound. takes accept_inbound. apply rtc_refl.
  - constructor; cbn; auto with exch.
Qed.

(** * Properties *)

(** C13. A descriptor is closed, and its number is free for the next connection, only
    after the outbound thread has destroyed its half of the connection and while it
    works on none; a new outbound half never overwrites a live one; and the outbound
    thread never works on a half that is gone - in every interleaving of the two
    threads' accesses. *)
Theorem close_after_release c : close_reachable c ->
  (ipc c = IScanned \/ ipc c = IAccept2 -> outb c = None /\ opc c <> OUsing /\ opc c <> OHup /\ opc c <> ODropped) /\
  (opc c = OUsing \/ opc c = OHup -> is_Some (outb c)) /\
  (forall g, outb c = Some g -> cond_out c = false).
Proof.
  intros H. pose proof (close_reachable_ok c H) as Hok.
  destruct c as [ci co i ou ar ip op n d x]; cbn in *; split_and!.
  - intros [-> | ->]; destruct op, ou, co, ar, i; done.
  - intros [-> | ->]; (destruct ou; [by eexists|destruct ip, co, ar, i; done]).
  - intros g ->. destruct co; [|done]. by destruct ip, op, ar, i.
Qed.

(** One connection accepted, condemned by the inbound thread and let go by the outbound
    thread: the inbound thread is about to close it. *)
Lemma close_after_release_witness :
  let c := mkConn true true (Some 0%nat) None false IScanned OIdle 1 [0%nat] [0%nat] in
  close_reachable c /\ outb c = None /\ opc c <> OUsing.
Proof.
  assert (H : close_reachable (mkConn true true (Some 0%nat) None false IScanned OIdle 1 [0%nat] [0%nat])).
  { takes accept_flag_in. takes accept_flag_out. takes accept_outbound. takes accept_inbound. takes condemn_inbound.
    takes scan_out_load. takes scan_out_reset. takes drop_store. takes scan_in_load. apply rtc_refl. }
  split; [exact H|].
  destruct (close_after_release _ H) as (H1 & _). destruct (H1 (or_introl eq_refl)) as (H2 & H3 & _). split; [exact H2|exact H3].
Defined.

(** C35. The flags do not tell one connection from the next.  The outbound scan loads
    [condemned_inbound_] and then tests [outbound_map_]; between the two the inbound
    thread can close the old connection, clear the flags and accept a new one on the
    same descriptor - then the scan destroys the outbound half of the new connection and
    has it closed, although nobody condemned it.  And a test of [outbound_map_] can
    coincide with the [emplace] of a new half, an unsynchronised access. *)
Theorem stale_flag_kills_new_connection :
  (exists c, close_reachable c /\ inb c = Some 1%nat /\ cond_out c = true /\ 1%nat ∈ destroyed c /\ 1%nat ∉ doomed c) /\
  (exists c, close_reachable c /\ ipc c = IAccept2 /\ opc c = OScan).
Proof.
  assert (Hold : rtc close_step close_init (mkConn true true (Some 0%nat) None false IIdle OScan 1 [0%nat] [0%nat])).
  { takes accept_flag_in. takes accept_flag_out. takes accept_outbound. takes accept_inbound. takes condemn_inbound.
    takes scan_out_load. takes scan_out_reset. takes drop_store. takes scan_out_load. apply rtc_refl. }
  assert (Hnew : rtc close_step close_init (mkConn false false None None false IAccept2 OScan 1 [0%nat] [0%nat])).
  { refine (transitivity (R := rtc close_step) Hold _). takes scan_in_load. takes scan_in_close. takes scan_in_clear_in. takes scan_in_clear_out.
    takes accept_flag_in. takes accept_flag_out. apply rtc_refl. }
  split; [|by eexists].
  exists (mkConn false true (Some 1%nat) None false IIdle OIdle 2 [0%nat] [1%nat; 0%nat]). split; [|split_and!; [done|done|by left|]].
  - refine (transitivity (R := rtc close_step) Hnew _). takes accept_outbound. takes accept_inbound. takes scan_out_reset. takes drop_store. apply rtc_refl.
  - intros H. by apply list_elem_of_singleton in H.
Qed.
