(* ===== verification/Frame.v ===== *)
(** What each thread of the gateway leaves alone: a relation between the state before and
    the state after that every operation of a program preserves.  The inbound thread's
    reads do not touch the outbound half of any connection nor the inbound half of
    another connection; the outbound thread does not touch the inbound halves, the
    routes, or what it cannot consume of the kernel's answers. *)

From S2P Require Import Prelude Types Ring Validation Protocol Buffer ServerState Gateway Responder.

Local Open Scope Z_scope.

(** * Programs within a relation *)

Section Preserves.
Context {S : Type} (R : relation S) `{!PreOrder R}.

(** Whenever [m] returns, it went from a state to a related one. *)
Definition preserves {A : Type} (m : M S A) : Prop := forall s a s', m s = Ok (a, s') -> R s s'.

Lemma preserves_ret {A} (a : A) : preserves (mret a).
Proof. intros s a' s' H. by injection H as _ <-. Qed.
Lemma preserves_get : preserves get.
Proof. intros s a' s' H. by injection H as _ <-. Qed.
Lemma preserves_gets {A} (f : S -> A) : preserves (gets f).
Proof. intros s a' s' H. by injection H as _ <-. Qed.
Lemma preserves_fail {A} e : preserves (fail (A := A) e).
Proof. by intros s a' s' H. Qed.
Lemma preserves_of_res {A} (r : res A) : preserves (of_res r).
Proof. intros s a' s' H. unfold of_res in H. destruct r; [|done]. by injection H as _ <-. Qed.
Lemma preserves_modify f : (forall s, R s (f s)) -> preserves (modify f).
Proof. intros Hf s a' s' H. injection H as _ <-. apply Hf. Qed.
Lemma preserves_bind {A B} (m : M S A) (f : A -> M S B) : preserves m -> (forall a, preserves (f a)) -> preserves (m ≫= f).
Proof.
  intros Hm Hf s b s' H. unfold mbind, M_bind in H. destruct (m s) as [[a s1]|] eqn:E; [|done].
  etrans; [by apply (Hm s a)|by apply (Hf a s1 b)].
Qed.
Lemma preserves_loop {A B} fuel (body : A -> M S (A + B)) a : (forall a, preserves (body a)) -> preserves (loop fuel body a).
Proof.
  intros Hb. revert a. induction fuel as [|fuel IH]; intros a; [apply preserves_fail|]. cbn [loop].
  apply preserves_bind; [done|]. intros [a'|b]; [apply IH|apply preserves_ret].
Qed.
Lemma preserves_for_each {A} (f : A -> M S unit) l : (forall x, preserves (f x)) -> preserves (for_each f l).
Proof. intros Hf. induction l as [|x l IH]; [apply preserves_ret|]. by apply preserves_bind. Qed.

Lemma wp_preserves {A} (m : M S A) Q s : preserves m -> wp m Q s -> wp m (fun a s' => R s s' /\ Q a s') s.
Proof. intros Hk. unfold wp. destruct (m s) as [[a s']|] eqn:E; [|done]. intros H. split; [by apply (Hk s a)|done]. Qed.

End Preserves.

(** * Invariants of programs *)

Section Keeps.
Context {S : Type} (I : S -> Prop).

(** From a state in [I], [m] returns only in states in [I]. *)
Definition keeps {A : Type} (m : M S A) : Prop := forall s, I s -> wlp m (fun _ s' => I s') s.

Lemma keeps_ret {A} (a : A) : keeps (mret a).
Proof. intros s Hs. by apply wlp_ret. Qed.
Lemma keeps_get : keeps get.
Proof. intros s Hs. by apply wlp_get. Qed.
Lemma keeps_gets {A} (f : S -> A) : keeps (gets f).
Proof. intros s Hs. by apply wlp_gets. Qed.
Lemma keeps_of_res {A} (r : res A) : keeps (of_res r).
Proof. intros s Hs. by apply wlp_of_res. Qed.
Lemma keeps_bind {A B} (m : M S A) (f : A -> M S B) : keeps m -> (forall a, keeps (f a)) -> keeps (m ≫= f).
Proof. intros Hm Hf s Hs. apply wlp_bind. eapply wlp_mono; [by apply Hm|]. intros a s' Hs'. by apply Hf. Qed.
Lemma keeps_when c (m : M S unit) : keeps m -> keeps (when c m).
Proof. intros Hm s Hs. apply wlp_when; [by intros _; apply Hm|done]. Qed.
Lemma keeps_loop {A B} fuel (body : A -> M S (A + B)) a : (forall a, keeps (body a)) -> keeps (loop fuel body a).
Proof.
  intros Hb s Hs. apply (wlp_loop (fun _ s => I s)); [|done]. intros a' s' Hs'. eapply wlp_mono; [by apply Hb|].
  by intros [] ?.
Qed.

End Keeps.

(** A program by its structure, down to the steps that hints or [leaf] do. *)
Ltac keeps_step :=
  lazymatch goal with
  | |- keeps _ (mbind _ _) => apply keeps_bind; [|intros ?]
  | |- keeps _ (mret _) => apply keeps_ret
  | |- keeps _ get => apply keeps_get
  | |- keeps _ (gets _) => apply keeps_gets
  | |- keeps _ (of_res _) => apply keeps_of_res
  | |- keeps _ (when _ _) => apply keeps_when
  | |- keeps _ (loop _ _ _) => apply keeps_loop; intros ?
  | |- keeps _ (if ?c then _ else _) => destruct c
  | |- keeps _ (match ?c with _ => _ end) => destruct c
  end.

(** * Programs that may fault in a known way

    [wpx E m Q s]: from [s], [m] returns a result and a state in [Q], or it ends in a fault
    that [E] allows; it never runs out of fuel unless [E] says so. *)
Definition wpx {S A : Type} (E : fault -> Prop) (m : M S A) (Q : A -> S -> Prop) (s : S) : Prop :=
  match m s with Ok (a, s') => Q a s' | Err f => E f end.

Section Wpx.
Context {S : Type}.
Implicit Types (s : S) (E : fault -> Prop).

Lemma wp_wpx {A} E (m : M S A) Q s : wp m Q s -> wpx E m Q s.
Proof. unfold wp, wpx. by destruct (m s) as [[a s']|]. Qed.

Lemma wpx_wp {A} (m : M S A) Q s : wpx (fun _ => False) m Q s -> wp m Q s.
Proof. unfold wp, wpx. by destruct (m s) as [[a s']|]. Qed.

Lemma wpx_mono {A} (E E' : fault -> Prop) (m : M S A) (P Q : A -> S -> Prop) s :
  wpx E m P s -> (forall f, E f -> E' f) -> (forall a s', P a s' -> Q a s') -> wpx E' m Q s.
Proof. unfold wpx. destruct (m s) as [[a s']|]; naive_solver. Qed.

Lemma wpx_bind {A B} E (m : M S A) (f : A -> M S B) Q s : wpx E m (fun a s' => wpx E (f a) Q s') s -> wpx E (m ≫= f) Q s.
Proof. unfold wpx, mbind, M_bind. by destruct (m s) as [[a s']|]. Qed.

Lemma wpx_loop {A B} E (I : nat -> A -> S -> Prop) (body : A -> M S (A + B)) (Q : B -> S -> Prop) :
  (forall n a s, I n a s -> wpx E (body a) (fun r s' => match r with
     | inl a' => exists n', (n' < n)%nat /\ I n' a' s'
     | inr b => Q b s'
     end) s) ->
  forall fuel n a s, I n a s -> (n < fuel)%nat -> wpx E (loop fuel body a) Q s.
Proof.
  intros Hbody fuel. induction fuel as [|fuel IH]; intros n a s HI Hn; [lia|]. cbn [loop]. apply wpx_bind.
  eapply wpx_mono; [by apply Hbody|done|]. intros [a'|b] s' Hr; [|done]. destruct Hr as (n' & Hlt & HI'). apply (IH n'); [done|lia].
Qed.

Lemma wpx_for_each {A} E (I : S -> Prop) (P : A -> Prop) (f : A -> M S unit) l s :
  (forall x s, P x -> I s -> wpx E (f x) (fun _ => I) s) -> Forall P l -> I s -> wpx E (for_each f l) (fun _ => I) s.
Proof.
  intros Hf Hl. revert s. induction Hl as [|x l Hx _ IH]; intros s Hs; [done|]. cbn [for_each]. apply wpx_bind.
  eapply wpx_mono; [by apply Hf|done|]. intros ? s' Hs'. by apply IH.
Qed.

End Wpx.

(** An invariant of every step of a [for] loop is one of the loop. *)
Lemma wp_for_each {S A : Type} (I : S -> Prop) (P : A -> Prop) (f : A -> M S unit) l s :
  (forall x s, P x -> I s -> wp (f x) (fun _ => I) s) -> Forall P l -> I s -> wp (for_each f l) (fun _ => I) s.
Proof.
  intros Hf Hl. revert s. induction Hl as [|x l Hx _ IH]; intros s Hs; [done|]. cbn [for_each]. apply wp_bind.
  eapply wp_mono; [by apply Hf|]. intros ? s' Hs'. by apply IH.
Qed.

(** The states with the same value of a projection. *)
Definition same {S B : Type} (f : S -> B) : relation S := fun s s' => f s' = f s.
#[export] Instance same_preorder {S B : Type} (f : S -> B) : PreOrder (same f).
Proof. split; [done|]. intros s1 s2 s3 H1 H2. unfold same in *. congruence. Qed.

Create HintDb frame discriminated.

Ltac preserves_step same_state :=
  lazymatch goal with
  | |- preserves _ (mbind _ _) => apply preserves_bind; [apply _| |intros ?]
  | |- preserves _ (loop _ _ _) => apply preserves_loop; [apply _|intros ?]
  | |- preserves _ (for_each _ _) => apply preserves_for_each; [apply _|intros ?]
  | |- preserves _ (mret _) => apply preserves_ret; apply _
  | |- preserves _ get => apply preserves_get; apply _
  | |- preserves _ (gets _) => apply preserves_gets; apply _
  | |- preserves _ (fail _) => apply preserves_fail
  | |- preserves _ (of_res _) => apply preserves_of_res; apply _
  | |- preserves _ (when ?c _) => destruct c; unfold when
  | |- preserves _ (modify _) => apply preserves_modify; intros ?; same_state
  | |- preserves _ (if ?c then _ else _) => destruct c
  | |- preserves _ (match ?c with _ => _ end) => destruct c
  end.
Ltac keeps_with leaf := cbv zeta; repeat (solve [eauto with frame nocore] || keeps_step || leaf).
Ltac preserves_with same_state := cbv zeta; repeat (solve [eauto with frame nocore] || preserves_step same_state).

(** * The inbound thread's reads *)

(** What the outbound thread works on. *)
Definition outbound_part (s : Server) := (outbound_map_ s, writable_fds_ s, from_engine s, taken (os s)).

(** A read of [fd] leaves the outbound part and the other connections as they are, and
    never clears a close flag. *)
Record read_frame (fd : Z) (s s' : Server) : Prop := {
  rf_outbound : outbound_part s' = outbound_part s;
  rf_others g : g <> fd -> inbound_map_ s' !! g = inbound_map_ s !! g /\ incoming g (os s') = incoming g (os s);
  rf_condemned : condemned_inbound_ s ⊆ condemned_inbound_ s';
  rf_accepts : accepts (os s') = accepts (os s)
}.

#[export] Instance read_frame_preorder fd : PreOrder (read_frame fd).
Proof.
  split; [by intros s; constructor|]. intros s1 s2 s3 [A1 A2 A3 A4] [B1 B2 B3 B4]. constructor; [congruence| |set_solver|congruence].
  intros g Hg. destruct (A2 g Hg) as [E1 E2], (B2 g Hg) as [F1 F2]. split; congruence.
Qed.

Lemma read_frame_same fd s s' : outbound_part s' = outbound_part s -> inbound_map_ s' = inbound_map_ s ->
  condemned_inbound_ s' = condemned_inbound_ s -> recvs (os s') = recvs (os s) -> accepts (os s') = accepts (os s) ->
  read_frame fd s s'.
Proof. intros H1 H2 H3 H4 H5. constructor; [done| |by rewrite H3|done]. intros g _. unfold incoming. by rewrite H2, H4. Qed.

Lemma put_istate_frame fd i : preserves (read_frame fd) (put_istate fd i).
Proof.
  apply preserves_modify. intros s. constructor; [done| |done|done]. intros g Hg. split; [by apply lookup_insert_ne|done].
Qed.
Lemma store_condemned_frame fd : preserves (read_frame fd) (store_condemned_inbound fd true).
Proof. apply preserves_modify. intros s. constructor; [done|done|cbn; set_solver|done]. Qed.
Lemma sys_recv_frame fd n : preserves (read_frame fd) (sys_recv fd n).
Proof.
  intros s r s' H. unfold sys_recv, mbind, M_bind, get in H. destruct (recv_answer _ _). injection H as _ <-.
  constructor; [done| |done|done]. intros g Hg. split; [done|]. unfold incoming. cbn. by rewrite lookup_insert_ne.
Qed.
Lemma sys_rdtsc_frame fd : preserves (read_frame fd) sys_rdtsc.
Proof. intros s r s' H. injection H as _ <-. by apply read_frame_same. Qed.
#[export] Hint Resolve put_istate_frame store_condemned_frame sys_recv_frame sys_rdtsc_frame : frame.

Ltac read_frame := preserves_with ltac:(apply read_frame_same; reflexivity).

Lemma process_frame_frame fd : preserves (read_frame fd) (process_frame fd).
Proof. unfold process_frame, get_istate, push_error. read_frame. Qed.
Lemma condemn_frame fd : preserves (read_frame fd) (condemnConnection fd true).
Proof. unfold condemnConnection, check_fd, epoll_in_set, with_kernel. read_frame. Qed.
#[export] Hint Resolve process_frame_frame condemn_frame : frame.

Lemma read_more_frame fd u : preserves (read_frame fd) (read_more fd u).
Proof. unfold read_more, get_istate, sys_errno. read_frame. Qed.
#[export] Hint Resolve read_more_frame : frame.

Lemma readAndProcessBytes_frame fd : preserves (read_frame fd) (readAndProcessBytes fd).
Proof. unfold readAndProcessBytes, readRequest, processRequest, get_istate, check_fd. read_frame. Qed.

(** * The outbound thread *)

(** What the inbound thread works on. *)
Definition inbound_part (s : Server) :=
  (inbound_map_ s, condemned_inbound_ s, client_map_ s, to_engine s, recvs (os s), accepts (os s)).

Abbreviation serve_frame := (preserves (same inbound_part)).
Ltac serve_frame := preserves_with ltac:(exact eq_refl).

Lemma sys_send_frame fd bytes : serve_frame (sys_send fd bytes).
Proof. intros s r s' H. unfold sys_send, mbind, M_bind, get in H. by injection H as _ <-. Qed.
Lemma sys_add_out_frame fd : serve_frame (sys_add_out fd).
Proof. intros s r s' H. unfold sys_add_out, mbind, M_bind, get in H. by injection H as _ <-. Qed.
Lemma sys_rdtsc_serve_frame : serve_frame sys_rdtsc.
Proof. intros s r s' H. by injection H as _ <-. Qed.
Lemma disarm_frame fd : serve_frame (disarm fd).
Proof. unfold disarm, epoll_out_set, with_kernel. serve_frame. Qed.
Lemma erase_frame fd : serve_frame (erase_writable fd).
Proof. unfold erase_writable. serve_frame. Qed.
#[export] Hint Resolve sys_send_frame sys_add_out_frame sys_rdtsc_serve_frame disarm_frame erase_frame : frame.

Lemma condemn_serve_frame fd : serve_frame (condemnConnection fd false).
Proof. unfold condemnConnection, check_fd, store_condemned_outbound. serve_frame. Qed.
Lemma disconnect_outbound_frame fd : serve_frame (disconnect_outbound fd).
Proof. unfold disconnect_outbound, store_condemned_outbound. serve_frame. Qed.
Lemma push_to_frame fd m : serve_frame (push_to fd m).
Proof. unfold push_to, check_fd, put_ostate, insert_writable. serve_frame. Qed.
Lemma pop_resolved_frame : serve_frame pop_resolved.
Proof. unfold pop_resolved, pop_from_engine. serve_frame. Qed.
#[export] Hint Resolve condemn_serve_frame disconnect_outbound_frame push_to_frame pop_resolved_frame : frame.

Lemma route_frame : serve_frame routeOutboundMessages.
Proof. unfold routeOutboundMessages, route_current, route_message, drain_error, pop_error. serve_frame. Qed.
Lemma send_more_frame fd u : serve_frame (send_more fd u).
Proof. unfold send_more, get_ostate, put_ostate, sys_errno, arm. serve_frame. Qed.
Lemma finishBatch_frame fd : serve_frame (finishBatch fd).
Proof. unfold finishBatch, get_ostate, put_ostate. serve_frame. Qed.
#[export] Hint Resolve route_frame send_more_frame finishBatch_frame : frame.

Lemma sendResponse_frame fd : serve_frame (sendResponse fd).
Proof. unfold sendResponse, get_ostate. serve_frame. Qed.
Lemma append_staged_frame fd : serve_frame (append_staged fd).
Proof. unfold append_staged, appendResponse, get_ostate, put_ostate. serve_frame. Qed.
Lemma keep_or_erase_frame fd : serve_frame (keep_or_erase fd).
Proof. unfold keep_or_erase, get_ostate. serve_frame. Qed.
#[export] Hint Resolve sendResponse_frame append_staged_frame keep_or_erase_frame : frame.

Lemma begin_send_frame fd : serve_frame (begin_send fd).
Proof. unfold begin_send, check_fd, get_ostate. serve_frame. Qed.
Lemma handle_event_out_frame ev : serve_frame (handle_event_out ev).
Proof. unfold handle_event_out, check_fd, get_ostate. serve_frame. Qed.
#[export] Hint Resolve begin_send_frame handle_event_out_frame : frame.

Lemma serve_responses_frame events : serve_frame (serve_responses_once events).
Proof. unfold serve_responses_once, handleDisconnectsOutbound, beginSends. serve_frame. Qed.
