(* ===== verification/Exchange.v ===== *)
(** The whole exchange ([exchange/app/exchange.hpp], [exchange.cpp]): the server and the
    engine with the two rings they share, and what a request's way through the inbound
    thread, the matching thread and the outbound thread puts on the sockets. *)

From S2P Require Import Prelude Types Ring Pool Book Spec Ladder Refine Match Process BookProps Validation Engine Protocol Buffer ServerState Gateway Responder Frame.

Local Open Scope Z_scope.

(** * State *)

(** The rings are the server's [to_engine] and [from_engine]; the engine works on them in
    place of its own fields. *)
Record Exchange : Type := mkExchange {
  server_ : Server;
  engine_ : Engine
}.

Definition XM (A : Type) : Type := M Exchange A.

(** The constructor, for any sizes of the rings and the pool ... *)
Definition exchange_of (ring_count : Z) (capacity : nat) (k : Kernel) : Exchange :=
  let in_ring := ring_init ring_count in
  let out_ring := ring_init ring_count in
  mkExchange (server_init in_ring out_ring k) (engine_init capacity in_ring out_ring).
(** ... and for those of the configuration. *)
Definition exchange_init : Kernel -> Exchange := exchange_of COMMUNICATION_RING_COUNT PREALLOCATION_COUNT.

Definition on_server {A : Type} (m : SM A) : XM A :=
  fun x => match m (server_ x) with Ok (a, s) => Ok (a, mkExchange s (engine_ x)) | Err e => Err e end.

(** The engine as it sees the shared rings. *)
Definition attached (x : Exchange) : Engine :=
  set_in_ring (to_engine (server_ x)) (set_book (set_out_ring (from_engine (server_ x)) (book_ (engine_ x))) (engine_ x)).

Definition on_engine {A : Type} (m : EM A) : XM A :=
  fun x => match m (attached x) with
           | Ok (a, e) => Ok (a, mkExchange (set_from_engine (out_ring_ (book_ e)) (set_to_engine (in_ring_ e) (server_ x))) e)
           | Err e => Err e
           end.

(** The three threads in turn: the inbound thread handles one readable descriptor, the
    matching thread's loop runs [n] times, the outbound thread's once. *)
Definition round (fd : Z) (n : nat) (events : list (Z * bool)) : XM unit :=
  on_server (readAndProcessBytes fd);;
  on_engine (handleMatching (replicate n []) None);;
  on_server (serve_responses_once events).

(** * Specification *)

(** What the frames of a burst, with their times, ask of the engine and what is refused. *)
Definition requests (l : list (Z * list Z)) : list InboundMessage :=
  omap (fun tf => match classify tf.1 tf.2 with inr m => Some m | inl _ => None end) l.
Definition refusals (fd : Z) (l : list (Z * list Z)) : list PendingError :=
  omap (fun tf => match classify tf.1 tf.2 with inl e => Some (mkPendingError fd e) | inr _ => None end) l.
Definition routes (fd : Z) (l : list InboundMessage) (m : gmap Z Z) : gmap Z Z :=
  foldl (fun m msg => <[in_client_id msg := fd]> m) m l.

(** The specification's engine: requests one after the other. *)
Fixpoint s_execute_all (l : list InboundMessage) (id : Z) (A : SBook) : SBook * list OutboundMessage :=
  match l with
  | [] => (A, [])
  | m :: l =>
      let new := decide (in_message_type m = NEW) in
      let r := s_execute m (if new then id else in_order_id m) A in
      let r' := s_execute_all l (if new then id + 1 else id) r.1 in
      (r'.1, r.2 ++ r'.2)
  end.

(** What fits a ring that is empty. *)
Definition fit {T : Type} (r : RingBuffer T) (l : list T) : list T := take (Z.to_nat (Ring.capacity r - 1)) l.

(** * The exchange as it starts *)

Lemma exchange_of_ok n capacity k : 0 <= n <= 31 -> Z.of_nat capacity < 2 ^ 32 -> let x := exchange_of (2 ^ n) capacity k in
  engine_ok (engine_ x) (mkSBook [] [] capacity) /\ outbound_ready (server_ x) /\ ring_ok (to_engine (server_ x)).
Proof.
  intros Hn Hcap. assert (Hring : forall T `{Inhabited T}, ring_ok (ring_init (2 ^ n) : RingBuffer T))
    by (intros T ?; by apply ring_init_ok).
  assert (H11 : ring_ok (ring_init ERROR_CHANNEL_SIZE : RingBuffer PendingError)) by exact (ring_init_ok 11 ltac:(lia)).
  split_and!; [by apply engine_init_ok| |apply Hring]. constructor.
  - constructor; [by intros fd o H|]. intros fd [[o H]|H]; [done|by apply elem_of_nil in H].
  - by intros c fd H.
  - split; [apply Hring|apply H11].
  - change (error_channel_ _) with (ring_init ERROR_CHANNEL_SIZE : RingBuffer PendingError). unfold contents, used, ring_init. cbn. constructor.
Qed.

(** * The matching thread empties its ring *)

Lemma set_in_ring_self e : set_in_ring (in_ring_ e) e = e.
Proof. by destruct e. Qed.

(** The engine on the shared rings. *)
Lemma attached_ok x A : engine_ok (engine_ x) A -> engine_ok (attached x) A.
Proof.
  intros ([(L & [H1 H2] & H3) H4] & H5 & H6). split; [|done]. split; [|done]. exists L. split; [|done].
  constructor; [by apply store_rep_set_out|]. intros d. specialize (H2 d). by destruct d.
Qed.

(** Nothing to do. *)
Lemma matching_idle e : ring_ok (in_ring_ e) -> contents (in_ring_ e) = [] -> matching_iteration None e = Ok (None, e).
Proof.
  intros Hring E. unfold matching_iteration, pop_inbound, mbind, M_bind, get. rewrite (pop_empty _ Hring E).
  unfold modify, mret, M_ret. by rewrite set_in_ring_self.
Qed.

(** One iteration takes the oldest message and looks one ahead. *)
Lemma matching_takes have e m rest : ring_ok (in_ring_ e) -> held have ++ contents (in_ring_ e) = m :: rest ->
  exists have' r, ring_ok r /\ held have' ++ contents r = rest /\
    matching_iteration have e =
      match executeRequest m (set_in_ring r e) with Ok (_, e') => Ok (have', e') | Err f => Err f end.
Proof.
  intros Hring Hq.
  assert (exists e1, (match have with Some m => mret (Some m) | None => pop_inbound end) e = Ok (Some m, e1) /\
    ring_ok (in_ring_ e1) /\ contents (in_ring_ e1) = rest /\ exists r, e1 = set_in_ring r e)
    as (e1 & Hcur & Hr1 & Hc1 & r1 & E1).
  { destruct have as [m'|]; cbn [held app] in Hq.
    - injection Hq as -> <-. exists e. split_and!; try done. exists (in_ring_ e). by rewrite set_in_ring_self.
    - destruct (pop_cons _ m rest Hring Hq) as (r & E & H1 & _ & H2). exists (set_in_ring r e).
      unfold pop_inbound, mbind, M_bind, get. rewrite E. split_and!; try done. by exists r. }
  unfold matching_iteration, mbind at 1, M_bind at 1. rewrite Hcur.
  destruct (pop_inbound_ok e1 Hr1) as (nxt & r2 & Hpop & Hr2 & _ & Hq2). unfold mbind, M_bind, get. rewrite Hpop. cbv zeta.
  subst e1. cbn [set_in_ring in_ring_] in *. change (set_in_ring r2 (set_in_ring r1 e)) with (set_in_ring r2 e).
  exists nxt, r2. split_and!; [done|congruence|]. by destruct (executeRequest m (set_in_ring r2 e)) as [[[] e']|].
Qed.

(** ... and executes it. *)
Lemma matching_one have e A m rest : engine_ok e A -> ring_ok (in_ring_ e) ->
  held have ++ contents (in_ring_ e) = m :: rest -> executable m -> next_id_ e + 1 < 2 ^ 64 ->
  exists have' e', matching_iteration have e = Ok (have', e') /\ ring_ok (in_ring_ e') /\
    held have' ++ contents (in_ring_ e') = rest /\ engine_ok e' (s_execute m (assigned m e) A).1 /\
    out_ring_ (book_ e') = push_all (s_execute m (assigned m e) A).2 (out_ring_ (book_ e)) /\
    next_id_ e' = ids_after m e.
Proof.
  intros He Hring Hq Hex Hid. destruct (matching_takes have e m rest Hring Hq) as (nxt & r2 & Hr2 & Hq2 & ->).
  destruct (execute_ok m (set_in_ring r2 e) A) as (e2 & X1 & X2 & X3 & X4 & X5); [by apply engine_ok_ring|done|done|].
  cbn [set_in_ring in_ring_] in X4. rewrite X1. exists nxt, e2. by rewrite X4.
Qed.

Lemma matching_drains k have e A :
  let queue := held have ++ contents (in_ring_ e) in
  let r := s_execute_all queue (next_id_ e) A in
  engine_ok e A -> ring_ok (in_ring_ e) -> Forall executable queue -> (length queue <= k)%nat ->
  next_id_ e + Z.of_nat (length queue) < 2 ^ 64 ->
  exists e', handleMatching (replicate k []) have e = Ok (None, e') /\ ring_ok (in_ring_ e') /\ contents (in_ring_ e') = [] /\
    engine_ok e' r.1 /\ out_ring_ (book_ e') = push_all r.2 (out_ring_ (book_ e)).
Proof.
  revert have e A. induction k as [|k IH]; intros have e A queue r He Hring Hex Hk Hid; subst queue r; cbn [replicate handleMatching].
  { destruct have; [cbn in Hk; lia|]. destruct (contents (in_ring_ e)) eqn:E; [|cbn in Hk; lia]. by exists e. }
  unfold mbind at 1, M_bind at 1, modify at 1. cbn [push_all foldl]. rewrite set_in_ring_self.
  destruct (held have ++ contents (in_ring_ e)) as [|m rest] eqn:E.
  - destruct have; [done|]. cbn [held app] in E. unfold mbind, M_bind at 1.
    rewrite (matching_idle e Hring E).
    destruct (IH None e A He Hring) as (e' & H); cbn [held app]; rewrite E in *; [done|cbn; lia|done|by exists e'].
  - inversion Hex as [|? ? Hm Hrest]; subst. cbn [length] in Hid, Hk.
    destruct (matching_one have e A m rest He Hring E Hm) as (h1 & e1 & X1 & X2 & X3 & X4 & X5 & X6); [lia|].
    unfold mbind, M_bind. rewrite X1. destruct (IH h1 e1 _ X4 X2) as (e2 & Y1 & Y2 & Y3 & Y4 & Y5); rewrite ?X3; [done|lia| |].
    { rewrite X6. unfold ids_after. case_decide; lia. }
    exists e2. split_and!; [done|done|done|..].
    + rewrite X3, X6 in Y4. cbn [s_execute_all fst]. unfold assigned, ids_after in *. case_decide; rewrite ?Z.add_0_r in Y4; done.
    + rewrite Y5, X5, X3, X6, <- push_all_app. cbn [s_execute_all snd]. unfold assigned, ids_after. case_decide; rewrite ?Z.add_0_r; done.
Qed.

(** * The inbound thread, in terms of the specification *)

Lemma deliver_all fd l s : outside (foldl (fun s0 tf => deliver fd tf.1 s0 tf.2) s l) =
  (push_all (requests l) (to_engine s), push_all (refusals fd l) (error_channel_ s), routes fd (requests l) (client_map_ s)).
Proof.
  revert s. induction l as [|[t f] l IH]; intros s; [done|]. cbn [foldl]. rewrite IH. unfold requests, refusals. cbn [omap list_omap fst snd].
  unfold deliver. by destruct (classify t f).
Qed.

Lemma routes_range fd l m : fd < FD_SLOTS -> (forall c f, m !! c = Some f -> f < FD_SLOTS) ->
  forall c f, routes fd l m !! c = Some f -> f < FD_SLOTS.
Proof.
  intros Hfd. revert m. induction l as [|x l IH]; intros m Hm; [exact Hm|]. apply IH. intros c f.
  rewrite lookup_insert_Some. intros [[_ <-]|[_ H]]; [done|by apply (Hm c)].
Qed.

Lemma refusals_fd fd l pe : pe ∈ refusals fd l -> pe_fd pe = fd.
Proof.
  unfold refusals. rewrite list_elem_of_omap. intros ([t f] & _ & H). cbn in H. destruct (classify t f); [by injection H as <-|done].
Qed.

Lemma requests_frame l m : m ∈ requests l -> exists t f, f ∈ l.*2 /\ classify t f = inr m.
Proof.
  unfold requests. rewrite list_elem_of_omap. intros ([t f] & Hin & H). cbn in H. destruct (classify t f) as [|m'] eqn:E; [done|].
  injection H as ->. exists t, f. split; [|done]. by apply (list_elem_of_fmap_2 snd _ (t, f)).
Qed.

Lemma fit_contents {T : Type} `{Inhabited T} (r : RingBuffer T) l : ring_ok r -> contents r = [] -> contents (push_all l r) = fit r l.
Proof. intros Hr E. destruct (push_all_contents l r Hr) as (_ & _ & ->). by rewrite E. Qed.

Lemma length_fit {T : Type} `{Inhabited T} (r : RingBuffer T) (l : list T) : ring_ok r -> Z.of_nat (length (fit r l)) < Ring.capacity r.
Proof. intros Hr. unfold fit. rewrite length_take. pose proof (capacity_bounds r Hr). lia. Qed.

Lemma Forall_fit {T : Type} (P : T -> Prop) (r : RingBuffer T) l : Forall P l -> Forall P (fit r l).
Proof. apply Forall_take. Qed.

Lemma wp_on_server {A} (m : SM A) Q x : wp m (fun a s => Q a (mkExchange s (engine_ x))) (server_ x) -> wp (on_server m) Q x.
Proof. unfold wp, on_server. by destruct (m (server_ x)) as [[a s]|]. Qed.

(** * A round *)

(** The exchange between two rounds: the rings are empty, and what descriptor [fd] has
    sent or will send holds only requests the book can process. *)
Record round_ready (x : Exchange) (A : SBook) (fd : Z) (st : InboundState) : Prop := {
  rr_fd : 0 <= fd < FD_SLOTS;
  rr_conn : inbound_map_ (server_ x) !! fd = Some st /\ conn_ok st;
  rr_open : fd ∉ condemned_inbound_ (server_ x);
  rr_outbound : outbound_ready (server_ x);
  rr_ring : ring_ok (to_engine (server_ x));
  rr_idle : contents (to_engine (server_ x)) = [] /\ contents (from_engine (server_ x)) = [] /\
    contents (error_channel_ (server_ x)) = [];
  rr_engine : engine_ok (engine_ x) A;
  rr_ids : next_id_ (engine_ x) + Ring.capacity (to_engine (server_ x)) < 2 ^ 64;
  rr_executable frame t m :
    frame ∈ frames (pending (read_buf_ st) ++ incoming fd (os (server_ x))) -> classify t frame = inr m -> executable m
}.

(** What the messages and refusals of a burst add to a connection's stream. *)
Definition answers (s : Server) (fd : Z) (burst : list (Z * list Z)) (outs : list OutboundMessage) (fd' : Z) (o : OutboundState)
  : list Z :=
  concat (frame_of <$> accepted o (to fd'
    (routed_messages (set_client_map (routes fd (requests burst) (client_map_ s)) s) (fit (from_engine s) outs) ++
     routed_errors (fit (error_channel_ s) (refusals fd burst))))).

Lemma burst_executable x A fd st used ts rest : round_ready x A fd st -> incoming fd (os (server_ x)) = used ++ rest ->
  Forall executable (requests (zip ts (frames (pending (read_buf_ st) ++ used)))).
Proof.
  intros Hr Hin. apply Forall_forall. intros m (t & f & Hf & Hc)%requests_frame.
  apply (rr_executable x A fd st Hr f t m); [|done]. rewrite Hin, app_assoc.
  destruct (frames_app (pending (read_buf_ st) ++ used) rest) as [-> _]. apply elem_of_app. left.
  apply list_elem_of_fmap in Hf as ([t' f'] & -> & Hin'). by apply elem_of_zip_r in Hin'.
Qed.

(** The server once the burst is delivered and the engine has answered. *)
Record answered (s : Server) (fd : Z) (burst : list (Z * list Z)) (outs : list OutboundMessage) (s2 : Server) : Prop := {
  an_part : outbound_map_ s2 = outbound_map_ s /\ writable_fds_ s2 = writable_fds_ s /\ taken (os s2) = taken (os s);
  an_routes : client_map_ s2 = routes fd (requests burst) (client_map_ s);
  an_out : from_engine s2 = push_all outs (from_engine s);
  an_errors : error_channel_ s2 = push_all (refusals fd burst) (error_channel_ s)
}.

Lemma answered_ready x A fd st burst outs s2 : round_ready x A fd st -> answered (server_ x) fd burst outs s2 -> outbound_ready s2.
Proof.
  intros Hr [(P1 & P2 & _) R O E]. pose proof (rr_outbound x A fd st Hr) as [[I1 I2] I3 [I4 I5] I6].
  destruct (rr_idle x A fd st Hr) as (_ & _ & Herr). constructor.
  - constructor; [by rewrite P1|by rewrite P1, P2].
  - unfold routes_ok. rewrite R. apply routes_range; [apply Hr|exact I3].
  - rewrite O, E. split; by apply push_all_contents.
  - rewrite E, fit_contents by done. apply Forall_fit, Forall_forall. intros pe Hpe.
    rewrite (refusals_fd _ _ _ Hpe). apply Hr.
Qed.

Lemma answered_stream x A fd st burst outs s2 fd' o : round_ready x A fd st -> answered (server_ x) fd burst outs s2 ->
  fd' ∉ condemned_inbound_ s2 -> with_new s2 fd' o = stream fd' (server_ x) o ++ answers (server_ x) fd burst outs fd' o.
Proof.
  intros Hr [(P1 & P2 & P3) R O E] Hc. pose proof (rr_outbound x A fd st Hr) as [_ _ [I4 I5] _].
  destruct (rr_idle x A fd st Hr) as (_ & Hout & Herr). unfold with_new, stream, bytes_of. rewrite P3. f_equal.
  unfold answers, new_messages, is_condemned_inbound. rewrite bool_decide_eq_false_2 by done. unfold deliveries.
  rewrite O, E, !fit_contents by done. by rewrite (routed_messages_same (set_client_map (routes fd (requests burst) (client_map_ (server_ x))) (server_ x)) s2).
Qed.

Lemma inbound_round x A fd st : round_ready x A fd st ->
  wp (readAndProcessBytes fd) (fun _ s1 => exists used ts rest,
    incoming fd (os (server_ x)) = used ++ rest /\ length ts = length (frames (pending (read_buf_ st) ++ used)) /\
    let burst := zip ts (frames (pending (read_buf_ st) ++ used)) in
    to_engine s1 = push_all (requests burst) (to_engine (server_ x)) /\
    answered (server_ x) fd burst [] s1) (server_ x).
Proof.
  intros Hr. destruct (rr_conn x A fd st Hr) as [Hst Hok].
  eapply wp_mono; [eapply wp_preserves; [apply readAndProcessBytes_frame|]|].
  - apply (readAndProcessBytes_ok fd _ st); [apply Hr|done|done|apply Hr].
  - intros ? s1 ([Hk _ _ _] & used & lost & ts & [_ D2 D3 D4 _ _]). exists used, ts, (lost ++ incoming fd (os s1)).
    rewrite deliver_all in D4. injection D4 as D4 D5 D6. injection Hk as K1 K2 K3 K4.
    cbv zeta. split_and!; [done..|]. by constructor.
Qed.

Lemma engine_round x A fd st burst s1 n : round_ready x A fd st -> Forall executable (requests burst) ->
  to_engine s1 = push_all (requests burst) (to_engine (server_ x)) -> answered (server_ x) fd burst [] s1 ->
  Ring.capacity (to_engine (server_ x)) <= Z.of_nat n ->
  let r := s_execute_all (fit (to_engine (server_ x)) (requests burst)) (next_id_ (engine_ x)) A in
  exists s2 e2, on_engine (handleMatching (replicate n []) None) (mkExchange s1 (engine_ x)) = Ok (None, mkExchange s2 e2) /\
    answered (server_ x) fd burst r.2 s2 /\ condemned_inbound_ s2 = condemned_inbound_ s1 /\ engine_ok e2 r.1.
Proof.
  intros Hr Hex Hto [P R O E] Hn r. destruct (rr_idle x A fd st Hr) as (Hin & _ & _).
  pose proof (fit_contents _ (requests burst) (rr_ring x A fd st Hr) Hin) as Hq. rewrite <- Hto in Hq.
  pose proof (length_fit _ (requests burst) (rr_ring x A fd st Hr)) as Hlen.
  set (e := attached (mkExchange s1 (engine_ x))).
  pose proof (attached_ok (mkExchange s1 (engine_ x)) A (rr_engine x A fd st Hr)) as He.
  destruct (matching_drains n None e A He) as (e2 & M1 & M2 & M3 & M4 & M5); cbn [held app e attached in_ring_ set_in_ring server_];
    rewrite ?Hq; [rewrite Hto; by apply push_all_contents, Hr|by apply Forall_fit|lia| |].
  { change (next_id_ _) with (next_id_ (engine_ x)). pose proof (rr_ids x A fd st Hr). lia. }
  unfold on_engine. fold e. rewrite M1. eexists _, _. split; [reflexivity|].
  cbn [held app e attached in_ring_ set_in_ring server_] in M4, M5. rewrite Hq in M4, M5. split_and!; [|done|exact M4].
  constructor; [exact P|exact R| |exact E]. cbn [from_engine set_from_engine]. rewrite M5. change (out_ring_ _) with (from_engine s1).
  rewrite O. done.
Qed.

(** A round that has read [used], at the times [ts]. *)
Record round_done (x : Exchange) (A : SBook) (fd : Z) (st : InboundState) (used ts : list Z) (x' : Exchange) : Prop := {
  rn_used : used `prefix_of` incoming fd (os (server_ x));
  rn_times : length ts = length (frames (pending (read_buf_ st) ++ used));
  rn_engine : let burst := zip ts (frames (pending (read_buf_ st) ++ used)) in
    engine_ok (engine_ x') (s_execute_all (fit (to_engine (server_ x)) (requests burst)) (next_id_ (engine_ x)) A).1;
  rn_streams fd' o : outbound_map_ (server_ x) !! fd' = Some o -> fd' ∉ condemned_inbound_ (server_ x') ->
    let burst := zip ts (frames (pending (read_buf_ st) ++ used)) in
    let outs := (s_execute_all (fit (to_engine (server_ x)) (requests burst)) (next_id_ (engine_ x)) A).2 in
    let whole := stream fd' (server_ x) o ++ answers (server_ x) fd burst outs fd' o in
    (exists o', outbound_map_ (server_ x') !! fd' = Some o' /\ stream fd' (server_ x') o' = whole) \/
    outbound_map_ (server_ x') !! fd' = None /\ fd' ∈ condemned_outbound_ (server_ x') /\
      bytes_of fd' (os (server_ x')) `prefix_of` whole
}.

Lemma round_ok x A fd st n events :
  round_ready x A fd st -> Ring.capacity (to_engine (server_ x)) <= Z.of_nat n ->
  Forall (fun ev : Z * bool => 0 <= ev.1 < FD_SLOTS) events ->
  wp (round fd n events) (fun _ x' => exists used ts, round_done x A fd st used ts x') x.
Proof.
  intros Hr Hn Hev. unfold round. wp_steps. apply wp_on_server. eapply wp_mono; [by apply (inbound_round x A fd st)|].
  intros ? s1 (used & ts & rest & Hin & Hlen & Hto & Han). wp_steps.
  destruct (engine_round x A fd st _ s1 n Hr (burst_executable x A fd st used ts rest Hr Hin) Hto Han Hn) as (s2 & e2 & Hrun & Han2 & Hc2 & He2).
  apply (wp_intro _ _ _ _ _ Hrun). apply wp_on_server. cbn [server_ engine_].
  pose proof (answered_ready x A fd st _ _ s2 Hr Han2) as Hready.
  eapply wp_mono; [by apply serve_iteration_ok|]. intros ? s4 (s1' & s2' & S1 & Hsub & R & [_ Hk [Hc4 Hmono] _] & _).
  exists used, ts. constructor; cbv zeta; [by exists rest|done|exact He2|]. cbn [server_]. intros fd' o Hs Hnc.
  assert (Hc : fd' ∉ condemned_inbound_ s2).
  { destruct S1 as [_ _ [C1 _] _]. destruct R as [_ _ _ _ (C2 & _)]. by rewrite Hc4, C2, C1 in Hnc. }
  rewrite <- (answered_stream x A fd st _ _ s2 fd' o Hr Han2 Hc). specialize (Hk fd'). unfold kept in Hk.
  assert (Hs2 : outbound_map_ s2 !! fd' = Some o) by (destruct Han2 as [(-> & _) _ _ _]; done).
  destruct (scan_route_stream s2 s1' s2' fd' o (or_inv s2 Hready) S1 Hsub R Hs2) as [(o2 & E2 & Hst2)|(E2 & E3 & E4)]; rewrite E2 in Hk.
  - by rewrite Hst2 in Hk.
  - right. destruct Hk as [-> ->]. split_and!; [done|set_solver|done].
Qed.

(** C3. From bytes to bytes.  Whatever a connection sends, however it is cut, one pass
    through the three threads - reading, matching until the ring is empty, sending,
    with any answers of [recv] and [send] - neither faults nor runs on; the engine ends
    in the state the specification reaches by executing, in order, the valid requests
    of the frames read; and every connection's byte stream is extended by exactly the
    frames of the specification's messages for the clients routed to it, in order,
    followed by the errors of its own malformed or invalid frames, as far as the rings
    have room. *)
Theorem exchange_round x A fd st n events :
  round_ready x A fd st -> Ring.capacity (to_engine (server_ x)) <= Z.of_nat n ->
  Forall (fun ev : Z * bool => 0 <= ev.1 < FD_SLOTS) events ->
  wp (round fd n events) (fun _ x' => exists used ts,
    let fs := frames (pending (read_buf_ st) ++ used) in
    let r := s_execute_all (fit (to_engine (server_ x)) (requests (zip ts fs))) (next_id_ (engine_ x)) A in
    used `prefix_of` incoming fd (os (server_ x)) /\ length ts = length fs /\ engine_ok (engine_ x') r.1 /\
    forall fd' o, outbound_map_ (server_ x) !! fd' = Some o -> fd' ∉ condemned_inbound_ (server_ x') ->
      let whole := stream fd' (server_ x) o ++ answers (server_ x) fd (zip ts fs) r.2 fd' o in
      (exists o', outbound_map_ (server_ x') !! fd' = Some o' /\ stream fd' (server_ x') o' = whole) \/
      outbound_map_ (server_ x') !! fd' = None /\ fd' ∈ condemned_outbound_ (server_ x') /\
        bytes_of fd' (os (server_ x')) `prefix_of` whole) x.
Proof.
  intros Hr Hn Hev. eapply wp_mono; [by apply (round_ok x A fd st)|]. intros ? x' (used & ts & [H1 H2 H3 H4]). by exists used, ts.
Qed.

(** One client on descriptor 5, from which [recv] answers [answers]. *)
Definition one_client (answers : list recv_result) : Exchange :=
  mkExchange
    (set_inbound_map {[5 := inbound_state_init 5]} (set_outbound_map {[5 := outbound_state_init]}
      (set_error_channel (ring_init 8) (server_init (ring_init 8) (ring_init 8)
        (mkKernel {[5 := answers]} {[5 := [Sent 20; Sent 20]]} [] (errno_other 0) [1000; 2000] [] ∅ ∅ [] ∅)))))
    (engine_init 4 (ring_init 8) (ring_init 8)).

Lemma one_client_ready answers :
  (forall frame t m, frame ∈ frames (concat (received <$> answers)) -> classify t frame = inr m -> executable m) ->
  round_ready (one_client answers) (mkSBook [] [] 4) 5 (inbound_state_init 5).
Proof.
  intros Hex. assert (H5 : 0 <= 5 < FD_SLOTS) by (vm_compute; split; congruence).
  constructor; [exact H5|split; [reflexivity|apply fresh_conn_ok]|apply not_elem_of_empty|..].
  - constructor.
    + constructor.
      * intros fd o H. apply (proj1 (lookup_singleton_Some 5 fd outbound_state_init o)) in H as [_ <-]. exact outbound_init_ok.
      * intros fd [[o H]|H]; [|by apply elem_of_nil in H].
        apply (proj1 (lookup_singleton_Some 5 fd outbound_state_init o)) in H as [<- _]. exact H5.
    + intros c fd H. discriminate H.
    + split; exact (ring_init_ok 3 ltac:(lia)).
    + vm_compute. constructor.
  - exact (ring_init_ok 3 ltac:(lia)).
  - split_and!; reflexivity.
  - exact (engine_init_ok 4 (ring_init 8) (ring_init 8) eq_refl).
  - reflexivity.
  - exact Hex.
Qed.

(** It has sent one request in two pieces. *)
Definition sample_exchange : Exchange := one_client [as_answer (take 40 sample_frame); as_answer (drop 40 sample_frame)].

Lemma sample_frame_executable t m : classify t sample_frame = inr m -> executable m.
Proof.
  intros H. injection H as <-. split; [repeat split; vm_compute; congruence|]. split; [reflexivity|].
  intros _ _. vm_compute. discriminate.
Qed.

Lemma sample_round_ready : round_ready sample_exchange (mkSBook [] [] 4) 5 (inbound_state_init 5).
Proof.
  apply one_client_ready. intros frame t m Hf. assert (E : frames (concat (received <$> [as_answer (take 40 sample_frame); as_answer (drop 40 sample_frame)])) = [sample_frame])
    by (vm_compute; reflexivity).
  rewrite E in Hf. apply list_elem_of_singleton in Hf as ->. apply sample_frame_executable.
Qed.

Lemma exchange_round_witness :
  match round 5 8 [] sample_exchange with
  | Ok (_, x') => bytes_of 5 (os (server_ x')) =
      frame_of (ack_msg (mkInbound 1000 2 3 4 7 100 5 NEW BID LIMIT) 0 SUCCESS) /\ order_count (book_ (engine_ x')) = 1%nat
  | Err _ => False
  end /\
  wp (round 5 8 []) (fun _ x' => exists (used ts : list Z) (A' : SBook), length ts = length (frames used) /\ engine_ok (engine_ x') A') sample_exchange.
Proof.
  split; [vm_compute; split; reflexivity|]. eapply wp_mono.
  - apply (exchange_round sample_exchange (mkSBook [] [] 4) 5 (inbound_state_init 5) 8 []).
    + exact sample_round_ready.
    + vm_compute. discriminate.
    + constructor.
  - intros ? x' (used & ts & _ & H1 & H2 & _). exists used, ts. eexists. split; [exact H1|exact H2].
Defined.
