(* ===== verification/Gate.v ===== *)
(** The gateway under any order of its two threads' iterations: an invariant of the
    server's state that every iteration of [Server::handleRequests] and
    [Server::serveResponses] ([exchange/server/src/server.cpp]) preserves, whatever the
    kernel answers, and from which neither runs on, and neither faults but for one access:
    [registerConnections] indexes its arrays with any descriptor that it gets. *)

From S2P Require Import Prelude Types Ring Validation Overprice Protocol Buffer ServerState Gateway Responder Frame Exchange.

Local Open Scope Z_scope.

(** * The invariant *)

(** What the program relies on of the kernel: received data are bytes, and the descriptors
    that [accept] returns are not negative. *)
Record env_ok (k : Kernel) : Prop := {
  ev_bytes fd : Forall is_u8 (incoming fd k);
  ev_accepts : Forall (fun a => 0 <= acc_fd a) (accepts k)
}.

(** The inbound half of a connection that is not condemned. *)
Definition connection_ok (st : InboundState) : Prop := conn_ok st /\ Forall is_u8 (pending (read_buf_ st)).

Record gate_ok (s : Server) : Prop := {
  gt_outbound : outbound_ready s;
  gt_range fd : is_Some (inbound_map_ s !! fd) -> 0 <= fd < FD_SLOTS;
  gt_conn fd st : inbound_map_ s !! fd = Some st -> fd ∉ condemned_inbound_ s -> connection_ok st;
  gt_ring : ring_ok (to_engine s);
  gt_queue : Forall checked (contents (to_engine s));
  gt_env : env_ok (os s)
}.

(** epoll reports the listening socket and registered connections. *)
Definition in_range_events (listen_fd : Z) (events : list (Z * bool)) : Prop :=
  Forall (fun ev => ev.1 = listen_fd \/ 0 <= ev.1 < FD_SLOTS) events.

(** A connection that [registerConnections] has no room for in its arrays, but does not turn
    away. *)
Definition overrun (a : Accepted) : Prop := acc_nonblock a = true /\ acc_epoll a = true /\ FD_SLOTS <= acc_fd a.
Definition crowded (s : Server) : Prop := exists a, a ∈ accepts (os s) /\ overrun a.

(** * The frames of a stream of bytes *)

Lemma frames_elem (P : Z -> Prop) l f : f ∈ frames l -> Forall P l -> length f = INBOUND_BSIZE /\ Forall P f.
Proof.
  remember (length l) as n eqn:Hn. revert l Hn. induction (lt_wf n) as [n _ IH]. intros l -> Hf Hl.
  destruct (decide (length l < INBOUND_BSIZE)%nat) as [Hlt|Hge].
  - destruct (frames_short l Hlt) as [E _]. rewrite E in Hf. by apply not_elem_of_nil in Hf.
  - destruct (frames_cons l) as [E _]; [lia|]. rewrite E in Hf. apply elem_of_cons in Hf as [->|Hf].
    + split; [rewrite length_take; lia|by apply Forall_take].
    + apply (IH (length (drop INBOUND_BSIZE l))) with (l := drop INBOUND_BSIZE l); [|done|done|by apply Forall_drop].
      rewrite length_drop. unfold INBOUND_BSIZE in *. lia.
Qed.

Lemma classify_checked t f m : length f = INBOUND_BSIZE -> Forall is_u8 f -> classify t f = inr m -> checked m.
Proof.
  intros Hl Hf. unfold classify. destruct (parse_request f) as [raw|] eqn:E; [|done]. cbv zeta.
  match goal with |- context [validate_message ?x] => destruct (validate_message x) eqn:Hv end; [|done].
  intros H. injection H as <-. split; [|exact Hv].
  destruct (parse_ranges f raw Hl Hf E) as (_ & _ & _ & _ & _ & H1 & H2 & H3 & H4 & H5). done.
Qed.

Lemma requests_checked ts l : Forall is_u8 l -> Forall checked (requests (zip ts (frames l))).
Proof.
  intros Hl. apply Forall_forall. intros m (t & f & Hf & Hc)%requests_frame.
  apply list_elem_of_fmap in Hf as ([t' f'] & -> & Hin%elem_of_zip_r).
  destruct (frames_elem is_u8 l f' Hin Hl). by apply (classify_checked t f').
Qed.

Lemma leftover_Forall (P : Z -> Prop) l : Forall P l -> Forall P (leftover l).
Proof. apply Forall_drop. Qed.

(** * Reading *)

Lemma push_all_Forall {T : Type} `{Inhabited T} (P : T -> Prop) (r : RingBuffer T) l : ring_ok r ->
  Forall P (contents r) -> Forall P l -> ring_ok (push_all l r) /\ Forall P (contents (push_all l r)).
Proof.
  intros Hr H1 H2. destruct (push_all_contents l r Hr) as (P1 & _ & ->). split; [done|].
  by apply Forall_take, Forall_app.
Qed.

Lemma out_inv_same s s' : outbound_part s' = outbound_part s -> out_inv s -> out_inv s'.
Proof. intros E [H1 H2]. injection E as E1 E2 _ _. constructor; [by rewrite E1|by rewrite E1, E2]. Qed.

Lemma read_gate fd s st used lost ts s' : 0 <= fd < FD_SLOTS -> gate_ok s -> inbound_map_ s !! fd = Some st ->
  fd ∉ condemned_inbound_ s -> read_frame fd s s' -> read_done fd s s' st used lost ts -> gate_ok s'.
Proof.
  intros Hfd Hg Hst Hc [F1 F2 F3 F4] [D1 D2 D3 D4 D5 D6].
  rewrite deliver_all in D4. injection D4 as D4 E1 E2.
  pose proof (gt_outbound s Hg) as [I1 I2 [I3 I4] I5]. injection F1 as G1 G2 G3 G4.
  destruct (gt_env s Hg) as [Hb Ha]. pose proof (Hb fd) as Hbytes. rewrite D2 in Hbytes.
  apply Forall_app in Hbytes as [Hused [_ Hrest]%Forall_app]. destruct (gt_conn s Hg fd st Hst Hc) as [Hok Hpend].
  assert (Hall : Forall is_u8 (pending (read_buf_ st) ++ used)) by (by apply Forall_app).
  assert (Hlook : forall g, is_Some (inbound_map_ s' !! g) -> g <> fd -> is_Some (inbound_map_ s !! g))
    by (intros g H Hne; by rewrite <- (proj1 (F2 g Hne))).
  constructor.
  - constructor.
    + apply (out_inv_same s); [unfold outbound_part; by rewrite G1, G2, G3, G4|done].
    + unfold routes_ok. rewrite E2. apply routes_range; [lia|exact I2].
    + rewrite G3, E1. split; [done|]. by apply push_all_contents.
    + rewrite E1. apply push_all_Forall; [done|done|]. apply Forall_forall. intros pe Hpe. by rewrite (refusals_fd _ _ _ Hpe).
  - intros g H. destruct (decide (g = fd)) as [->|Hne]; [done|]. by apply (gt_range s Hg), Hlook.
  - intros g x Hx Hnc. destruct (decide (g = fd)) as [->|Hne].
    + destruct (D1 Hnc) as (st' & Hst' & Hok' & Hp'). rewrite Hx in Hst'. injection Hst' as <-.
      split; [done|]. rewrite Hp'. by apply leftover_Forall.
    + rewrite (proj1 (F2 g Hne)) in Hx. apply (gt_conn s Hg g x Hx). set_solver.
  - rewrite D4. by apply push_all_contents, Hg.
  - rewrite D4. by apply push_all_Forall; [apply Hg|apply Hg|apply requests_checked].
  - constructor; [|by rewrite F4]. intros g. destruct (decide (g = fd)) as [->|Hne]; [done|]. by rewrite (proj2 (F2 g Hne)).
Qed.

Lemma readAndProcessBytes_gate fd s : 0 <= fd < FD_SLOTS -> gate_ok s -> wp (readAndProcessBytes fd) (fun _ s' => gate_ok s') s.
Proof.
  intros Hfd Hg. destruct (decide (fd ∈ condemned_inbound_ s)) as [Hc|Hc].
  { by apply (wp_intro _ _ _ _ _ (readAndProcessBytes_condemned fd s Hfd Hc)). }
  destruct (inbound_map_ s !! fd) as [st|] eqn:Hst.
  - eapply wp_mono; [eapply wp_preserves; [apply readAndProcessBytes_frame|]|].
    + apply (readAndProcessBytes_ok fd s st Hfd Hst); [|done]. by apply (gt_conn s Hg fd st Hst Hc).
    + intros ? s' (Hf & used & lost & ts & Hd). by apply (read_gate fd s st used lost ts s').
  - unfold readAndProcessBytes, mbind, M_bind. unfold wp. rewrite check_fd_ok by done. unfold get. rewrite Hst.
    by destruct (is_condemned_inbound fd s), (is_condemned_outbound fd s).
Qed.

(** * Accepting and closing *)

Lemma wp_check_fd fd (Q : unit -> Server -> Prop) s : 0 <= fd < FD_SLOTS -> Q tt s -> wp (check_fd fd) Q s.
Proof. intros Hfd. unfold wp. by rewrite check_fd_ok. Qed.

(** Steps that leave what the invariant reads as it is, up to more close flags and
    fewer inbound halves. *)
Lemma gate_shrink s s' : gate_ok s -> outbound_map_ s' = outbound_map_ s -> writable_fds_ s' = writable_fds_ s ->
  from_engine s' = from_engine s -> error_channel_ s' = error_channel_ s -> to_engine s' = to_engine s ->
  recvs (os s') = recvs (os s) -> Forall (fun a => 0 <= acc_fd a) (accepts (os s')) ->
  (forall c fd, client_map_ s' !! c = Some fd -> fd < FD_SLOTS) ->
  (forall fd st, inbound_map_ s' !! fd = Some st -> inbound_map_ s !! fd = Some st /\
     (fd ∉ condemned_inbound_ s' -> fd ∉ condemned_inbound_ s)) -> gate_ok s'.
Proof.
  intros [[[O1 O2] I2 I3 I4] R C T Q [B A]] E1 E2 E3 E4 E5 E6 Ha Hr Hi. constructor.
  - constructor; [constructor; [by rewrite E1|by rewrite E1, E2]|exact Hr|by rewrite E3, E4|by rewrite E4].
  - intros fd [st H]. apply R. exists st. by apply Hi.
  - intros fd st H Hc. destruct (Hi fd st H) as [H1 H2]. by apply (C fd st H1), H2.
  - by rewrite E5.
  - by rewrite E5.
  - constructor; [|done]. intros fd. unfold incoming. rewrite E6. apply B.
Qed.

Lemma gate_kernel s k : gate_ok s -> recvs k = recvs (os s) -> Forall (fun a => 0 <= acc_fd a) (accepts k) ->
  gate_ok (set_os k s).
Proof. intros Hg E Ha. apply (gate_shrink s); try done. exact (or_routes s (gt_outbound s Hg)). Qed.

Lemma condemn_gate fd s : gate_ok s -> gate_ok (set_condemned_inbound ({[fd]} ∪ condemned_inbound_ s) s).
Proof.
  intros Hg. apply (gate_shrink s); try done.
  - exact (ev_accepts _ (gt_env s Hg)).
  - exact (or_routes s (gt_outbound s Hg)).
  - intros g st H. split; [done|]. cbn. set_solver.
Qed.

Lemma connection_fresh fd : connection_ok (inbound_state_init fd).
Proof. split; [apply fresh_conn_ok|]. vm_compute. constructor. Qed.

(** A new connection. *)
Lemma accept_gate fd s k : 0 <= fd < FD_SLOTS -> gate_ok s -> recvs k = recvs (os s) ->
  Forall (fun a => 0 <= acc_fd a) (accepts k) ->
  gate_ok (set_inbound_map (<[fd := inbound_state_init fd]> (inbound_map_ s))
    (set_outbound_map (<[fd := outbound_state_init]> (outbound_map_ s))
      (set_condemned_outbound (condemned_outbound_ s ∖ {[fd]})
        (set_condemned_inbound (condemned_inbound_ s ∖ {[fd]}) (set_os k s))))).
Proof.
  intros Hfd [[[O1 O2] I2 I3 I4] R C T Q [B A]] E Ha. constructor; cbn; try done.
  - constructor; cbn; try done. constructor; cbn.
    + intros g o [[_ <-]|[_ H]]%lookup_insert_Some; [exact outbound_init_ok|by apply (O1 g)].
    + intros g [[o [[<- _]|[_ H]]%lookup_insert_Some]|H]; [done|apply O2; left; by exists o|apply O2; by right].
  - intros g [st [[<- _]|[_ H]]%lookup_insert_Some]; [done|apply R; by exists st].
  - intros g st [[_ <-]|[Hne H]]%lookup_insert_Some Hc; [apply connection_fresh|]. apply (C g st H). set_solver.
  - constructor; [|done]. intros g. unfold incoming. cbn. rewrite E. apply B.
Qed.

Lemma register_one_gate a s : 0 <= acc_fd a -> gate_ok s ->
  wpx (fun f => f = OutOfBounds /\ overrun a) (register_one a) (fun _ s' => gate_ok s' /\ accepts (os s') = accepts (os s)) s.
Proof.
  intros Hfd Hg. pose proof (ev_accepts _ (gt_env s Hg)) as Ha. unfold register_one, sys_close, epoll_in_set, with_kernel.
  destruct (acc_nonblock a) eqn:E1; cbn [negb]; [|apply wp_wpx; wp_steps; by split; [apply gate_kernel|]].
  destruct (acc_epoll a) eqn:E2; cbn [negb]; [|apply wp_wpx; wp_steps; by split; [apply gate_kernel|]].
  destruct (Z.lt_ge_cases (acc_fd a) FD_SLOTS) as [Hlt|Hge].
  - apply wp_wpx. wp_steps. apply wp_check_fd; [done|].
    unfold store_condemned_inbound, store_condemned_outbound, put_ostate, put_istate. wp_steps.
    split; [|done]. by apply (accept_gate (acc_fd a) s).
  - unfold wpx, mbind, M_bind, modify, check_fd. by rewrite (proj2 (Z.ltb_ge (acc_fd a) FD_SLOTS)), andb_false_r by done.
Qed.

Lemma registerConnections_gate s : gate_ok s ->
  wpx (fun f => f = OutOfBounds /\ crowded s) registerConnections (fun _ s' => gate_ok s' /\ accepts (os s') ⊆ accepts (os s)) s.
Proof.
  intros Hg. unfold registerConnections. apply wpx_bind. unfold wpx at 1, get.
  apply (wpx_loop _ (fun n _ s' => gate_ok s' /\ n = length (accepts (os s')) /\ accepts (os s') ⊆ accepts (os s)))
    with (n := length (accepts (os s))); [|done|lia].
  intros n [] s1 (Hg1 & -> & Hsub). apply wpx_bind. unfold wpx at 1, get.
  destruct (accepts (os s1)) as [|a rest] eqn:E; [apply wp_wpx; wp_steps; by rewrite E|].
  pose proof (ev_accepts _ (gt_env s1 Hg1)) as Ha. rewrite E in Ha. apply Forall_cons in Ha as [Hfd Ha].
  apply wpx_bind. unfold with_kernel, wpx at 1, modify. apply wpx_bind. eapply wpx_mono; [apply register_one_gate; [done|by apply gate_kernel]|..].
  - intros f [-> Ho]. split; [done|]. exists a. split; [apply Hsub; by left|done].
  - intros go s' [Hg' E']. cbn in E'. apply wp_wpx. assert (Hrest : rest ⊆ accepts (os s)) by (intros x Hx; apply Hsub; by right).
    destruct go; wp_steps; rewrite E'; [|done]. exists (length rest). split_and!; [cbn; lia|done..].
Qed.

(** One descriptor of the close scan. *)
Lemma disconnect_inbound_gate fd s : gate_ok s -> wp (disconnect_inbound fd) (fun _ s' => gate_ok s') s.
Proof.
  intros Hg. apply (wp_intro _ _ _ _ _ (disconnect_inbound_run fd s)).
  destruct (inbound_map_ s !! fd) as [i|] eqn:E; [|done]. destruct (is_condemned_outbound fd s); [|done].
  apply (gate_shrink s); try done; [exact (ev_accepts _ (gt_env s Hg))| |].
  - intros c f. rewrite teardown_routes. pose proof (or_routes s (gt_outbound s Hg) c) as Hr.
    case_decide; [|apply Hr]. destruct (client_map_ s !! c); [|done]. intros [= <-]. unfold FD_SLOTS, MAX_CLIENTS. lia.
  - intros g st H. cbn in H |- *. apply lookup_delete_Some in H as [Hne H]. split; [done|]. set_solver.
Qed.

(** * The iterations *)

(** What a fault of the inbound thread's iteration tells. *)
Definition accept_fault (listen_fd : Z) (events : list (Z * bool)) (s : Server) (f : fault) : Prop :=
  f = OutOfBounds /\ listen_fd ∈ events.*1 /\ crowded s.

Definition still_waiting (s s' : Server) : Prop := gate_ok s' /\ accepts (os s') ⊆ accepts (os s).

Lemma handle_event_gate listen_fd ev s : ev.1 = listen_fd \/ 0 <= ev.1 < FD_SLOTS -> gate_ok s ->
  wpx (fun f => f = OutOfBounds /\ ev.1 = listen_fd /\ crowded s) (handle_event_in listen_fd ev) (fun _ => still_waiting s) s.
Proof.
  intros Hfd Hg. unfold handle_event_in. destruct (decide (ev.1 = listen_fd)) as [E|E].
  { eapply wpx_mono; [by apply registerConnections_gate| |done]. by intros f [-> H]. }
  destruct Hfd as [|Hfd]; [done|]. apply wp_wpx. destruct ev.2.
  - unfold epoll_in_set, with_kernel. wp_steps. apply wp_check_fd; [done|]. unfold store_condemned_inbound. wp_steps.
    split; [|done]. apply condemn_gate. apply gate_kernel; [done|done|]. apply (ev_accepts _ (gt_env s Hg)).
  - eapply wp_mono; [eapply wp_preserves; [apply readAndProcessBytes_frame|by apply readAndProcessBytes_gate]|].
    intros ? s' [Hf Hg']. split; [done|]. by rewrite (rf_accepts _ _ _ Hf).
Qed.

Lemma disconnect_all_gate s : gate_ok s -> wp handleDisconnectsInbound (fun _ => still_waiting s) s.
Proof.
  intros Hg. apply (wp_for_each (still_waiting s) (fun _ => True)); [|by apply Forall_true|done].
  intros fd s1 _ [Hg1 Hsub]. eapply wp_mono; [apply wp_and_wlp; [by apply disconnect_inbound_gate|]|].
  - intros u s2 H. rewrite disconnect_inbound_run in H. injection H as _ <-.
    instantiate (1 := fun _ s2 => accepts (os s2) = accepts (os s1)). cbn. by repeat case_match.
  - intros ? s2 [Hg2 E]. split; [done|]. by rewrite E.
Qed.

Lemma handle_requests_gate listen_fd events s : in_range_events listen_fd events -> gate_ok s ->
  wpx (accept_fault listen_fd events s) (handle_requests_once listen_fd events) (fun _ s' => gate_ok s') s.
Proof.
  intros Hev Hg. unfold handle_requests_once. apply wpx_bind. apply wp_wpx. eapply wp_mono; [by apply disconnect_all_gate|].
  intros ? s1 Hs1. apply (wpx_mono (accept_fault listen_fd events s) _ _ (fun _ => still_waiting s)); [|done|by intros ? s' [H _]].
  apply (wpx_for_each _ (still_waiting s) (fun ev => ev ∈ events /\ (ev.1 = listen_fd \/ 0 <= ev.1 < FD_SLOTS)));
    [|by apply Forall_forall; unfold in_range_events in Hev; rewrite Forall_forall in Hev; auto|done].
  intros ev s2 [Hin Hfd] [Hg2 Hsub]. eapply wpx_mono; [by apply handle_event_gate|..].
  - intros f (-> & <- & acc & Ha & Ho). split; [done|]. split; [by apply list_elem_of_fmap_2|]. exists acc. split; [by apply Hsub|done].
  - intros ? s3 [Hg3 Hsub3]. split; [done|]. by etrans.
Qed.

Lemma serve_responses_gate events s : Forall (fun ev : Z * bool => 0 <= ev.1 < FD_SLOTS) events -> gate_ok s ->
  wp (serve_responses_once events) (fun _ s' => gate_ok s') s.
Proof.
  intros Hev Hg. eapply wp_mono; [eapply wp_preserves; [apply serve_responses_frame|]|].
  - apply (serve_iteration_ok s events); [apply Hg|done].
  - intros ? s' (Hs & s1 & s2 & _ & _ & _ & [Hinv _ _ _] & _ & [D1 _] & [D2 D3]).
    injection Hs as E1 E2 E3 E4 E5 E6. destruct Hg as [[_ I2 _ _] R C T Q [B A]]. constructor.
    + constructor; [done|unfold routes_ok; by rewrite E3|done|by rewrite D3; constructor].
    + by rewrite E1.
    + by rewrite E1, E2.
    + by rewrite E4.
    + by rewrite E4.
    + constructor; [|by rewrite E6]. intros fd. unfold incoming. rewrite E5. apply B.
Qed.
