(* ===== verification/System.v ===== *)
(** The exchange under every schedule: the three threads of [exchange/app/exchange.cpp] take
    their iterations in any order, with any events and any answers of the kernel between
    them.  Every schedule runs to its end, but for two faults: the matching thread leaves
    the array of levels ([Overprice]), and [registerConnections] leaves the arrays of
    connections.  The book is always the one the specification reaches by serving the
    messages the matching thread has taken, in order. *)

From S2P Require Import Prelude Types Ring Pool Book Spec Validation Engine Overprice Protocol Buffer ServerState Gateway Responder Frame Exchange Gate.

Local Open Scope Z_scope.

(** * Schedules *)

(** The exchange between two iterations; [have_] is the matching thread's message of
    look-ahead ([cur], when [have] is set), [log_] the history of the messages it has
    executed. *)
Record System : Type := mkSystem { exchange_ : Exchange; have_ : option InboundMessage; log_ : list InboundMessage }.

(** The messages the matching thread has still to execute. *)
Definition queue (y : System) : list InboundMessage := held (have_ y) ++ contents (to_engine (server_ (exchange_ y))).

(** One iteration of a thread, for the events [epoll_wait] returns; or the kernel has new
    answers. *)
Inductive turn : Type :=
  | InboundTurn (events : list (Z * bool))
  | MatchingTurn
  | OutboundTurn (events : list (Z * bool))
  | KernelTurn (k : Kernel).

(** New answers; what the program told the kernel stays. *)
Definition renew (k : Kernel) (s : Server) : Server :=
  set_os (mkKernel (recvs k) (sends k) (accepts k) (errno_ k) (clock k) (out_ctls k) (epoll_in_ (os s)) (epoll_out_ (os s))
                   (closed (os s)) (taken (os s))) s.

Definition on_exchange {A : Type} (m : XM A) : M System A :=
  fun y => match m (exchange_ y) with Ok (a, x) => Ok (a, mkSystem x (have_ y) (log_ y)) | Err f => Err f end.

Definition matching_turn : M System unit :=
  y ← get;
  have ← on_exchange (on_engine (matching_iteration (have_ y)));
  modify (fun y' => mkSystem (exchange_ y') have (log_ y ++ take 1 (queue y))).

Definition take_turn (listen_fd : Z) (t : turn) : M System unit :=
  match t with
  | InboundTurn events => on_exchange (on_server (handle_requests_once listen_fd events))
  | MatchingTurn => matching_turn
  | OutboundTurn events => on_exchange (on_server (serve_responses_once events))
  | KernelTurn k => on_exchange (on_server (modify (renew k)))
  end.

Definition run_schedule (listen_fd : Z) : list turn -> M System unit := for_each (take_turn listen_fd).

Definition system_of (ring_count : Z) (capacity : nat) (k : Kernel) : System :=
  mkSystem (exchange_of ring_count capacity k) None [].

(** What the kernel may do: report events of the descriptors that the program has given it
    (the listening socket and registered connections), and hand over bytes. *)
Definition turn_ok (listen_fd : Z) (t : turn) : Prop :=
  match t with
  | InboundTurn events => in_range_events listen_fd events
  | OutboundTurn events => Forall (fun ev => 0 <= ev.1 < FD_SLOTS) events
  | MatchingTurn => True
  | KernelTurn k => env_ok k
  end.

(** * Specification *)

(** The next id and the book after the messages of a list. *)
Definition serve_next (st : Z * SBook) (m : InboundMessage) : Z * SBook :=
  let new := decide (in_message_type m = NEW) in
  (if new then st.1 + 1 else st.1, (s_serve m (if new then st.1 else in_order_id m) st.2).1).
Definition served (capacity : nat) (log : list InboundMessage) : Z * SBook :=
  foldl serve_next (0, mkSBook [] [] capacity) log.

(** After at most [n] turns of the matching thread. *)
Record system_ok (capacity : nat) (n : nat) (y : System) : Prop := {
  so_gate : gate_ok (server_ (exchange_ y));
  so_have : Forall checked (held (have_ y));
  so_log : (length (log_ y) <= n)%nat /\ Forall checked (log_ y);
  so_engine : engine_ok (engine_ (exchange_ y)) (served capacity (log_ y)).2 /\
    next_id_ (engine_ (exchange_ y)) = (served capacity (log_ y)).1
}.

(** Everything that was ever handed to the matching thread, in order. *)
Definition handed (y : System) : list InboundMessage := log_ y ++ queue y.

(** A turn of the matching thread that leaves the array of levels. *)
Definition stuck (capacity : nat) (y : System) : Prop := exists m rest,
  queue y = m :: rest /\ above_range m /\
  reaches_level (request_of (assigned m (engine_ (exchange_ y))) m) (served capacity (log_ y)).2 /\
  matching_turn y = Err OutOfBounds.

(** An iteration of the inbound thread that leaves the arrays of connections: epoll reports
    the listening socket, and among the connections to accept is one whose descriptor the
    arrays have no slot for. *)
Definition overruns (listen_fd : Z) (events : list (Z * bool)) (y : System) : Prop :=
  listen_fd ∈ events.*1 /\ crowded (server_ (exchange_ y)) /\ take_turn listen_fd (InboundTurn events) y = Err OutOfBounds.

(** The turns that fault. *)
Definition faults (capacity : nat) (listen_fd : Z) (t : turn) (y : System) : Prop :=
  match t with
  | MatchingTurn => stuck capacity y
  | InboundTurn events => overruns listen_fd events y
  | _ => False
  end.

(** * Turns *)

Lemma served_snoc capacity log m : served capacity (log ++ [m]) = serve_next (served capacity log) m.
Proof. unfold served. by rewrite foldl_app. Qed.

Lemma served_ids capacity log : 0 <= (served capacity log).1 <= Z.of_nat (length log).
Proof.
  induction log as [|m log IH] using rev_ind; [done|]. rewrite served_snoc, length_app. unfold serve_next. cbn [fst length].
  case_decide; lia.
Qed.

Lemma system_of_ok n capacity k : 0 <= n <= 31 -> Z.of_nat capacity < 2 ^ 32 -> env_ok k ->
  system_ok capacity 0 (system_of (2 ^ n) capacity k).
Proof.
  intros Hn Hcap Hk. destruct (exchange_of_ok n capacity k Hn Hcap) as (He & Ho & Hr). constructor; [|done|done|done].
  constructor; [exact Ho|by intros fd [? ?]|done|exact Hr| |exact Hk].
  cbn. unfold contents, used, ring_init. cbn. constructor.
Qed.

(** ** The inbound thread appends to the queue *)

Definition queue_grows (s s' : Server) : Prop := ring_ok (to_engine s) ->
  ring_ok (to_engine s') /\ contents (to_engine s) `prefix_of` contents (to_engine s').

#[export] Instance queue_grows_preorder : PreOrder queue_grows.
Proof.
  split; [by intros s H|]. intros s1 s2 s3 H12 H23 H. destruct (H12 H) as [R2 P2], (H23 R2) as [R3 P3].
  split; [done|]. by transitivity (contents (to_engine s2)).
Qed.

Lemma push_grows msg s : queue_grows s (set_to_engine (ring_push msg (to_engine s)).2 s).
Proof.
  intros H. cbn. destruct (push_all_contents [msg] (to_engine s) H) as (R & _ & C). cbn [push_all foldl] in R, C.
  split; [exact R|]. rewrite C. pose proof (length_contents _ H). pose proof (used_bounds _ H).
  rewrite take_app_ge by lia. by eexists.
Qed.

Ltac queue_grows := preserves_with ltac:(first [apply push_grows | by intros H]).

Lemma process_frame_grows fd : preserves queue_grows (process_frame fd).
Proof. unfold process_frame, get_istate, put_istate, push_error. queue_grows. Qed.
Lemma sys_recv_grows fd n : preserves queue_grows (sys_recv fd n).
Proof. intros s r s' H. unfold sys_recv, mbind, M_bind, get in H. destruct (recv_answer _ _). by injection H as _ <-. Qed.
Lemma sys_rdtsc_grows : preserves queue_grows sys_rdtsc.
Proof. intros s r s' H. by injection H as _ <-. Qed.
Lemma condemn_grows fd : preserves queue_grows (condemnConnection fd true).
Proof. unfold condemnConnection, check_fd, epoll_in_set, with_kernel, store_condemned_inbound. queue_grows. Qed.
#[export] Hint Resolve process_frame_grows sys_recv_grows sys_rdtsc_grows condemn_grows : frame.

Lemma read_grows fd : preserves queue_grows (readAndProcessBytes fd).
Proof. unfold readAndProcessBytes, readRequest, processRequest, read_more, get_istate, put_istate, check_fd, sys_errno. queue_grows. Qed.
Lemma register_grows : preserves queue_grows registerConnections.
Proof.
  unfold registerConnections, register_one, sys_close, epoll_in_set, with_kernel, check_fd, store_condemned_inbound,
    store_condemned_outbound, put_ostate, put_istate. queue_grows.
Qed.
Lemma disconnect_grows fd : preserves queue_grows (disconnect_inbound fd).
Proof. unfold disconnect_inbound, sys_close, epoll_in_set, with_kernel, store_condemned_inbound, store_condemned_outbound. queue_grows. Qed.
#[export] Hint Resolve read_grows register_grows disconnect_grows : frame.

Lemma handle_requests_grows listen_fd events : preserves queue_grows (handle_requests_once listen_fd events).
Proof.
  unfold handle_requests_once, handleDisconnectsInbound, handle_event_in, epoll_in_set, with_kernel, check_fd, store_condemned_inbound.
  queue_grows.
Qed.

Lemma serve_grows events : preserves queue_grows (serve_responses_once events).
Proof.
  intros s a s' H. pose proof (serve_responses_frame events s a s' H) as E. injection E as _ _ _ E _ _. intros Hr. by rewrite E.
Qed.

(** ** The turns of the gateway *)

Lemma wpx_server_turn E capacity n y (m : SM unit) : system_ok capacity n y -> preserves queue_grows m ->
  wpx E m (fun _ s => gate_ok s) (server_ (exchange_ y)) ->
  wpx E (on_exchange (on_server m)) (fun _ y' => system_ok capacity (S n) y' /\ handed y `prefix_of` handed y') y.
Proof.
  intros [Hg Hh [H1 H2] H3] Hgrow Hm. unfold wpx, on_exchange, on_server in *.
  destruct (m (server_ (exchange_ y))) as [[[] s]|] eqn:Em; [|done]. split; [constructor; try done; split; [cbn; lia|done]|].
  destruct (Hgrow _ _ _ Em (gt_ring _ Hg)) as [_ Hp]. unfold handed, queue. cbn. by do 2 apply prefix_app.
Qed.

Lemma renew_gate k s : env_ok k -> gate_ok s -> gate_ok (renew k s).
Proof.
  intros [B A] [I R C T Q _]. destruct I as [[O1 O2] I2 I3 I4].
  by constructor.
Qed.

(** ** The turns of the matching thread *)

(** It waits, it executes the oldest message, or it is stuck. *)
Lemma matching_turn_ok capacity n y : system_ok capacity n y -> Z.of_nat n + 1 < 2 ^ 64 ->
  stuck capacity y \/ wp matching_turn (fun _ y' => system_ok capacity (S n) y' /\ handed y = handed y') y.
Proof.
  intros [Hg Hh [L1 L2] [L3 L4]] Hn. set (x := exchange_ y) in *. set (e := attached x).
  pose proof (attached_ok x _ L3) as He. pose proof (gt_ring _ Hg) as Hring. pose proof (served_ids capacity (log_ y)) as Hids.
  assert (Hck : Forall checked (queue y)) by (apply Forall_app; split; [done|apply Hg]).
  assert (Hrun : forall have' e', matching_iteration (have_ y) e = Ok (have', e') -> matching_turn y =
    Ok (tt, mkSystem (mkExchange (set_from_engine (out_ring_ (book_ e')) (set_to_engine (in_ring_ e') (server_ x))) e')
                     have' (log_ y ++ take 1 (queue y)))).
  { intros have' e' E. unfold matching_turn, mbind, M_bind, get, on_exchange, on_engine. fold x e. by rewrite E. }
  destruct (queue y) as [|m rest] eqn:Hq.
  - right. pose proof Hq as [Hn1 Hn2]%app_eq_nil. destruct (have_ y) eqn:Ey; [done|]. change (contents (to_engine (server_ x)) = []) in Hn2.
    pose proof (Hrun None e (matching_idle e Hring Hn2)) as E. apply (wp_intro _ _ _ _ _ E). rewrite app_nil_r. split.
    + constructor; [|done|split; [cbn; lia|done]|done].
      destruct Hg as [[I1 I2 I3 I4] R C T Q V]. constructor; try done. constructor; try done. by destruct I1; constructor.
    + unfold handed. rewrite Hq. unfold queue. cbn [exchange_ server_ to_engine set_from_engine set_to_engine have_ log_].
      change (in_ring_ e) with (to_engine (server_ x)). by rewrite Hn2.
  - apply Forall_cons in Hck as [Hm Hrest].
    destruct (matching_takes (have_ y) e m rest Hring Hq) as (have' & r & Hr & Hqr & Hit).
    destruct (execute_total m (set_in_ring r e) (served capacity (log_ y)).2) as [(S1 & S2 & S3)|(_ & e' & S1 & S2 & S3 & S4 & S5)];
      [by apply engine_ok_ring|done|change (next_id_ _) with (next_id_ (engine_ x)); lia|left|right].
    + exists m, rest. split_and!; [done|done|exact S2|].
      unfold matching_turn, mbind, M_bind, get, on_exchange, on_engine. fold x e. by rewrite Hit, S3.
    + rewrite S1 in Hit. apply (wp_intro _ _ _ _ _ (Hrun have' e' Hit)). rewrite S4. cbn [in_ring_ set_in_ring]. change (take 1 (m :: rest)) with [m].
      rewrite <- Hqr in Hrest. apply Forall_app in Hrest as [Hh' Hr']. split; [constructor; [|exact Hh'| |]|].
      * destruct Hg as [[I1 I2 [I3 I3'] I4] R C T Q V]. constructor; try done. constructor; try done.
        -- by destruct I1; constructor.
        -- split; [|done]. cbn [from_engine set_from_engine]. rewrite S3. by apply push_all_contents.
      * cbn [log_]. rewrite length_app. cbn [length]. split; [lia|]. apply Forall_app. split; [done|by constructor].
      * cbn [log_ exchange_ engine_]. rewrite served_snoc. unfold serve_next. cbn [fst snd].
        unfold assigned, ids_after in *. change (next_id_ (set_in_ring r e)) with (next_id_ (engine_ x)) in *. rewrite L4 in *.
        case_decide; (split; [exact S2|]); rewrite S5; lia.
      * unfold handed. rewrite Hq. unfold queue. cbn. by rewrite Hqr, <- app_assoc.
Qed.

Lemma take_turn_ok capacity n listen_fd t y : system_ok capacity n y -> turn_ok listen_fd t -> Z.of_nat n + 1 < 2 ^ 64 ->
  (faults capacity listen_fd t y /\ take_turn listen_fd t y = Err OutOfBounds) \/
  wp (take_turn listen_fd t) (fun _ y' => system_ok capacity (S n) y' /\ handed y `prefix_of` handed y') y.
Proof.
  intros Hy Ht Hn. destruct t as [events| |events|k].
  - pose proof (wpx_server_turn _ capacity n y _ Hy (handle_requests_grows listen_fd events)
      (handle_requests_gate listen_fd events _ Ht (so_gate _ _ _ Hy))) as H.
    unfold wpx in H. unfold wp. cbn [take_turn]. destruct (on_exchange _ y) as [[[] y']|f] eqn:E; [by right|left].
    destruct H as (-> & H1 & H2). done.
  - destruct (matching_turn_ok capacity n y Hy Hn) as [H|H]; [left; split; [done|]|right].
    + by destruct H as (? & ? & _ & _ & _ & H).
    + eapply wp_mono; [exact H|]. intros ? y' [H1 H2]. by rewrite H2.
  - right. apply wpx_wp, wpx_server_turn; [done|apply serve_grows|]. by apply wp_wpx, serve_responses_gate; [|apply Hy].
  - right. apply wpx_wp, wpx_server_turn; [done|by apply (preserves_modify queue_grows)|]. apply wp_wpx, wp_modify.
    by apply renew_gate; [|apply Hy].
Qed.

(** * Runs *)

Lemma run_schedule_ok capacity listen_fd ts n y : system_ok capacity n y -> Forall (turn_ok listen_fd) ts ->
  Z.of_nat n + Z.of_nat (length ts) < 2 ^ 64 ->
  wp (run_schedule listen_fd ts) (fun _ y' => system_ok capacity (n + length ts) y' /\ handed y `prefix_of` handed y') y \/
  exists before t after y', ts = before ++ t :: after /\ run_schedule listen_fd before y = Ok (tt, y') /\
    faults capacity listen_fd t y' /\ run_schedule listen_fd ts y = Err OutOfBounds.
Proof.
  revert n y. induction ts as [|t ts IH]; intros n y Hy Hts Hn.
  { left. cbn. by rewrite Nat.add_0_r. }
  apply Forall_cons in Hts as [Ht Hts]. cbn [length] in Hn.
  destruct (take_turn_ok capacity n listen_fd t y Hy Ht) as [[Hs E]|Hw]; [lia| |].
  - right. exists [], t, ts, y. split; [done|]. split; [done|]. split; [done|].
    unfold run_schedule. cbn [for_each]. unfold mbind, M_bind. by rewrite E.
  - apply wp_Ok in Hw as ([] & y1 & E & Hy1 & Hp1). unfold run_schedule in *. cbn [for_each]. unfold mbind, M_bind.
    destruct (IH (S n) y1 Hy1 Hts) as [Hw|(before & u & after & y2 & -> & E1 & E2 & E3)]; [lia| |].
    + left. apply wp_Ok in Hw as ([] & y2 & E2 & Hy2 & Hp2). apply (wp_intro _ _ _ tt y2); [by rewrite E|].
      cbn [length]. rewrite <- Nat.add_succ_comm. split; [done|by transitivity (handed y1)].
    + right. exists (t :: before), u, after, y2. split; [done|]. split; [|split; [done|by rewrite E]]. cbn [for_each]. unfold mbind, M_bind. by rewrite E.
Qed.

Lemma run_reaches capacity listen_fd ts n y y' : system_ok capacity n y -> Forall (turn_ok listen_fd) ts ->
  Z.of_nat n + Z.of_nat (length ts) < 2 ^ 64 -> run_schedule listen_fd ts y = Ok (tt, y') ->
  system_ok capacity (n + length ts) y' /\ handed y `prefix_of` handed y'.
Proof.
  intros Hy Hts Hn Hrun. destruct (run_schedule_ok capacity listen_fd ts n y Hy Hts Hn) as [H|(? & ? & ? & ? & _ & _ & _ & H)]; [|congruence].
  unfold wp in H. by rewrite Hrun in H.
Qed.

(** C4. Every schedule runs.  Whatever the order in which the three threads take their
    iterations, whatever events and answers the kernel gives them and whatever bytes
    the clients send, each iteration ends without a fault - no array is left, no dead
    connection touched, no loop runs on - with two exceptions.  The matching thread leaves
    the array of levels when the oldest message is a limit order above [MAX_PRICE] that
    gets as far as the array; and the inbound thread leaves the arrays of connections
    when, epoll reporting the listening socket, [accept] gives it a descriptor of
    [MAX_CLIENTS] + 10 or more that [fcntl] and [epoll_ctl] take. *)
Theorem every_schedule_runs n capacity k listen_fd ts :
  0 <= n <= 31 -> Z.of_nat capacity < 2 ^ 32 -> env_ok k -> Forall (turn_ok listen_fd) ts -> Z.of_nat (length ts) < 2 ^ 64 ->
  let y := system_of (2 ^ n) capacity k in
  (exists y', run_schedule listen_fd ts y = Ok (tt, y')) \/
  exists before t after y', ts = before ++ t :: after /\ run_schedule listen_fd before y = Ok (tt, y') /\
    faults capacity listen_fd t y' /\ run_schedule listen_fd ts y = Err OutOfBounds.
Proof.
  intros Hn Hcap Hk Hts Hlen y.
  destruct (run_schedule_ok capacity listen_fd ts 0 y) as [H|H]; [by apply system_of_ok|done|lia| |by right].
  left. apply wp_Ok in H as ([] & y' & H & _). by exists y'.
Qed.

(** C5. The book under every schedule.  After any schedule of iterations that has run, the
    book and the id counter are those the specification reaches by serving, one after
    the other, the messages the matching thread has executed; and as the schedule goes
    on, the messages executed and those that wait - in the ring or in look-ahead - form
    one sequence that only grows at its end: every message the gateway has pushed is
    executed once, in the order in which it was pushed, and all of them are typed and
    validated. *)
Theorem schedule_refines n capacity k listen_fd ts ts' y y' :
  0 <= n <= 31 -> Z.of_nat capacity < 2 ^ 32 -> env_ok k -> Forall (turn_ok listen_fd) (ts ++ ts') ->
  Z.of_nat (length (ts ++ ts')) < 2 ^ 64 ->
  run_schedule listen_fd ts (system_of (2 ^ n) capacity k) = Ok (tt, y) -> run_schedule listen_fd ts' y = Ok (tt, y') ->
  engine_ok (engine_ (exchange_ y')) (served capacity (log_ y')).2 /\
  next_id_ (engine_ (exchange_ y')) = (served capacity (log_ y')).1 /\
  log_ y ++ queue y `prefix_of` log_ y' ++ queue y' /\ Forall checked (log_ y' ++ queue y').
Proof.
  intros Hn Hcap Hk [Hts Hts']%Forall_app Hlen Hrun Hrun'. rewrite length_app in Hlen.
  destruct (run_reaches capacity listen_fd ts 0 _ y (system_of_ok n capacity k Hn Hcap Hk) Hts) as [Hy _]; [lia|done|].
  destruct (run_reaches capacity listen_fd ts' _ y y' Hy Hts') as [[Hg Hh [_ Hl] [He Hid]] Hp]; [lia|done|].
  split_and!; [done|done|exact Hp|]. apply Forall_app. split; [done|]. apply Forall_app. split; [done|apply Hg].
Qed.

(** A client connects on descriptor 5, sends a frame, and is answered. *)
Definition sample_answers (frame : list Z) : Kernel :=
  mkKernel {[5 := [as_answer frame; RecvError EAGAIN]]} {[5 := [Sent 32]]} [] (errno_other 0) [1000; 2000] [] ∅ ∅ [] ∅.
Definition sample_schedule (frame : list Z) : list turn :=
  [OutboundTurn []; InboundTurn [(3, false)]; KernelTurn (sample_answers frame); MatchingTurn; InboundTurn [(5, false)];
   MatchingTurn; OutboundTurn []].
Definition one_waiting : Kernel := mkKernel ∅ ∅ [mkAccepted 5 true true] (errno_other 0) [] [] ∅ ∅ [] ∅.

Lemma one_waiting_ok : env_ok one_waiting.
Proof. constructor; [intros fd; constructor|repeat constructor; vm_compute; congruence]. Qed.

Lemma sample_schedule_ok frame : length frame = 72%nat -> Forall is_u8 frame -> Forall (turn_ok 3) (sample_schedule frame).
Proof.
  intros Hl Hf. repeat (apply Forall_cons; split); try done; try (repeat constructor; vm_compute; congruence).
  constructor; [|constructor]. intros fd. unfold incoming. cbn [recvs sample_answers].
  destruct (decide (fd = 5)) as [->|Hne]; [rewrite lookup_singleton_eq|rewrite lookup_singleton_ne by done; constructor].
  destruct frame as [|x l]; [done|]. cbn. by rewrite app_nil_r.
Qed.

Definition overpriced_frame : list Z := HEADER ++ inbound_bytes overpriced (replicate 9 0) ++ replicate 7 0.

Lemma sample_bytes : Forall is_u8 sample_frame /\ Forall is_u8 overpriced_frame.
Proof.
  split; [let l := eval vm_compute in sample_frame in change sample_frame with l
         |let l := eval vm_compute in overpriced_frame in change overpriced_frame with l];
    repeat (apply Forall_cons_2; [unfold is_u8; lia|]); apply Forall_nil_2.
Qed.

(** One more connection than the arrays have slots for. *)
Definition too_many : Kernel := mkKernel ∅ ∅ [mkAccepted FD_SLOTS true true] (errno_other 0) [] [] ∅ ∅ [] ∅.

Lemma too_many_ok : env_ok too_many.
Proof. constructor; [intros fd; constructor|repeat constructor; vm_compute; congruence]. Qed.

Lemma every_schedule_runs_witness :
  let y := system_of 8 4 one_waiting in
  match run_schedule 3 (sample_schedule sample_frame) y with
  | Ok (_, y') => bytes_of 5 (os (server_ (exchange_ y'))) = frame_of (ack_msg (mkInbound 1000 2 3 4 7 100 5 NEW BID LIMIT) 0 SUCCESS)
  | Err _ => False
  end /\
  run_schedule 3 (sample_schedule overpriced_frame) y = Err OutOfBounds /\
  ((exists y', run_schedule 3 (sample_schedule overpriced_frame) y = Ok (tt, y')) \/
   exists before t after y', sample_schedule overpriced_frame = before ++ t :: after /\ faults 4 3 t y') /\
  run_schedule 3 [InboundTurn [(3, false)]] (system_of 8 4 too_many) = Err OutOfBounds /\
  exists before t after y', [InboundTurn [(3, false)]] = before ++ t :: after /\ faults 4 3 t y'.
Proof.
  assert (Hover : run_schedule 3 [InboundTurn [(3, false)]] (system_of 8 4 too_many) = Err OutOfBounds) by (vm_compute; reflexivity).
  split; [vm_compute; reflexivity|]. split; [vm_compute; reflexivity|]. split; [|split; [exact Hover|]].
  - destruct (every_schedule_runs 3 4 one_waiting 3 (sample_schedule overpriced_frame)) as [H|(b & t & a & y' & E & _ & H & _)].
    + lia.
    + reflexivity.
    + exact one_waiting_ok.
    + apply sample_schedule_ok; [reflexivity|apply sample_bytes].
    + reflexivity.
    + left. exact H.
    + right. exists b, t, a, y'. split; [exact E|exact H].
  - destruct (every_schedule_runs 3 4 too_many 3 [InboundTurn [(3, false)]]) as [[y' H]|(b & t & a & y' & E & _ & H & _)].
    + lia.
    + reflexivity.
    + exact too_many_ok.
    + constructor; [|constructor]. constructor; [|constructor]. left. reflexivity.
    + reflexivity.
    + change (2 ^ 3) with 8 in H. rewrite Hover in H. discriminate H.
    + exists b, t, a, y'. split; [exact E|exact H].
Defined.

(** Before and after the matching thread has executed the client's message. *)
Lemma schedule_refines_witness : exists y y', run_schedule 3 (take 5 (sample_schedule sample_frame)) (system_of 8 4 one_waiting) = Ok (tt, y) /\
  run_schedule 3 (drop 5 (sample_schedule sample_frame)) y = Ok (tt, y') /\
  length (log_ y) = 0%nat /\ length (queue y) = 1%nat /\ length (log_ y') = 1%nat /\ log_ y ++ queue y `prefix_of` log_ y' ++ queue y' /\
  engine_ok (engine_ (exchange_ y')) (served 4 (log_ y')).2.
Proof.
  assert (H : match run_schedule 3 (take 5 (sample_schedule sample_frame)) (system_of 8 4 one_waiting) with
    | Ok (_, y) => match run_schedule 3 (drop 5 (sample_schedule sample_frame)) y with
                   | Ok (_, y') => (length (log_ y), length (queue y), length (log_ y')) = (0, 1, 1)%nat | Err _ => False end
    | Err _ => False end) by (vm_compute; reflexivity).
  destruct (run_schedule 3 (take 5 (sample_schedule sample_frame)) (system_of 8 4 one_waiting)) as [[[] y]|] eqn:E; [|destruct H].
  destruct (run_schedule 3 (drop 5 (sample_schedule sample_frame)) y) as [[[] y']|] eqn:E'; [|destruct H].
  exists y, y'. injection H as H1 H2 H3. split; [reflexivity|]. split; [exact E'|]. split; [exact H1|]. split; [exact H2|]. split; [exact H3|].
  destruct (schedule_refines 3 4 one_waiting 3 (take 5 (sample_schedule sample_frame)) (drop 5 (sample_schedule sample_frame)) y y')
    as (P1 & _ & P2 & _).
  - lia.
  - reflexivity.
  - exact one_waiting_ok.
  - rewrite take_drop. apply sample_schedule_ok; [reflexivity|apply sample_bytes].
  - reflexivity.
  - exact E.
  - exact E'.
  - split; [exact P2|exact P1].
Defined.
