(* ===== verification/Lifecycle.v ===== *)
(** Starting and stopping ([exchange/app/exchange.cpp], [main.cpp]; [Server::run],
    [~Server] and the loops of [handleRequests] and [serveResponses] in
    [exchange/server/src/server.cpp]; [Engine::run] and the loop of [handleMatching] in
    [exchange/engine/src/engine.cpp]): the main thread, the three threads it starts,
    the stop flag, and the order in which members are destroyed, as steps of one state
    machine.  An iteration of a thread's loop, which [System] runs, is here the stay in
    [InBody]. *)

From S2P Require Import Prelude.
From stdpp Require Import relations.

(** * State *)

(** Where a thread is: not started, before its loop ([setupListenSocket]), at the test of
    the stop flag, in an iteration, returned. *)
Inductive thread_pc : Set := Absent | InSetup | AtTest | InBody | Gone.

#[export] Instance thread_pc_eq_dec : EqDecision thread_pc.
Proof. solve_decision. Defined.

(** Where the main thread is: in [Server::run] ([setupEpoll], the two [jthread]s), in
    [Engine::run], in [stop_.wait(false)] - comparing or blocked -, in [~Server] - the
    body, the members declared after the threads, the threads -, in [~Engine] - the
    book, the thread -, at the end. *)
Inductive main_pc : Set :=
  | MSetupEpoll | MSpawnInbound | MSpawnOutbound | MSpawnMatching
  | MCompare | MBlocked
  | MCloseEpoll | MDestroyMaps | MJoinOutbound | MJoinInbound
  | MDestroyBook | MJoinMatching | MDone.

Record Life : Set := mkLife {
  main : main_pc;
  inbound : thread_pc;
  outbound : thread_pc;
  matching : thread_pc;
  stop : bool;
  (* the descriptors of the two epoll instances are open *)
  epolls_open : bool;
  (* the connection state of the server and the engine's book are alive *)
  maps_alive : bool;
  book_alive : bool
}.

Definition life_init : Life := mkLife MSetupEpoll Absent Absent Absent false false true true.

(** [~jthread] waits for the thread, if there is one. *)
Definition joinable (t : thread_pc) : bool := match t with Absent | Gone => true | _ => false end.

(** * Steps *)

(** [Exchange::stop]: the flag is set and the waiting main thread is notified. *)
Definition signal (s : Life) : Life :=
  mkLife (match main s with MBlocked => MCompare | m => m end) (inbound s) (outbound s) (matching s) true
         (epolls_open s) (maps_alive s) (book_alive s).

Inductive main_step : Life -> Life -> Prop :=
  | epoll_created i o m st e a b :
      main_step (mkLife MSetupEpoll i o m st e a b) (mkLife MSpawnInbound i o m st true a b)
  (* setupEpoll fails: Server::run returns, and Exchange::run goes on *)
  | epoll_failed i o m st e a b :
      main_step (mkLife MSetupEpoll i o m st e a b) (mkLife MSpawnMatching i o m st e a b)
  | spawn_inbound i o m st e a b :
      main_step (mkLife MSpawnInbound i o m st e a b) (mkLife MSpawnOutbound InSetup o m st e a b)
  | spawn_outbound i o m st e a b :
      main_step (mkLife MSpawnOutbound i o m st e a b) (mkLife MSpawnMatching i AtTest m st e a b)
  | spawn_matching i o m st e a b :
      main_step (mkLife MSpawnMatching i o m st e a b) (mkLife MCompare i o AtTest st e a b)
  | wait_returns i o m e a b :
      main_step (mkLife MCompare i o m true e a b) (mkLife MCloseEpoll i o m true e a b)
  | wait_blocks i o m e a b :
      main_step (mkLife MCompare i o m false e a b) (mkLife MBlocked i o m false e a b)
  (* ~Server: the body, then the members in the reverse order of their declaration; the
     threads are declared first *)
  | close_epolls i o m st e a b :
      main_step (mkLife MCloseEpoll i o m st e a b) (mkLife MDestroyMaps i o m st false a b)
  | destroy_maps i o m st e a b :
      main_step (mkLife MDestroyMaps i o m st e a b) (mkLife MJoinOutbound i o m st e false b)
  | join_outbound i o m st e a b : joinable o = true ->
      main_step (mkLife MJoinOutbound i o m st e a b) (mkLife MJoinInbound i o m st e a b)
  | join_inbound i o m st e a b : joinable i = true ->
      main_step (mkLife MJoinInbound i o m st e a b) (mkLife MDestroyBook i o m st e a b)
  (* ~Engine, in the same way *)
  | destroy_book i o m st e a b :
      main_step (mkLife MDestroyBook i o m st e a b) (mkLife MJoinMatching i o m st e a false)
  | join_matching i o m st e a b : joinable m = true ->
      main_step (mkLife MJoinMatching i o m st e a b) (mkLife MDone i o m st e a b).

(** The loop [while (!stop_.load()) { body }]: the thread's place and the flag before and
    after.  [may_fail] is the flag after [epoll_wait] has failed, when the thread has such
    a path. *)
Inductive loop_step (fails : bool -> option bool) : thread_pc * bool -> thread_pc * bool -> Prop :=
  | loop_ends : loop_step fails (AtTest, true) (Gone, true)
  | loop_enters : loop_step fails (AtTest, false) (InBody, false)
  | loop_again st : loop_step fails (InBody, st) (AtTest, st)
  | loop_fails st st' : fails st = Some st' -> loop_step fails (InBody, st) (Gone, st').

(** [handleRequests] sets the flag when [setupListenSocket] or [epoll_wait] fails, without
    notifying; [serveResponses] just returns when [epoll_wait] fails. *)
Definition inbound_fails (_ : bool) : option bool := Some true.
Definition outbound_fails (st : bool) : option bool := Some st.
Definition matching_fails (_ : bool) : option bool := None.

Inductive thread_step : Life -> Life -> Prop :=
  | listening mn o m st e a b :
      thread_step (mkLife mn InSetup o m st e a b) (mkLife mn AtTest o m st e a b)
  | not_listening mn o m st e a b :
      thread_step (mkLife mn InSetup o m st e a b) (mkLife mn Gone o m true e a b)
  | inbound_loop mn i i' o m st st' e a b : loop_step inbound_fails (i, st) (i', st') ->
      thread_step (mkLife mn i o m st e a b) (mkLife mn i' o m st' e a b)
  | outbound_loop mn i o o' m st st' e a b : loop_step outbound_fails (o, st) (o', st') ->
      thread_step (mkLife mn i o m st e a b) (mkLife mn i o' m st' e a b)
  | matching_loop mn i o m m' st st' e a b : loop_step matching_fails (m, st) (m', st') ->
      thread_step (mkLife mn i o m st e a b) (mkLife mn i o m' st' e a b).

(** A step of the program, and one with the user's signals. *)
Definition program_step (s s' : Life) : Prop := main_step s s' \/ thread_step s s'.
Definition life_step (s s' : Life) : Prop := program_step s s' \/ s' = signal s.
Definition life_reachable (s : Life) : Prop := rtc life_step life_init s.

(** * Invariant *)

(** How far the main thread has come. *)
Definition progress (m : main_pc) : nat :=
  match m with
  | MSetupEpoll => 0 | MSpawnInbound => 1 | MSpawnOutbound => 2 | MSpawnMatching => 3
  | MCompare | MBlocked => 4 | MCloseEpoll => 5 | MDestroyMaps => 6 | MJoinOutbound => 7
  | MJoinInbound => 8 | MDestroyBook => 9 | MJoinMatching => 10 | MDone => 11
  end.

Record life_ok (s : Life) : Prop := {
  lo_stop : 5 <= progress (main s) -> stop s = true;
  lo_joined : (8 <= progress (main s) -> joinable (outbound s) = true) /\
    (9 <= progress (main s) -> joinable (inbound s) = true) /\
    (11 <= progress (main s) -> joinable (matching s) = true);
  lo_started : (inbound s = Absent \/ 2 <= progress (main s)) /\ (outbound s = Absent \/ 3 <= progress (main s)) /\
    (matching s = Absent \/ 4 <= progress (main s));
  lo_setup : outbound s <> InSetup /\ matching s <> InSetup;
  lo_alive : (maps_alive s = true \/ 7 <= progress (main s)) /\ (book_alive s = true \/ 10 <= progress (main s))
}.

Create HintDb life discriminated.
#[local] Hint Extern 2 (_ <= _) => lia : life.

Lemma life_init_ok : life_ok life_init.
Proof. constructor; cbn; intuition (lia || done). Qed.

Lemma loop_facts fails t st t' st' : loop_step fails (t, st) (t', st') ->
  (forall st', fails true = Some st' -> st' = true) ->
  joinable t = false /\ t <> Absent /\ t <> InSetup /\ t' <> InSetup /\ (st = true -> st' = true).
Proof. intros Hs Hf. inversion Hs; subst; split_and!; try done. intros ->. by apply Hf. Qed.

Lemma fails_keep : (forall st', inbound_fails true = Some st' -> st' = true) /\
  (forall st', outbound_fails true = Some st' -> st' = true) /\ (forall st', matching_fails true = Some st' -> st' = true).
Proof. unfold inbound_fails, outbound_fails, matching_fails. split_and!; congruence. Qed.

Lemma main_step_ok s s' : life_ok s -> main_step s s' -> life_ok s'.
Proof.
  intros [H1 H2 H3 H4 H5] Hs. destruct Hs; cbn in *; constructor; cbn; intuition (lia || done || auto with life).
Qed.

Lemma thread_step_ok s s' : life_ok s -> thread_step s s' -> life_ok s'.
Proof.
  intros [H1 (H2 & H3 & H4) (H5 & H6 & H7) [H8 H9] [H10 H11]] Hs. destruct fails_keep as (K1 & K2 & K3).
  destruct Hs as [mn o m st e a b|mn o m st e a b|mn i i' o m st st' e a b L|mn i o o' m st st' e a b L|mn i o m m' st st' e a b L];
    cbn in *; try apply loop_facts in L as (L1 & L2 & L3 & L4 & L5); try done.
  1, 2: constructor; cbn; [intuition|split_and!; [done| |done]; intros Hp; by apply H3 in Hp|destruct H5; [done|auto]|done|done].
  all: constructor; cbn; [auto|split_and!; auto|split_and!; auto|done|done].
  - intros Hp. apply H3 in Hp. congruence.
  - destruct H5; [done|auto].
  - intros Hp. apply H2 in Hp. congruence.
  - destruct H6; [done|auto].
  - intros Hp. apply H4 in Hp. congruence.
  - destruct H7; [done|auto].
Qed.

Lemma signal_ok s : life_ok s -> life_ok (signal s).
Proof. intros [H1 H2 H3 H4 H5]. destruct s as [mn i o m st e a b]. destruct mn; by constructor. Qed.

Lemma reachable_ok s : life_reachable s -> life_ok s.
Proof.
  intros H. apply (rtc_ind_r (R := life_step) life_ok life_init); [exact life_init_ok| |exact H].
  intros s1 s2 _ [[Hs|Hs]| ->] Hok; [by eapply main_step_ok|by eapply thread_step_ok|by apply signal_ok].
Qed.

(** * Shutdown *)

(** The flag is set, and the main thread is not blocked on it. *)
Definition stopping (s : Life) : Prop := stop s = true /\ main s <> MBlocked.
Definition finished (s : Life) : Prop :=
  main s = MDone /\ joinable (inbound s) = true /\ joinable (outbound s) = true /\ joinable (matching s) = true.

(** The steps that are left once the flag is set. *)
Definition left (t : thread_pc) : nat := match t with InSetup | InBody => 2 | AtTest => 1 | Absent | Gone => 0 end.
Definition unspawned (m : main_pc) : nat :=
  match m with MSetupEpoll | MSpawnInbound => 4 | MSpawnOutbound => 2 | MSpawnMatching => 1 | _ => 0 end.
Definition remaining (s : Life) : nat :=
  (11 - progress (main s)) + unspawned (main s) + left (inbound s) + left (outbound s) + left (matching s).

Lemma loop_left fails t t' st' : loop_step fails (t, true) (t', st') -> left t' < left t.
Proof. inversion 1; subst; cbn; lia. Qed.

Lemma stopping_step s s' : life_ok s -> stopping s -> program_step s s' -> stopping s' /\ remaining s' < remaining s.
Proof.
  intros [_ _ (S1 & S2 & S3) _ _] [Hst Hm] [Hs|Hs]; unfold stopping, remaining.
  - destruct Hs; cbn in *; subst; try done; (split; [done|]); cbn; try lia.
  - destruct fails_keep as (K1 & K2 & K3).
    destruct Hs as [mn o m st e a b|mn o m st e a b|mn i i' o m st st' e a b L|mn i o o' m st st' e a b L|mn i o m m' st st' e a b L];
      cbn in *; subst; try (split; [done|cbn; lia]); pose proof (loop_left _ _ _ _ L);
      apply loop_facts in L as (_ & _ & _ & _ & L); try done; (split; [split; [auto|done]|lia]).
Qed.

(** A thread that runs can take a step. *)
Lemma loop_can fails t : joinable t = false -> t <> InSetup -> exists t', loop_step fails (t, true) (t', true).
Proof. destruct t; try done; intros _ _; eexists; constructor. Qed.

Lemma stopping_progress s : life_ok s -> stopping s -> finished s \/ exists s', program_step s s'.
Proof.
  intros [_ (J1 & J2 & J3) _ [N1 N2] _] [Hst Hm]. destruct s as [mn i o m st e a b]. cbn in *. subst st.
  assert (Hin : joinable i = true \/ exists s', program_step (mkLife mn i o m true e a b) s').
  { destruct (joinable i) eqn:E; [by left|right]. destruct (decide (i = InSetup)) as [->|Hne]; [eexists; right; constructor|].
    destruct (loop_can inbound_fails i E Hne) as [t' Ht]. eexists. right. by eapply inbound_loop. }
  assert (Hout : joinable o = true \/ exists s', program_step (mkLife mn i o m true e a b) s').
  { destruct (joinable o) eqn:E; [by left|right]. destruct (loop_can outbound_fails o E N1) as [t' Ht].
    eexists. right. by eapply outbound_loop. }
  assert (Hmat : joinable m = true \/ exists s', program_step (mkLife mn i o m true e a b) s').
  { destruct (joinable m) eqn:E; [by left|right]. destruct (loop_can matching_fails m E N2) as [t' Ht].
    eexists. right. by eapply matching_loop. }
  destruct Hin as [Hin|]; [|by right]. destruct Hout as [Hout|]; [|by right]. destruct Hmat as [Hmat|]; [|by right].
  destruct mn; try done; try (right; eexists; left; constructor; done). by left.
Qed.

Lemma remaining_bound s : life_ok s -> remaining s <= 15.
Proof.
  intros [_ _ (S1 & S2 & S3) _ _]. destruct s as [mn i o m st e a b]. unfold remaining. cbn in *.
  destruct mn; cbn in *; repeat match goal with H : _ \/ _ |- _ => destruct H as [->|?]; [|lia || idtac] end;
    repeat match goal with |- context [left ?t] => is_var t; destruct t end; cbn; lia.
Qed.

Lemma signal_stopping s : stopping (signal s).
Proof. destruct s as [mn i o m st e a b]. by destruct mn. Qed.

Lemma stopping_run n s s' : life_ok s -> stopping s -> nsteps program_step n s s' ->
  life_ok s' /\ stopping s' /\ n + remaining s' <= remaining s.
Proof.
  intros Hok Hst H. induction H as [s|n s s1 s' Hs _ IH]; [split_and!; [done|done|lia]|].
  destruct (stopping_step s s1 Hok Hst Hs) as [Hst1 Hlt].
  assert (Hok1 : life_ok s1) by (destruct Hs; [by eapply main_step_ok|by eapply thread_step_ok]).
  destruct (IH Hok1 Hst1) as (H1 & H2 & H3). split_and!; [done|done|lia].
Qed.

(** C15. A signal stops the exchange.  Whenever the handler of SIGINT or SIGTERM has run -
    during start-up, while the exchange serves, or when it is already stopping - the
    program takes at most fifteen more steps, an iteration of a thread's loop being one,
    and it cannot come to rest before the main thread has joined every thread that was
    started and has left [main]. *)
Theorem signal_stops_exchange s s' n : life_reachable s -> nsteps program_step n (signal s) s' ->
  n <= 15 /\ (finished s' \/ exists s'', program_step s' s'').
Proof.
  intros Hr Hrun. pose proof (signal_ok s (reachable_ok s Hr)) as Hok.
  destruct (stopping_run n (signal s) s' Hok (signal_stopping s) Hrun) as (H1 & H2 & H3).
  pose proof (remaining_bound _ Hok). split; [lia|by apply stopping_progress].
Qed.

(** One step of a run. *)
Tactic Notation "main_takes" constr(rule) := eapply rtc_l; [left; left; apply rule|].
Tactic Notation "thread_takes" uconstr(rule) := eapply rtc_l; [left; right; eapply rule; constructor|].

(** The exchange up and running: every thread is in an iteration, the main thread waits. *)
Definition serving : Life := mkLife MBlocked InBody InBody InBody false true true true.

Lemma serving_reachable : life_reachable serving.
Proof.
  unfold life_reachable, life_init. main_takes epoll_created. main_takes spawn_inbound. main_takes spawn_outbound.
  main_takes spawn_matching. main_takes wait_blocks. eapply rtc_l; [left; right; apply listening|].
  thread_takes inbound_loop. thread_takes outbound_loop. thread_takes matching_loop. apply rtc_refl.
Qed.

Lemma signal_stops_exchange_witness : exists s', nsteps program_step 13 (signal serving) s' /\ finished s' /\
  13 <= 15 /\ (finished s' \/ exists s'', program_step s' s'').
Proof.
  assert (H : nsteps program_step 13 (signal serving) (mkLife MDone Gone Gone Gone true false false false)).
  { unfold signal, serving. cbn. eapply nsteps_l; [right; eapply inbound_loop, loop_again|].
    eapply nsteps_l; [right; eapply inbound_loop, loop_ends|]. eapply nsteps_l; [right; eapply outbound_loop, loop_again|].
    eapply nsteps_l; [right; eapply outbound_loop, loop_ends|]. eapply nsteps_l; [right; eapply matching_loop, loop_again|].
    eapply nsteps_l; [right; eapply matching_loop, loop_ends|]. eapply nsteps_l; [left; apply wait_returns|].
    eapply nsteps_l; [left; apply close_epolls|]. eapply nsteps_l; [left; apply destroy_maps|].
    eapply nsteps_l; [left; by apply join_outbound|]. eapply nsteps_l; [left; by apply join_inbound|].
    eapply nsteps_l; [left; apply destroy_book|]. eapply nsteps_l; [left; by apply join_matching|]. apply nsteps_O. }
  eexists. split; [exact H|]. split; [by repeat split|].
  apply (signal_stops_exchange serving _ 13 serving_reachable H).
Defined.

(** C39. Members are destroyed in use.  The threads are the first members of [Server] and
    [Engine], so they are joined last: there are runs in which the descriptors of the
    epoll instances are closed and the connection state is destroyed while both gateway
    threads are in the middle of an iteration, and the book while the matching thread
    executes a request. *)
Theorem members_destroyed_in_use :
  (exists s, life_reachable s /\ maps_alive s = false /\ epolls_open s = false /\ inbound s = InBody /\ outbound s = InBody) /\
  (exists s, life_reachable s /\ book_alive s = false /\ matching s = InBody).
Proof.
  split.
  - exists (mkLife MJoinOutbound InBody InBody InBody true false false true). split; [|done].
    refine (transitivity (R := rtc life_step) serving_reachable _). eapply rtc_l; [by right|]. unfold signal, serving. cbn.
    main_takes wait_returns. main_takes close_epolls. main_takes destroy_maps. apply rtc_refl.
  - exists (mkLife MJoinMatching Gone Gone InBody true false false false). split; [|done].
    refine (transitivity (R := rtc life_step) serving_reachable _). eapply rtc_l; [by right|]. unfold signal, serving. cbn.
    thread_takes inbound_loop. thread_takes inbound_loop. thread_takes outbound_loop. thread_takes outbound_loop.
    main_takes wait_returns. main_takes close_epolls. main_takes destroy_maps.
    eapply rtc_l; [left; left; by apply join_outbound|]. eapply rtc_l; [left; left; by apply join_inbound|].
    main_takes destroy_book. apply rtc_refl.
Qed.

(** * Failed starts *)

(** The step in which the inbound thread returns because [setupListenSocket] has failed,
    and the one in which [Server::run] returns because [setupEpoll] has. *)
Definition setup_fails (s s' : Life) : Prop := program_step s s' /\ inbound s = InSetup /\ inbound s' = Gone.
Definition epoll_fails (s s' : Life) : Prop := program_step s s' /\ main s = MSetupEpoll /\ main s' = MSpawnMatching.

(** No thread runs. *)
Definition threads_ended (s : Life) : Prop := joinable (inbound s) = true /\ joinable (outbound s) = true /\ joinable (matching s) = true.

(** The flag is set and the main thread waits for the notification. *)
Definition hung (s : Life) : Prop := stop s = true /\ main s = MBlocked.
Definition running (s : Life) : nat := left (inbound s) + left (outbound s) + left (matching s).

Lemma setup_fails_inv s s' : setup_fails s s' ->
  stop s' = true /\ main s' = main s /\ inbound s' = Gone /\ outbound s' = outbound s /\ matching s' = matching s.
Proof.
  intros (Hs & H1 & H2). destruct Hs as [Hs|Hs].
  { exfalso. by destruct Hs; cbn in *; congruence. }
  destruct Hs as [| |? ? ? ? ? ? ? ? ? ? L|? ? ? ? ? ? ? ? ? ? L|? ? ? ? ? ? ? ? ? ? L]; cbn in *; subst; try done.
  by inversion L.
Qed.

Lemma hung_step s s' : life_ok s -> hung s -> program_step s s' -> life_ok s' /\ hung s' /\ running s' < running s.
Proof.
  intros Hok [Hst Hm] Hs. assert (Hok' : life_ok s') by (destruct Hs; [by eapply main_step_ok|by eapply thread_step_ok]).
  split; [done|]. unfold hung, running. destruct Hs as [Hs|Hs]; [by destruct Hs; cbn in *|].
  destruct fails_keep as (K1 & K2 & K3).
  destruct Hs as [| |? ? ? ? ? ? ? ? ? ? L|? ? ? ? ? ? ? ? ? ? L|? ? ? ? ? ? ? ? ? ? L]; cbn in *; subst; try (split; [done|lia]).
  all: pose proof (loop_left _ _ _ _ L); apply loop_facts in L as (_ & _ & _ & _ & L); try done; (split; [split; [auto|done]|lia]).
Qed.

Lemma hung_run n s s' : life_ok s -> hung s -> nsteps program_step n s s' ->
  life_ok s' /\ hung s' /\ n + running s' <= running s.
Proof.
  intros Hok Hh H. induction H as [s|n s s1 s' Hs _ IH]; [split_and!; [done|done|lia]|].
  destruct (hung_step s s1 Hok Hh Hs) as (Hok1 & Hh1 & Hlt). destruct (IH Hok1 Hh1) as (H1 & H2 & H3). split_and!; [done|done|lia].
Qed.

(** The main thread set aside, threads run on as they do when it is not blocked. *)
Lemma hung_progress s : life_ok s -> hung s -> threads_ended s \/ exists s', program_step s s'.
Proof.
  intros [_ _ _ [N1 N2] _] [Hst Hm]. destruct s as [mn i o m st e a b]. unfold threads_ended. cbn in *. subst mn st.
  destruct (joinable i) eqn:Ei.
  - destruct (joinable o) eqn:Eo.
    + destruct (joinable m) eqn:Em; [by left|right]. destruct (loop_can matching_fails m Em N2) as [t' Ht].
      eexists. right. by eapply matching_loop.
    + right. destruct (loop_can outbound_fails o Eo N1) as [t' Ht]. eexists. right. by eapply outbound_loop.
  - right. destruct (decide (i = InSetup)) as [->|Hne]; [eexists; right; apply not_listening|].
    destruct (loop_can inbound_fails i Ei Hne) as [t' Ht]. eexists. right. by eapply inbound_loop.
Qed.

(** The server's threads were never started, and nobody sets the flag. *)
Definition unserved (s : Life) : Prop :=
  3 <= progress (main s) <= 4 /\ inbound s = Absent /\ outbound s = Absent /\ stop s = false /\
  (main s = MSpawnMatching \/ matching s = AtTest \/ matching s = InBody).

Lemma unserved_step s s' : unserved s -> program_step s s' -> unserved s'.
Proof.
  unfold unserved. intros (H1 & H2 & H3 & H4 & H5) [Hs|Hs].
  - destruct Hs; cbn in *; subst; try lia; try done; split_and!; auto with lia; naive_solver.
  - destruct Hs as [| |? ? ? ? ? ? ? ? ? ? L|? ? ? ? ? ? ? ? ? ? L|? ? ? ? ? ? ? ? ? ? L]; cbn in *; subst; try done.
    all: inversion L; subst; try done; split_and!; auto; lia.
Qed.

Lemma unserved_runs s : unserved s -> exists s', program_step s s'.
Proof.
  destruct s as [mn i o m st e a b]. unfold unserved. cbn. intros (H1 & -> & -> & -> & H5). destruct mn; cbn in H1; try lia.
  - eexists. left. constructor.
  - eexists. left. constructor.
  - destruct H5 as [|[->| ->]]; [done|..]; eexists; right; apply matching_loop; constructor.
Qed.

(** C40. Failed starts.  The inbound thread may find, whenever it is started, that the
    listening socket cannot be set up (its port is in use, say).  It then sets the stop
    flag but notifies nobody.  If the main thread is already blocked in
    [stop_.wait(false)], it stays there whatever happens but for a signal: the threads
    take at most four more steps, until all have ended, and the process hangs.  Only if
    the main thread has not come that far does it see the flag: then the program ends,
    within fifteen steps.  And when the epoll instances cannot be created, no server
    thread is ever started and nothing but a signal sets the flag: the process runs on
    without a server. *)
Theorem failed_start_hangs :
  (forall s, life_reachable s -> inbound s = InSetup -> exists s', setup_fails s s') /\
  (exists s, life_reachable s /\ main s = MBlocked /\ inbound s = InSetup) /\
  (forall s s' s'' n, life_reachable s -> setup_fails s s' -> nsteps program_step n s' s'' ->
     stop s' = true /\
     (main s = MBlocked -> n <= 4 /\ main s'' = MBlocked /\ (threads_ended s'' \/ exists t, program_step s'' t)) /\
     (main s <> MBlocked -> n <= 15 /\ (finished s'' \/ exists t, program_step s'' t))) /\
  (forall s, life_reachable s -> main s = MSetupEpoll -> exists s', epoll_fails s s') /\
  (forall s s' s'', life_reachable s -> stop s = false -> epoll_fails s s' -> rtc program_step s' s'' ->
     unserved s'' /\ exists t, program_step s'' t).
Proof.
  split_and!.
  - intros [mn i o m st e a b] _ E. cbn in E. subst i. eexists. split; [right; apply not_listening|done].
  - exists (mkLife MBlocked InSetup AtTest AtTest false true true true). split; [|done].
    unfold life_reachable, life_init. main_takes epoll_created. main_takes spawn_inbound. main_takes spawn_outbound.
    main_takes spawn_matching. main_takes wait_blocks. apply rtc_refl.
  - intros s s' s'' n Hr Hf Hrun. pose proof (reachable_ok s Hr) as Hok.
    assert (Hok' : life_ok s') by (destruct Hf as [[Hs|Hs] _]; [by eapply main_step_ok|by eapply thread_step_ok]).
    destruct (setup_fails_inv s s' Hf) as (E1 & E2 & E3 & E4 & E5). split_and!; [done|intros Hm..].
    + destruct (hung_run n s' s'' Hok' (conj E1 (eq_trans E2 Hm)) Hrun) as (H1 & H2 & H3).
      split_and!; [|apply H2|by apply hung_progress]. unfold running in H3. rewrite E3 in H3.
      by destruct (outbound s'), (matching s'); cbn in H3; lia.
    + assert (Hst : stopping s') by (split; [done|congruence]).
      destruct (stopping_run n s' s'' Hok' Hst Hrun) as (H1 & H2 & H3). pose proof (remaining_bound _ Hok').
      split; [lia|by apply stopping_progress].
  - intros [mn i o m st e a b] _ E. cbn in E. subst mn. eexists. split; [left; apply epoll_failed|done].
  - intros s s' s'' Hr Hst (Hs & E1 & E2) Hrun.
    assert (Hu : unserved s').
    { destruct (reachable_ok s Hr) as [_ _ (S1 & S2 & S3) _ _].
      destruct Hs as [Hs|Hs]; destruct Hs; cbn in *; try done; try congruence.
      split_and!; cbn; auto with lia; naive_solver lia. }
    enough (unserved s'') by (split; [done|by apply unserved_runs]).
    clear -Hu Hrun. induction Hrun as [s0|s0 s1 s2 Hs1 _ IH]; [done|]. by apply IH, (unserved_step s0).
Qed.

(** The port is in use, and the main thread waits already: the process hangs. *)
Lemma failed_start_hangs_witness : exists s s' s'', life_reachable s /\ setup_fails s s' /\ nsteps program_step 2 s' s'' /\
  main s'' = MBlocked /\ stop s'' = true /\ threads_ended s''.
Proof.
  set (s := mkLife MBlocked InSetup AtTest AtTest false true true true).
  assert (Hr : life_reachable s).
  { unfold life_reachable, life_init. main_takes epoll_created. main_takes spawn_inbound. main_takes spawn_outbound.
    main_takes spawn_matching. main_takes wait_blocks. apply rtc_refl. }
  assert (Hf : setup_fails s (mkLife MBlocked Gone AtTest AtTest true true true true)) by (split; [right; apply not_listening|split; reflexivity]).
  assert (Hrun : nsteps program_step 2 (mkLife MBlocked Gone AtTest AtTest true true true true) (mkLife MBlocked Gone Gone Gone true true true true)).
  { eapply nsteps_l; [right; eapply outbound_loop, loop_ends|]. eapply nsteps_l; [right; eapply matching_loop, loop_ends|]. apply nsteps_O. }
  exists s. eexists _, _. split; [exact Hr|]. split; [exact Hf|]. split; [exact Hrun|].
  destruct (proj1 (proj2 (proj2 failed_start_hangs)) _ _ _ _ Hr Hf Hrun) as (_ & H & _).
  destruct (H eq_refl) as (_ & H2 & _). split; [exact H2|]. split; [reflexivity|]. split; [reflexivity|]. split; reflexivity.
Defined.
