(* ===== verification/Setup.v ===== *)
(** Descriptors and their owners: [EpollSocket] ([exchange/server/include/socket.hpp]), and
    what sets the server up and takes it down: [setupEpoll], [setupListenSocket] and
    [~Server] ([exchange/server/src/server.cpp]).  The operating system is a parameter: a
    list of answers, and the resources the program holds - open descriptors, entries of
    the epoll instances, the list of [getaddrinfo].  Closing a descriptor that is not
    open, or freeing a list that is not there, is a fault. *)

From S2P Require Import Prelude.

Local Open Scope Z_scope.

(** * The operating system *)

(** The answers to one run of [setupListenSocket]. *)
Record Answers : Set := mkAnswers {
  getaddrinfo_ok : bool;
  socket_fd : Z;
  bind_ok : bool;
  listen_ok : bool;
  getfl : Z;
  setfl_ok : bool;
  epoll_ctl_ok : bool
}.

Record Os : Type := mkOs {
  open_ : gset Z;
  (* the entries of the epoll instances: instance and descriptor *)
  watched : gset (Z * Z);
  listening_ : gset Z;
  flags_ : gmap Z Z;
  addrinfos : nat;
  closes : list Z
}.

Definition OM (A : Type) : Type := M Os A.

Definition O_NONBLOCK : Z := 2048.

Definition os_open (fd : Z) : OM unit :=
  modify (fun o => mkOs ({[fd]} ∪ open_ o) (watched o) (listening_ o) (flags_ o) (addrinfos o) (closes o)).
(** [close] also removes the descriptor from every epoll instance. *)
Definition os_close (fd : Z) : OM unit :=
  o ← get;
  if decide (fd ∈ open_ o)
  then modify (fun o => mkOs (open_ o ∖ {[fd]}) (filter (fun p => p.2 <> fd) (watched o)) (listening_ o ∖ {[fd]})
                             (delete fd (flags_ o)) (addrinfos o) (fd :: closes o))
  else fail BadPointer.
Definition os_epoll_del (ep fd : Z) : OM unit :=
  modify (fun o => mkOs (open_ o) (watched o ∖ {[(ep, fd)]}) (listening_ o) (flags_ o) (addrinfos o) (closes o)).
Definition os_epoll_add (ep fd : Z) : OM unit :=
  modify (fun o => mkOs (open_ o) ({[(ep, fd)]} ∪ watched o) (listening_ o) (flags_ o) (addrinfos o) (closes o)).
Definition os_listen (fd : Z) : OM unit :=
  modify (fun o => mkOs (open_ o) (watched o) ({[fd]} ∪ listening_ o) (flags_ o) (addrinfos o) (closes o)).
Definition os_setfl (fd fl : Z) : OM unit :=
  modify (fun o => mkOs (open_ o) (watched o) (listening_ o) (<[fd := fl]> (flags_ o)) (addrinfos o) (closes o)).
Definition os_getaddrinfo : OM unit :=
  modify (fun o => mkOs (open_ o) (watched o) (listening_ o) (flags_ o) (S (addrinfos o)) (closes o)).
Definition os_freeaddrinfo : OM unit :=
  o ← get;
  match addrinfos o with
  | O => fail BadPointer
  | S n => modify (fun o => mkOs (open_ o) (watched o) (listening_ o) (flags_ o) n (closes o))
  end.

(** * [EpollSocket] *)

Record EpollSocket : Set := mkEpollSocket { fd_ : Z; epoll_fd_ : Z }.

Definition epoll_socket_default : EpollSocket := mkEpollSocket (-1) (-1).

(** The destructor, and the first half of the move assignment. *)
Definition destroy (s : EpollSocket) : OM unit :=
  if decide (fd_ s = -1) then mret tt
  else os_epoll_del (epoll_fd_ s) (fd_ s);; os_close (fd_ s).

(** The move constructor: the new object and what is left of the old one. *)
Definition move (other : EpollSocket) : EpollSocket * EpollSocket :=
  (mkEpollSocket (fd_ other) (epoll_fd_ other), mkEpollSocket (-1) (-1)).

Definition release (s : EpollSocket) : Z * EpollSocket := (fd_ s, mkEpollSocket (-1) (epoll_fd_ s)).

(** * Setup *)

(** [epoll_create] twice, for the answers [e1] and [e2]; the members and the result. *)
Definition setupEpoll (e1 e2 : Z) : OM (Z * Z * bool) :=
  when (negb (e1 =? -1)) (os_open e1);;
  when (negb (e2 =? -1)) (os_open e2);;
  mret (e1, e2, negb ((e1 =? -1) || (e2 =? -1))).

(** [~Server]'s body. *)
Definition close_epolls (epoll_in epoll_out : Z) : OM unit :=
  when (negb (epoll_in =? -1)) (os_close epoll_in);;
  when (negb (epoll_out =? -1)) (os_close epoll_out).

(** The part of [setupListenSocket] in which the [addrinfo] list has been freed. *)
Definition listen_on (a : Answers) (listen_sock : EpollSocket) : OM (option EpollSocket) :=
  let raw_fd := fd_ listen_sock in
  if negb (listen_ok a) then destroy listen_sock;; mret None
  else
    os_listen raw_fd;;
    if getfl a =? -1 then destroy listen_sock;; mret None
    else
      when (setfl_ok a) (os_setfl raw_fd (Z.lor (getfl a) O_NONBLOCK));;
      if negb (epoll_ctl_ok a) then destroy listen_sock;; mret None
      else
        os_epoll_add (epoll_fd_ listen_sock) raw_fd;;
        (* the result is moved out of the local, which is then destroyed *)
        let '(result, local) := move listen_sock in
        destroy local;; mret (Some result).

Definition setupListenSocket (a : Answers) (epoll_in : Z) : OM (option EpollSocket) :=
  if negb (getaddrinfo_ok a) then mret None
  else
    os_getaddrinfo;;
    let raw_fd := socket_fd a in
    if raw_fd =? -1 then os_freeaddrinfo;; mret None
    else
      os_open raw_fd;;
      let listen_sock := mkEpollSocket raw_fd epoll_in in
      if negb (bind_ok a) then os_freeaddrinfo;; destroy listen_sock;; mret None
      else os_freeaddrinfo;; listen_on a listen_sock.

(** * Ownership *)

(** A program of [EpollSocket] objects: variables that hold one each. *)
Inductive socket_op : Set :=
  | Construct (v : nat) (fd epoll_fd : Z)
  | MoveConstruct (v w : nat)
  | MoveAssign (v w : nat)
  | Release (v : nat)
  | Destroy (v : nat).

(** The variables, the objects, and the descriptors taken out with [release]. *)
Record Owners : Type := mkOwners { sockets : gmap nat EpollSocket; released : gset Z; system : Os }.
Definition WM (A : Type) : Type := M Owners A.

Definition on_os {A : Type} (m : OM A) : WM A :=
  fun w => match m (system w) with Ok (a, o) => Ok (a, mkOwners (sockets w) (released w) o) | Err f => Err f end.
Definition put_socket (v : nat) (s : EpollSocket) : WM unit :=
  modify (fun w => mkOwners (<[v := s]> (sockets w)) (released w) (system w)).
Definition get_socket (v : nat) : WM EpollSocket :=
  w ← get; match sockets w !! v with Some s => mret s | None => fail BadPointer end.

Definition do_op (op : socket_op) : WM unit :=
  match op with
  | Construct v fd epoll_fd => on_os (os_open fd);; put_socket v (mkEpollSocket fd epoll_fd)
  | MoveConstruct v w =>
      other ← get_socket w;
      (let '(this, rest) := move other in put_socket w rest;; put_socket v this)
  | MoveAssign v w =>
      this ← get_socket v;
      other ← get_socket w;
      if decide (v = w) then mret tt
      else on_os (destroy this);; put_socket v other;; put_socket w (mkEpollSocket (-1) (-1))
  | Release v =>
      this ← get_socket v;
      (let '(f, rest) := release this in
       put_socket v rest;;
       modify (fun w => mkOwners (sockets w) (if decide (f = -1) then released w else {[f]} ∪ released w) (system w)))
  | Destroy v =>
      this ← get_socket v;
      on_os (destroy this);; modify (fun w => mkOwners (delete v (sockets w)) (released w) (system w))
  end.

(** C++'s own rules: an object is constructed in a fresh variable, used while it lives, and
    [socket] or [accept] answer a descriptor that is not open. *)
Definition op_ok (op : socket_op) (w : Owners) : Prop :=
  match op with
  | Construct v fd _ => sockets w !! v = None /\ 0 <= fd /\ (fd ∉ open_ (system w)) /\ fd ∉ released w
  | MoveConstruct v w' => sockets w !! v = None /\ is_Some (sockets w !! w')
  | MoveAssign v w' => is_Some (sockets w !! v) /\ is_Some (sockets w !! w')
  | Release v | Destroy v => is_Some (sockets w !! v)
  end.

Inductive ownership : list socket_op -> Owners -> Owners -> Prop :=
  | ownership_nil w : ownership [] w w
  | ownership_cons op ops w w1 w2 : op_ok op w -> do_op op w = Ok (tt, w1) -> ownership ops w1 w2 -> ownership (op :: ops) w w2.

(** Variable [v] owns descriptor [fd]. *)
Definition owns (w : Owners) (v : nat) (fd : Z) : Prop := exists s, sockets w !! v = Some s /\ fd_ s = fd /\ fd <> -1.

(** Every descriptor the objects own is open and has one owner; what is open besides is
    [base] and what was released. *)
Record owners_ok (base : gset Z) (w : Owners) : Prop := {
  ow_one v v' fd : owns w v fd -> owns w v' fd -> v = v';
  ow_new v fd : owns w v fd -> (fd ∉ base) /\ fd ∉ released w;
  ow_open fd : fd ∈ open_ (system w) <-> fd ∈ base \/ fd ∈ released w \/ exists v, owns w v fd
}.

(** * The listening socket *)

(** What the kernel guarantees about its own tables. *)
Record os_ok (o : Os) : Prop := {
  os_watched ep fd : (ep, fd) ∈ watched o -> fd ∈ open_ o;
  os_listening : listening_ o ⊆ open_ o;
  os_flags fd : is_Some (flags_ o !! fd) -> fd ∈ open_ o
}.

Lemma wp_os_close fd (Q : unit -> Os -> Prop) o : fd ∈ open_ o ->
  Q tt (mkOs (open_ o ∖ {[fd]}) (filter (fun p => p.2 <> fd) (watched o)) (listening_ o ∖ {[fd]}) (delete fd (flags_ o))
             (addrinfos o) (fd :: closes o)) -> wp (os_close fd) Q o.
Proof. intros Hfd HQ. unfold os_close. wp_steps. rewrite decide_True by done. by apply wp_modify. Qed.

Lemma wp_destroy s (Q : unit -> Os -> Prop) o : fd_ s <> -1 -> fd_ s ∈ open_ o ->
  Q tt (mkOs (open_ o ∖ {[fd_ s]}) (filter (fun p => p.2 <> fd_ s) (watched o ∖ {[(epoll_fd_ s, fd_ s)]}))
             (listening_ o ∖ {[fd_ s]}) (delete (fd_ s) (flags_ o)) (addrinfos o) (fd_ s :: closes o)) ->
  wp (destroy s) Q o.
Proof.
  intros Hfd Hin HQ. unfold destroy. rewrite decide_False by done. unfold os_epoll_del. wp_steps. by apply wp_os_close.
Qed.

Lemma destroy_nothing s (Q : unit -> Os -> Prop) o : fd_ s = -1 -> Q tt o -> wp (destroy s) Q o.
Proof. intros E HQ. unfold destroy. rewrite decide_True by done. by apply wp_ret. Qed.

Section Listen.
Context (a : Answers) (ep : Z) (o : Os).
Hypothesis Hos : os_ok o.
Hypothesis Hfresh : 0 <= socket_fd a /\ socket_fd a ∉ open_ o.

Abbreviation fd := (socket_fd a).
Abbreviation sock := (mkEpollSocket fd ep).

(** While the socket is being set up, it is all that has been added. *)
Record setting_up (n : nat) (o' : Os) : Prop := {
  su_open : open_ o' = {[fd]} ∪ open_ o;
  su_watched : watched o' = watched o;
  su_listening : listening_ o' ∖ {[fd]} = listening_ o;
  su_flags : delete fd (flags_ o') = flags_ o;
  su_addrinfos : addrinfos o' = n
}.

Lemma setting_up_start n o' : open_ o' = {[fd]} ∪ open_ o -> watched o' = watched o -> listening_ o' = listening_ o ->
  flags_ o' = flags_ o -> addrinfos o' = n -> setting_up n o'.
Proof.
  destruct Hos as [_ H2 H3], Hfresh as [_ Hf]. intros E1 E2 E3 E4 E5. constructor; [done|done| | |done].
  - rewrite E3. apply set_eq. set_solver.
  - rewrite E4. apply delete_id. destruct (flags_ o !! fd) eqn:E; [|done]. destruct Hf. apply H3. by exists z.
Qed.

(** Giving up closes it, once, and leaves nothing. *)
Lemma setting_up_abandon n o' (Q : unit -> Os -> Prop) : setting_up n o' ->
  (forall o'', open_ o'' = open_ o -> watched o'' = watched o -> listening_ o'' = listening_ o -> flags_ o'' = flags_ o ->
     addrinfos o'' = n -> Q tt o'') ->
  wp (destroy sock) Q o'.
Proof.
  intros [S1 S2 S3 S4 S5] HQ. destruct Hos as [H1 _ _], Hfresh as [Hp Hf]. apply wp_destroy; cbn [fd_ epoll_fd_].
  - lia.
  - rewrite S1. set_solver.
  - apply HQ; cbn; [rewrite S1; apply set_eq; set_solver| |done|done|done].
    rewrite S2. apply set_eq. intros [e f]. rewrite elem_of_filter, elem_of_difference, elem_of_singleton. cbn.
    split; [by intros (_ & H & _)|]. intros H. assert (f <> fd) by (intros ->; by apply Hf, (H1 e)).
    split_and!; [done|done|congruence].
Qed.

(** The second half: the list has been freed. *)
Lemma listen_on_ok n o1 : setting_up n o1 ->
  wp (listen_on a sock) (fun r o' => addrinfos o' = n /\
    match r with
    | None => open_ o' = open_ o /\ watched o' = watched o /\ listening_ o' = listening_ o /\ flags_ o' = flags_ o
    | Some s => s = sock /\ open_ o' = {[fd]} ∪ open_ o /\ watched o' = {[(ep, fd)]} ∪ watched o /\ fd ∈ listening_ o' /\
        (setfl_ok a = true -> flags_ o' !! fd = Some (Z.lor (getfl a) O_NONBLOCK))
    end /\ (is_Some r <-> listen_ok a = true /\ getfl a <> -1 /\ epoll_ctl_ok a = true)) o1.
Proof.
  intros Hsu. unfold listen_on. cbn [fd_ epoll_fd_].
  destruct (listen_ok a) eqn:E1; cbn [negb].
  2: { apply wp_bind, (setting_up_abandon n o1); [done|]. intros o2 ? ? ? ? ?. wp_steps. split_and!; try done. by split; intros (? & ?). }
  unfold os_listen. wp_steps. match goal with |- wp _ _ ?x => set (o2 := x) end.
  assert (Hsu2 : setting_up n o2).
  { destruct Hsu as [S1 S2 S3 S4 S5]. constructor; try done. cbn. rewrite <- S3. apply set_eq. set_solver. }
  destruct (Z.eqb_spec (getfl a) (-1)) as [E2|E2].
  { apply wp_bind, (setting_up_abandon n o2); [done|]. intros o3 ? ? ? ? ?. wp_steps. split_and!; try done. by split; [intros []|intros (_ & [] & _)]. }
  apply wp_bind. set (o3 := if setfl_ok a then (mkOs (open_ o2) (watched o2) (listening_ o2) (<[fd := Z.lor (getfl a) O_NONBLOCK]> (flags_ o2))
    (addrinfos o2) (closes o2)) else o2).
  assert (Hset : when (setfl_ok a) (os_setfl fd (Z.lor (getfl a) O_NONBLOCK)) o2 = Ok (tt, o3)) by (unfold o3; by destruct (setfl_ok a)).
  apply (wp_intro _ _ _ _ _ Hset).
  assert (Hsu3 : setting_up n o3 /\ fd ∈ listening_ o3 /\ (setfl_ok a = true -> flags_ o3 !! fd = Some (Z.lor (getfl a) O_NONBLOCK))).
  { destruct Hsu2 as [S1 S2 S3 S4 S5]. unfold o3. destruct (setfl_ok a); cbn.
    - split_and!; [constructor; cbn; try done; by rewrite delete_insert_eq|set_solver|by rewrite lookup_insert_eq].
    - split_and!; [by constructor|set_solver|done]. }
  clearbody o3. destruct Hsu3 as (Hsu3 & Hlis & Hfl). destruct (epoll_ctl_ok a) eqn:E3; cbn [negb].
  2: { apply wp_bind, (setting_up_abandon n o3); [done|]. intros o4 ? ? ? ? ?. wp_steps. split_and!; try done. by split; intros (? & ?); [|naive_solver]. }
  unfold os_epoll_add, move. wp_steps. destruct Hsu3 as [S1 S2 S3 S4 S5].
  cbn. split_and!; try done. by rewrite S2.
Qed.

End Listen.

(** C19. Setting up the listening socket.  On every path through [setupListenSocket] the
    list of [getaddrinfo] is freed exactly once and no descriptor is closed twice.  If
    any call that is checked fails, the program holds exactly the resources it held
    before.  Otherwise the result owns a new descriptor that listens and is registered
    with the inbound epoll instance, and it is non-blocking unless the second [fcntl],
    whose result is not looked at, has failed. *)
Theorem setupListenSocket_exact a ep o : os_ok o -> socket_fd a = -1 \/ 0 <= socket_fd a /\ socket_fd a ∉ open_ o ->
  wp (setupListenSocket a ep) (fun r o' => addrinfos o' = addrinfos o /\
    match r with
    | None => open_ o' = open_ o /\ watched o' = watched o /\ listening_ o' = listening_ o /\ flags_ o' = flags_ o
    | Some s => s = mkEpollSocket (socket_fd a) ep /\ open_ o' = {[socket_fd a]} ∪ open_ o /\
        watched o' = {[(ep, socket_fd a)]} ∪ watched o /\ socket_fd a ∈ listening_ o' /\
        (setfl_ok a = true -> flags_ o' !! socket_fd a = Some (Z.lor (getfl a) O_NONBLOCK))
    end /\
    (is_Some r <-> getaddrinfo_ok a = true /\ socket_fd a <> -1 /\ bind_ok a = true /\
                   listen_ok a = true /\ getfl a <> -1 /\ epoll_ctl_ok a = true)) o.
Proof.
  intros Hos Hfd. unfold setupListenSocket.
  destruct (getaddrinfo_ok a) eqn:E1; cbn [negb]; [|wp_steps; split_and!; try done; by split; intros (? & ?)].
  unfold os_getaddrinfo, os_freeaddrinfo, os_open. wp_steps.
  destruct (Z.eqb_spec (socket_fd a) (-1)) as [E2|E2]; wp_steps.
  { cbn [addrinfos]. wp_steps. split_and!; try done. by split; [intros []|intros (_ & [] & _)]. }
  destruct Hfd as [|Hfd]; [done|]. destruct (bind_ok a) eqn:E3; cbn [negb]; wp_steps; cbn [addrinfos]; wp_steps.
  - eapply wp_mono; [apply (listen_on_ok a ep o Hos Hfd (addrinfos o)); by apply (setting_up_start a o Hos Hfd)|].
    intros r o' (H1 & H2 & H3). split_and!; [done|done|]. rewrite H3. naive_solver.
  - apply (setting_up_abandon a ep o Hos Hfd (addrinfos o)); [by apply (setting_up_start a o Hos Hfd)|].
    intros o2 ? ? ? ? ?. wp_steps. split_and!; try done. split; [by intros []|naive_solver].
Qed.

(** The port is in use; then it is free. *)
Definition fresh_os : Os := mkOs {[0; 1; 2; 3]} ∅ ∅ ∅ 0 [].

Lemma setupListenSocket_exact_witness :
  wp (setupListenSocket (mkAnswers true 4 false true 2 true true) 3) (fun r o' => r = None /\ open_ o' = open_ fresh_os /\ addrinfos o' = 0%nat) fresh_os /\
  wp (setupListenSocket (mkAnswers true 4 true true 2 true true) 3) (fun r o' => is_Some r /\ flags_ o' !! 4 = Some 2050) fresh_os.
Proof.
  assert (Hos : os_ok fresh_os) by (constructor; cbn; [set_solver|set_solver|by intros ? []]).
  assert (H4 : 4 ∉ open_ fresh_os) by (vm_compute; intros H; discriminate H || destruct H).
  split.
  - eapply wp_mono; [apply (setupListenSocket_exact (mkAnswers true 4 false true 2 true true) 3 fresh_os Hos); right; split; [discriminate|exact H4]|].
    intros r o' (H1 & H2 & H3). destruct r as [s|]; [exfalso; destruct (proj1 H3 (ex_intro _ s eq_refl)) as (_ & _ & H & _); discriminate H|].
    split; [reflexivity|]. split; [apply H2|exact H1].
  - eapply wp_mono; [apply (setupListenSocket_exact (mkAnswers true 4 true true 2 true true) 3 fresh_os Hos); right; split; [discriminate|exact H4]|].
    intros r o' (H1 & H2 & H3). assert (Hr : is_Some r) by (apply H3; repeat split; discriminate). split; [exact Hr|].
    destruct r as [s|]; [apply H2; reflexivity|by destruct Hr].
Defined.

(** * Ownership of descriptors *)

Section Ownership.
Context (base : gset Z).

Lemma wp_get_socket v s (Q : EpollSocket -> Owners -> Prop) w : sockets w !! v = Some s -> Q s w -> wp (get_socket v) Q w.
Proof. intros E HQ. unfold get_socket. wp_steps. rewrite E. by apply wp_ret. Qed.

Lemma wp_on_os {A} (m : OM A) (Q : A -> Owners -> Prop) w :
  wp m (fun a o => Q a (mkOwners (sockets w) (released w) o)) (system w) -> wp (on_os m) Q w.
Proof. unfold wp, on_os. by destruct (m (system w)) as [[a o]|]. Qed.

Lemma owns_insert v s m r o x fd : owns (mkOwners (<[v := s]> m) r o) x fd <->
  x = v /\ fd = fd_ s /\ fd <> -1 \/ x <> v /\ owns (mkOwners m r o) x fd.
Proof.
  unfold owns. cbn. split.
  - intros (s' & [[<- <-]|[Hne H]]%lookup_insert_Some & Hf & Hn); [by left|right]. split; [done|by exists s'].
  - intros [(-> & -> & Hn)|(Hne & s' & H & Hf)]; [exists s|exists s']; (split; [|done]); [apply lookup_insert_eq|by rewrite lookup_insert_ne].
Qed.

Lemma owns_delete v m r o x fd : owns (mkOwners (delete v m) r o) x fd <-> x <> v /\ owns (mkOwners m r o) x fd.
Proof.
  unfold owns. cbn. split.
  - intros (s' & [Hne H]%lookup_delete_Some & Hf). split; [done|by exists s'].
  - intros (Hne & s' & H & Hf). exists s'. split; [by rewrite lookup_delete_ne|done].
Qed.

(** Destroying what variable [v] holds: its descriptor is closed, if it has one. *)
Lemma destroy_owned v s w : owners_ok base w -> sockets w !! v = Some s ->
  wp (destroy s) (fun _ o => owners_ok base (mkOwners (delete v (sockets w)) (released w) o)) (system w).
Proof.
  destruct w as [m r o]. intros [H1 H2 H3] Hv. cbn [sockets released system] in *.
  assert (Hown : forall fd, owns (mkOwners m r o) v fd <-> fd = fd_ s /\ fd <> -1).
  { intros fd. unfold owns. cbn. rewrite Hv. naive_solver. }
  destruct (decide (fd_ s = -1)) as [E|E].
  - apply destroy_nothing; [done|]. constructor; cbn [released system]; intros *; rewrite ?owns_delete.
    + naive_solver.
    + naive_solver.
    + rewrite H3. setoid_rewrite owns_delete. split; [|naive_solver]. intros [?|[?|[x Hx]]]; [naive_solver..|].
      right; right. exists x. split; [|done]. intros ->. apply Hown in Hx. naive_solver.
  - assert (Hv' : owns (mkOwners m r o) v (fd_ s)) by (by apply Hown).
    apply wp_destroy; [done|apply H3; by eauto|]. constructor; cbn [released system open_]; intros *; rewrite ?owns_delete.
    + naive_solver.
    + naive_solver.
    + setoid_rewrite owns_delete. rewrite elem_of_difference, elem_of_singleton, H3. split.
      * intros [[?|[?|[x Hx]]] Hne]; [naive_solver..|]. right; right. exists x. split; [|done]. intros ->. by apply Hown in Hx as [-> _].
      * intros H. assert (fd <> fd_ s) by (intros ->; destruct (H2 _ _ Hv'), H as [?|[?|(x & Hne & Hx)]]; [done|done|by apply Hne, (H1 _ _ _ Hx Hv')]).
        split; [naive_solver|done].
Qed.

(** A descriptor moves from [w'] to the fresh variable [v]. *)
Lemma move_owned v w' s m r o : owners_ok base (mkOwners m r o) -> m !! v = None -> m !! w' = Some s ->
  owners_ok base (mkOwners (<[v := mkEpollSocket (fd_ s) (epoll_fd_ s)]> (<[w' := mkEpollSocket (-1) (-1)]> m)) r o).
Proof.
  intros [H1 H2 H3] Hv Hw. assert (Hne : w' <> v) by congruence.
  assert (Hnone : forall x, ~ owns (mkOwners m r o) v x) by (intros x (s' & Hs & _); cbn in Hs; congruence).
  assert (Hown : forall fd, owns (mkOwners m r o) w' fd <-> fd = fd_ s /\ fd <> -1).
  { intros fd. unfold owns. cbn. rewrite Hw. naive_solver. }
  assert (Hnew : forall x fd, owns (mkOwners (<[v := mkEpollSocket (fd_ s) (epoll_fd_ s)]> (<[w' := mkEpollSocket (-1) (-1)]> m)) r o) x fd <->
    x = v /\ owns (mkOwners m r o) w' fd \/ x <> v /\ x <> w' /\ owns (mkOwners m r o) x fd).
  { intros x fd. rewrite !owns_insert, Hown. cbn [fd_]. naive_solver. }
  constructor; cbn [released system].
  - intros x y fd [[-> A]|(N1 & N2 & A)]%Hnew [[-> B]|(N3 & N4 & B)]%Hnew; [done| | |by apply (H1 _ _ _ A)].
    + destruct N4. by apply (H1 _ _ _ B).
    + destruct N2. by apply (H1 _ _ _ A).
  - intros x fd [[-> A]|(N1 & N2 & A)]%Hnew; by apply (H2 _ _ A).
  - intros fd. rewrite H3. cbn [released]. split; intros [?|[?|[x Hx]]].
    + by left.
    + right. by left.
    + right; right. destruct (decide (x = w')) as [->|Hx']; [exists v|exists x]; apply Hnew; [by left|right].
      split; [intros ->; by apply Hnone in Hx|done].
    + by left.
    + right. by left.
    + right; right. apply Hnew in Hx as [[-> A]|(N1 & N2 & A)]; eauto.
Qed.

(** C++'s rules are enough: no operation faults, and the invariant is kept. *)
Lemma do_op_ok op w : owners_ok base w -> op_ok op w -> wp (do_op op) (fun _ w' => owners_ok base w') w.
Proof.
  destruct w as [m r o]. intros Hok Hop. destruct op as [v fd ep|v w'|v w'|v|v]; cbn [do_op op_ok sockets released system] in *.
  - destruct Hop as (Hv & Hp & Hno & Hnr), Hok as [H1 H2 H3]. apply wp_bind, wp_on_os. unfold os_open, put_socket. wp_steps. cbn [sockets released system].
    assert (Hnone : forall x, ~ owns (mkOwners m r o) x fd) by (intros x Hx; apply Hno, H3; eauto).
    assert (Hnb : fd ∉ base) by (intros Hb; apply Hno, H3; by left).
    constructor; cbn [released system open_]; intros *; rewrite ?owns_insert; cbn [fd_].
    + naive_solver.
    + naive_solver.
    + setoid_rewrite owns_insert. cbn [fd_]. rewrite elem_of_union, elem_of_singleton, H3.
      assert (forall x, owns (mkOwners m r o) v x -> False) by (intros x (s & Hs & _); cbn in Hs; congruence).
      assert (fd <> -1) by lia. naive_solver.
  - destruct Hop as (Hv & [s Hw]). apply wp_bind, (wp_get_socket _ s); [done|]. unfold move, put_socket. wp_steps.
    by apply move_owned.
  - destruct Hop as ([this Hv] & [other Hw]). apply wp_bind, (wp_get_socket _ this); [done|]. apply wp_bind, (wp_get_socket _ other); [done|].
    destruct (decide (v = w')) as [->|Hne]; [by apply wp_ret|]. apply wp_bind, wp_on_os.
    eapply wp_mono; [by apply (destroy_owned v this (mkOwners m r o))|]. cbn [sockets released system]. intros [] o' Hok'.
    unfold put_socket. wp_steps. cbn [sockets released system].
    rewrite <- (insert_delete_eq m v other), insert_insert_ne by congruence. destruct other as [f e].
    apply (move_owned v w' (mkEpollSocket f e) (delete v m) r o' Hok'); [apply lookup_delete_eq|by rewrite lookup_delete_ne].
  - destruct Hop as [this Hv], Hok as [H1 H2 H3]. apply wp_bind, (wp_get_socket _ this); [done|]. unfold release, put_socket. wp_steps.
    cbn [sockets released system].
    assert (Hown : forall fd, owns (mkOwners m r o) v fd <-> fd = fd_ this /\ fd <> -1).
    { intros fd. unfold owns. cbn. rewrite Hv. naive_solver. }
    assert (Hnew : forall x fd r', owns (mkOwners (<[v := mkEpollSocket (-1) (epoll_fd_ this)]> m) r' o) x fd <->
      x <> v /\ owns (mkOwners m r o) x fd).
    { intros x fd r'. rewrite owns_insert. cbn [fd_]. change (owns (mkOwners m r' o) x fd) with (owns (mkOwners m r o) x fd). naive_solver. }
    constructor; cbn [released system].
    + intros x y fd [N1 A]%Hnew [N2 B]%Hnew. by apply (H1 _ _ _ A).
    + intros x fd [N1 A]%Hnew. destruct (H2 _ _ A) as [B1 B2]. cbn in B2. split; [done|]. case_decide as Hd; [done|].
      rewrite not_elem_of_union, not_elem_of_singleton. split; [|done]. intros ->. apply N1, (H1 _ _ _ A). by apply Hown.
    + intros fd. rewrite H3. cbn [released]. setoid_rewrite Hnew. case_decide as Hd; rewrite ?elem_of_union, ?elem_of_singleton; split.
      * intros [?|[?|[x Hx]]]; [naive_solver..|]. right; right. exists x. split; [|done]. intros ->. apply Hown in Hx. naive_solver.
      * naive_solver.
      * intros [?|[?|[x Hx]]]; [naive_solver..|]. destruct (decide (x = v)) as [->|Hx']; [apply Hown in Hx|]; naive_solver.
      * intros [?|[[->|?]|(x & _ & Hx)]]; [naive_solver| |naive_solver..]. right; right. exists v. by apply Hown.
  - destruct Hop as [this Hv]. apply wp_bind, (wp_get_socket _ this); [done|]. apply wp_bind, wp_on_os.
    eapply wp_mono; [by apply (destroy_owned v this (mkOwners m r o))|]. intros [] o' Hok'. by wp_steps.
Qed.

End Ownership.

Lemma ownership_ok base ops w w' : owners_ok base w -> ownership ops w w' -> owners_ok base w'.
Proof.
  intros Hok H. induction H as [w|op ops w w1 w2 Hop Hrun _ IH]; [done|]. apply IH.
  pose proof (do_op_ok base op w Hok Hop) as Hw. unfold wp in Hw. by rewrite Hrun in Hw.
Qed.

Lemma owners_start o : owners_ok (open_ o) (mkOwners ∅ ∅ o).
Proof.
  constructor; cbn; [by intros v v' fd (s & Hs & _)|by intros v fd (s & Hs & _)|].
  intros fd. split; [by left|]. intros [?|[?|(v & s & Hs & _)]]; [done|set_solver|done].
Qed.

(** C18. [EpollSocket] owns its descriptor.  For every program of constructions, moves,
    move assignments (to itself too), releases and destructions that C++ allows: no
    descriptor is closed twice or by an object that does not own it, no two objects own
    the same one, and when every object has been destroyed the open descriptors are
    those that were open before and those that were released. *)
Theorem sockets_closed_once ops o w :
  ownership ops (mkOwners ∅ ∅ o) w ->
  (forall op, op_ok op w -> exists w', do_op op w = Ok (tt, w')) /\
  (forall v v' fd, owns w v fd -> owns w v' fd -> v = v') /\
  (sockets w = ∅ -> open_ (system w) = open_ o ∪ released w).
Proof.
  intros H. pose proof (ownership_ok _ ops _ w (owners_start o) H) as Hok. split_and!.
  - intros op Hop. destruct (wp_Ok _ _ _ (do_op_ok _ op w Hok Hop)) as ([] & w' & E & _). by exists w'.
  - apply Hok.
  - intros He. apply set_eq. intros fd. rewrite (ow_open _ _ Hok), elem_of_union. split.
    + intros [?|[?|(v & s & Hs & _)]]; [by left|by right|]. by rewrite He in Hs.
    + intros [?|?]; [by left|by right; left].
Qed.

(** What [registerConnections] and the close scan do with an accepted descriptor: the local
    object is moved into the connection's state, and destroyed there. *)
Lemma sockets_closed_once_witness : exists w,
  ownership [Construct 0 7 3; MoveConstruct 1 0; Destroy 0; MoveAssign 1 1; Destroy 1] (mkOwners ∅ ∅ fresh_os) w /\
  closes (system w) = [7] /\ open_ (system w) = open_ fresh_os.
Proof.
  assert (H : exists w, ownership [Construct 0 7 3; MoveConstruct 1 0; Destroy 0; MoveAssign 1 1; Destroy 1] (mkOwners ∅ ∅ fresh_os) w /\
    closes (system w) = [7] /\ sockets w = ∅ /\ released w = ∅).
  { eexists. split.
    - eapply ownership_cons; [split; [reflexivity|split; [lia|split; vm_compute; intros K; discriminate K || destruct K]]|reflexivity|].
      eapply ownership_cons; [split; [reflexivity|eexists; reflexivity]|reflexivity|].
      eapply ownership_cons; [eexists; reflexivity|reflexivity|].
      eapply ownership_cons; [split; eexists; reflexivity|reflexivity|].
      eapply ownership_cons; [eexists; reflexivity|reflexivity|apply ownership_nil].
    - split; [reflexivity|]. split; reflexivity. }
  destruct H as (w & H & Hc & Hs & Hr). exists w. split; [exact H|]. split; [exact Hc|].
  destruct (sockets_closed_once _ _ _ H) as (_ & _ & E). rewrite (E Hs), Hr. apply (right_id_L ∅ (∪)).
Defined.

(** ** The epoll instances *)

(** Whatever part of [setupEpoll] succeeds, [~Server] closes what it has opened, once. *)
Lemma epolls_returned e1 e2 o : os_ok o -> (e1 = -1 \/ e1 ∉ open_ o) -> (e2 = -1 \/ e2 ∉ open_ o) -> (e1 = e2 -> e1 = -1) ->
  wp (r ← setupEpoll e1 e2; close_epolls r.1.1 r.1.2;; mret r.2)
    (fun ok o' => open_ o' = open_ o /\ watched o' = watched o /\ (ok = true <-> e1 <> -1 /\ e2 <> -1)) o.
Proof.
  intros [Hw _ _] H1 H2 Hne. unfold setupEpoll, close_epolls.
  assert (Hfilter : forall fd, fd = -1 \/ fd ∉ open_ o -> fd = -1 \/ filter (fun p : Z * Z => p.2 <> fd) (watched o) = watched o).
  { intros fd [?|Hfd]; [by left|right]. apply set_eq. intros [e f]. rewrite elem_of_filter. cbn. split; [by intros []|].
    intros H. split; [|done]. intros ->. by apply Hfd, (Hw e). }
  destruct (Hfilter e1 H1) as [F1|F1], (Hfilter e2 H2) as [F2|F2].
  all: destruct (Z.eqb_spec e1 (-1)) as [E1|E1], (Z.eqb_spec e2 (-1)) as [E2|E2]; try done.
  all: cbn [negb when orb]; unfold os_open; wp_steps; cbn [fst snd].
  all: rewrite ?(proj2 (Z.eqb_eq _ _) E1), ?(proj2 (Z.eqb_eq _ _) E2), ?(proj2 (Z.eqb_neq _ _) E1), ?(proj2 (Z.eqb_neq _ _) E2); cbn [negb when].
  all: repeat first [progress wp_steps | apply wp_os_close; [cbn; set_solver|]]; cbn; rewrite ?F1, ?F2.
  all: split_and!; [apply set_eq; set_solver|done|try done; naive_solver].
Qed.
