(* ===== verification/Client.v ===== *)
(** The load generator ([client/include/client_state.hpp],
    [client/include/order_factory.hpp], [client/src/load_generator.cpp]): one client of
    the exchange with its pipeline of requests, and the factory that builds them.

    The handlers work on one [ClientState] at a time; [Gen] is that client with what it
    shares with the others: the factory, the clock, the sockets ([stack] is what an
    uninitialised frame array holds).  System calls answer
    from lists, as in ServerState.  The random draws, and the floating-point arithmetic
    of prices and quantities that uses them, are lists of their results. *)

From S2P Require Import Prelude Types Ring Validation Protocol Buffer ServerState.

Local Open Scope Z_scope.

(** * State *)

Definition MAX_ACTIVE_ORDERS : Z := 32.
Definition RECONNECT_DELAY_MS : Z := 1000.
Definition FRAME_SIZE : nat := OUTBOUND_BSIZE.

Record ClientState : Set := mkClient {
  client_id : Z;
  fd : Z;
  connecting : bool;
  write_buf : Buffer;
  read_buf : Buffer;
  acks_pending : Z;
  next_send_ns : Z;
  reconnect_at_ns : Z;
  reconnect_backoff_ms : Z;
  pending_types : list MessageType;
  pending_head : Z;
  pending_tail : Z;
  active_orders : list Z;
  active_write : Z;
  active_count : Z;
  active_read : Z;
  requests_sent : Z;
  responses_ack : Z;
  responses_match : Z;
  responses_err : Z;
  orders_in_flight : Z
}.

Definition set_client_id (x : Z) (c : ClientState) : ClientState :=
  mkClient
    x (fd c) (connecting c) (write_buf c) (read_buf c) (acks_pending c) (next_send_ns c)
    (reconnect_at_ns c) (reconnect_backoff_ms c) (pending_types c) (pending_head c)
    (pending_tail c) (active_orders c) (active_write c) (active_count c) (active_read c)
    (requests_sent c) (responses_ack c) (responses_match c) (responses_err c)
    (orders_in_flight c).
Definition set_fd (x : Z) (c : ClientState) : ClientState :=
  mkClient
    (client_id c) x (connecting c) (write_buf c) (read_buf c) (acks_pending c) (next_send_ns
    c) (reconnect_at_ns c) (reconnect_backoff_ms c) (pending_types c) (pending_head c)
    (pending_tail c) (active_orders c) (active_write c) (active_count c) (active_read c)
    (requests_sent c) (responses_ack c) (responses_match c) (responses_err c)
    (orders_in_flight c).
Definition set_connecting (x : bool) (c : ClientState) : ClientState :=
  mkClient
    (client_id c) (fd c) x (write_buf c) (read_buf c) (acks_pending c) (next_send_ns c)
    (reconnect_at_ns c) (reconnect_backoff_ms c) (pending_types c) (pending_head c)
    (pending_tail c) (active_orders c) (active_write c) (active_count c) (active_read c)
    (requests_sent c) (responses_ack c) (responses_match c) (responses_err c)
    (orders_in_flight c).
Definition set_write_buf (x : Buffer) (c : ClientState) : ClientState :=
  mkClient
    (client_id c) (fd c) (connecting c) x (read_buf c) (acks_pending c) (next_send_ns c)
    (reconnect_at_ns c) (reconnect_backoff_ms c) (pending_types c) (pending_head c)
    (pending_tail c) (active_orders c) (active_write c) (active_count c) (active_read c)
    (requests_sent c) (responses_ack c) (responses_match c) (responses_err c)
    (orders_in_flight c).
Definition set_read_buf (x : Buffer) (c : ClientState) : ClientState :=
  mkClient
    (client_id c) (fd c) (connecting c) (write_buf c) x (acks_pending c) (next_send_ns c)
    (reconnect_at_ns c) (reconnect_backoff_ms c) (pending_types c) (pending_head c)
    (pending_tail c) (active_orders c) (active_write c) (active_count c) (active_read c)
    (requests_sent c) (responses_ack c) (responses_match c) (responses_err c)
    (orders_in_flight c).
Definition set_acks_pending (x : Z) (c : ClientState) : ClientState :=
  mkClient
    (client_id c) (fd c) (connecting c) (write_buf c) (read_buf c) x (next_send_ns c)
    (reconnect_at_ns c) (reconnect_backoff_ms c) (pending_types c) (pending_head c)
    (pending_tail c) (active_orders c) (active_write c) (active_count c) (active_read c)
    (requests_sent c) (responses_ack c) (responses_match c) (responses_err c)
    (orders_in_flight c).
Definition set_next_send_ns (x : Z) (c : ClientState) : ClientState :=
  mkClient
    (client_id c) (fd c) (connecting c) (write_buf c) (read_buf c) (acks_pending c) x
    (reconnect_at_ns c) (reconnect_backoff_ms c) (pending_types c) (pending_head c)
    (pending_tail c) (active_orders c) (active_write c) (active_count c) (active_read c)
    (requests_sent c) (responses_ack c) (responses_match c) (responses_err c)
    (orders_in_flight c).
Definition set_reconnect_at_ns (x : Z) (c : ClientState) : ClientState :=
  mkClient
    (client_id c) (fd c) (connecting c) (write_buf c) (read_buf c) (acks_pending c)
    (next_send_ns c) x (reconnect_backoff_ms c) (pending_types c) (pending_head c)
    (pending_tail c) (active_orders c) (active_write c) (active_count c) (active_read c)
    (requests_sent c) (responses_ack c) (responses_match c) (responses_err c)
    (orders_in_flight c).
Definition set_reconnect_backoff_ms (x : Z) (c : ClientState) : ClientState :=
  mkClient
    (client_id c) (fd c) (connecting c) (write_buf c) (read_buf c) (acks_pending c)
    (next_send_ns c) (reconnect_at_ns c) x (pending_types c) (pending_head c) (pending_tail
    c) (active_orders c) (active_write c) (active_count c) (active_read c) (requests_sent c)
    (responses_ack c) (responses_match c) (responses_err c) (orders_in_flight c).
Definition set_pending_types (x : list MessageType) (c : ClientState) : ClientState :=
  mkClient
    (client_id c) (fd c) (connecting c) (write_buf c) (read_buf c) (acks_pending c)
    (next_send_ns c) (reconnect_at_ns c) (reconnect_backoff_ms c) x (pending_head c)
    (pending_tail c) (active_orders c) (active_write c) (active_count c) (active_read c)
    (requests_sent c) (responses_ack c) (responses_match c) (responses_err c)
    (orders_in_flight c).
Definition set_pending_head (x : Z) (c : ClientState) : ClientState :=
  mkClient
    (client_id c) (fd c) (connecting c) (write_buf c) (read_buf c) (acks_pending c)
    (next_send_ns c) (reconnect_at_ns c) (reconnect_backoff_ms c) (pending_types c) x
    (pending_tail c) (active_orders c) (active_write c) (active_count c) (active_read c)
    (requests_sent c) (responses_ack c) (responses_match c) (responses_err c)
    (orders_in_flight c).
Definition set_pending_tail (x : Z) (c : ClientState) : ClientState :=
  mkClient
    (client_id c) (fd c) (connecting c) (write_buf c) (read_buf c) (acks_pending c)
    (next_send_ns c) (reconnect_at_ns c) (reconnect_backoff_ms c) (pending_types c)
    (pending_head c) x (active_orders c) (active_write c) (active_count c) (active_read c)
    (requests_sent c) (responses_ack c) (responses_match c) (responses_err c)
    (orders_in_flight c).
Definition set_active_orders (x : list Z) (c : ClientState) : ClientState :=
  mkClient
    (client_id c) (fd c) (connecting c) (write_buf c) (read_buf c) (acks_pending c)
    (next_send_ns c) (reconnect_at_ns c) (reconnect_backoff_ms c) (pending_types c)
    (pending_head c) (pending_tail c) x (active_write c) (active_count c) (active_read c)
    (requests_sent c) (responses_ack c) (responses_match c) (responses_err c)
    (orders_in_flight c).
Definition set_active_write (x : Z) (c : ClientState) : ClientState :=
  mkClient
    (client_id c) (fd c) (connecting c) (write_buf c) (read_buf c) (acks_pending c)
    (next_send_ns c) (reconnect_at_ns c) (reconnect_backoff_ms c) (pending_types c)
    (pending_head c) (pending_tail c) (active_orders c) x (active_count c) (active_read c)
    (requests_sent c) (responses_ack c) (responses_match c) (responses_err c)
    (orders_in_flight c).
Definition set_active_count (x : Z) (c : ClientState) : ClientState :=
  mkClient
    (client_id c) (fd c) (connecting c) (write_buf c) (read_buf c) (acks_pending c)
    (next_send_ns c) (reconnect_at_ns c) (reconnect_backoff_ms c) (pending_types c)
    (pending_head c) (pending_tail c) (active_orders c) (active_write c) x (active_read c)
    (requests_sent c) (responses_ack c) (responses_match c) (responses_err c)
    (orders_in_flight c).
Definition set_active_read (x : Z) (c : ClientState) : ClientState :=
  mkClient
    (client_id c) (fd c) (connecting c) (write_buf c) (read_buf c) (acks_pending c)
    (next_send_ns c) (reconnect_at_ns c) (reconnect_backoff_ms c) (pending_types c)
    (pending_head c) (pending_tail c) (active_orders c) (active_write c) (active_count c) x
    (requests_sent c) (responses_ack c) (responses_match c) (responses_err c)
    (orders_in_flight c).
Definition set_requests_sent (x : Z) (c : ClientState) : ClientState :=
  mkClient
    (client_id c) (fd c) (connecting c) (write_buf c) (read_buf c) (acks_pending c)
    (next_send_ns c) (reconnect_at_ns c) (reconnect_backoff_ms c) (pending_types c)
    (pending_head c) (pending_tail c) (active_orders c) (active_write c) (active_count c)
    (active_read c) x (responses_ack c) (responses_match c) (responses_err c)
    (orders_in_flight c).
Definition set_responses_ack (x : Z) (c : ClientState) : ClientState :=
  mkClient
    (client_id c) (fd c) (connecting c) (write_buf c) (read_buf c) (acks_pending c)
    (next_send_ns c) (reconnect_at_ns c) (reconnect_backoff_ms c) (pending_types c)
    (pending_head c) (pending_tail c) (active_orders c) (active_write c) (active_count c)
    (active_read c) (requests_sent c) x (responses_match c) (responses_err c)
    (orders_in_flight c).
Definition set_responses_match (x : Z) (c : ClientState) : ClientState :=
  mkClient
    (client_id c) (fd c) (connecting c) (write_buf c) (read_buf c) (acks_pending c)
    (next_send_ns c) (reconnect_at_ns c) (reconnect_backoff_ms c) (pending_types c)
    (pending_head c) (pending_tail c) (active_orders c) (active_write c) (active_count c)
    (active_read c) (requests_sent c) (responses_ack c) x (responses_err c)
    (orders_in_flight c).
Definition set_responses_err (x : Z) (c : ClientState) : ClientState :=
  mkClient
    (client_id c) (fd c) (connecting c) (write_buf c) (read_buf c) (acks_pending c)
    (next_send_ns c) (reconnect_at_ns c) (reconnect_backoff_ms c) (pending_types c)
    (pending_head c) (pending_tail c) (active_orders c) (active_write c) (active_count c)
    (active_read c) (requests_sent c) (responses_ack c) (responses_match c) x
    (orders_in_flight c).
Definition set_orders_in_flight (x : Z) (c : ClientState) : ClientState :=
  mkClient
    (client_id c) (fd c) (connecting c) (write_buf c) (read_buf c) (acks_pending c)
    (next_send_ns c) (reconnect_at_ns c) (reconnect_backoff_ms c) (pending_types c)
    (pending_head c) (pending_tail c) (active_orders c) (active_write c) (active_count c)
    (active_read c) (requests_sent c) (responses_ack c) (responses_match c) (responses_err
    c) x.

Definition client_init (id : Z) : ClientState :=
  mkClient id (-1) false (buffer_init (32 * INBOUND_BSIZE)) (buffer_init (32 * 2 * OUTBOUND_BSIZE)) 0 0 0 0
    (replicate 32 NEW) 0 0 (replicate 32 0) 0 0 0 0 0 0 0 0.

(** The results still to come of the distributions: the roll in [0, 99], sides, order
    types, [limit_price] and [order_qty]. *)
Record Factory : Set := mkFactory {
  rolls : list Z;
  sides : list Side;
  types : list OrderType;
  prices : list Z;
  quantities : list Z
}.

(** The client's entry in epoll.  Events are (EPOLLIN, EPOLLOUT): [registered] is what
    epoll watches the current descriptor for, if it is in the set; [ctls] are the answers
    of [epoll_ctl] ([None] is success), and [ctl_refused] says whether one of them was an
    error since the current descriptor was opened. *)
Record Epoll : Set := mkEpoll {
  ctls : list (option errno);
  registered : option (bool * bool);
  ctl_refused : bool
}.

(** The client's socket: [interest] are the events that the program has last asked epoll
    for, whether or not the call succeeded; [sockets], [connects] and [so_errors] are the answers of
    [socket], [connect] ([None] is success) and [getsockopt]; [net_opened] and [net_closed]
    are the descriptors the client has opened and closed. *)
Record Net : Set := mkNet {
  net_recvs : list recv_result;
  net_sends : list send_result;
  net_errno : errno;
  net_clock : list Z;
  sockets : list Z;
  connects : list (option errno);
  so_errors : list Z;
  interest : option (bool * bool);
  net_taken : list Z;
  net_opened : list Z;
  net_closed : list Z;
  net_epoll : Epoll
}.

Record Gen : Set := mkGen {
  cs : ClientState;
  factory : Factory;
  net : Net;
  inter_arrival_ns_ : Z;
  stack : list Z
}.

Definition CM (A : Type) : Type := M Gen A.
Definition on_cs (f : ClientState -> ClientState) : CM unit :=
  modify (fun g => mkGen (f (cs g)) (factory g) (net g) (inter_arrival_ns_ g) (stack g)).
Definition get_cs : CM ClientState := gets cs.
Definition set_net (n : Net) (g : Gen) : Gen := mkGen (cs g) (factory g) n (inter_arrival_ns_ g) (stack g).
Definition set_factory (f : Factory) (g : Gen) : Gen := mkGen (cs g) f (net g) (inter_arrival_ns_ g) (stack g).

(** * System calls *)

Definition now_ns : CM Z :=
  g ← get;
  let n := net g in
  modify (set_net (mkNet (net_recvs n) (net_sends n) (net_errno n) (tail (net_clock n)) (sockets n)
                         (connects n) (so_errors n) (interest n) (net_taken n) (net_opened n) (net_closed n) (net_epoll n)));;
  mret (default 0 (head (net_clock n))).

Definition client_recv (k : nat) : CM recv_result :=
  g ← get;
  let n := net g in
  let '(r, rest) := recv_answer k (net_recvs n) in
  let e := match r with RecvError e => e | _ => net_errno n end in
  modify (set_net (mkNet rest (net_sends n) e (net_clock n) (sockets n) (connects n) (so_errors n)
                         (interest n) (net_taken n) (net_opened n) (net_closed n) (net_epoll n)));;
  mret r.

Definition client_send (bytes : list Z) : CM send_result :=
  g ← get;
  let n := net g in
  let r := match head (net_sends n) with
           | None => SendError EAGAIN
           | Some (Sent m) => Sent (min m (length bytes))
           | Some (SendError e) => SendError e
           end in
  let e := match r with SendError e => e | _ => net_errno n end in
  let k := match r with Sent k => k | SendError _ => 0%nat end in
  modify (set_net (mkNet (net_recvs n) (tail (net_sends n)) e (net_clock n) (sockets n) (connects n)
                         (so_errors n) (interest n) (net_taken n ++ take k bytes) (net_opened n) (net_closed n) (net_epoll n)));;
  mret r.

Definition client_errno : CM errno := gets (fun g => net_errno (net g)).

(** [epoll_ctl] on the current descriptor: the answer, or the error of adding twice or of
    changing what is not there; the program never looks at the result. *)
Inductive ctl_op : Set := CTL_ADD | CTL_MOD | CTL_DEL.
Definition ENOENT : errno := errno_other 2.
Definition EEXIST : errno := errno_other 17.

Definition ctl_result (op : ctl_op) (e : Epoll) : option errno :=
  match default None (head (ctls e)), op, registered e with
  | Some err, _, _ => Some err
  | None, CTL_ADD, Some _ => Some EEXIST
  | None, CTL_MOD, None | None, CTL_DEL, None => Some ENOENT
  | None, _, _ => None
  end.

Definition ctl_update (op : ctl_op) (events : option (bool * bool)) (e : Epoll) : Epoll :=
  mkEpoll (tail (ctls e)) (match ctl_result op e with None => events | Some _ => registered e end)
          (ctl_refused e || match default None (head (ctls e)) with Some _ => true | None => false end).

Definition epoll_ctl (op : ctl_op) (events : option (bool * bool)) : CM unit :=
  modify (fun g => let n := net g in
    set_net (mkNet (net_recvs n) (net_sends n) (default (net_errno n) (ctl_result op (net_epoll n))) (net_clock n) (sockets n)
                   (connects n) (so_errors n) events (net_taken n) (net_opened n) (net_closed n)
                   (ctl_update op events (net_epoll n))) g).

Definition epollAdd (events : bool * bool) : CM unit := epoll_ctl CTL_ADD (Some events).
Definition epollMod (events : bool * bool) : CM unit := epoll_ctl CTL_MOD (Some events).
Definition epollDel : CM unit := epoll_ctl CTL_DEL None.

(** [socket]: a descriptor or -1; a new connection starts with nothing sent, and not in
    epoll. *)
Definition sys_socket : CM Z :=
  g ← get;
  let n := net g in
  let f := default (-1) (head (sockets n)) in
  modify (set_net (mkNet (net_recvs n) (net_sends n) (net_errno n) (net_clock n) (tail (sockets n))
                         (connects n) (so_errors n) None []
                         (if f =? -1 then net_opened n else net_opened n ++ [f]) (net_closed n)
                         (mkEpoll (ctls (net_epoll n)) None false)));;
  mret f.

(** [close] of the current descriptor, which also takes it out of epoll. *)
Definition client_close (f : Z) : CM unit :=
  modify (fun g => let n := net g in
    set_net (mkNet (net_recvs n) (net_sends n) (net_errno n) (net_clock n) (sockets n) (connects n)
                   (so_errors n) (interest n) (net_taken n) (net_opened n) (net_closed n ++ [f])
                   (mkEpoll (ctls (net_epoll n)) None (ctl_refused (net_epoll n)))) g).

Definition sys_connect : CM (option errno) :=
  g ← get;
  let n := net g in
  let r := default None (head (connects n)) in
  let e := default (net_errno n) r in
  modify (set_net (mkNet (net_recvs n) (net_sends n) e (net_clock n) (sockets n) (tail (connects n))
                         (so_errors n) (interest n) (net_taken n) (net_opened n) (net_closed n) (net_epoll n)));;
  mret r.

Definition sys_so_error : CM Z :=
  g ← get;
  let n := net g in
  modify (set_net (mkNet (net_recvs n) (net_sends n) (net_errno n) (net_clock n) (sockets n) (connects n)
                         (tail (so_errors n)) (interest n) (net_taken n) (net_opened n) (net_closed n) (net_epoll n)));;
  mret (default 0 (head (so_errors n))).

(** * The order factory *)

Definition draw_roll : CM Z :=
  g ← get; let f := factory g in
  modify (set_factory (mkFactory (tail (rolls f)) (sides f) (types f) (prices f) (quantities f)));;
  mret (default 0 (head (rolls f))).
Definition draw_side : CM Side :=
  g ← get; let f := factory g in
  modify (set_factory (mkFactory (rolls f) (tail (sides f)) (types f) (prices f) (quantities f)));;
  mret (default BID (head (sides f))).
Definition draw_type : CM OrderType :=
  g ← get; let f := factory g in
  modify (set_factory (mkFactory (rolls f) (sides f) (tail (types f)) (prices f) (quantities f)));;
  mret (default MARKET (head (types f))).
Definition limit_price (side : Side) : CM Z :=
  g ← get; let f := factory g in
  modify (set_factory (mkFactory (rolls f) (sides f) (types f) (tail (prices f)) (quantities f)));;
  mret (default 1 (head (prices f))).
Definition order_qty : CM Z :=
  g ← get; let f := factory g in
  modify (set_factory (mkFactory (rolls f) (sides f) (types f) (prices f) (tail (quantities f))));;
  mret (default 1 (head (quantities f))).

Definition make_new (cid : Z) : CM InboundMessage :=
  side ← draw_side;
  order_type ← draw_type;
  price ← (if decide (order_type = LIMIT) then limit_price side else mret 0);
  quantity ← order_qty;
  mret (mkInbound 0 0 0 0 cid price quantity NEW side order_type).

Definition make_cancel (cid target_oid : Z) : InboundMessage :=
  mkInbound 0 0 0 target_oid cid 0 0 CANCEL BID LIMIT.

Definition make_modify (cid target_oid : Z) : CM InboundMessage :=
  side ← draw_side;
  price ← limit_price side;
  quantity ← order_qty;
  mret (mkInbound 0 0 0 target_oid cid price quantity MODIFY side LIMIT).

(** A body the gateway must reject; its caller is commented out in [build_frame].  The
    draws of the coin and of the large quantity are arguments. *)
Definition make_invalid_body (coin : bool) (big_qty cid : Z) : InboundMessage :=
  if coin then mkInbound 0 0 0 0 cid 0 100 NEW BID LIMIT
  else mkInbound 0 0 0 0 cid 100 big_qty NEW BID LIMIT.

(** [build_frame]: the message and the bytes of its frame. *)
Definition build_frame (cid active_order : Z) (dst : list Z) : CM (InboundMessage * list Z) :=
  r ← draw_roll;
  msg ← (if 20 <? r then make_new cid
         else if 8 <? r then mret (make_cancel cid active_order)
         else make_modify cid active_order);
  frame ← of_res (frame_message msg (replicate 9 0) dst);
  mret (msg, frame).

(** * Reconnecting *)

(** The linear backoff. *)
Definition back_off (c : ClientState) : ClientState :=
  if reconnect_backoff_ms c <? RECONNECT_DELAY_MS
  then set_reconnect_backoff_ms (u32 (reconnect_backoff_ms c + 50)) c else c.

Definition reconnect : CM unit :=
  c ← get_cs;
  if fd c =? -1 then mret tt
  else
    epollDel;;
    client_close (fd c);;
    on_cs (set_fd (-1));;
    on_cs (fun c => set_orders_in_flight (orders_in_flight c - acks_pending c) c);;
    on_cs (set_acks_pending 0);;
    on_cs back_off;;
    now ← now_ns;
    on_cs (fun c => set_reconnect_at_ns (u64 (now + reconnect_backoff_ms c * 1000000)) c).

Definition EINPROGRESS : errno := errno_other 115.

Definition connectClient : CM bool :=
  f ← sys_socket;
  if f =? -1 then mret false
  else
    on_cs (fun c =>
      set_active_read 0 (set_active_count 0 (set_active_write 0 (set_pending_tail 0 (set_pending_head 0
        (set_acks_pending 0 (set_read_buf (clear (read_buf c)) (set_write_buf (clear (write_buf c))
          (set_connecting true (set_fd f c))))))))));;
    rc ← sys_connect;
    match rc with
    | None => epollAdd (false, true);; mret true
    | Some e =>
        if decide (e = EINPROGRESS) then epollAdd (false, true);; mret true
        else client_close f;; on_cs (set_fd (-1));; mret false
    end.

(** * The pipeline *)

(** One pass of [flushWrite]'s loop: [inr true] when everything is sent, [inr false]
    after an early return. *)
Definition flush_more (_ : unit) : CM (unit + bool) :=
  c ← get_cs;
  if bool_decide (0 < remaining_to_send (write_buf c))%nat then
    r ← client_send (unsent (write_buf c));
    let '(n, b) := write_to r (write_buf c) in
    on_cs (set_write_buf b);;
    if 0 <? n then mret (inl tt)
    else
      e ← client_errno;
      if (n <? 0) && bool_decide (e = EAGAIN) then epollMod (true, true);; mret (inr false)
      else reconnect;; mret (inr false)
  else mret (inr true).

Definition flushWrite : CM unit :=
  c ← get_cs;
  done ← loop (S (remaining_to_send (write_buf c))) flush_more tt;
  if done : bool then on_cs (fun c => set_write_buf (try_reset (write_buf c)) c) else mret tt.

(** The body of [buildBatch]'s loop: one request, framed, appended and recorded. *)
Definition build_request : CM unit :=
  c ← get_cs;
  let active_oid := if 0 <? active_count c
                    then default 0 (active_orders c !! Z.to_nat (active_read c mod MAX_ACTIVE_ORDERS)) else 0 in
  g ← get;
  mf ← build_frame (client_id c) active_oid (stack g);
  let '(msg, frame) := mf in
  on_cs (fun c => set_write_buf (append frame (write_buf c)).2 c);;
  on_cs (fun c => if bool_decide (in_message_type msg = CANCEL \/ in_message_type msg = MODIFY)
                  then set_active_read (u32 (active_read c + 1)) c else c);;
  on_cs (fun c => set_pending_types (<[Z.to_nat (pending_tail c mod PIPELINE_DEPTH) := in_message_type msg]>
                                       (pending_types c)) c);;
  on_cs (fun c => set_orders_in_flight (orders_in_flight c + 1)
                    (set_requests_sent (u64 (requests_sent c + 1))
                      (set_acks_pending (u32 (acks_pending c + 1))
                        (set_pending_tail (u32 (pending_tail c + 1)) c)))).

(** The early returns of [buildBatch]: is there anything to send now? *)
Definition may_send : CM bool :=
  g ← get;
  let c := cs g in
  if bool_decide (0 < buf_length (write_buf c))%nat then mret false
  else if 0 <? inter_arrival_ns_ g then
    if PIPELINE_DEPTH <=? acks_pending c then mret false
    else now ← now_ns; mret (negb (now <? next_send_ns c))
  else mret (negb (acks_pending c =? PIPELINE_DEPTH)).

Definition slots (g : Gen) : Z := if 0 <? inter_arrival_ns_ g then 1 else PIPELINE_DEPTH.

Definition buildBatch : CM unit :=
  ok ← may_send;
  if negb ok then mret tt
  else
    on_cs (fun c => set_write_buf (clear (write_buf c)) c);;
    g ← get;
    loop (S (Z.to_nat PIPELINE_DEPTH))
      (fun _ : unit =>
         c ← get_cs;
         if acks_pending c <? slots g then build_request;; mret (inl tt) else mret (inr tt)) tt;;
    (if 0 <? inter_arrival_ns_ g
     then now ← now_ns; on_cs (set_next_send_ns (u64 (now + inter_arrival_ns_ g))) else mret tt);;
    flushWrite.

(** * Event handlers *)

Definition handleConnect : CM unit :=
  err ← sys_so_error;
  if negb (err =? 0) then reconnect
  else
    on_cs (set_connecting false);;
    on_cs (set_reconnect_backoff_ms 0);;
    epollMod (true, false);;
    buildBatch.

(** An 'O' frame: the oldest pending request is taken to be the one it answers. *)
Definition take_ack (frame : list Z) (c : ClientState) : ClientState :=
  if 0 <? acks_pending c then
    let sent_type := default NEW (pending_types c !! Z.to_nat (pending_head c mod PIPELINE_DEPTH)) in
    let c := set_pending_head (u32 (pending_head c + 1)) c in
    let c := if bool_decide (sent_type = NEW) then
               let oid := ack_order_id frame in
               let c := set_active_orders (<[Z.to_nat (active_write c mod MAX_ACTIVE_ORDERS) := oid]>
                                             (active_orders c)) c in
               let c := set_active_write (u32 (active_write c + 1)) c in
               if active_count c <? MAX_ACTIVE_ORDERS then set_active_count (active_count c + 1) c else c
             else c in
    set_responses_ack (u64 (responses_ack c + 1))
      (set_orders_in_flight (orders_in_flight c - 1) (set_acks_pending (acks_pending c - 1) c))
  else c.

Definition take_error (c : ClientState) : ClientState :=
  let c := if 0 <? acks_pending c then
             set_orders_in_flight (orders_in_flight c - 1)
               (set_acks_pending (acks_pending c - 1) (set_pending_head (u32 (pending_head c + 1)) c))
           else c in
  set_responses_err (u64 (responses_err c + 1)) c.

Definition take_match (c : ClientState) : ClientState := set_responses_match (u64 (responses_match c + 1)) c.

(** What a frame does to the client; [None]: it violates the protocol. *)
Definition take_response (frame : list Z) (c : ClientState) : option ClientState :=
  if negb (frame_has_header frame) then None
  else if frame_type frame =? char_O then Some (take_ack frame c)
  else if frame_type frame =? char_M then Some (take_match c)
  else if frame_type frame =? char_E then Some (take_error c)
  else None.

(** The body of [handleReadable]'s loop: [inr false] after a reconnect. *)
Definition drain_more (_ : unit) : CM (unit + bool) :=
  c ← get_cs;
  if bool_decide (FRAME_SIZE <= buf_length (read_buf c))%nat then
    match take_response (buf_view (read_buf c)) c with
    | None => reconnect;; mret (inr false)
    | Some c' => on_cs (fun _ => set_read_buf (advance FRAME_SIZE (read_buf c')) c');; mret (inl tt)
    end
  else mret (inr true).

Definition handleReadable : CM unit :=
  c ← get_cs;
  r ← client_recv (remaining_capacity (compact (read_buf c)));
  nb ← of_res (read_from r (read_buf c));
  on_cs (set_read_buf nb.2);;
  if nb.1 =? 0 then reconnect
  else if nb.1 <? 0 then
    e ← client_errno;
    if decide (e = EAGAIN) then mret tt else reconnect
  else
    c ← get_cs;
    alive ← loop (S (buf_length (read_buf c))) drain_more tt;
    if alive : bool then buildBatch else mret tt.

(** One event: error or hang-up, writable, readable. *)
Definition handle_event (err out inp : bool) : CM unit :=
  if err then reconnect
  else
    when out (c ← get_cs; if connecting c then handleConnect else flushWrite);;
    c ← get_cs;
    if out && (fd c =? -1) then mret tt
    else when inp handleReadable.

(** The sweeps of [run] after the events, for one client: the reconnection, [after] being
    the time read once for all clients, and the batch whose slot has come. *)
Definition sweep_reconnect (after : Z) : CM unit :=
  c ← get_cs;
  if (fd c =? -1) && (reconnect_at_ns c <=? after) then connectClient;; mret tt else mret tt.

Definition sweep_batch : CM unit :=
  g ← get;
  let c := cs g in
  when ((0 <? inter_arrival_ns_ g) && negb (fd c =? -1) && negb (connecting c) &&
        (acks_pending c <? PIPELINE_DEPTH) && bool_decide (buf_length (write_buf c) = 0)%nat) buildBatch.

Definition sweep_client (after : Z) : CM unit := sweep_reconnect after;; sweep_batch.

(** The destructor, for one client. *)
Definition client_destroy : CM unit :=
  c ← get_cs;
  when (negb (fd c =? -1)) (epollDel;; client_close (fd c)).

(** * Statistics *)

Record Stats : Set := mkStats {
  st_requests_sent : Z;
  st_responses_ack : Z;
  st_responses_match : Z;
  st_responses_err : Z;
  st_orders_in_flight : Z
}.

Definition stats (clients_ : list ClientState) : Stats :=
  foldl (fun s c => mkStats (u64 (st_requests_sent s + requests_sent c)) (u64 (st_responses_ack s + responses_ack c))
                            (u64 (st_responses_match s + responses_match c)) (u64 (st_responses_err s + responses_err c))
                            (st_orders_in_flight s + orders_in_flight c))
        (mkStats 0 0 0 0 0) clients_.

(** * The clients of one generator, and how long [run] may sleep *)

(** The constructor: clients 1 to [n]; the inter-arrival time is 0, [EXPECTED_THROUGHPUT]
    being 0. *)
Definition generator_clients (n : nat) : list ClientState := client_init <$> seqZ 1 (Z.of_nat n).

Definition UINT64_MAX : Z := 2 ^ 64 - 1.
Definition i64 (z : Z) : Z := (z + 2 ^ 63) mod 2 ^ 64 - 2 ^ 63.
Definition i32 (z : Z) : Z := (z + 2 ^ 31) mod 2 ^ 32 - 2 ^ 31.

(** The time at which a client needs the loop although no event comes. *)
Definition deadline (inter_arrival : Z) (c : ClientState) : option Z :=
  if fd c =? -1 then Some (reconnect_at_ns c)
  else if (0 <? inter_arrival) && negb (connecting c) && (acks_pending c <? PIPELINE_DEPTH) &&
          bool_decide (buf_length (write_buf c) = 0)%nat
  then Some (next_send_ns c) else None.

Definition min_deadline (inter_arrival : Z) (clients_ : list ClientState) : Z :=
  foldl (fun m c => match deadline inter_arrival c with Some d => Z.min m d | None => m end) UINT64_MAX clients_.

(** The timeout of [epoll_wait]: -1 is for ever. *)
Definition timeout_ms (inter_arrival now : Z) (clients_ : list ClientState) : Z :=
  let m := min_deadline inter_arrival clients_ in
  if negb (m =? UINT64_MAX) then
    let wait_ns := i64 (i64 m - i64 now) in
    if wait_ns <=? 0 then 0 else i32 (Z.quot wait_ns 1000000)
  else -1.

(** * The event loop of one client *)

(** What epoll reports: only registered descriptors, and only events that they are
    registered for (errors always). *)
Inductive action : Set :=
  | Event (err out inp : bool)
  | Sweep (after : Z).

Definition reported (i : option (bool * bool)) (out inp : bool) : bool :=
  match i with
  | None => false
  | Some (i, o) => implb out o && implb inp i
  end.

Definition act (a : action) : CM unit :=
  match a with
  | Event err out inp =>
      g ← get;
      if reported (registered (net_epoll (net g))) out inp then handle_event err out inp else mret tt
  | Sweep after => sweep_client after
  end.

Fixpoint act_all (l : list action) : CM unit :=
  match l with [] => mret tt | a :: l' => act a;; act_all l' end.

(** [run]'s first connection attempt, then the loop. *)
Definition run_client (l : list action) : CM unit := connectClient;; act_all l.
