(* ===== verification/ClientProps.v ===== *)
(** The load generator's properties: every request it builds passes the gateway, and its
    pipeline stays consistent under every sequence of events ([client_ok] is the
    invariant, kept by every handler). *)

From S2P Require Import Prelude Types Ring Validation Protocol Buffer ServerState Gateway Frame Client.

Local Open Scope Z_scope.

(** * The factory *)

(** The ranges of the draws: [limit_price] is at least 1 and a [uint32_t], [order_qty]
    is clamped to [1, 1 000 000], sides and types are casts of a [bool]. *)
Record draws_ok (f : Factory) : Prop := {
  dr_sides : Forall (fun s => s = BID \/ s = ASK) (sides f);
  dr_types : Forall (fun t => t = MARKET \/ t = LIMIT) (types f);
  dr_prices : Forall (fun p => 1 <= p < 2 ^ 32) (prices f);
  dr_quantities : Forall (fun q => 1 <= q <= 1000000) (quantities f)
}.

Lemma Forall_tail {A} (P : A -> Prop) l : Forall P l -> Forall P (tail l).
Proof. by destruct 1. Qed.

Lemma Forall_head {A} (P : A -> Prop) d l : P d -> Forall P l -> P (default d (head l)).
Proof. intros Hd Hl. by destruct Hl. Qed.

(** A draw only moves the factory along. *)
Definition drawn (g g' : Gen) : Prop := exists f, draws_ok f /\ g' = set_factory f g.

Lemma drawn_trans g1 g2 g3 : drawn g1 g2 -> drawn g2 g3 -> drawn g1 g3.
Proof. intros (f2 & H2 & ->) (f3 & H3 & ->). by exists f3. Qed.

Lemma drawn_ok g g' : drawn g g' -> draws_ok (factory g').
Proof. by intros (f & H & ->). Qed.

Lemma draw_roll_ok g : draws_ok (factory g) -> wp draw_roll (fun _ g' => drawn g g') g.
Proof. intros [H1 H2 H3 H4]. unfold draw_roll. wp_steps. eexists. split; [|done]. by constructor. Qed.

Lemma draw_side_ok g : draws_ok (factory g) -> wp draw_side (fun s g' => (s = BID \/ s = ASK) /\ drawn g g') g.
Proof.
  intros [H1 H2 H3 H4]. unfold draw_side. wp_steps. split; [|eexists; split; [|done]; constructor; try done; by apply Forall_tail].
  apply (Forall_head (fun s => s = BID \/ s = ASK)); [by left|done].
Qed.

Lemma draw_type_ok g : draws_ok (factory g) -> wp draw_type (fun t g' => (t = MARKET \/ t = LIMIT) /\ drawn g g') g.
Proof.
  intros [H1 H2 H3 H4]. unfold draw_type. wp_steps. split; [|eexists; split; [|done]; constructor; try done; by apply Forall_tail].
  apply (Forall_head (fun t => t = MARKET \/ t = LIMIT)); [by left|done].
Qed.

Lemma limit_price_ok side g : draws_ok (factory g) -> wp (limit_price side) (fun p g' => 1 <= p < 2 ^ 32 /\ drawn g g') g.
Proof.
  intros [H1 H2 H3 H4]. unfold limit_price. wp_steps. split; [|eexists; split; [|done]; constructor; try done; by apply Forall_tail].
  apply (Forall_head (fun p => 1 <= p < 2 ^ 32)); [lia|done].
Qed.

Lemma order_qty_ok g : draws_ok (factory g) -> wp order_qty (fun q g' => 1 <= q <= 1000000 /\ drawn g g') g.
Proof.
  intros [H1 H2 H3 H4]. unfold order_qty. wp_steps. split; [|eexists; split; [|done]; constructor; try done; by apply Forall_tail].
  apply (Forall_head (fun q => 1 <= q <= 1000000)); [lia|done].
Qed.

(** A request of the client that the gateway accepts. *)
Definition request_good (cid oid : Z) (m : InboundMessage) : Prop :=
  validate_message m = true /\ message_ranges m /\ in_client_id m = cid /\
  (in_message_type m = NEW \/ (in_message_type m = CANCEL \/ in_message_type m = MODIFY) /\ in_order_id m = oid).

Lemma validate_body oid cid p q mt side ot : mt = NEW \/ mt = MODIFY -> side = BID \/ side = ASK ->
  ot = MARKET \/ ot = LIMIT -> (ot = LIMIT -> 1 <= p) -> q <= 1000000 ->
  validate_message (mkInbound 0 0 0 oid cid p q mt side ot) = true.
Proof.
  intros Hm Hs Ht Hp Hq. unfold validate_message.
  assert (Hq' : (1000000 <? q) = false) by (apply Z.ltb_ge; lia).
  destruct Ht as [-> | ->].
  - destruct Hm as [-> | ->], Hs as [-> | ->]; cbn; by rewrite Hq'.
  - assert (Hp' : (p =? 0) = false) by (apply Z.eqb_neq; specialize (Hp eq_refl); lia).
    destruct Hm as [-> | ->], Hs as [-> | ->]; cbn; by rewrite Hp', Hq', andb_false_r.
Qed.

Lemma make_new_ok cid oid g : is_u32 cid -> draws_ok (factory g) ->
  wp (make_new cid) (fun m g' => request_good cid oid m /\ drawn g g') g.
Proof.
  intros Hcid Hd. unfold make_new. wp_steps. eapply wp_mono; [by apply draw_side_ok|]. intros side g1 [Hs D1]. wp_steps.
  eapply wp_mono; [by apply draw_type_ok, (drawn_ok g)|]. intros ot g2 [Ht D2]. wp_steps.
  pose proof (drawn_trans _ _ _ D1 D2) as D12.
  apply (wp_mono _ (fun p g' => ((ot = LIMIT -> 1 <= p) /\ is_u32 p) /\ drawn g g')).
  { case_decide; [|by wp_steps]. eapply wp_mono; [by apply limit_price_ok, (drawn_ok g)|].
    intros p g3 [Hp D3]. split; [unfold is_u32; lia|by apply (drawn_trans g g2)]. }
  intros p g3 [[Hp Hp32] D3]. wp_steps. eapply wp_mono; [by apply order_qty_ok, (drawn_ok g)|]. intros q g4 [Hq D4]. wp_steps.
  split; [|by apply (drawn_trans g g3)]. split_and!; [apply validate_body; try done; [by left|lia]| |done|by left].
  unfold message_ranges, is_u32, is_u64 in *. cbn. split_and!; try lia; [..|done].
  - by destruct Hs as [-> | ->].
  - by destruct Ht as [-> | ->].
Qed.

Lemma make_modify_ok cid oid g : is_u32 cid -> is_u64 oid -> draws_ok (factory g) ->
  wp (make_modify cid oid) (fun m g' => request_good cid oid m /\ drawn g g') g.
Proof.
  intros Hcid Hoid Hd. unfold make_modify. wp_steps. eapply wp_mono; [by apply draw_side_ok|]. intros side g1 [Hs D1]. wp_steps.
  eapply wp_mono; [by apply limit_price_ok, (drawn_ok g)|]. intros p g2 [Hp D2]. wp_steps.
  eapply wp_mono; [by apply order_qty_ok, (drawn_ok g1)|]. intros q g3 [Hq D3]. wp_steps.
  split; [|by apply (drawn_trans g g2), D3; apply (drawn_trans g g1)].
  split_and!; [apply validate_body; try done; [by right|by right|lia|lia]| |done|right; split; [by right|done]].
  unfold message_ranges, is_u32, is_u64 in *. cbn. split_and!; try lia; try done. by destruct Hs as [-> | ->].
Qed.

Lemma make_cancel_ok cid oid : is_u32 cid -> is_u64 oid -> request_good cid oid (make_cancel cid oid).
Proof.
  intros Hcid Hoid. split_and!; [done| |done|right; split; [by left|done]].
  unfold message_ranges, is_u32, is_u64, make_cancel in *. cbn. split_and!; try lia; done.
Qed.

Lemma build_frame_ok cid oid dst g : is_u32 cid -> is_u64 oid -> length dst = INBOUND_BSIZE -> draws_ok (factory g) ->
  wp (build_frame cid oid dst) (fun mf g' => request_good cid oid mf.1 /\ length mf.2 = INBOUND_BSIZE /\
    parse_request mf.2 = Some mf.1 /\ drawn g g') g.
Proof.
  intros Hcid Hoid Hdst Hd. unfold build_frame. wp_steps. eapply wp_mono; [by apply draw_roll_ok|]. intros r g1 D1. wp_steps.
  apply (wp_mono _ (fun m g' => request_good cid oid m /\ drawn g g')).
  { pose proof (drawn_ok _ _ D1) as Hd1. destruct (20 <? r).
    - eapply wp_mono; [by apply make_new_ok|]. intros m g2 [Hm D2]. split; [exact Hm|by apply (drawn_trans g g1)].
    - destruct (8 <? r); [wp_steps; split; [by apply make_cancel_ok|done]|].
      eapply wp_mono; [by apply make_modify_ok|]. intros m g2 [Hm D2]. split; [exact Hm|by apply (drawn_trans g g1)]. }
  intros m g2 [Hm D2]. destruct (frame_message_ok m (replicate 9 0) dst eq_refl Hdst) as (frame & H1 & H2 & H3).
  unfold of_res. wp_steps. unfold wp. rewrite H1. cbn. split_and!; [exact Hm|done|apply H3, Hm|done].
Qed.

(** The bodies meant to be rejected are. *)
Lemma invalid_body_rejected coin q cid : 1000001 <= q <= 2000000 -> validate_message (make_invalid_body coin q cid) = false.
Proof.
  intros Hq. destruct coin; [done|]. unfold validate_message, make_invalid_body, validate_new. cbn.
  by rewrite (proj2 (Z.ltb_lt 1000000 q)) by lia.
Qed.

(** The message as the gateway stamps it. *)
Definition stamped (t : Z) (m : InboundMessage) : InboundMessage :=
  mkInbound t (in_recv_tsc m) (in_server_push m) (in_order_id m) (in_client_id m) (in_price m) (in_quantity m)
            (in_message_type m) (in_side m) (in_order_type m).

(** Every frame the load generator builds is a whole frame that the gateway takes for
    the message it was built from and passes on to the engine - never a malformed
    request, never an invalid order - for any draws in the distributions' ranges, any
    active order and whatever the uninitialised frame array held; CANCEL and MODIFY
    target the order they were given. *)
Theorem requests_accepted cid oid dst t g :
  is_u32 cid -> is_u64 oid -> length dst = INBOUND_BSIZE -> draws_ok (factory g) ->
  wp (build_frame cid oid dst) (fun mf g' => length mf.2 = INBOUND_BSIZE /\
    classify t mf.2 = inr (stamped t mf.1) /\ in_client_id mf.1 = cid /\
    (in_message_type mf.1 = NEW \/ (in_message_type mf.1 = CANCEL \/ in_message_type mf.1 = MODIFY) /\ in_order_id mf.1 = oid) /\
    draws_ok (factory g') /\ cs g' = cs g) g.
Proof.
  intros Hcid Hoid Hdst Hd. eapply wp_mono; [by apply build_frame_ok|].
  intros [m frame] g' ((Hv & _ & Hc & Hk) & Hl & Hp & D). cbn [fst snd] in *. split_and!; [done| |done|done|by apply (drawn_ok g)|].
  - unfold classify. rewrite Hp. change (validate_message (mkInbound t _ _ _ _ _ _ _ _ _)) with (validate_message m).
    by rewrite Hv.
  - by destruct D as (f & _ & ->).
Qed.

Definition sample_gen : Gen :=
  mkGen (client_init 7) (mkFactory [50; 15; 3] [ASK; BID] [LIMIT] [10025; 9990] [100; 7])
    (mkNet [] [] EAGAIN [] [9] [None] [0] None [] [] [] (mkEpoll [] None false)) 0 (replicate INBOUND_BSIZE 255).

Lemma sample_draws : draws_ok (factory sample_gen).
Proof. constructor; repeat constructor; cbn; (lia || by left || by right). Qed.

Lemma requests_accepted_witness :
  wp (build_frame 7 3 (replicate INBOUND_BSIZE 255)) (fun mf _ =>
    classify 1000 mf.2 = inr (stamped 1000 mf.1) /\ in_client_id mf.1 = 7) sample_gen.
Proof.
  eapply wp_mono.
  - apply (requests_accepted 7 3 (replicate INBOUND_BSIZE 255) 1000 sample_gen).
    + vm_compute. split; congruence.
    + vm_compute. split; congruence.
    + reflexivity.
    + exact sample_draws.
  - intros mf g' (_ & H1 & H2 & _). split; [exact H1|exact H2].
Defined.

(** * The pipeline's invariant *)

Definition PIPE : nat := 32.

(** The read buffer between two frames. *)
Record frames_ok (b : Buffer) : Prop := {
  fr_buffer : buffer_ok b;
  fr_unwritten : bytes_written_ b = 0%nat;
  fr_aligned : exists k, read_off_ b = (FRAME_SIZE * k)%nat;
  fr_tidy : (read_off_ b < len_ b)%nat \/ read_off_ b = 0%nat;
  fr_capacity : capacity b = (PIPE * 2 * OUTBOUND_BSIZE)%nat
}.

(** What holds of a client in every state. *)
Record client_basic (c : ClientState) : Prop := {
  cb_write : capacity (write_buf c) = (PIPE * INBOUND_BSIZE)%nat;
  cb_read : capacity (read_buf c) = (PIPE * 2 * OUTBOUND_BSIZE)%nat;
  cb_types : length (pending_types c) = PIPE;
  cb_orders : length (active_orders c) = 32%nat;
  cb_acks : 0 <= acks_pending c <= PIPELINE_DEPTH;
  cb_flight : orders_in_flight c = acks_pending c;
  cb_head : is_u32 (pending_head c);
  cb_tail : is_u32 (pending_tail c);
  cb_active : 0 <= active_count c <= MAX_ACTIVE_ORDERS
}.

(** What holds while the socket is open: the ring of pending types is as long as the
    pipeline, a frame of the exchange always fits, and epoll has been asked to watch
    unsent bytes ([i]); [w] is what it does watch. *)
Record client_open (c : ClientState) (i w : option (bool * bool)) : Prop := {
  co_write : buffer_ok (write_buf c) /\ read_off_ (write_buf c) = 0%nat;
  co_read : frames_ok (read_buf c) /\ (buf_length (read_buf c) < FRAME_SIZE)%nat;
  co_ring : u32 (pending_tail c - pending_head c) = acks_pending c;
  co_interest : i = Some (false, true) /\ connecting c = true /\ acks_pending c = 0 /\ len_ (write_buf c) = 0%nat /\
      (w = None \/ w = Some (false, true)) \/
    connecting c = false /\ exists o, i = Some (true, o) /\ ((0 < len_ (write_buf c))%nat -> o = true)
}.

Definition client_ok (g : Gen) : Prop :=
  client_basic (cs g) /\ length (stack g) = INBOUND_BSIZE /\
  (if decide (fd (cs g) = -1) then acks_pending (cs g) = 0 /\ interest (net g) = None
   else client_open (cs g) (interest (net g)) (registered (net_epoll (net g)))).

(** What no handler changes. *)
Definition same_config (g g' : Gen) : Prop :=
  inter_arrival_ns_ g' = inter_arrival_ns_ g /\ stack g' = stack g /\ client_id (cs g') = client_id (cs g).

(** ** Reconnecting *)

Lemma back_off_fields c : exists v, back_off c = set_reconnect_backoff_ms v c.
Proof. unfold back_off. destruct (_ <? _); [by eexists|]. exists (reconnect_backoff_ms c). by destruct c. Qed.

Lemma wp_client_close f (Q : unit -> Gen -> Prop) g :
  (forall n, interest n = interest (net g) -> Q tt (set_net n g)) -> wp (client_close f) Q g.
Proof. intros HQ. unfold client_close. wp_steps. by apply HQ. Qed.

Lemma reconnect_ok g : client_basic (cs g) -> length (stack g) = INBOUND_BSIZE -> fd (cs g) <> -1 ->
  wp reconnect (fun _ g' => client_ok g' /\ fd (cs g') = -1 /\ same_config g g' /\
    requests_sent (cs g') = requests_sent (cs g)) g.
Proof.
  intros [B1 B2 B3 B4 B5 B6 B7 B8 B9] Hstk Hfd. unfold reconnect, get_cs. wp_steps.
  destruct (Z.eqb_spec (fd (cs g)) (-1)); [done|]. unfold epollDel, epoll_ctl, on_cs, now_ns. wp_steps.
  apply wp_client_close. intros net1 Hn. wp_steps. cbn.
  match goal with |- context [back_off ?c] => destruct (back_off_fields c) as [v ->] end. cbn.
  split; [|done]. split; [|done]. constructor; cbn; try done; lia.
Qed.

(** ** Sending *)

Lemma client_send_ok bytes g : wp (client_send bytes) (fun r g' => (sent_count r <= length bytes)%nat /\
  cs g' = cs g /\ factory g' = factory g /\ stack g' = stack g /\ inter_arrival_ns_ g' = inter_arrival_ns_ g /\
  interest (net g') = interest (net g) /\ net_taken (net g') = net_taken (net g) ++ take (sent_count r) bytes) g.
Proof.
  unfold client_send. wp_steps. split_and!; try done. destruct (head _) as [[m|e]|]; simpl; lia.
Qed.

(** A client about to send, or in the middle of it. *)
Record flush_ready (g : Gen) (o : bool) : Prop := {
  fl_basic : client_basic (cs g);
  fl_stack : length (stack g) = INBOUND_BSIZE;
  fl_open : fd (cs g) <> -1 /\ connecting (cs g) = false /\ interest (net g) = Some (true, o);
  fl_write : buffer_ok (write_buf (cs g)) /\ read_off_ (write_buf (cs g)) = 0%nat;
  fl_read : frames_ok (read_buf (cs g)) /\ (buf_length (read_buf (cs g)) < FRAME_SIZE)%nat;
  fl_ring : u32 (pending_tail (cs g) - pending_head (cs g)) = acks_pending (cs g)
}.

Definition request_stream (g : Gen) : list Z := net_taken (net g) ++ unsent (write_buf (cs g)).

(** The client's own state has only sent. *)
Definition only_sent (g g' : Gen) : Prop :=
  (exists b, cs g' = set_write_buf b (cs g)) /\ request_stream g' = request_stream g /\ same_config g g'.

Lemma only_sent_refl g : only_sent g g.
Proof. split; [|done]. exists (write_buf (cs g)). by destruct (cs g). Qed.

Lemma only_sent_trans g1 g2 g3 : only_sent g1 g2 -> only_sent g2 g3 -> only_sent g1 g3.
Proof.
  intros [[b2 E2] [R2 (A2 & B2 & C2)]] [[b3 E3] [R3 (A3 & B3 & C3)]].
  split; [exists b3; by rewrite E3, E2|]. split; [congruence|]. unfold same_config. split_and!; congruence.
Qed.

Lemma flush_ready_ok g o : flush_ready g o -> ((0 < len_ (write_buf (cs g)))%nat -> o = true) -> client_ok g.
Proof.
  intros [H1 H2 (H3 & H4 & H5) H6 H7 H8] Ho. split; [done|]. split; [done|]. rewrite decide_False by done.
  constructor; try done. right. split; [done|]. by exists o.
Qed.

Lemma flush_ready_write g g' o b : flush_ready g o -> cs g' = set_write_buf b (cs g) -> stack g' = stack g ->
  interest (net g') = interest (net g) -> buffer_ok b -> capacity b = capacity (write_buf (cs g)) -> read_off_ b = 0%nat ->
  flush_ready g' o.
Proof.
  intros [[] H2 (H3 & H4 & H5) H6 H7 H8] E1 E2 E3 Hb Hc Hr. constructor; rewrite ?E1, ?E2, ?E3; cbn; try done.
  constructor; cbn; try done. by rewrite Hc.
Qed.

(** One pass of the loop: sent some, blocked, or gave the connection up. *)
Lemma flush_more_ok g o (Q : unit + bool -> Gen -> Prop) : flush_ready g o ->
  (unsent (write_buf (cs g)) = [] -> Q (inr true) g) ->
  (forall g', flush_ready g' true -> only_sent g g' -> unsent (write_buf (cs g')) <> [] -> Q (inr false) g') ->
  (forall g', client_ok g' -> fd (cs g') = -1 -> same_config g g' -> Q (inr false) g') ->
  (forall g', flush_ready g' o -> only_sent g g' ->
     (remaining_to_send (write_buf (cs g')) < remaining_to_send (write_buf (cs g)))%nat -> Q (inl tt) g') ->
  wp (flush_more tt) Q g.
Proof.
  intros Hf Hdone Hblocked Hgone Hmore. pose proof Hf as [F1 F2 (F3 & F4 & F5) [F6 F6'] F7 F8].
  pose proof (length_unsent _ F6) as Hlen. unfold flush_more, get_cs. wp_steps.
  case_bool_decide as Hrem; [|wp_steps; apply Hdone, length_zero_iff_nil; lia].
  wp_steps. eapply wp_mono; [apply client_send_ok|]. intros r g1 (Hn & E1 & E2 & E3 & E4 & E5 & E6).
  assert (Hfit : send_fits r (write_buf (cs g))) by (destruct r; [unfold send_fits; rewrite <- Hlen; exact Hn|done]).
  destruct (write_to_ok r (write_buf (cs g)) F6 Hfit) as (W1 & W2 & W3 & W4).
  assert (W5 : read_off_ (write_to r (write_buf (cs g))).2 = 0%nat) by (destruct r; done).
  assert (W6 : remaining_to_send (write_to r (write_buf (cs g))).2 = (remaining_to_send (write_buf (cs g)) - sent_count r)%nat)
    by (destruct r; unfold remaining_to_send; simpl; lia).
  assert (En : (write_to r (write_buf (cs g))).1 = match r with Sent m => Z.of_nat m | SendError _ => -1 end) by (by destruct r).
  destruct (write_to r (write_buf (cs g))) as [n b]. cbn [fst snd] in *. unfold on_cs at 1. wp_steps.
  set (g2 := mkGen (set_write_buf b (cs g1)) (factory g1) (net g1) (inter_arrival_ns_ g1) (stack g1)).
  assert (Hf2 : flush_ready g2 o) by (apply (flush_ready_write g g2 o b); cbn; try done; by rewrite E1).
  assert (Hs2 : only_sent g g2).
  { split_and!; [exists b; cbn; by rewrite E1| |unfold same_config; cbn; by rewrite E1, E3, E4]. unfold request_stream. cbn.
    rewrite E6, <- app_assoc. f_equal. exact (eq_sym W4). }
  destruct (Z.ltb_spec 0 n) as [Hpos|Hneg]; [wp_steps; apply (Hmore g2); [done|done|]; cbn; destruct r; simpl in *; lia|].
  assert (Hne : unsent (write_buf (cs g2)) <> []).
  { intros E. apply (f_equal length) in E. rewrite length_unsent in E by apply Hf2. cbn in E.
    destruct r; simpl in *; lia. }
  unfold client_errno. wp_steps. destruct ((n <? 0) && _).
  - unfold epollMod, epoll_ctl. wp_steps. apply Hblocked; [|done|done]. destruct Hf2 as [G1 G2 (G3 & G4 & G5) G6 G7 G8]. by constructor.
  - wp_steps. destruct Hf2 as [G1 G2 (G3 & G4 & G5) G6 G7 G8].
    eapply wp_mono; [by apply (reconnect_ok g2)|]. intros ? g3 (R1 & R2 & (R3 & R4 & R5) & _). wp_steps.
    destruct Hs2 as (_ & _ & (S1 & S2 & S3)). apply Hgone; [done|done|]. unfold same_config. split_and!; congruence.
Qed.

(** What [flushWrite] leaves: everything sent, or the rest watched for writability, or
    the connection given up. *)
Record flushed (o : bool) (g g' : Gen) : Prop := {
  fd_ok : client_ok g';
  fd_same : same_config g g';
  fd_end : fd (cs g') = -1 \/ only_sent g g' /\ fd (cs g') = fd (cs g) /\
    (len_ (write_buf (cs g')) = 0%nat /\ interest (net g') = Some (true, o) \/
     unsent (write_buf (cs g')) <> [] /\ interest (net g') = Some (true, true))
}.

Lemma all_sent b : buffer_ok b -> unsent b = [] -> bytes_written_ b = len_ b.
Proof.
  intros Hb E. pose proof (length_unsent b Hb) as H. rewrite E in H. cbn [length] in H.
  pose proof (buf_sent b Hb). unfold remaining_to_send in H. lia.
Qed.

Lemma flush_done g o : flush_ready g o -> unsent (write_buf (cs g)) = [] ->
  wp (on_cs (fun c => set_write_buf (try_reset (write_buf c)) c)) (fun _ g' => flush_ready g' o /\ only_sent g g' /\
    fd (cs g') = fd (cs g) /\ len_ (write_buf (cs g')) = 0%nat) g.
Proof.
  intros Hf Hempty. pose proof (fl_write g o Hf) as [Hb Hr]. unfold on_cs. wp_steps.
  destruct (try_reset_ok (write_buf (cs g)) Hb Hr) as (B1 & B2 & B3).
  assert (Hlen : try_reset (write_buf (cs g)) = mkBuffer (data_ (write_buf (cs g))) 0 0 (read_off_ (write_buf (cs g)))).
  { unfold try_reset. by rewrite decide_True by by apply all_sent. }
  split_and!.
  - apply (flush_ready_write g _ o (try_reset (write_buf (cs g)))); try done. by rewrite Hlen.
  - split; [by eexists|]. split; [|done]. unfold request_stream. cbn. by rewrite B2.
  - done.
  - cbn. by rewrite Hlen.
Qed.

Lemma only_sent_fd g g' : only_sent g g' -> fd (cs g') = fd (cs g).
Proof. by intros [[b ->] _]. Qed.

Lemma flushWrite_ok g o : flush_ready g o -> wp flushWrite (fun _ g' => flushed o g g') g.
Proof.
  intros Hf. unfold flushWrite, get_cs. wp_steps.
  apply (wp_loop (fun n _ g' => flush_ready g' o /\ only_sent g g' /\ (remaining_to_send (write_buf (cs g')) <= n)%nat))
    with (n := remaining_to_send (write_buf (cs g))); [|split_and!; [done|apply only_sent_refl|done]|lia].
  intros n [] g1 (F1 & S1 & Hn). apply (flush_more_ok g1 o); [done|..].
  - intros Hempty. eapply wp_mono; [by apply (flush_done g1 o)|]. intros ? g2 (F2 & S2 & Hfd & Hlen).
    pose proof (only_sent_trans _ _ _ S1 S2) as S12. constructor; [|apply S12|right].
    + apply (flush_ready_ok g2 o F2). intros H. lia.
    + split_and!; [done|by apply only_sent_fd|left]. split; [done|apply F2].
  - intros g2 F2 S2 Hne. pose proof (only_sent_trans _ _ _ S1 S2) as S12. wp_steps. constructor; [|apply S12|right].
    + by apply (flush_ready_ok g2 true F2).
    + split_and!; [done|by apply only_sent_fd|right]. split; [done|apply F2].
  - intros g2 H1 H2 H3. wp_steps. constructor; [done| |by left].
    destruct S1 as (_ & _ & (A & B & C)), H3 as (A' & B' & C'). unfold same_config. split_and!; congruence.
  - intros g2 F2 S2 Hlt. exists (remaining_to_send (write_buf (cs g2))). split; [lia|].
    split_and!; [done|by apply (only_sent_trans g g1)|done].
Qed.

(** ** Building a batch *)

(** The write buffer while a batch is packed: nothing of it is sent, and there is room for
    every request the pipeline still has room for. *)
Record packing (g : Gen) (o : bool) : Prop := {
  pk_ready : flush_ready g o;
  pk_unsent : bytes_written_ (write_buf (cs g)) = 0%nat;
  pk_room : (len_ (write_buf (cs g)) + INBOUND_BSIZE * Z.to_nat (PIPELINE_DEPTH - acks_pending (cs g)) <= PIPE * INBOUND_BSIZE)%nat
}.

Lemma u32_next a b k : is_u32 b -> 0 <= k < 2 ^ 31 -> u32 (a - b) = k -> u32 (u32 (a + 1) - b) = k + 1.
Proof.
  intros Hb Hk H. unfold u32, is_u32 in *. rewrite Zminus_mod_idemp_l.
  replace (a + 1 - b) with ((a - b) + 1) by lia. rewrite <- Zplus_mod_idemp_l, H. apply Z.mod_small. lia.
Qed.

Lemma u32_prev a b k : 0 < k < 2 ^ 32 -> u32 (a - b) = k -> u32 (a - u32 (b + 1)) = k - 1.
Proof.
  intros Hk H. unfold u32 in *. rewrite Zminus_mod_idemp_r.
  replace (a - (b + 1)) with ((a - b) - 1) by lia. rewrite <- Zminus_mod_idemp_l, H. apply Z.mod_small. lia.
Qed.

Lemma is_u32_u32 z : is_u32 (u32 z).
Proof. unfold is_u32, u32. apply Z.mod_pos_bound. lia. Qed.

Lemma build_frame_total cid oid dst g : length dst = INBOUND_BSIZE ->
  wp (build_frame cid oid dst) (fun mf g' => length mf.2 = INBOUND_BSIZE /\ exists f, g' = set_factory f g) g.
Proof.
  intros Hdst. unfold build_frame, draw_roll. wp_steps.
  apply (wp_mono _ (fun _ g' => exists f, g' = set_factory f g)).
  { unfold make_new, make_modify, draw_side, draw_type, limit_price, order_qty.
    repeat (wp_steps; match goal with |- context [if ?b then _ else _] => destruct b | _ => idtac end); wp_steps;
      by eexists. }
  intros m g' [f ->]. destruct (frame_message_ok m (replicate 9 0) dst eq_refl Hdst) as (frame & H1 & H2 & _).
  unfold of_res. wp_steps. unfold wp. rewrite H1. cbn. split; [done|by exists f].
Qed.

(** The client after a request of type [mt] was appended: its bookkeeping. *)
Lemma build_request_ok g o : packing g o -> acks_pending (cs g) < PIPELINE_DEPTH ->
  wp build_request (fun _ g' => packing g' o /\ same_config g g' /\ fd (cs g') = fd (cs g) /\
    acks_pending (cs g') = acks_pending (cs g) + 1) g.
Proof.
  intros [Hf Hu Hroom] Hlt. pose proof Hf as [[B1 B2 B3 B4 B5 B6 B7 B8 B9] F2 (F3 & F4 & F5) [F6 F6'] F7 F8].
  unfold build_request, get_cs. wp_steps.
  eapply wp_mono; [by apply build_frame_total|]. intros [msg frame] g1 [Hl [f ->]]. cbn [snd] in Hl.
  destruct (append_ok frame (write_buf (cs g)) F6) as (b & Ea & A1 & A2 & A3 & A4 & _).
  { apply bool_decide_eq_true. rewrite Hl, B1. unfold PIPE, INBOUND_BSIZE, PIPELINE_DEPTH in *. lia. }
  assert (Hoff : read_off_ b = 0%nat) by (revert Ea; unfold append; case_match; intros [= <-]; done).
  unfold on_cs. wp_steps. cbn [cs set_factory write_buf]. rewrite Ea. cbn [snd].
  set (c1 := set_write_buf b (cs g)).
  assert (Hmod : exists v, (if bool_decide (in_message_type msg = CANCEL \/ in_message_type msg = MODIFY)
    then set_active_read (u32 (active_read c1 + 1)) c1 else c1) = set_active_read v c1).
  { case_bool_decide; [by eexists|]. by exists (active_read c1). }
  destruct Hmod as [v ->]. unfold c1. clear c1.
  assert (Ha : u32 (acks_pending (cs g) + 1) = acks_pending (cs g) + 1).
  { apply u32_small. unfold is_u32, PIPELINE_DEPTH in *. lia. }
  split_and!; [|done|done|exact Ha]. constructor; cbn.
  - constructor; cbn; try done.
    + constructor; cbn; rewrite ?Ha, ?length_insert; try done; try apply is_u32_u32; try lia; by rewrite A2.
    + rewrite Ha. apply u32_next; [done|unfold PIPELINE_DEPTH in *; lia|done].
  - by rewrite A4.
  - rewrite A3, Hl, Ha. unfold PIPE, INBOUND_BSIZE, PIPELINE_DEPTH in *. lia.
Qed.

Definition batch_body (g : Gen) (_ : unit) : CM (unit + unit) :=
  c ← get_cs; if acks_pending c <? slots g then build_request;; mret (inl tt) else mret (inr tt).

Lemma batch_loop_ok g g0 o : packing g0 o -> same_config g g0 ->
  wp (loop (S (Z.to_nat PIPELINE_DEPTH)) (batch_body g) tt) (fun _ g' => packing g' o /\ same_config g g' /\
    fd (cs g') = fd (cs g0) /\ acks_pending (cs g') = Z.max (acks_pending (cs g0)) (slots g)) g0.
Proof.
  intros Hp Hsame. assert (Hslots : 1 <= slots g <= PIPELINE_DEPTH) by (unfold slots; destruct (0 <? _); vm_compute; split; congruence).
  apply (wp_loop (fun n _ g' => packing g' o /\ same_config g g' /\ fd (cs g') = fd (cs g0) /\
    acks_pending (cs g0) <= acks_pending (cs g') <= Z.max (acks_pending (cs g0)) (slots g) /\
    (Z.to_nat (PIPELINE_DEPTH - acks_pending (cs g')) <= n)%nat)) with (n := Z.to_nat (PIPELINE_DEPTH - acks_pending (cs g0))).
  - intros n [] g1 (P1 & S1 & E1 & R1 & N1). unfold batch_body, get_cs. wp_steps.
    destruct (Z.ltb_spec (acks_pending (cs g1)) (slots g)) as [Hlt|Hge]; [|wp_steps; split_and!; try done; lia].
    wp_steps. eapply wp_mono; [apply (build_request_ok g1 o P1); lia|]. intros ? g2 (P2 & S2 & E2 & R2). wp_steps.
    exists (Z.to_nat (PIPELINE_DEPTH - acks_pending (cs g2))). split; [lia|].
    split_and!; [done| |congruence|lia|lia|done].
    destruct S1 as (? & ? & ?), S2 as (? & ? & ?). unfold same_config. split_and!; congruence.
  - split_and!; try done; lia.
  - pose proof (cb_acks _ (fl_basic _ _ (pk_ready _ _ Hp))). unfold PIPELINE_DEPTH in *. lia.
Qed.

Lemma flush_ready_clear g o : flush_ready g o ->
  wp (on_cs (fun c => set_write_buf (clear (write_buf c)) c)) (fun _ g' => packing g' o /\ same_config g g' /\
    fd (cs g') = fd (cs g) /\ acks_pending (cs g') = acks_pending (cs g)) g.
Proof.
  intros Hf. unfold on_cs. wp_steps. split; [|done].
  pose proof (cb_acks _ (fl_basic _ _ Hf)) as Ha. pose proof (cb_write _ (fl_basic _ _ Hf)) as Hw.
  constructor; [|done|cbn; unfold PIPE, INBOUND_BSIZE, PIPELINE_DEPTH in *; lia].
  apply (flush_ready_write g _ o (clear (write_buf (cs g)))); try done. constructor; cbn; lia.
Qed.

(** [buildBatch] fills the pipeline and sends: in unlimited mode the client ends with
    [PIPELINE_DEPTH] requests outstanding, or without a connection. *)
Record batched (g g' : Gen) : Prop := {
  ba_ok : client_ok g';
  ba_same : same_config g g';
  ba_acks : fd (cs g') = -1 \/ fd (cs g') = fd (cs g) /\ acks_pending (cs g) <= acks_pending (cs g') /\
    (inter_arrival_ns_ g <= 0 -> buf_length (write_buf (cs g)) = 0%nat -> acks_pending (cs g') = PIPELINE_DEPTH)
}.

Lemma may_send_ok g : wp may_send (fun ok g' => cs g' = cs g /\ stack g' = stack g /\ interest (net g') = interest (net g) /\
  inter_arrival_ns_ g' = inter_arrival_ns_ g /\
  (ok = true -> buf_length (write_buf (cs g)) = 0%nat /\ acks_pending (cs g) <> PIPELINE_DEPTH) /\
  (ok = false -> inter_arrival_ns_ g <= 0 -> buf_length (write_buf (cs g)) = 0%nat -> acks_pending (cs g) = PIPELINE_DEPTH)) g.
Proof.
  unfold may_send. wp_steps. case_bool_decide; [wp_steps; split_and!; try done; lia|].
  destruct (Z.ltb_spec 0 (inter_arrival_ns_ g)).
  - destruct (Z.leb_spec PIPELINE_DEPTH (acks_pending (cs g))); [wp_steps; split_and!; try done; lia|].
    unfold now_ns. wp_steps. split_and!; try done; [intros _; lia|lia].
  - wp_steps. destruct (Z.eqb_spec (acks_pending (cs g)) PIPELINE_DEPTH); cbn; split_and!; try done; intros; lia.
Qed.

Lemma flush_ready_same g g' o : flush_ready g o -> cs g' = cs g -> stack g' = stack g ->
  interest (net g') = interest (net g) -> flush_ready g' o.
Proof.
  intros Hf E1 E2 E3. pose proof (fl_write _ _ Hf) as [Hb Hr].
  apply (flush_ready_write g g' o (write_buf (cs g))); try done. rewrite E1. by destruct (cs g).
Qed.

Lemma flush_ready_next_send g o v : flush_ready g o ->
  flush_ready (mkGen (set_next_send_ns v (cs g)) (factory g) (net g) (inter_arrival_ns_ g) (stack g)) o.
Proof. intros [[] H2 H3 H4 H5 H6]. by constructor. Qed.

Lemma same_config_trans g1 g2 g3 : same_config g1 g2 -> same_config g2 g3 -> same_config g1 g3.
Proof. intros (A & B & C) (A' & B' & C'). unfold same_config. split_and!; congruence. Qed.

Lemma buildBatch_ok g o : flush_ready g o -> ((0 < len_ (write_buf (cs g)))%nat -> o = true) ->
  wp buildBatch (fun _ g' => batched g g') g.
Proof.
  intros Hf Ho. unfold buildBatch. wp_steps. eapply wp_mono; [apply may_send_ok|].
  intros ok g1 (E1 & E2 & E3 & E4 & Hok & Hno). pose proof (flush_ready_same g g1 o Hf E1 E2 E3) as Hf1.
  assert (S1 : same_config g g1) by (unfold same_config; by rewrite E1, E2, E4).
  destruct ok; cbn [negb].
  2: { wp_steps. constructor; [apply (flush_ready_ok g1 o Hf1); by rewrite E1|done|right].
       rewrite E1. split_and!; [done|lia|by apply Hno]. }
  wp_steps. eapply wp_mono; [by apply (flush_ready_clear g1 o)|]. intros ? g2 (P2 & S2 & F2 & A2). wp_steps.
  eapply wp_mono; [by apply (batch_loop_ok g2 g2 o)|]. intros ? g3 (P3 & S3 & F3 & A3). wp_steps.
  apply (wp_mono _ (fun _ g4 => flush_ready g4 o /\ same_config g3 g4 /\ fd (cs g4) = fd (cs g3) /\
    acks_pending (cs g4) = acks_pending (cs g3))).
  { destruct (0 <? inter_arrival_ns_ g2); [|wp_steps; split_and!; [apply P3|done..]].
    unfold now_ns, on_cs. wp_steps. split_and!; [|done..].
    apply (flush_ready_next_send (set_net _ g3)). apply (flush_ready_same g3); [apply P3|done..]. }
  intros ? g4 (Hf4 & S4 & F4 & A4). eapply wp_mono; [by apply (flushWrite_ok g4 o)|]. intros ? g5 [K1 K2 K3].
  pose proof (same_config_trans _ _ _ S1 (same_config_trans _ _ _ S2 S3)) as S13.
  constructor; [done|by apply (same_config_trans g g3), (same_config_trans g3 g4)|].
  destruct K3 as [K3|(([b Hb] & _ & _) & K4 & _)]; [by left|right]. rewrite Hb. cbn.
  rewrite E1 in F2, A2. split_and!; [congruence|lia|]. intros Hi _. rewrite A4, A3, A2.
  unfold slots. destruct S1 as (I1 & _), S2 as (I2 & _).
  destruct (Z.ltb_spec 0 (inter_arrival_ns_ g2)); [lia|]. pose proof (cb_acks _ (fl_basic _ _ Hf)). lia.
Qed.

(** ** Connecting *)

Lemma add_registered i e : registered e = None ->
  registered (ctl_update CTL_ADD i e) = None \/ registered (ctl_update CTL_ADD i e) = i.
Proof. intros E. unfold ctl_update. cbn. case_match; [by left|by right]. Qed.

Lemma connectClient_ok g : client_ok g -> fd (cs g) = -1 ->
  wp connectClient (fun _ g' => client_ok g' /\ same_config g g' /\ acks_pending (cs g') = 0) g.
Proof.
  intros ([B1 B2 B3 B4 B5 B6 B7 B8 B9] & Hstk & Hrest) Hfd. rewrite decide_True in Hrest by done. destruct Hrest as [Hacks Hint].
  unfold connectClient, sys_socket. wp_steps. destruct (Z.eqb_spec (default (-1) (head (sockets (net g)))) (-1)) as [E|E].
  { wp_steps. split; [|done]. split; [by constructor|]. split; [done|]. by rewrite decide_True. }
  unfold on_cs, sys_connect, epollAdd, epoll_ctl. wp_steps. cbn [net set_net connects].
  assert (Hflight : orders_in_flight (cs g) = 0) by lia.
  destruct (default None (head (connects (net g)))) as [e|]; [destruct (decide (e = EINPROGRESS))|].
  - wp_steps. split; [|done]. split; [constructor; cbn; try done; unfold is_u32; try lia; done|].
    split; [done|]. rewrite decide_False by done. constructor; cbn.
    + split; [constructor; cbn; lia|done].
    + split; [|cbn; unfold FRAME_SIZE, OUTBOUND_BSIZE; lia]. constructor; cbn; [constructor; cbn; lia|done|by exists 0%nat|by right|done].
    + done.
    + left. split_and!; try done. by apply add_registered.
  - wp_steps. split; [|done]. split; [constructor; cbn; try done; unfold is_u32; try lia; done|]. by split.
  - wp_steps. split; [|done]. split; [constructor; cbn; try done; unfold is_u32; try lia; done|].
    split; [done|]. rewrite decide_False by done. constructor; cbn.
    + split; [constructor; cbn; lia|done].
    + split; [|cbn; unfold FRAME_SIZE, OUTBOUND_BSIZE; lia]. constructor; cbn; [constructor; cbn; lia|done|by exists 0%nat|by right|done].
    + done.
    + left. split_and!; try done. by apply add_registered.
Qed.

(** ** Responses *)

(** A client with frames to take: as [flush_ready], with any number of bytes read. *)
Record reading (g : Gen) (o : bool) : Prop := {
  rd_basic : client_basic (cs g);
  rd_stack : length (stack g) = INBOUND_BSIZE;
  rd_open : fd (cs g) <> -1 /\ connecting (cs g) = false /\ interest (net g) = Some (true, o);
  rd_write : buffer_ok (write_buf (cs g)) /\ read_off_ (write_buf (cs g)) = 0%nat;
  rd_read : frames_ok (read_buf (cs g));
  rd_ring : u32 (pending_tail (cs g) - pending_head (cs g)) = acks_pending (cs g)
}.

Lemma frames_room b : frames_ok b -> (buf_length b < FRAME_SIZE)%nat -> (0 < remaining_capacity b)%nat.
Proof.
  intros [[H1 H2 H3] Hw [k Hk] Ht Hc] Hl. unfold buf_length, remaining_capacity in *. rewrite Hc in *.
  unfold PIPE, FRAME_SIZE, OUTBOUND_BSIZE in *. change (32 * 2 * 32)%nat with 2048%nat in *. destruct (Nat.le_gt_cases k 63); lia.
Qed.

Lemma frames_advance b : frames_ok b -> (FRAME_SIZE <= buf_length b)%nat ->
  frames_ok (advance FRAME_SIZE b) /\ (buf_length (advance FRAME_SIZE b) = buf_length b - FRAME_SIZE)%nat /\
  pending (advance FRAME_SIZE b) = drop FRAME_SIZE (pending b).
Proof.
  intros [Hb Hw [k Hk] Ht Hc] Hl. destruct (advance_ok FRAME_SIZE b Hb Hl Hw) as (H1 & H2 & H3 & H4).
  split_and!; [|unfold advance, buf_length in *; case_decide; simpl; lia|done].
  constructor; [done|done|..|by rewrite H2]; unfold advance; case_decide as Hd; simpl.
  - by exists 0%nat.
  - exists (S k). rewrite Hk. unfold FRAME_SIZE, OUTBOUND_BSIZE. lia.
  - by right.
  - left. lia.
Qed.

(** What a response may change. *)
Record responded (c c' : ClientState) : Prop := {
  re_basic : client_basic c';
  re_ring : u32 (pending_tail c' - pending_head c') = acks_pending c';
  re_same : write_buf c' = write_buf c /\ read_buf c' = read_buf c /\ fd c' = fd c /\
    connecting c' = connecting c /\ client_id c' = client_id c;
  re_acks : acks_pending c' = acks_pending c \/ 0 < acks_pending c /\ acks_pending c' = acks_pending c - 1
}.

Lemma take_ack_ok frame c : client_basic c -> u32 (pending_tail c - pending_head c) = acks_pending c ->
  responded c (take_ack frame c).
Proof.
  intros Hb Hr. pose proof Hb as [B1 B2 B3 B4 B5 B6 B7 B8 B9]. unfold take_ack.
  destruct (Z.ltb_spec 0 (acks_pending c)) as [Hpos|Hneg]; [|by constructor; [..|by left]].
  assert (Hprev : u32 (pending_tail c - u32 (pending_head c + 1)) = acks_pending c - 1)
    by (apply u32_prev; unfold PIPELINE_DEPTH in *; [lia|done]).
  pose proof (is_u32_u32 (pending_head c + 1)) as Hh. unfold MAX_ACTIVE_ORDERS in *.
  case_bool_decide; [|constructor; cbn; [constructor; cbn; try done; lia|done|done|by right]].
  cbn. destruct (Z.ltb_spec (active_count c) 32); (constructor; cbn; [|done|done|by right]);
    constructor; cbn; rewrite ?length_insert; unfold MAX_ACTIVE_ORDERS; try done; lia.
Qed.

Lemma take_error_ok c : client_basic c -> u32 (pending_tail c - pending_head c) = acks_pending c ->
  responded c (take_error c).
Proof.
  intros Hb Hr. pose proof Hb as [B1 B2 B3 B4 B5 B6 B7 B8 B9]. unfold take_error.
  destruct (Z.ltb_spec 0 (acks_pending c)) as [Hpos|Hneg]; (constructor; cbn; [|..|done|]).
  - constructor; cbn; try done; [lia|lia|apply is_u32_u32].
  - apply u32_prev; unfold PIPELINE_DEPTH in *; [lia|done].
  - by right.
  - by constructor.
  - done.
  - by left.
Qed.

Lemma take_response_ok frame c c' : client_basic c -> u32 (pending_tail c - pending_head c) = acks_pending c ->
  take_response frame c = Some c' -> responded c c'.
Proof.
  intros Hb Hr. unfold take_response. destruct (negb _); [done|].
  destruct (_ =? char_O); [intros [= <-]; by apply take_ack_ok|].
  destruct (_ =? char_M); [intros [= <-]|destruct (_ =? char_E); [intros [= <-]; by apply take_error_ok|done]].
  destruct Hb. constructor; [by constructor|done|done|by left].
Qed.

Lemma drain_loop_ok g o fuel : reading g o -> (buf_length (read_buf (cs g)) < fuel)%nat ->
  wp (loop fuel drain_more tt) (fun alive g' => same_config g g' /\
    if alive : bool then flush_ready g' o /\ write_buf (cs g') = write_buf (cs g) /\
      acks_pending (cs g') <= acks_pending (cs g)
    else client_ok g' /\ fd (cs g') = -1) g.
Proof.
  intros Hr Hfuel. apply (wp_loop (fun n _ g' => reading g' o /\ same_config g g' /\ write_buf (cs g') = write_buf (cs g) /\
    acks_pending (cs g') <= acks_pending (cs g) /\ (buf_length (read_buf (cs g')) <= n)%nat))
    with (n := buf_length (read_buf (cs g))); [|split_and!; done || lia|lia].
  intros n [] g1 ([R1 R2 (R3 & R4 & R5) R6 R7 R8] & S1 & W1 & A1 & N1). unfold drain_more, get_cs. wp_steps.
  case_bool_decide as Hl.
  2: { wp_steps. split; [done|]. split; [|done]. constructor; try done. split; [done|lia]. }
  destruct (take_response (buf_view (read_buf (cs g1))) (cs g1)) as [c'|] eqn:E.
  - destruct (take_response_ok _ _ _ R1 R8 E) as [[] T2 (T3 & T4 & T5 & T6 & T7) T8].
    destruct (frames_advance _ R7 Hl) as (V1 & V2 & _). unfold on_cs. wp_steps. cbn.
    exists (n - FRAME_SIZE)%nat. rewrite T4. unfold FRAME_SIZE, OUTBOUND_BSIZE in *. split; [lia|].
    destruct S1 as (S1 & S1' & S1''). split_and!; [|by split_and!; cbn; congruence|congruence|lia|cbn; lia].
    constructor; cbn; rewrite ?T3, ?T5, ?T6; try done. constructor; cbn; try done. apply V1.
  - wp_steps. eapply wp_mono; [by apply reconnect_ok|]. intros ? g2 (K1 & K2 & K3 & _). wp_steps.
    split; [by apply (same_config_trans g g1)|done].
Qed.

(** ** Reading *)

Lemma client_recv_ok k g : wp (client_recv k) (fun r g' =>
  cs g' = cs g /\ factory g' = factory g /\ stack g' = stack g /\ inter_arrival_ns_ g' = inter_arrival_ns_ g /\
  interest (net g') = interest (net g) /\ net_taken (net g') = net_taken (net g) /\
  concat (received <$> net_recvs (net g)) = received r ++ concat (received <$> net_recvs (net g')) /\
  (forall e, r = RecvError e -> net_errno (net g') = e) /\
  match r with Received x l => (S (length l) <= k)%nat | _ => True end) g.
Proof.
  unfold client_recv. wp_steps. destruct (recv_answer k (net_recvs (net g))) as [r rest] eqn:E.
  destruct (recv_answer_ok _ _ _ _ E) as [H1 H2]. wp_steps. split_and!; try done. by intros e ->.
Qed.

(** The read itself: an open client reads into room, and the buffer stays a sequence of
    whole frames and a part of one. *)
Lemma read_client_ok r b : frames_ok b -> (buf_length b < FRAME_SIZE)%nat -> recv_fits r b ->
  exists n b', read_from r b = Ok (n, b') /\ frames_ok b' /\ pending b' = pending b ++ received r /\
    match r with Received x l => 0 < n | Closed => n = 0 | RecvError _ => n = -1 end.
Proof.
  intros Hf Hl Hfit. pose proof (frames_room b Hf Hl) as Hroom. destruct Hf as [Hb Hw [k Hk] Ht Hc].
  destruct (read_from_ok r b Hb Hw Hfit) as (n & b' & E & B1 & B2 & B3 & B4 & B5 & B6).
  destruct (B6 Hroom) as [L1 L2]. exists n, b'. split; [done|]. split; [|split; [done|]].
  - constructor; [done|done|exists k; congruence|rewrite L1, L2; lia|congruence].
  - destruct r; [subst n; cbn [length]; lia|done|done].
Qed.

Lemma reading_start g g1 o b : flush_ready g o -> cs g1 = cs g -> stack g1 = stack g ->
  interest (net g1) = interest (net g) -> frames_ok b ->
  reading (mkGen (set_read_buf b (cs g1)) (factory g1) (net g1) (inter_arrival_ns_ g1) (stack g1)) o.
Proof.
  intros [[] H2 (H3 & H4 & H5) H6 H7 H8] E1 E2 E3 Hb. constructor; cbn; rewrite ?E1, ?E2, ?E3; try done.
  constructor; cbn; try done. apply Hb.
Qed.

Lemma handleReadable_ok g o : flush_ready g o -> ((0 < len_ (write_buf (cs g)))%nat -> o = true) ->
  wp handleReadable (fun _ g' => client_ok g' /\ same_config g g') g.
Proof.
  intros Hf Ho. pose proof (fl_read _ _ Hf) as [Hfr Hl]. unfold handleReadable, get_cs. wp_steps.
  eapply wp_mono; [apply client_recv_ok|]. intros r g1 (E1 & E2 & E3 & E4 & E5 & _ & _ & Herr & Hfit).
  destruct (read_client_ok r (read_buf (cs g)) Hfr Hl) as (n & b & Hread & Hb & Hpend & Hn).
  { unfold recv_fits. by destruct r. }
  rewrite Hread. unfold of_res. wp_steps. apply (wp_intro _ _ _ (n, b) g1 eq_refl). cbn [fst snd]. unfold on_cs. wp_steps.
  set (g2 := mkGen _ _ _ _ _). pose proof (reading_start g g1 o b Hf E1 E3 E5 Hb : reading g2 o) as R2.
  assert (S2 : same_config g g2) by (unfold same_config; cbn; by rewrite E1, E3, E4).
  assert (Hgone : wp reconnect (fun _ g' => client_ok g' /\ same_config g g') g2).
  { eapply wp_mono; [apply (reconnect_ok g2); [apply R2|apply R2|apply R2]|]. intros ? g3 (K1 & _ & K3 & _).
    split; [done|]. by apply (same_config_trans g g2). }
  destruct r as [x l| |e].
  - destruct (Z.eqb_spec n 0); [lia|]. destruct (Z.ltb_spec n 0); [lia|]. wp_steps.
    eapply wp_mono; [apply (drain_loop_ok g2 o); [done|lia]|]. intros alive g3 [S3 H3].
    pose proof (same_config_trans _ _ _ S2 S3) as S23. destruct alive; [|wp_steps; split; [apply H3|done]].
    destruct H3 as (F3 & W3 & _). eapply wp_mono; [apply (buildBatch_ok g3 o F3)|].
    { rewrite W3. cbn. by rewrite E1. }
    intros ? g4 [B1 B2 _]. split; [done|]. by apply (same_config_trans g g3).
  - subst n. exact Hgone.
  - subst n. cbn [Z.eqb Z.ltb Z.compare]. unfold client_errno. wp_steps. destruct (decide _) as [He|He]; [|exact Hgone].
    wp_steps. split; [|done]. apply (flush_ready_ok g2 o); [|by cbn; rewrite E1].
    assert (Hlen : buf_length b = buf_length (read_buf (cs g))).
    { rewrite <- !length_pending by (apply Hb || apply Hfr). by rewrite Hpend, app_nil_r. }
    destruct R2 as [R2 R3 R4 R5 R6 R7]. constructor; try done. split; [done|]. cbn. by rewrite Hlen.
Qed.

(** ** Events and sweeps *)

Lemma client_ok_ready g o : client_ok g -> fd (cs g) <> -1 -> connecting (cs g) = false ->
  interest (net g) = Some (true, o) -> flush_ready g o /\ ((0 < len_ (write_buf (cs g)))%nat -> o = true).
Proof.
  intros (Hb & Hs & Hrest) Hfd Hc Hi. rewrite decide_False in Hrest by done.
  destruct Hrest as [H1 H2 H3 [(H4 & H5 & _)|(_ & o' & H5 & H6)]]; [congruence|].
  rewrite Hi in H5. injection H5 as <-. split; [by constructor|done].
Qed.

Lemma client_ok_connecting g : client_ok g -> fd (cs g) <> -1 -> connecting (cs g) = true ->
  acks_pending (cs g) = 0 /\ len_ (write_buf (cs g)) = 0%nat /\
  (registered (net_epoll (net g)) = None \/ registered (net_epoll (net g)) = Some (false, true)).
Proof.
  intros (Hb & Hs & Hrest) Hfd Hc. rewrite decide_False in Hrest by done.
  destruct Hrest as [H1 H2 H3 [(H4 & H5 & H6 & H7)|(H4 & _)]]; [done|congruence].
Qed.

Lemma client_ok_open_interest g : client_ok g -> fd (cs g) <> -1 -> connecting (cs g) = false ->
  exists o, interest (net g) = Some (true, o).
Proof.
  intros (_ & _ & Hrest) Hfd Hc. rewrite decide_False in Hrest by done.
  destruct Hrest as [_ _ _ [(_ & H5 & _)|(_ & o & H5 & _)]]; [congruence|by exists o].
Qed.

Lemma reconnect_client_ok g : client_ok g -> fd (cs g) <> -1 -> wp reconnect (fun _ g' => client_ok g' /\ same_config g g') g.
Proof.
  intros (Hb & Hs & _) Hfd. eapply wp_mono; [by apply reconnect_ok|]. by intros ? g' (H1 & _ & H2 & _).
Qed.

Lemma handleConnect_ok g : client_ok g -> fd (cs g) <> -1 -> connecting (cs g) = true ->
  wp handleConnect (fun _ g' => client_ok g' /\ same_config g g') g.
Proof.
  intros Hok Hfd Hc. destruct (client_ok_connecting g Hok Hfd Hc) as (Ha & Hw & _). pose proof Hok as (Hb & Hs & Hopen).
  rewrite decide_False in Hopen by done. destruct Hopen as [O1 O2 O3 _]. unfold handleConnect, sys_so_error. wp_steps.
  set (g1 := set_net _ g). destruct (negb _).
  { eapply wp_mono; [by apply (reconnect_ok g1)|]. by intros ? g' (H1 & _ & H2 & _). }
  unfold on_cs, epollMod, epoll_ctl. wp_steps. eapply wp_mono.
  - apply (buildBatch_ok _ false); [|cbn; lia]. constructor; cbn; try done. destruct Hb. by constructor.
  - intros ? g' [H1 H2 _]. by split.
Qed.

Lemma flush_client_ok g : client_ok g -> fd (cs g) <> -1 -> connecting (cs g) = false ->
  wp flushWrite (fun _ g' => (client_ok g' /\ same_config g g') /\ (fd (cs g') = -1 \/ connecting (cs g') = false)) g.
Proof.
  intros Hok Hfd Hc. destruct (client_ok_open_interest g Hok Hfd Hc) as [o Hi].
  destruct (client_ok_ready g o Hok Hfd Hc Hi) as [Hf Ho]. eapply wp_mono; [by apply (flushWrite_ok g o)|].
  intros ? g' [H1 H2 [H3|([[b Hb] _] & _)]]; (split; [done|]); [by left|right]. by rewrite Hb.
Qed.

Lemma read_client_event g : client_ok g -> fd (cs g) <> -1 -> connecting (cs g) = false ->
  wp handleReadable (fun _ g' => client_ok g' /\ same_config g g') g.
Proof.
  intros Hok Hfd Hc. destruct (client_ok_open_interest g Hok Hfd Hc) as [o Hi].
  destruct (client_ok_ready g o Hok Hfd Hc Hi) as [Hf Ho]. by apply (handleReadable_ok g o).
Qed.

Lemma handle_event_ok err out inp g : client_ok g -> fd (cs g) <> -1 -> (connecting (cs g) = true -> inp = false) ->
  wp (handle_event err out inp) (fun _ g' => client_ok g' /\ same_config g g') g.
Proof.
  intros Hok Hfd Hinp. unfold handle_event. destruct err; [by apply reconnect_client_ok|]. wp_steps. unfold get_cs.
  destruct (connecting (cs g)) eqn:Hc.
  - rewrite (Hinp eq_refl). apply wp_when; intros ->; wp_steps; rewrite ?Hc.
    + eapply wp_mono; [by apply handleConnect_ok|]. intros ? g' H. wp_steps. destruct (_ && _); [by wp_steps|].
      by apply wp_when; [|intros _].
    + by apply wp_when; [|intros _].
  - apply wp_when; intros ->; wp_steps; rewrite ?Hc.
    + eapply wp_mono; [by apply flush_client_ok|]. intros ? g' [[H1 H2] H3]. wp_steps. cbn [andb].
      destruct (Z.eqb_spec (fd (cs g')) (-1)); [by wp_steps|]. apply wp_when; intros _; [|done]. destruct H3 as [|H3]; [done|].
      eapply wp_mono; [by apply read_client_event|]. intros ? g2 [K1 K2]. split; [done|]. by apply (same_config_trans g g').
    + apply wp_when; intros _; [|done]. by apply read_client_event.
Qed.

Lemma sweep_reconnect_ok after g : client_ok g -> wp (sweep_reconnect after) (fun _ g' => client_ok g' /\ same_config g g') g.
Proof.
  intros Hok. unfold sweep_reconnect, get_cs. wp_steps.
  destruct ((fd (cs g) =? -1) && (reconnect_at_ns (cs g) <=? after)) eqn:E; [|by wp_steps].
  apply andb_true_iff in E as [E _]. apply Z.eqb_eq in E. wp_steps. eapply wp_mono; [by apply connectClient_ok|].
  intros ? g' (H1 & H2 & _). by wp_steps.
Qed.

Lemma sweep_batch_ok g : client_ok g -> wp sweep_batch (fun _ g' => client_ok g' /\ same_config g g') g.
Proof.
  intros H1. unfold sweep_batch. wp_steps. apply wp_when; [|done]. intros E. rewrite !andb_true_iff, !negb_true_iff in E.
  destruct E as ((((_ & E1) & E2) & _) & _). apply Z.eqb_neq in E1.
  destruct (client_ok_open_interest g H1 E1 E2) as [o Hi]. destruct (client_ok_ready g o H1 E1 E2 Hi) as [Hf Ho].
  eapply wp_mono; [by apply (buildBatch_ok g o)|]. by intros ? g2 [B1 B2 _].
Qed.

Lemma sweep_client_ok after g : client_ok g -> wp (sweep_client after) (fun _ g' => client_ok g' /\ same_config g g') g.
Proof.
  intros Hok. unfold sweep_client. wp_steps. eapply wp_mono; [by apply sweep_reconnect_ok|]. intros ? g1 [H1 H2].
  eapply wp_mono; [by apply sweep_batch_ok|]. intros ? g2 [B1 B2]. split; [done|]. by apply (same_config_trans g g1).
Qed.

(** ** Descriptors *)

(** What the client has opened and not closed is its current descriptor. *)
Definition balanced (g : Gen) : Prop :=
  net_opened (net g) = net_closed (net g) ++ (if decide (fd (cs g) = -1) then [] else [fd (cs g)]).

(** Epoll watches the current descriptor for what it was last asked to, unless the system
    has refused to; and nothing else. *)
Definition obeyed (i : option (bool * bool)) (e : Epoll) : Prop := is_Some i /\ (ctl_refused e = false -> registered e = i).

Definition followed (g : Gen) : Prop :=
  if decide (fd (cs g) = -1) then registered (net_epoll (net g)) = None else obeyed (interest (net g)) (net_epoll (net g)).

Definition balance : relation Gen := fun g g' => (balanced g -> balanced g') /\ (followed g -> followed g').
#[export] Instance balance_preorder : PreOrder balance.
Proof. split; [by intros g; split|]. intros g1 g2 g3 [] []. split; auto. Qed.

Definition descriptors (g : Gen) := (fd (cs g), net_opened (net g), net_closed (net g), interest (net g), net_epoll (net g)).

Lemma same_balance g g' : descriptors g' = descriptors g -> balance g g'.
Proof. intros E. injection E as E1 E2 E3 E4 E5. unfold balance, balanced, followed. by rewrite E1, E2, E3, E4, E5. Qed.

Ltac balance := unfold on_cs; preserves_with ltac:(try case_bool_decide; by apply same_balance).

Lemma now_ns_balance : preserves balance now_ns.
Proof. intros g a g' H. injection H as _ <-. by apply same_balance. Qed.
Lemma mod_obeyed i i' e : obeyed i e -> obeyed (Some i') (ctl_update CTL_MOD (Some i') e).
Proof.
  intros [[j ->] H]. split; [done|]. unfold ctl_update, ctl_result. cbn. destruct (default None (head (ctls e))); [by rewrite orb_true_r|].
  rewrite orb_false_r. intros Hc. by rewrite (H Hc).
Qed.
Lemma mod_unregistered i e : registered e = None -> registered (ctl_update CTL_MOD i e) = None.
Proof. intros E. unfold ctl_update, ctl_result. cbn. rewrite E. by destruct (default None (head (ctls e))). Qed.
Lemma epollMod_balance i : preserves balance (epollMod i).
Proof.
  apply preserves_modify. intros g. split; [done|]. unfold followed. cbn. destruct (decide _); [apply mod_unregistered|apply mod_obeyed].
Qed.
Lemma on_back_off_balance : preserves balance (on_cs back_off).
Proof. apply preserves_modify. intros g. apply same_balance. destruct (back_off_fields (cs g)) as [v E]. unfold descriptors. cbn. by rewrite E. Qed.
Lemma client_send_balance bytes : preserves balance (client_send bytes).
Proof. intros g a g' H. unfold client_send, mbind, M_bind, get in H. injection H as _ <-. by apply same_balance. Qed.
Lemma client_recv_balance k : preserves balance (client_recv k).
Proof. intros g a g' H. unfold client_recv, mbind, M_bind, get in H. destruct (recv_answer _ _). injection H as _ <-. by apply same_balance. Qed.
Lemma so_error_balance : preserves balance sys_so_error.
Proof. intros g a g' H. injection H as _ <-. by apply same_balance. Qed.
Lemma build_frame_balance cid oid dst : preserves balance (build_frame cid oid dst).
Proof. unfold build_frame, draw_roll, make_new, make_modify, draw_side, draw_type, limit_price, order_qty. balance. Qed.
#[export] Hint Resolve now_ns_balance epollMod_balance on_back_off_balance client_send_balance client_recv_balance so_error_balance
  build_frame_balance : frame.

(** Closing the current descriptor, and forgetting it. *)
Lemma hang_up_balance g f : fd (cs g) = f ->
  wlp (client_close f;; on_cs (set_fd (-1))) (fun _ g' => (net_opened (net g) = net_closed (net g) ++ [f] -> balanced g') /\ followed g') g.
Proof.
  intros Hf. apply wlp_bind, wlp_modify. unfold on_cs. apply wlp_modify. split; [|done]. unfold balanced. cbn. intros ->. by rewrite app_nil_r.
Qed.

Lemma reconnect_balance : preserves balance reconnect.
Proof.
  intros g u g' Hrun. revert u g' Hrun. change (wlp reconnect (fun _ g' => balance g g') g). unfold reconnect, get_cs.
  apply wlp_bind, wlp_gets. destruct (Z.eqb_spec (fd (cs g)) (-1)) as [E|E]; [by apply wlp_ret|].
  apply wlp_bind, wlp_modify. set (g1 := set_net _ g). pose proof (hang_up_balance g1 (fd (cs g)) eq_refl) as Hup.
  assert (Hopen : balanced g -> net_opened (net g1) = net_closed (net g1) ++ [fd (cs g)]) by (unfold balanced; by rewrite decide_False).
  clearbody g1. apply wlp_bind. intros [] g2 H2. apply wlp_bind. intros [] g3 H3.
  assert (Hg3 : balance g g3).
  { destruct (Hup tt g3) as [K1 K2]; [unfold mbind, M_bind; by rewrite H2|]. split; auto. }
  intros u g' Hrun. transitivity g3; [done|]. revert u g' Hrun.
  match goal with |- forall u g', ?m g3 = _ -> _ => assert (Hm : preserves balance m) by balance end. intros u g' Hrun. by apply Hm with u.
Qed.
#[export] Hint Resolve reconnect_balance : frame.

Lemma flush_more_balance u : preserves balance (flush_more u).
Proof. unfold flush_more, get_cs, client_errno. balance. Qed.
Lemma flushWrite_balance : preserves balance flushWrite.
Proof. unfold flushWrite, get_cs. pose proof flush_more_balance. balance. Qed.
Lemma build_request_balance : preserves balance build_request.
Proof. unfold build_request, get_cs. balance. Qed.
Lemma may_send_balance : preserves balance may_send.
Proof. unfold may_send. balance. Qed.
#[export] Hint Resolve flush_more_balance flushWrite_balance build_request_balance may_send_balance : frame.

Lemma buildBatch_balance : preserves balance buildBatch.
Proof. unfold buildBatch, get_cs. balance. Qed.
#[export] Hint Resolve buildBatch_balance : frame.

Lemma take_response_fd f c c' : take_response f c = Some c' -> fd c' = fd c.
Proof.
  unfold take_response, take_ack, take_error, take_match. cbv zeta.
  repeat case_match; intros [= <-]; try done; by repeat (case_match || case_bool_decide).
Qed.

Lemma drain_more_balance u : preserves balance (drain_more u).
Proof.
  intros g r g' Hrun. revert r g' Hrun. change (wlp (drain_more u) (fun _ g' => balance g g') g). unfold drain_more, get_cs. wlp_steps.
  case_bool_decide; [|by wlp_steps]. destruct (take_response _ _) as [c'|] eqn:E.
  - pose proof (take_response_fd _ _ _ E) as Hfd. unfold on_cs. wlp_steps. apply same_balance. unfold descriptors. cbn. by rewrite Hfd.
  - apply wlp_bind. intros [] g1 H1. wlp_steps. by apply (reconnect_balance g tt).
Qed.
#[export] Hint Resolve drain_more_balance : frame.

Lemma handleReadable_balance : preserves balance handleReadable.
Proof. unfold handleReadable, get_cs, client_errno. balance. Qed.
Lemma handleConnect_balance : preserves balance handleConnect.
Proof. unfold handleConnect. balance. Qed.
#[export] Hint Resolve handleReadable_balance handleConnect_balance : frame.

Lemma handle_event_balance err out inp : preserves balance (handle_event err out inp).
Proof. unfold handle_event, get_cs. balance. Qed.

Lemma add_obeyed i e : registered e = None -> obeyed (Some i) (ctl_update CTL_ADD (Some i) e).
Proof.
  intros E. split; [done|]. unfold ctl_update, ctl_result. cbn. rewrite E. destruct (default None (head (ctls e))); [by rewrite orb_true_r|done].
Qed.

(** A new descriptor that is not in epoll yet; [before] is what is assumed of the old ones. *)
Definition unregistered (before : Prop) (f : Z) (g : Gen) : Prop :=
  fd (cs g) = f /\ (before -> net_opened (net g) = net_closed (net g) ++ [f]) /\ registered (net_epoll (net g)) = None.

Lemma epollAdd_balance before f i g : f <> -1 -> unregistered before f g ->
  wlp (epollAdd i) (fun _ g' => (before -> balanced g') /\ followed g') g.
Proof.
  intros Hf (H1 & H2 & H3). apply wlp_modify. unfold balanced, followed. cbn. rewrite H1, !decide_False by done. split; [done|]. by apply add_obeyed.
Qed.

Lemma connectClient_balance g : fd (cs g) = -1 ->
  wlp connectClient (fun _ g' => (net_opened (net g) = net_closed (net g) -> balanced g') /\ followed g') g.
Proof.
  intros Hfd. set (before := net_opened (net g) = net_closed (net g)). unfold connectClient.
  apply wlp_bind. unfold sys_socket. wlp_steps. set (f := default (-1) (head (sockets (net g)))).
  destruct (Z.eqb_spec f (-1)) as [E|E].
  { wlp_steps. unfold balanced, followed. cbn. rewrite !decide_True, app_nil_r by done. by split. }
  apply wlp_bind, wlp_modify. match goal with |- wlp _ _ ?g1 => assert (Hg1 : unregistered before f g1) end.
  { split_and!; [done|cbn; by intros ->|done]. }
  match goal with |- wlp _ _ ?x => generalize dependent x end. intros g1 Hg1.
  apply wlp_bind. apply (wlp_mono _ (fun _ g2 => unregistered before f g2)); [unfold sys_connect; by wlp_steps|].
  intros rc g2 Hg2. assert (Hok : wlp (epollAdd (false, true);; mret true) (fun _ g' => (before -> balanced g') /\ followed g') g2).
  { apply wlp_bind. eapply wlp_mono; [by apply (epollAdd_balance before f)|]. intros ? g3 H3. by wlp_steps. }
  destruct rc as [e|]; [|exact Hok]. destruct (decide (e = EINPROGRESS)); [exact Hok|].
  destruct Hg2 as (Hf & Ho & _). pose proof (hang_up_balance g2 f Hf) as Hup.
  apply wlp_bind. intros [] g3 H3. apply wlp_bind. intros [] g4 H4. wlp_steps.
  destruct (Hup tt g4) as [K1 K2]; [unfold mbind, M_bind; by rewrite H3|]. split; auto.
Qed.

Lemma balanced_closed g : fd (cs g) = -1 -> balanced g -> net_opened (net g) = net_closed (net g).
Proof. intros Hfd H. unfold balanced in H. by rewrite decide_True, app_nil_r in H by done. Qed.

Lemma sweep_reconnect_balance after : preserves balance (sweep_reconnect after).
Proof.
  intros g u g' Hrun. revert u g' Hrun. change (wlp (sweep_reconnect after) (fun _ g' => balance g g') g). unfold sweep_reconnect, get_cs. wlp_steps.
  destruct (Z.eqb_spec (fd (cs g)) (-1)) as [E|E]; cbn [andb]; [|by wlp_steps]. destruct (_ <=? _); [|by wlp_steps].
  apply wlp_bind. eapply wlp_mono; [by apply connectClient_balance|]. intros ? g1 [H1 H2]. wlp_steps.
  split; [|done]. intros Hb. by apply H1, balanced_closed.
Qed.

Lemma sweep_batch_balance : preserves balance sweep_batch.
Proof. unfold sweep_batch. balance. Qed.

Lemma sweep_client_balance after : preserves balance (sweep_client after).
Proof. pose proof sweep_reconnect_balance. pose proof sweep_batch_balance. unfold sweep_client. balance. Qed.

Lemma act_balance a : preserves balance (act a).
Proof. pose proof handle_event_balance. pose proof sweep_client_balance. destruct a; cbn [act]; balance. Qed.

Lemma act_all_balance l : preserves balance (act_all l).
Proof. pose proof act_balance. induction l as [|a l IH]; cbn [act_all]; balance. Qed.

(** An event is reported for an open client, and while it connects only writability. *)
Definition reports_ok (g : Gen) : Prop := forall out inp, reported (registered (net_epoll (net g))) out inp = true ->
  fd (cs g) <> -1 /\ (connecting (cs g) = true -> inp = false).

Lemma followed_reports g : client_ok g -> followed g -> reports_ok g.
Proof.
  intros Hok Hb out inp Hrep. assert (Hfd : fd (cs g) <> -1).
  { intros E. unfold followed in Hb. rewrite decide_True in Hb by done. by rewrite Hb in Hrep. }
  split; [done|]. intros Hc. destruct (client_ok_connecting g Hok Hfd Hc) as (_ & _ & [E|E]); rewrite E in Hrep; [done|].
  by destruct out, inp.
Qed.

Lemma act_ok a g : client_ok g -> reports_ok g -> wp (act a) (fun _ g' => client_ok g' /\ same_config g g') g.
Proof.
  intros Hok Hb. destruct a as [err out inp|after]; cbn [act]; [|by apply sweep_client_ok]. wp_steps.
  destruct (reported _ _ _) eqn:E; [|by wp_steps]. destruct (Hb out inp E). by apply handle_event_ok.
Qed.

Lemma act_all_ok l g : client_ok g -> followed g -> wp (act_all l) (fun _ g' => client_ok g' /\ same_config g g') g.
Proof.
  revert g. induction l as [|a l IH]; intros g Hok Hb; cbn [act_all]; [by wp_steps|]. wp_steps.
  eapply wp_mono; [eapply wp_preserves; [apply act_balance|by apply act_ok; [|apply followed_reports]]|]. intros ? g1 ([_ Hb1] & H1 & S1).
  eapply wp_mono; [by apply IH; [|apply Hb1]|]. intros ? g2 [H2 S2]. split; [done|]. by apply (same_config_trans g g1).
Qed.

(** The destructor closes what is left. *)
Lemma destroy_balance g : balanced g -> wp client_destroy (fun _ g' => net_opened (net g') = net_closed (net g')) g.
Proof.
  intros Hg. unfold client_destroy, get_cs, epollDel, epoll_ctl, client_close, balanced in *. wp_steps.
  destruct (Z.eqb_spec (fd (cs g)) (-1)) as [E|E]; cbn [negb when].
  - wp_steps. by rewrite decide_True, app_nil_r in Hg by done.
  - wp_steps. cbn. by rewrite decide_False in Hg.
Qed.

Lemma client_init_ok id g : cs g = client_init id -> length (stack g) = INBOUND_BSIZE -> interest (net g) = None -> client_ok g.
Proof.
  intros E Hs Hi. split; [|split; [done|]]; rewrite E; [|by rewrite decide_True].
  by constructor; try (vm_compute; split; congruence).
Qed.

(** C20. Whatever the exchange and the operating system do to a client - any answers of
    [socket], [connect], [recv] and [send], any bytes received, any readiness events, in
    any order - its event loop neither faults nor runs on: every prefix of the run
    returns, with at most [PIPELINE_DEPTH] requests outstanding, [orders_in_flight] equal
    to them, as many pending types in the ring on an open connection, less than one frame
    left in the read buffer with room to receive more, and unsent bytes only while
    epoll was asked to watch writability; a closed connection has nothing outstanding and
    is not in epoll.  What was asked for ([interest]) is what epoll watches, unless the
    system has refused an [epoll_ctl] for the connection.  Every descriptor the client has opened is closed once, but for the current
    one, which the destructor closes. *)
Theorem client_pipeline id l g :
  cs g = client_init id -> length (stack g) = INBOUND_BSIZE -> interest (net g) = None -> net_opened (net g) = net_closed (net g) ->
  wp (run_client l) (fun _ g' =>
    let c := cs g' in
    0 <= acks_pending c <= PIPELINE_DEPTH /\ orders_in_flight c = acks_pending c /\ client_id c = id /\
    (if decide (fd c = -1) then acks_pending c = 0 /\ interest (net g') = None
    else u32 (pending_tail c - pending_head c) = acks_pending c /\
      (buf_length (read_buf c) < FRAME_SIZE)%nat /\ (0 < remaining_capacity (read_buf c))%nat /\
      (unsent (write_buf c) <> [] -> interest (net g') = Some (true, true)) /\
      (connecting c = true -> acks_pending c = 0 /\ interest (net g') = Some (false, true))) /\
    net_opened (net g') = net_closed (net g') ++ (if decide (fd c = -1) then [] else [fd c]) /\
    wp client_destroy (fun _ g'' => net_opened (net g'') = net_closed (net g'')) g' /\
    (ctl_refused (net_epoll (net g')) = false -> registered (net_epoll (net g')) = interest (net g'))) g.
Proof.
  intros E Hs Hi Ho. pose proof (client_init_ok id g E Hs Hi) as Hok. assert (Hfd : fd (cs g) = -1) by (by rewrite E).
  unfold run_client. apply wp_bind.
  eapply wp_mono; [apply wp_and_wlp; [by apply connectClient_ok|by apply connectClient_balance]|].
  intros ? g1 ((H1 & S1 & _) & B1 & F1). specialize (B1 Ho).
  eapply wp_mono; [eapply wp_preserves; [apply act_all_balance|by apply act_all_ok]|].
  intros ? g2 ([B2 B3] & H2 & S2). specialize (B2 B1). specialize (B3 F1). pose proof (destroy_balance g2 B2) as Hd.
  unfold balanced, followed in *.
  destruct (same_config_trans _ _ _ S1 S2) as (_ & _ & Hid). destruct H2 as ([] & _ & H2). cbv zeta.
  split; [done|]. split; [done|]. split; [by rewrite Hid, E|]. split; [|split; [done|]; split; [done|]].
  2: { destruct (decide (fd (cs g2) = -1)); [|apply B3]. destruct H2 as [_ H2]. by rewrite B3, H2. }
  clear B2 B3 Hd. destruct (decide (fd (cs g2) = -1)); [done|]. destruct H2 as [W R O I].
  split_and!; [done|apply R|by apply frames_room; apply R|..].
  - intros Hne. assert (Hlen : len_ (write_buf (cs g2)) <> 0%nat).
    { intros Hz. apply Hne. destruct W as [W _]. unfold unsent. by rewrite Hz. }
    destruct I as [(_ & _ & _ & I & _)|(_ & o & I & Hwatch)]; [done|]. rewrite I, Hwatch; [done|lia].
  - intros Hc. destruct I as [(I & _ & Ha & _)|(I & _)]; [done|congruence].
Qed.

Lemma client_pipeline_witness :
  (match run_client [Event false true false] sample_gen with
   | Ok (_, g') => (acks_pending (cs g'), fd (cs g')) | Err _ => (0, 0) end) = (PIPELINE_DEPTH, 9) /\
  wp (run_client [Event false true false]) (fun _ g' =>
    0 <= acks_pending (cs g') <= PIPELINE_DEPTH /\ orders_in_flight (cs g') = acks_pending (cs g')) sample_gen.
Proof.
  split; [vm_compute; reflexivity|]. eapply wp_mono.
  - apply (client_pipeline 7 [Event false true false] sample_gen); reflexivity.
  - intros ? g' (H1 & H2 & _). split; [exact H1|exact H2].
Defined.

(** * How long the loop sleeps *)

Lemma i64_small z : - 2 ^ 63 <= z < 2 ^ 63 -> i64 z = z.
Proof. intros H. unfold i64. rewrite Z.mod_small; lia. Qed.

Lemma i32_small z : - 2 ^ 31 <= z < 2 ^ 31 -> i32 z = z.
Proof. intros H. unfold i32. rewrite Z.mod_small; lia. Qed.

(** [min_deadline] is the least deadline, from any starting value. *)
Lemma min_deadline_from ia l m0 :
  let m := foldl (fun m c => match deadline ia c with Some d => Z.min m d | None => m end) m0 l in
  m <= m0 /\ (forall c d, c ∈ l -> deadline ia c = Some d -> m <= d) /\
  (m = m0 \/ exists c, c ∈ l /\ deadline ia c = Some m).
Proof.
  revert m0. induction l as [|c l IH]; intros m0; cbn [foldl].
  { cbv zeta. split_and!; [done| |by left]. intros c d Hc. by apply not_elem_of_nil in Hc. }
  set (m1 := match deadline ia c with Some d => Z.min m0 d | None => m0 end).
  destruct (IH m1) as (H1 & H2 & H3). split_and!.
  - destruct (deadline ia c); subst m1; lia.
  - intros c' d Hc Hd. apply elem_of_cons in Hc as [->|Hc]; [|by apply (H2 c' d)].
    subst m1. rewrite Hd in *. lia.
  - destruct H3 as [H3|(c' & Hc & Hd)]; [|right; exists c'; split; [by right|done]].
    rewrite H3. subst m1. destruct (deadline ia c) as [d|] eqn:Hd; [|by left].
    destruct (Z.min_spec m0 d) as [[_ ->]|[_ ->]]; [by left|right]. exists c. split; [by left|done].
Qed.

(** The exchange routes by client id: those of one generator are distinct and not 0. *)
Lemma generator_ids n : client_id <$> generator_clients n = seqZ 1 (Z.of_nat n).
Proof. unfold generator_clients. rewrite <- list_fmap_compose. apply list_fmap_id. Qed.

(** Times the program can meet: below 2^63 ns, deadlines within 2^31 ms. *)
Definition times_ok (ia now : Z) (l : list ClientState) : Prop :=
  0 <= now < 2 ^ 63 /\ forall c d, c ∈ l -> deadline ia c = Some d -> 0 <= d < 2 ^ 63 /\ d - now < 2 ^ 31 * 1000000.

(** The timeout, from the least deadline. *)
Lemma timeout_value ia now l : times_ok ia now l ->
  (timeout_ms ia now l = -1 /\ forall c, c ∈ l -> deadline ia c = None) \/
  exists c m, c ∈ l /\ deadline ia c = Some m /\ (forall c' d, c' ∈ l -> deadline ia c' = Some d -> m <= d) /\
    timeout_ms ia now l = if m - now <=? 0 then 0 else (m - now) / 1000000.
Proof.
  intros [Hnow Hd]. unfold timeout_ms. destruct (min_deadline_from ia l UINT64_MAX) as (H1 & H2 & H3).
  fold (min_deadline ia l) in *. set (m := min_deadline ia l) in *.
  destruct (Z.eqb_spec m UINT64_MAX) as [E|E]; cbn [negb].
  { left. split; [done|]. intros c Hc. destruct (deadline ia c) as [d|] eqn:Ed; [exfalso|done].
    specialize (H2 c d Hc Ed). destruct (Hd c d Hc Ed). unfold UINT64_MAX in *. lia. }
  right. destruct H3 as [|(c & Hc & Ed)]; [done|]. exists c, m. split_and!; try done. destruct (Hd c m Hc Ed) as [Hm1 Hm2].
  rewrite (i64_small m), (i64_small now), i64_small by lia. destruct (Z.leb_spec (m - now) 0); [done|].
  rewrite Z.quot_div_nonneg, i32_small; [done| |lia..].
  pose proof (Z.div_pos (m - now) 1000000). pose proof (Z.div_lt_upper_bound (m - now) 1000000 (2 ^ 31)). lia.
Qed.

(** C32. [run] never sleeps past a deadline, and never much too short: the timeout of
    [epoll_wait] is -1, for ever, exactly when no client is waiting for a reconnection or
    for its next send slot; otherwise it is 0 when a deadline has passed, and it ends
    within the millisecond before the first deadline when none has - for times below
    2^63 ns and deadlines within 2^31 ms. *)
Theorem timeout_respects_deadlines ia now l :
  0 <= now < 2 ^ 63 ->
  (forall c d, c ∈ l -> deadline ia c = Some d -> 0 <= d < 2 ^ 63 /\ d - now < 2 ^ 31 * 1000000) ->
  let t := timeout_ms ia now l in
  (t = -1 <-> forall c, c ∈ l -> deadline ia c = None) /\
  (t <> -1 ->
    0 <= t /\
    (forall c d, c ∈ l -> deadline ia c = Some d -> d <= now -> t = 0) /\
    (forall c d, c ∈ l -> deadline ia c = Some d -> now < d -> now + t * 1000000 <= d) /\
    exists c d, c ∈ l /\ deadline ia c = Some d /\ d < now + (t + 1) * 1000000).
Proof.
  intros Hnow Hd. cbv zeta. destruct (timeout_value ia now l (conj Hnow Hd)) as [[-> Hnone]|(c0 & m & Hc0 & Ed0 & Hmin & ->)]; [done|].
  assert (Hsome : ~ (forall c, c ∈ l -> deadline ia c = None)) by (intros H; by rewrite (H c0 Hc0) in Ed0).
  pose proof (Z.div_pos (m - now) 1000000). pose proof (Z.mul_div_le (m - now) 1000000). pose proof (Z.mul_succ_div_gt (m - now) 1000000).
  destruct (Z.leb_spec (m - now) 0); (split; [split; [lia|done]|]; intros _; split_and!; try lia).
  - exists c0, m. split_and!; try done. lia.
  - intros c d Hc Ed Hlt. specialize (Hmin c d Hc Ed). lia.
  - intros c d Hc Ed Hlt. specialize (Hmin c d Hc Ed). lia.
  - exists c0, m. split_and!; try done. lia.
Qed.

Lemma timeout_respects_deadlines_witness :
  timeout_ms 0 5000000 [set_fd 9 (client_init 1); set_reconnect_at_ns 8700000 (client_init 2)] = 3 /\
  timeout_ms 0 5000000 [set_fd 9 (client_init 1); set_reconnect_at_ns 8700000 (client_init 2)] <> -1.
Proof.
  split; [reflexivity|]. intros H.
  destruct (timeout_respects_deadlines 0 5000000 [set_fd 9 (client_init 1); set_reconnect_at_ns 8700000 (client_init 2)]) as [[Hnone _] _].
  - split; [discriminate|reflexivity].
  - intros c d Hc Hd. apply elem_of_cons in Hc as [->|Hc]; [discriminate Hd|].
    apply list_elem_of_singleton in Hc as ->. injection Hd as <-. split; [split; [discriminate|reflexivity]|reflexivity].
  - specialize (Hnone H (set_reconnect_at_ns 8700000 (client_init 2))). discriminate Hnone. right. left.
Defined.
