(* ===== verification/Pairing.v ===== *)
(** How the load generator pairs requests and responses: its ring of pending types is a
    queue, answers are paired with it by position alone, and a request that traded, which
    the exchange does not acknowledge, keeps its place in the pipeline for ever. *)

From S2P Require Import Prelude Types Ring Validation Protocol Buffer ServerState Gateway Client ClientProps.

Local Open Scope Z_scope.

(** * Pairing responses with requests *)

(** The ring of pending types as a queue, oldest first. *)
Definition pend (c : ClientState) : list MessageType :=
  (fun i => default NEW (pending_types c !! Z.to_nat ((pending_head c + i) mod PIPELINE_DEPTH))) <$> seqZ 0 (acks_pending c).

Definition oldest (c : ClientState) : MessageType :=
  default NEW (pending_types c !! Z.to_nat (pending_head c mod PIPELINE_DEPTH)).

Lemma pend_nil c : acks_pending c <= 0 -> pend c = [].
Proof. intros H. unfold pend. by rewrite seqZ_nil. Qed.

Lemma length_pend c : length (pend c) = Z.to_nat (acks_pending c).
Proof. unfold pend. by rewrite length_fmap, length_seqZ. Qed.

Lemma u32_pipe z i : (u32 z + i) mod PIPELINE_DEPTH = (z + i) mod PIPELINE_DEPTH.
Proof.
  unfold u32, PIPELINE_DEPTH. rewrite <- Zplus_mod_idemp_l.
  rewrite Z.mod_mod_divide by (by exists (2 ^ 27)). by rewrite Zplus_mod_idemp_l.
Qed.

(** Taking the oldest. *)
Lemma pend_pop c c' : 0 < acks_pending c -> pending_types c' = pending_types c ->
  pending_head c' = u32 (pending_head c + 1) -> acks_pending c' = acks_pending c - 1 -> pend c = oldest c :: pend c'.
Proof.
  intros Hpos E1 E2 E3. unfold pend. rewrite (seqZ_cons 0) by done. cbn [fmap list_fmap]. f_equal; [by rewrite Z.add_0_r|].
  rewrite E1, E2, E3. change (Z.succ 0) with (1 + 0). rewrite <- Z.sub_1_r, <- (fmap_add_seqZ 1), <- list_fmap_compose.
  apply list_fmap_ext. intros _ i _. cbn. rewrite u32_pipe, Z.add_assoc. done.
Qed.

Lemma pipe_tail c : u32 (pending_tail c - pending_head c) = acks_pending c ->
  pending_tail c mod PIPELINE_DEPTH = (pending_head c + acks_pending c) mod PIPELINE_DEPTH.
Proof.
  intros <-. rewrite Z.add_comm, u32_pipe. f_equal. lia.
Qed.

Lemma pipe_apart h a i : 0 <= i < a -> a < PIPELINE_DEPTH ->
  Z.to_nat ((h + a) mod PIPELINE_DEPTH) <> Z.to_nat ((h + i) mod PIPELINE_DEPTH).
Proof. unfold PIPELINE_DEPTH. intros H1 H2. Z.to_euclidean_division_equations. lia. Qed.

(** Recording one more. *)
Lemma pend_push c c' mt : length (pending_types c) = PIPE -> 0 <= acks_pending c < PIPELINE_DEPTH ->
  u32 (pending_tail c - pending_head c) = acks_pending c ->
  pending_types c' = <[Z.to_nat (pending_tail c mod PIPELINE_DEPTH) := mt]> (pending_types c) ->
  pending_head c' = pending_head c -> acks_pending c' = acks_pending c + 1 -> pend c' = pend c ++ [mt].
Proof.
  intros Hlen Ha Hring E1 E2 E3. unfold pend. rewrite E1, E2, E3, (pipe_tail c Hring), seqZ_app, fmap_app by lia. f_equal.
  - apply list_fmap_ext. intros k i Hi. apply lookup_seqZ in Hi as [-> Hi].
    rewrite list_lookup_insert_ne; [done|]. apply pipe_apart; lia.
  - rewrite (seqZ_cons _ 1), (seqZ_nil _ (Z.pred 1)), Z.add_0_l by lia. cbn [fmap list_fmap]. rewrite list_lookup_insert_eq; [done|].
    rewrite Hlen. unfold PIPE, PIPELINE_DEPTH. pose proof (Z.mod_pos_bound (pending_head c + acks_pending c) 32). lia.
Qed.

(** The order ids the client may target are 64-bit. *)
Definition targets_ok (c : ClientState) : Prop := Forall is_u64 (active_orders c).

Definition target (c : ClientState) : Z :=
  if 0 <? active_count c then default 0 (active_orders c !! Z.to_nat (active_read c mod MAX_ACTIVE_ORDERS)) else 0.

Lemma target_u64 c : targets_ok c -> is_u64 (target c).
Proof.
  intros H. assert (H0 : is_u64 0) by (split; lia). unfold target. destruct (0 <? _); [|done].
  destruct (_ !! _) as [x|] eqn:E; [|done]. by apply (Forall_lookup_1 _ _ _ _ H E).
Qed.

(** Building a request appends one whole frame to what is unsent and the type of the
    message the gateway will parse from that frame to the queue of pending types, so the
    queue lists, oldest first, the types of the requests on their way. *)
Theorem requests_recorded g :
  client_ok g -> fd (cs g) <> -1 -> connecting (cs g) = false -> is_u32 (client_id (cs g)) ->
  targets_ok (cs g) -> draws_ok (factory g) -> acks_pending (cs g) < PIPELINE_DEPTH ->
  has_room INBOUND_BSIZE (write_buf (cs g)) = true ->
  wp build_request (fun _ g' => exists frame msg,
    parse_request frame = Some msg /\ in_client_id msg = client_id (cs g) /\ length frame = INBOUND_BSIZE /\
    (in_message_type msg <> NEW -> in_order_id msg = target (cs g)) /\
    unsent (write_buf (cs g')) = unsent (write_buf (cs g)) ++ frame /\
    pend (cs g') = pend (cs g) ++ [in_message_type msg] /\
    requests_sent (cs g') = u64 (requests_sent (cs g) + 1)) g.
Proof.
  intros (Hb & Hs & Hopen) Hfd Hc Hid Ht Hd Hlt Hroom. rewrite decide_False in Hopen by done.
  destruct Hopen as [[W1 W2] _ Hring _]. unfold build_request, get_cs. wp_steps.
  eapply wp_mono; [by apply build_frame_ok; [|apply target_u64|..]|].
  intros [msg frame] g1 ((_ & _ & Hcid & Hkind) & Hl & Hp & f & _ & ->). cbn [fst snd] in *.
  destruct (append_ok frame (write_buf (cs g)) W1) as (b & Ea & _ & _ & _ & _ & A5); [by rewrite Hl|].
  unfold on_cs. wp_steps. cbn [cs set_factory write_buf]. rewrite Ea. cbn [snd].
  set (c1 := set_write_buf b (cs g)).
  assert (Hmod : exists v, (if bool_decide (in_message_type msg = CANCEL \/ in_message_type msg = MODIFY)
    then set_active_read (u32 (active_read c1 + 1)) c1 else c1) = set_active_read v c1).
  { case_bool_decide; [by eexists|]. by exists (active_read c1). }
  destruct Hmod as [v ->]. unfold c1. clear c1. exists frame, msg. split_and!; try done.
  - intros Hne. destruct Hkind as [|[_ ->]]; done.
  - apply (pend_push (cs g)); try done; [apply Hb|split; [apply Hb|done]|].
    cbn. apply u32_small. pose proof (cb_acks _ Hb). unfold is_u32, PIPELINE_DEPTH in *. lia.
Qed.

(** An open client with nothing outstanding, about to send its first batch. *)
Definition sample_open : Gen :=
  mkGen (set_fd 9 (client_init 7)) (factory sample_gen)
    (mkNet [] [] EAGAIN [] [] [] [] (Some (true, false)) [] [] [] (mkEpoll [] (Some (true, false)) false)) 0 (replicate INBOUND_BSIZE 255).

Lemma sample_open_ok : client_ok sample_open.
Proof.
  assert (Hb : forall n, buffer_ok (buffer_init n)) by (intros; constructor; cbn; lia).
  split; [constructor; try (vm_compute; split; congruence); done|]. split; [done|]. rewrite decide_False by done.
  constructor; [split; [apply Hb|done]| |done|].
  - split; [|cbn; unfold FRAME_SIZE, OUTBOUND_BSIZE; lia]. constructor; [apply Hb|done|by exists 0%nat|by right|done].
  - right. split; [done|]. exists false. split; [done|]. cbn. lia.
Qed.

Lemma requests_recorded_witness :
  wp build_request (fun _ g' => exists frame msg,
    parse_request frame = Some msg /\ unsent (write_buf (cs g')) = frame /\ pend (cs g') = [in_message_type msg]) sample_open.
Proof.
  eapply wp_mono.
  - apply (requests_recorded sample_open).
    + exact sample_open_ok.
    + discriminate.
    + reflexivity.
    + vm_compute. split; congruence.
    + repeat constructor; discriminate.
    + exact sample_draws.
    + reflexivity.
    + reflexivity.
  - intros ? g' (frame & msg & H1 & _ & _ & _ & H2 & H3 & _). exists frame, msg. split; [exact H1|]. split; [exact H2|exact H3].
Defined.

(** The pairing the client performs: the frames against the queue of pending types; it
    yields the rest of the queue and the order ids taken for new orders. *)
Fixpoint pair_up (ts : list MessageType) (fs : list (list Z)) : list MessageType * list Z :=
  match fs with
  | [] => (ts, [])
  | f :: fs =>
      if frame_type f =? char_O then
        match ts with
        | [] => pair_up [] fs
        | t :: ts => let r := pair_up ts fs in (r.1, if bool_decide (t = NEW) then ack_order_id f :: r.2 else r.2)
        end
      else if frame_type f =? char_E then pair_up (tail ts) fs
      else pair_up ts fs
  end.

Definition remember (a : Z * list Z) (oid : Z) : Z * list Z :=
  (u32 (a.1 + 1), <[Z.to_nat (a.1 mod MAX_ACTIVE_ORDERS) := oid]> a.2).

Definition active_ring (c : ClientState) : Z * list Z := (active_write c, active_orders c).

(** Every frame of a drain, in order. *)
Fixpoint take_responses (fs : list (list Z)) (c : ClientState) : option ClientState :=
  match fs with
  | [] => Some c
  | f :: fs => match take_response f c with Some c' => take_responses fs c' | None => None end
  end.

Lemma take_ack_pend f c : 0 < acks_pending c ->
  pend c = oldest c :: pend (take_ack f c) /\
  active_ring (take_ack f c) = (if bool_decide (oldest c = NEW) then remember (active_ring c) (ack_order_id f) else active_ring c) /\
  acks_pending (take_ack f c) = acks_pending c - 1.
Proof.
  intros Hpos. unfold take_ack. destruct (Z.ltb_spec 0 (acks_pending c)); [|lia]. change (default NEW _) with (oldest c).
  destruct (bool_decide (oldest c = NEW)); cbn; [|split; [by apply pend_pop|done]].
  destruct (active_count c <? MAX_ACTIVE_ORDERS); (split; [by apply pend_pop|done]).
Qed.

Lemma take_error_pend c : pend (take_error c) = tail (pend c) /\ active_ring (take_error c) = active_ring c.
Proof.
  unfold take_error. destruct (Z.ltb_spec 0 (acks_pending c)) as [Hpos|Hneg]; (split; [|done]).
  - symmetry. by erewrite pend_pop.
  - rewrite (pend_nil c) by done. by apply pend_nil.
Qed.

Lemma take_ack_idle f c : acks_pending c <= 0 -> take_ack f c = c.
Proof. intros H. unfold take_ack. destruct (Z.ltb_spec 0 (acks_pending c)); [lia|done]. Qed.

(** Pairing is by position alone: after any sequence of well-formed frames the client has
    taken each 'O' and 'E' frame, in order, for the answer to its oldest pending request,
    has kept the order id of every 'O' frame it paired with a NEW as an active order, and
    'M' frames took nothing. *)
Theorem acks_pair_in_order fs c c' : 0 <= acks_pending c -> take_responses fs c = Some c' ->
  pend c' = (pair_up (pend c) fs).1 /\
  active_ring c' = foldl remember (active_ring c) (pair_up (pend c) fs).2 /\
  acks_pending c' = Z.of_nat (length (pair_up (pend c) fs).1).
Proof.
  revert c. induction fs as [|f fs IH]; intros c Ha; cbn [take_responses pair_up].
  { intros [= <-]. cbn. rewrite length_pend. split_and!; [done|done|lia]. }
  unfold take_response. destruct (negb _); [done|]. destruct (frame_type f =? char_O).
  { destruct (Z.ltb_spec 0 (acks_pending c)) as [Hpos|Hneg].
    - destruct (take_ack_pend f c Hpos) as (E1 & E2 & E3). rewrite E1. intros H.
      destruct (IH (take_ack f c) ltac:(lia) H) as (H1 & H2 & H3). cbn [fst snd]. split_and!; [done| |done].
      rewrite H2, E2. by case_bool_decide.
    - rewrite take_ack_idle, (pend_nil c) by done. intros H. by rewrite <- (pend_nil c Hneg); apply IH. }
  destruct (Z.eqb_spec (frame_type f) char_M) as [EM|EM].
  { rewrite EM. cbn [Z.eqb char_M char_E Pos.eqb]. intros H. by destruct (IH (take_match c) Ha H). }
  destruct (frame_type f =? char_E); [|done]. destruct (take_error_pend c) as [E1 E2]. rewrite <- E1, <- E2. apply IH.
  unfold take_error. destruct (Z.ltb_spec 0 (acks_pending c)); cbn; lia.
Qed.

Definition bytes_frame (msg : OutboundMessage) : list Z := match response_frame msg with Ok f => f | Err _ => [] end.

(** A client that sent a NEW and then a CANCEL of its order 5. *)
Definition mispaired_client : ClientState :=
  set_acks_pending 2 (set_orders_in_flight 2 (set_pending_tail 2 (set_pending_types (NEW :: CANCEL :: replicate 30 NEW) (client_init 7)))).

Definition mispaired_frames : list (list Z) :=
  [bytes_frame (mkOutbound 0 0 0 0 0 6 7 MATCH SUCCESS NONE); bytes_frame (mkOutbound 0 0 0 0 0 5 7 CANCEL SUCCESS NONE)].

Lemma acks_pair_in_order_witness : exists c',
  take_responses mispaired_frames mispaired_client = Some c' /\ pend c' = [CANCEL] /\
  active_ring c' = foldl remember (0, replicate 32 0) [5].
Proof.
  eexists. split; [reflexivity|].
  match goal with |- pend ?c' = _ /\ _ =>
    destruct (acks_pair_in_order mispaired_frames mispaired_client c') as (H1 & H2 & _) end.
  - vm_compute. discriminate.
  - reflexivity.
  - split; [rewrite H1; vm_compute; reflexivity|rewrite H2; vm_compute; reflexivity].
Defined.

(** * A pipeline full of requests that traded *)

Lemma slice_app_l off n (f r : list Z) : (off + n <= length f)%nat -> slice off n (f ++ r) = slice off n f.
Proof.
  intros H. unfold slice. rewrite drop_app_le by lia. apply take_app_le. rewrite length_drop. lia.
Qed.

(** A frame is read from the front of the buffer. *)
Lemma take_response_front f r c : length f = FRAME_SIZE -> take_response (f ++ r) c = take_response f c.
Proof.
  intros Hl. unfold FRAME_SIZE, OUTBOUND_BSIZE in Hl.
  assert (Hid : ack_order_id (f ++ r) = ack_order_id f) by (unfold ack_order_id; by rewrite slice_app_l by lia).
  unfold take_response, take_ack, frame_has_header, frame_type. by rewrite Hid, slice_app_l, lookup_app_l by lia.
Qed.

Lemma take_response_read_buf f b c : take_response f (set_read_buf b c) = set_read_buf b <$> take_response f c.
Proof.
  unfold take_response, take_ack, take_error. cbn [acks_pending set_read_buf].
  destruct (negb _); [done|]. destruct (_ =? char_O).
  { destruct (0 <? acks_pending c); [|done]. cbn. destruct (bool_decide _); [|done]. cbn. by destruct (active_count c <? _). }
  destruct (_ =? char_M); [done|]. destruct (_ =? char_E); [|done]. by destruct (0 <? acks_pending c).
Qed.

Lemma take_response_buffer f c c' : take_response f c = Some c' -> read_buf c' = read_buf c.
Proof.
  intros H. pose proof (take_response_read_buf f (read_buf c) c) as E.
  replace (set_read_buf (read_buf c) c) with c in E by (by destruct c). rewrite H in E. cbn in E. injection E as ->. done.
Qed.

Lemma take_responses_read_buf fs b c : take_responses fs (set_read_buf b c) = set_read_buf b <$> take_responses fs c.
Proof.
  revert c. induction fs as [|f fs IH]; intros c; cbn [take_responses]; [done|].
  rewrite take_response_read_buf. destruct (take_response f c); [apply IH|done].
Qed.

(** The drain is the fold over the frames of the buffer; the rest of it stays. *)
Lemma drain_run fs rest fuel g c' : frames_ok (read_buf (cs g)) -> Forall (fun f => length f = FRAME_SIZE) fs ->
  (length rest < FRAME_SIZE)%nat -> pending (read_buf (cs g)) = concat fs ++ rest ->
  take_responses fs (cs g) = Some c' -> (length fs < fuel)%nat ->
  wp (loop fuel drain_more tt) (fun alive g' => alive = true /\ exists b, frames_ok b /\ pending b = rest /\
    g' = mkGen (set_read_buf b c') (factory g) (net g) (inter_arrival_ns_ g) (stack g)) g.
Proof.
  intros Hb Hfs Hrest. revert fuel g c' Hb. induction Hfs as [|f fs Hf Hfs IH]; intros fuel g c' Hb Hp Ht Hfuel;
    (destruct fuel as [|fuel]; [cbn in Hfuel; lia|]); cbn [loop]; unfold drain_more, get_cs; wp_steps;
    pose proof (length_pending _ (fr_buffer _ Hb)) as Hlen; rewrite Hp in Hlen.
  - cbn in Hlen, Ht. injection Ht as <-. rewrite bool_decide_eq_false_2 by lia. wp_steps. split; [done|].
    exists (read_buf (cs g)). split_and!; [done|done|]. destruct g as [c]. by destruct c.
  - cbn [concat] in Hp, Hlen. rewrite <- app_assoc in Hp. rewrite !length_app, Hf in Hlen. rewrite bool_decide_eq_true_2 by lia.
    cbn [take_responses] in Ht. change (buf_view ?b) with (pending b). rewrite Hp, take_response_front by done.
    destruct (take_response f (cs g)) as [c1|] eqn:E; [|done]. destruct (frames_advance _ Hb) as (V1 & V2 & V3); [lia|].
    unfold on_cs. wp_steps. rewrite (take_response_buffer _ _ _ E) in *. eapply wp_mono; [apply IH; cbn; [done| | |cbn in Hfuel; lia]|].
    + rewrite V3, Hp. by apply drop_app_length'.
    + by rewrite take_responses_read_buf, Ht.
    + intros alive g' (-> & b & B1 & B2 & ->). split; [done|]. exists b. done.
Qed.

(** The kernel delivers bytes or nothing, and never ends the connection. *)
Definition quiet (r : recv_result) : Prop :=
  match r with Received _ _ => True | Closed => False | RecvError e => e = EAGAIN end.

Definition match_frame (f : list Z) : Prop :=
  length f = FRAME_SIZE /\ frame_has_header f = true /\ frame_type f = char_M.

Definition to_come (g : Gen) : list Z := pending (read_buf (cs g)) ++ concat (received <$> net_recvs (net g)).

(** Everything sent, the pipeline full, and nothing but MATCH frames to come. *)
Record stalled (g : Gen) : Prop := {
  st_open : fd (cs g) <> -1 /\ connecting (cs g) = false;
  st_full : acks_pending (cs g) = PIPELINE_DEPTH;
  st_sent : len_ (write_buf (cs g)) = 0%nat;
  st_quiet : Forall quiet (net_recvs (net g));
  st_stream : exists fs rest, to_come g = concat fs ++ rest /\ Forall match_frame fs /\ (length rest < FRAME_SIZE)%nat
}.

(** No request leaves, and nothing is freed. *)
Definition nothing_sent (g g' : Gen) : Prop :=
  net_taken (net g') = net_taken (net g) /\ requests_sent (cs g') = requests_sent (cs g) /\
  acks_pending (cs g') = acks_pending (cs g) /\ fd (cs g') = fd (cs g).

Lemma wp_and {A} (m : CM A) P Q g : wp m P g -> wp m Q g -> wp m (fun a g' => P a g' /\ Q a g') g.
Proof. unfold wp. by destruct (m g) as [[a g']|]. Qed.

Lemma nothing_sent_trans g1 g2 g3 : nothing_sent g1 g2 -> nothing_sent g2 g3 -> nothing_sent g1 g3.
Proof. intros (A & B & C & D) (A' & B' & C' & D'). unfold nothing_sent. split_and!; congruence. Qed.

Lemma take_matches fs c : Forall match_frame fs -> exists v, take_responses fs c = Some (set_responses_match v c).
Proof.
  revert c. induction fs as [|f fs IH]; intros c Hfs; cbn [take_responses].
  { exists (responses_match c). by destruct c. }
  inversion Hfs as [|? ? (_ & Hh & Hm) Hfs']; subst. unfold take_response. rewrite Hh, Hm. cbn [negb Z.eqb char_M char_O Pos.eqb].
  destruct (IH (take_match c) Hfs') as [v ->]. by exists v.
Qed.

(** Cutting a stream of frames at any point. *)
Lemma frames_cut (P : list Z -> Prop) p q fs rest : p ++ q = concat fs ++ rest -> Forall (fun f => length f = FRAME_SIZE /\ P f) fs ->
  (length rest < FRAME_SIZE)%nat -> exists fs1 fs2 rest1, p = concat fs1 ++ rest1 /\ (length rest1 < FRAME_SIZE)%nat /\
    fs = fs1 ++ fs2 /\ rest1 ++ q = concat fs2 ++ rest.
Proof.
  intros E Hfs Hrest. revert p E. induction Hfs as [|f fs [Hf _] Hfs IH]; intros p E.
  - exists [], [], p. split_and!; try done. cbn in E. apply (f_equal length) in E. rewrite length_app in E. lia.
  - destruct (Nat.lt_ge_cases (length p) FRAME_SIZE) as [Hlt|Hge]; [by exists [], (f :: fs), p|].
    cbn [concat] in E. rewrite <- app_assoc in E.
    assert (Ep : f = take FRAME_SIZE p).
    { apply (f_equal (take FRAME_SIZE)) in E. by rewrite take_app_le, take_app_length' in E by done. }
    destruct (IH (drop FRAME_SIZE p)) as (fs1 & fs2 & rest1 & E1 & E2 & E3 & E4).
    { apply (f_equal (drop FRAME_SIZE)) in E. by rewrite drop_app_le, drop_app_length' in E by done. }
    exists (f :: fs1), fs2, rest1. split_and!; [|done|by rewrite E3|done].
    cbn [concat]. rewrite <- app_assoc, <- E1, Ep. by rewrite take_drop.
Qed.

Lemma recv_answer_quiet n l r rest : Forall quiet l -> (0 < n)%nat -> recv_answer n l = (r, rest) -> quiet r /\ Forall quiet rest.
Proof.
  intros H Hn. destruct l as [|[x l| |e] answers]; cbn; [by intros [= <- <-]|..]; inversion H; subst.
  - destruct n as [|n]; [lia|]. intros [= <- <-]. split; [done|]. destruct (drop n l); [done|]. by constructor.
  - done.
  - by intros [= <- <-].
Qed.

Lemma may_send_full g : acks_pending (cs g) = PIPELINE_DEPTH -> inter_arrival_ns_ g <= 0 ->
  buildBatch g = Ok (tt, g).
Proof.
  intros Ha Hi. unfold buildBatch, may_send, mbind, M_bind, get. rewrite (proj2 (Z.ltb_ge _ _)), Ha by done.
  by case_bool_decide.
Qed.

Lemma flush_nothing g : len_ (write_buf (cs g)) = 0%nat ->
  wp flushWrite (fun _ g' => nothing_sent g g' /\ len_ (write_buf (cs g')) = 0%nat /\ read_buf (cs g') = read_buf (cs g) /\
    connecting (cs g') = connecting (cs g) /\ net g' = net g) g.
Proof.
  intros Hl. unfold flushWrite, get_cs. wp_steps. assert (E : remaining_to_send (write_buf (cs g)) = 0%nat) by (unfold remaining_to_send; lia).
  rewrite E. cbn [loop]. unfold flush_more, get_cs. wp_steps. rewrite E. wp_steps. unfold on_cs. wp_steps.
  split; [done|]. split; [|done]. cbn. unfold try_reset. by case_decide.
Qed.

Lemma stalled_same g g' : stalled g -> nothing_sent g g' -> len_ (write_buf (cs g')) = 0%nat -> read_buf (cs g') = read_buf (cs g) ->
  connecting (cs g') = connecting (cs g) -> net_recvs (net g') = net_recvs (net g) -> stalled g'.
Proof.
  intros [[S1 S2] S3 S4 S5 S6] (_ & _ & N1 & N2) E1 E2 E3 E4. constructor; [|congruence|done|by rewrite E4|].
  - split; congruence.
  - unfold to_come. by rewrite E2, E4.
Qed.

Lemma read_stalled g : client_ok g -> inter_arrival_ns_ g <= 0 -> stalled g ->
  wp handleReadable (fun _ g' => stalled g' /\ nothing_sent g g') g.
Proof.
  intros Hok Hmode [[S1 S2] S3 S4 S5 (fs & rest & S6 & S7 & S8)]. destruct (client_ok_open_interest g Hok S1 S2) as [o Hi].
  destruct (client_ok_ready g o Hok S1 S2 Hi) as [Hf _]. pose proof (fl_read _ _ Hf) as [Hfr Hl].
  pose proof (frames_room _ Hfr Hl) as Hroom. unfold handleReadable, get_cs. wp_steps.
  assert (Hcomp : compact (read_buf (cs g)) = read_buf (cs g)).
  { unfold compact, remaining_capacity in *. rewrite decide_False; [done|lia]. }
  unfold client_recv. wp_steps. rewrite Hcomp. destruct (recv_answer _ _) as [r rst] eqn:E.
  destruct (recv_answer_ok _ _ _ _ E) as [R1 R2]. destruct (recv_answer_quiet _ _ _ _ S5 Hroom E) as [R3 R4]. wp_steps.
  destruct (read_client_ok r (read_buf (cs g)) Hfr Hl) as (n & b & Hread & Hb & Hpend & Hn).
  { unfold recv_fits. rewrite Hcomp. by destruct r. }
  rewrite Hread. unfold of_res. apply (wp_intro _ _ _ (n, b) _ eq_refl). cbn [fst snd]. unfold on_cs. wp_steps.
  unfold to_come in S6. rewrite R1, app_assoc, <- Hpend in S6.
  destruct r as [x l| |e]; [|done|].
  - destruct (Z.eqb_spec n 0); [lia|]. destruct (Z.ltb_spec n 0); [lia|]. wp_steps.
    destruct (frames_cut _ _ _ _ _ S6 S7 S8) as (fs1 & fs2 & rest1 & C1 & C2 & -> & C4). apply Forall_app in S7 as [F1 F2].
    destruct (take_matches fs1 (set_read_buf b (cs g)) F1) as [v Hv].
    eapply wp_mono; [apply (drain_run fs1 rest1); cbn; [done|by eapply Forall_impl; [exact F1|intros ? []]|done|done|exact Hv|]|].
    { rewrite <- (length_pending b), C1 by apply Hb. rewrite length_app. apply Nat.lt_succ_r.
      clear -F1. induction F1 as [|f fs [Hf _] _ IH]; cbn [concat length]; [lia|]. rewrite length_app, Hf. unfold FRAME_SIZE, OUTBOUND_BSIZE. lia. }
    intros alive g1 (-> & b1 & B1 & B2 & ->). eapply wp_intro; [by apply may_send_full|]. split; [|done].
    constructor; cbn; try done. exists fs2, rest. unfold to_come. cbn. by rewrite B2.
  - cbn in R3. subst e n. cbn [Z.eqb Z.ltb Z.compare]. unfold client_errno. wp_steps. cbn [net net_errno].
    split; [|done]. constructor; cbn; try done. by exists fs, rest.
Qed.

Definition no_error (a : action) : Prop := match a with Event err _ _ => err = false | Sweep _ => True end.

Lemma act_stalled a g : client_ok g -> inter_arrival_ns_ g <= 0 -> no_error a -> stalled g ->
  wp (act a) (fun _ g' => stalled g' /\ nothing_sent g g') g.
Proof.
  intros Hok Hmode Ha Hst. destruct (st_open g Hst) as [Hfd Hc]. destruct a as [err out inp|after]; cbn [act no_error] in *.
  - wp_steps. destruct (reported _ _ _) eqn:Hrep; [|by wp_steps]. subst err. unfold handle_event, get_cs. wp_steps.
    assert (Hflush : wp flushWrite (fun _ g' => (client_ok g' /\ same_config g g') /\ stalled g' /\ nothing_sent g g') g).
    { apply wp_and.
      - eapply wp_mono; [by apply flush_client_ok|]. by intros ? g' [H _].
      - eapply wp_mono; [by apply flush_nothing, st_sent|]. intros ? g' (N & L & B & C & E). split; [|done].
        apply (stalled_same g); try done. by rewrite E. }
    apply wp_when; intros ->; wp_steps; rewrite ?Hc.
    + eapply wp_mono; [exact Hflush|]. intros ? g1 ((K1 & K2) & K3 & K4). wp_steps.
      destruct (true && _); [by wp_steps|]. apply wp_when; intros _; [|done].
      eapply wp_mono; [apply (read_stalled g1); [done|by destruct K2 as (-> & _)|done]|].
      intros ? g2 [L1 L2]. split; [done|]. by apply (nothing_sent_trans g g1).
    + apply wp_when; intros _; [|done]. by apply read_stalled.
  - unfold sweep_client, sweep_reconnect, sweep_batch, get_cs. wp_steps. rewrite (proj2 (Z.eqb_neq _ _) Hfd). cbn [andb]. wp_steps.
    rewrite (proj2 (Z.ltb_ge _ _) Hmode). cbn [andb when]. by wp_steps.
Qed.

(** C30. Requests that trade hold their pipeline slots for ever.  The exchange answers an
    order that traded with MATCH frames and no acknowledgement; once all [PIPELINE_DEPTH]
    outstanding requests of a client in unlimited mode are such orders, then whatever
    MATCH frames arrive, however they are cut, and for every sequence of events without
    an error on the socket, the client stays connected and never sends a request again. *)
Theorem matched_requests_stall l g :
  client_ok g -> inter_arrival_ns_ g <= 0 -> stalled g -> Forall no_error l ->
  wp (act_all l) (fun _ g' => fd (cs g') = fd (cs g) /\ acks_pending (cs g') = PIPELINE_DEPTH /\
    net_taken (net g') = net_taken (net g) /\ requests_sent (cs g') = requests_sent (cs g)) g.
Proof.
  intros Hok Hmode Hst Hl. apply (wp_mono _ (fun _ g' => stalled g' /\ nothing_sent g g')).
  2: { intros ? g' [K (N1 & N2 & N3 & N4)]. split_and!; [done|apply K|done|done]. }
  revert g Hok Hmode Hst. induction Hl as [|a l Ha Hl IH]; intros g Hok Hmode Hst; cbn [act_all]; [by wp_steps|]. wp_steps.
  assert (Hrep : reports_ok g) by (destruct (st_open g Hst) as [Hfd Hc]; intros out inp _; split; [done|congruence]).
  eapply wp_mono; [apply wp_and; [by apply act_ok|by apply act_stalled]|]. intros ? g1 ((K1 & K2) & K3 & K4).
  eapply wp_mono; [apply IH; [done|by destruct K2 as (-> & _)|done]|]. intros ? g2 [L1 L2].
  split; [done|]. by apply (nothing_sent_trans g g1).
Qed.

Definition full_client : ClientState :=
  set_acks_pending 32 (set_orders_in_flight 32 (set_pending_tail 32 (set_fd 9 (client_init 7)))).

Definition match_bytes : list Z := bytes_frame (mkOutbound 0 0 0 0 0 6 7 MATCH SUCCESS NONE).

Definition sample_stalled : Gen :=
  mkGen full_client (factory sample_gen)
    (mkNet [Received 69 (tail match_bytes)] [] EAGAIN [] [] [] [] (Some (true, false)) [] [] [] (mkEpoll [] (Some (true, false)) false)) 0 (replicate INBOUND_BSIZE 255).

Lemma sample_stalled_ok : client_ok sample_stalled.
Proof.
  assert (Hb : forall n, buffer_ok (buffer_init n)) by (intros; constructor; cbn; lia).
  split; [constructor; try (vm_compute; split; congruence); done|]. split; [done|]. rewrite decide_False by done.
  constructor; [split; [apply Hb|done]| |done|].
  - split; [|cbn; unfold FRAME_SIZE, OUTBOUND_BSIZE; lia]. constructor; [apply Hb|done|by exists 0%nat|by right|done].
  - right. split; [done|]. exists false. split; [done|]. cbn. lia.
Qed.

Lemma sample_stalled_stalled : stalled sample_stalled.
Proof.
  constructor; [done|done|done|by repeat constructor|]. exists [match_bytes], [].
  split; [reflexivity|]. split; [by repeat constructor|unfold FRAME_SIZE, OUTBOUND_BSIZE; cbn; lia].
Qed.

Lemma matched_requests_stall_witness :
  wp (act_all [Event false false true; Sweep 0; Event false false true]) (fun _ g' =>
    acks_pending (cs g') = PIPELINE_DEPTH /\ net_taken (net g') = []) sample_stalled.
Proof.
  eapply wp_mono.
  - apply (matched_requests_stall _ sample_stalled).
    + exact sample_stalled_ok.
    + vm_compute. discriminate.
    + exact sample_stalled_stalled.
    + repeat constructor.
  - intros ? g' (_ & H1 & H2 & _). split; [exact H1|exact H2].
Defined.
