(* ===== verification/Stream.v ===== *)
(** What a client of [client/src/load_generator.cpp] puts on the wire, seen by the gateway
    of [exchange/server/src/server.cpp]: over a whole run of the event loop, with
    reconnections and partial sends, the bytes of a connection are whole frames, and the
    gateway takes every one of them for a valid request of that client. *)

From S2P Require Import Prelude Types Ring Validation Protocol Buffer ServerState Gateway Frame Exchange Client ClientProps Pairing.

Local Open Scope Z_scope.

(** * Streams of requests *)

(** A frame the gateway passes on as a request of client [cid], whenever it reads it. *)
Definition request_frame (cid : Z) (f : list Z) : Prop :=
  length f = INBOUND_BSIZE /\ exists m, in_client_id m = cid /\ forall t, classify t f = inr (stamped t m).

Definition request_frames (cid : Z) (l : list Z) : Prop := exists fs, l = concat fs /\ Forall (request_frame cid) fs.

Lemma request_frames_nil cid : request_frames cid [].
Proof. by exists []. Qed.

Lemma request_frames_snoc cid l f : request_frames cid l -> request_frame cid f -> request_frames cid (l ++ f).
Proof.
  intros (fs & -> & Hfs) Hf. exists (fs ++ [f]). rewrite concat_app. cbn [concat]. rewrite app_nil_r.
  split; [done|]. apply Forall_app. split; [done|by constructor].
Qed.

(** The frames the gateway cuts from any prefix. *)
Lemma frames_prefix cid l p : request_frames cid l -> p `prefix_of` l -> Forall (request_frame cid) (frames p).
Proof.
  intros (fs & -> & Hfs) [q Hq]. revert p q Hq. induction Hfs as [|f fs Hf _ IH]; intros p q Hq; cbn [concat] in Hq.
  { symmetry in Hq. apply app_eq_nil in Hq as [-> _]. constructor. }
  pose proof (proj1 Hf) as Hlen. destruct (decide (length p < INBOUND_BSIZE)%nat) as [Hlt|Hge].
  { destruct (frames_short p Hlt) as [-> _]. constructor. }
  destruct (frames_cons p) as [-> _]; [lia|].
  assert (Ep : take INBOUND_BSIZE p = f).
  { apply (f_equal (take INBOUND_BSIZE)) in Hq. rewrite (take_app_le p) in Hq by lia. rewrite <- Hq. by apply take_app_length'. }
  rewrite Ep. constructor; [done|]. apply (IH _ q).
  apply (f_equal (drop INBOUND_BSIZE)) in Hq. rewrite (drop_app_le p) in Hq by lia. rewrite <- Hq. symmetry. by apply drop_app_length'.
Qed.

Lemma length_frames l : length (frames l) = (length l / INBOUND_BSIZE)%nat.
Proof.
  unfold frames. fold (frame_count l). generalize (frame_count l). intros n. revert l.
  induction n as [|n IH]; intros l; [done|]. cbn [cut length]. by rewrite IH.
Qed.

(** What the gateway makes of them. *)
Lemma frames_accepted cid fs fd ts : Forall (request_frame cid) fs -> length ts = length fs ->
  refusals fd (zip ts fs) = [] /\ length (requests (zip ts fs)) = length fs /\
  Forall (fun m => in_client_id m = cid) (requests (zip ts fs)).
Proof.
  intros Hfs. revert ts. induction Hfs as [|f fs (_ & m & Hm & Hc) _ IH]; intros [|t ts] Hl; try done.
  injection Hl as Hl. destruct (IH ts Hl) as (H1 & H2 & H3). unfold refusals, requests in *. cbn [zip zip_with omap list_omap fst snd].
  rewrite Hc. split_and!; [done|cbn [length]; by rewrite H2|by constructor].
Qed.

(** * The invariant of a sending client *)

Definition incoming_bytes (g : Gen) : list Z := concat (received <$> net_recvs (net g)).

Record sending (g : Gen) : Prop := {
  sn_stack : length (stack g) = INBOUND_BSIZE;
  sn_id : is_u32 (client_id (cs g));
  sn_draws : draws_ok (factory g);
  sn_targets : targets_ok (cs g);
  sn_bytes : Forall is_u8 (data_ (read_buf (cs g))) /\ Forall is_u8 (incoming_bytes g);
  sn_write : buffer_ok (write_buf (cs g)) /\ read_off_ (write_buf (cs g)) = 0%nat;
  sn_stream : fd (cs g) <> -1 -> request_frames (client_id (cs g)) (request_stream g)
}.

Lemma sending_on_cs f : (forall g, sending g -> sending (mkGen (f (cs g)) (factory g) (net g) (inter_arrival_ns_ g) (stack g))) ->
  keeps sending (on_cs f).
Proof. intros Hf g Hg. unfold on_cs. apply wlp_modify. by apply Hf. Qed.

(** Handlers by their structure; single assignments by the fields they leave. *)
Ltac sending := keeps_with ltac:(apply sending_on_cs; intros ? []; try case_bool_decide; by constructor).
(** The next assignment to the client's state. *)
Ltac assigns := apply wlp_bind; unfold on_cs at 1; apply wlp_modify; cbn beta.

(** ** Small steps *)

Lemma sending_net g n : sending g -> net_recvs n = net_recvs (net g) -> net_taken n = net_taken (net g) -> sending (set_net n g).
Proof.
  intros [H1 H2 H3 H4 H5 H6 H7] E1 E2. constructor; try done.
  - unfold incoming_bytes. cbn. by rewrite E1.
  - unfold request_stream. cbn. by rewrite E2.
Qed.

Lemma now_ns_sending : keeps sending now_ns.
Proof. intros g Hg. unfold now_ns. wlp_steps. by apply sending_net. Qed.
Lemma epoll_ctl_sending op i : keeps sending (epoll_ctl op i).
Proof. intros g Hg. unfold epoll_ctl. wlp_steps. by apply sending_net. Qed.
Lemma epollMod_sending i : keeps sending (epollMod i).
Proof. apply epoll_ctl_sending. Qed.
Lemma epollAdd_sending i : keeps sending (epollAdd i).
Proof. apply epoll_ctl_sending. Qed.
Lemma epollDel_sending : keeps sending epollDel.
Proof. apply epoll_ctl_sending. Qed.
Lemma so_error_sending : keeps sending sys_so_error.
Proof. intros g Hg. unfold sys_so_error. wlp_steps. by apply sending_net. Qed.
Lemma client_close_sending f : keeps sending (client_close f).
Proof. intros g Hg. unfold client_close. wlp_steps. by apply sending_net. Qed.
#[export] Hint Resolve now_ns_sending epollMod_sending epollAdd_sending epollDel_sending so_error_sending client_close_sending : frame.

(** Giving a connection up ends its stream. *)
Lemma close_sending : keeps sending (on_cs (set_fd (-1))).
Proof. apply sending_on_cs. intros g []. by constructor. Qed.
Lemma back_off_sending : keeps sending (on_cs back_off).
Proof.
  apply sending_on_cs. intros g []. destruct (back_off_fields (cs g)) as [v ->]. by constructor.
Qed.
#[export] Hint Resolve close_sending back_off_sending : frame.

Lemma reconnect_sending : keeps sending reconnect.
Proof. unfold reconnect, get_cs. sending. Qed.
#[export] Hint Resolve reconnect_sending : frame.

(** ** Connecting *)

Lemma connectClient_sending g : sending g -> fd (cs g) = -1 -> wlp connectClient (fun _ g' => sending g') g.
Proof.
  intros [H1 H2 H3 H4 [H5 H5'] [H6 H6'] H7] Hfd. unfold connectClient, sys_socket. wlp_steps.
  destruct (Z.eqb_spec (default (-1) (head (sockets (net g)))) (-1)) as [E|E]; [wlp_steps; by constructor|].
  wlp_steps. match goal with |- wlp (on_cs ?f) _ ?g0 => set (g1 := mkGen (f (cs g0)) (factory g0) (net g0) (inter_arrival_ns_ g0) (stack g0)) end.
  assert (Hg1 : sending g1).
  { constructor; try done; [by split; [constructor; cbn; lia|]|]. intros _. apply request_frames_nil. }
  unfold on_cs at 1. wlp_steps. fold g1. clearbody g1. revert g1 Hg1. unfold sys_connect.
  intros g1 Hg1. wlp_steps. match goal with |- wlp ?m _ ?g2 => assert (Hg2 : sending g2) by (by apply sending_net); assert (Hm : keeps sending m) by sending end.
  by apply Hm.
Qed.

(** ** Sending *)

Lemma client_send_recvs bytes : preserves (same (fun g => (net_recvs (net g), client_id (cs g)))) (client_send bytes).
Proof. intros g r g' H. unfold client_send, mbind, M_bind, get in H. by injection H as _ <-. Qed.

Lemma flush_more_sending u : keeps sending (flush_more u).
Proof.
  intros g Hg. pose proof Hg as [H1 H2 H3 H4 H5 [H6 H6'] H7]. unfold flush_more, get_cs. wlp_steps.
  case_bool_decide as Hrem; [|by wlp_steps]. wlp_steps.
  eapply wlp_mono; [apply wp_wlp; eapply wp_preserves; [apply client_send_recvs|apply client_send_ok]|].
  intros r g1 (R & Hn & E1 & E2 & E3 & E4 & E5 & E6). injection R as R1 _. pose proof (length_unsent _ H6) as Hlen.
  assert (Hfit : send_fits r (write_buf (cs g))) by (destruct r; [unfold send_fits; rewrite <- Hlen; exact Hn|done]).
  destruct (write_to_ok r (write_buf (cs g)) H6 Hfit) as (W1 & W2 & W3 & W4).
  assert (W5 : read_off_ (write_to r (write_buf (cs g))).2 = 0%nat) by (destruct r; done).
  destruct (write_to r (write_buf (cs g))) as [n b]. cbn [snd] in *. apply wlp_bind. unfold on_cs. wlp_steps.
  match goal with |- wlp ?m _ ?g2 => assert (Hm : keeps sending m) by (unfold client_errno; sending); apply Hm end.
  constructor; cbn; rewrite ?E1, ?E2, ?E3; try done.
  - unfold incoming_bytes in *. cbn. rewrite R1. done.
  - intros Hfd. specialize (H7 Hfd). unfold request_stream in *. cbn. rewrite E6, <- app_assoc.
    assert (take (sent_count r) (unsent (write_buf (cs g))) ++ unsent b = unsent (write_buf (cs g))) as -> by (rewrite W4 at 2; by destruct r).
    exact H7.
Qed.
#[export] Hint Resolve flush_more_sending : frame.

Lemma try_reset_sending : keeps sending (on_cs (fun c => set_write_buf (try_reset (write_buf c)) c)).
Proof.
  apply sending_on_cs. intros g [H1 H2 H3 H4 H5 [H6 H6'] H7]. destruct (try_reset_ok _ H6 H6') as (B1 & B2 & _).
  constructor; cbn; try done.
  - split; [done|]. unfold try_reset. by case_decide.
  - unfold request_stream. cbn. by rewrite B2.
Qed.
#[export] Hint Resolve try_reset_sending : frame.

Lemma flushWrite_sending : keeps sending flushWrite.
Proof. unfold flushWrite, get_cs. sending. Qed.
#[export] Hint Resolve flushWrite_sending : frame.

(** ** Building requests *)

Lemma built_request cid oid m f : request_good cid oid m -> length f = INBOUND_BSIZE -> parse_request f = Some m -> request_frame cid f.
Proof.
  intros (Hv & _ & Hc & _) Hl Hp. split; [done|]. exists m. split; [done|]. intros t. unfold classify. rewrite Hp.
  change (validate_message (mkInbound t _ _ _ _ _ _ _ _ _)) with (validate_message m). by rewrite Hv.
Qed.

Lemma build_request_sending : keeps sending build_request.
Proof.
  intros g Hg. pose proof Hg as [H1 H2 H3 H4 H5 [H6 H6'] H7]. unfold build_request, get_cs. wlp_steps.
  eapply wlp_mono; [apply wp_wlp; by apply build_frame_ok; [|apply target_u64|..]|].
  intros [msg frame] g1 (Hm & Hl & Hp & f & Hf & ->). cbn [fst snd] in *. pose proof (built_request _ _ _ _ Hm Hl Hp) as Hreq.
  assigns.
  match goal with |- wlp ?m _ ?g2 => assert (Hk : keeps sending m) by sending; apply Hk end.
  cbn [cs set_factory write_buf factory net inter_arrival_ns_ stack]. destruct (has_room (length frame) (write_buf (cs g))) eqn:Hroom.
  - destruct (append_ok frame (write_buf (cs g)) H6 Hroom) as (b & Ea & A1 & _ & _ & _ & A5).
    assert (Hoff : read_off_ b = 0%nat) by (unfold append in Ea; rewrite Hroom in Ea; by injection Ea as <-).
    rewrite Ea. constructor; cbn; try done. intros Hfd. unfold request_stream. cbn. rewrite A5, app_assoc.
    by apply request_frames_snoc; [apply H7|].
  - unfold append. rewrite Hroom. by constructor.
Qed.
#[export] Hint Resolve build_request_sending : frame.

Lemma may_send_sending g : sending g -> wlp may_send (fun ok g' => sending g' /\ (ok = true -> len_ (write_buf (cs g')) = 0%nat)) g.
Proof.
  intros Hg. pose proof (sn_write _ Hg) as [_ Hr]. unfold may_send. wlp_steps. case_bool_decide as Hb; [by wlp_steps|].
  assert (Hl : len_ (write_buf (cs g)) = 0%nat) by (unfold buf_length in Hb; lia).
  destruct (0 <? _); [|by wlp_steps]. destruct (_ <=? _); [by wlp_steps|]. unfold now_ns. wlp_steps.
  split; [by apply sending_net|by intros _].
Qed.

(** Nothing is lost when the write buffer is cleared for a new batch. *)
Lemma clear_sending g : sending g -> len_ (write_buf (cs g)) = 0%nat ->
  sending (mkGen (set_write_buf (clear (write_buf (cs g))) (cs g)) (factory g) (net g) (inter_arrival_ns_ g) (stack g)).
Proof.
  intros [H1 H2 H3 H4 H5 [H6 H6'] H7] Hl. constructor; cbn; try done.
  - split; [constructor; cbn; lia|done].
  - assert (E : unsent (write_buf (cs g)) = unsent (clear (write_buf (cs g)))) by (unfold unsent; by rewrite Hl).
    intros Hfd. specialize (H7 Hfd). unfold request_stream in *. rewrite E in H7. exact H7.
Qed.

Lemma buildBatch_sending : keeps sending buildBatch.
Proof.
  intros g Hg. unfold buildBatch. wlp_steps. eapply wlp_mono; [by apply may_send_sending|]. intros ok g1 [Hg1 Hl].
  destruct ok; cbn [negb]; [|by wlp_steps]. assigns.
  match goal with |- wlp ?m _ ?g2 => assert (Hk : keeps sending m) by (unfold get_cs; sending); apply Hk end.
  by apply clear_sending; [|apply Hl].
Qed.
#[export] Hint Resolve buildBatch_sending : frame.

(** ** Responses *)

Lemma ack_order_id_u64 f : Forall is_u8 f -> is_u64 (ack_order_id f).
Proof.
  intros Hf. unfold ack_order_id, is_u64. pose proof (le_value_range _ (Forall_slice 16 8 f Hf)) as [H1 H2]. split; [done|].
  eapply Z.lt_le_trans; [exact H2|]. apply Z.pow_le_mono_r; [lia|]. unfold slice. rewrite length_take. lia.
Qed.

(** What a response leaves of the sending side. *)
Definition same_requests (c c' : ClientState) : Prop :=
  client_id c' = client_id c /\ fd c' = fd c /\ write_buf c' = write_buf c /\ read_buf c' = read_buf c.

Lemma take_response_requests f c c' : Forall is_u8 f -> targets_ok c -> take_response f c = Some c' ->
  targets_ok c' /\ same_requests c c'.
Proof.
  intros Hf Ht. pose proof (ack_order_id_u64 f Hf) as Hid. unfold take_response, take_ack, take_error, take_match.
  destruct (negb _); [done|]. destruct (_ =? char_O).
  { destruct (0 <? acks_pending c); [|by intros [= <-]]. cbv zeta. case_bool_decide; [|by intros [= <-]].
    cbn [active_count set_active_write set_active_orders set_pending_head].
    destruct (active_count c <? _); intros [= <-]; (split; [|done]); by apply Forall_insert. }
  destruct (_ =? char_M); [by intros [= <-]|]. destruct (_ =? char_E); [|done].
  destruct (0 <? acks_pending c); by intros [= <-].
Qed.

Lemma drain_more_sending u : keeps sending (drain_more u).
Proof.
  intros g Hg. pose proof Hg as [H1 H2 H3 H4 [H5 H5'] H6 H7]. unfold drain_more, get_cs. wlp_steps.
  case_bool_decide; [|by wlp_steps]. destruct (take_response _ _) as [c'|] eqn:E.
  - destruct (take_response_requests _ _ _ (Forall_slice _ _ _ H5) H4 E) as (T1 & T2 & T3 & T4 & T5).
    unfold on_cs. wlp_steps. constructor; cbn; rewrite ?T2, ?T3, ?T4; try done.
    + split; [|done]. rewrite T5. unfold advance. by case_decide.
    + intros Hfd. unfold request_stream. cbn. rewrite T4. by apply H7.
  - match goal with |- wlp ?m _ _ => assert (Hk : keeps sending m) by sending; by apply Hk end.
Qed.
#[export] Hint Resolve drain_more_sending : frame.

Lemma read_from_bytes r b nb : read_from r b = Ok nb -> Forall is_u8 (data_ b) -> Forall is_u8 (received r) -> Forall is_u8 (data_ nb.2).
Proof.
  intros H Hb Hr. assert (Hc : Forall is_u8 (data_ (compact b))).
  { unfold compact. case_decide; [|done]. apply Forall_app. split; [by apply Forall_slice|by apply Forall_drop]. }
  unfold read_from in H. destruct r as [x l| |e]; [|by injection H as <-..]. unfold memcpy in H. case_decide; [|done].
  injection H as <-. cbn. apply Forall_app. split; [by apply Forall_take|]. apply (Forall_app is_u8 (x :: l)). split; [done|by apply Forall_drop].
Qed.

Lemma handleReadable_sending : keeps sending handleReadable.
Proof.
  intros g Hg. pose proof Hg as [H1 H2 H3 H4 [H5 H5'] H6 H7]. unfold handleReadable, get_cs, client_recv. wlp_steps.
  destruct (recv_answer _ _) as [r rest] eqn:E. destruct (recv_answer_ok _ _ _ _ E) as [R1 _].
  unfold incoming_bytes in H5'. rewrite R1 in H5'. apply Forall_app in H5' as [Hr Hrest]. wlp_steps.
  apply wlp_of_res. intros nb Hnb. assigns.
  match goal with |- wlp ?m _ _ => assert (Hk : keeps sending m) by (unfold get_cs, client_errno; sending); apply Hk end.
  constructor; try done. split; [|done]. exact (read_from_bytes r _ nb Hnb H5 Hr).
Qed.
#[export] Hint Resolve handleReadable_sending : frame.

(** ** The loop *)

Lemma handleConnect_sending : keeps sending handleConnect.
Proof. unfold handleConnect. sending. Qed.
#[export] Hint Resolve handleConnect_sending : frame.

Lemma handle_event_sending err out inp : keeps sending (handle_event err out inp).
Proof. unfold handle_event, get_cs. sending. Qed.

Lemma sweep_reconnect_sending after : keeps sending (sweep_reconnect after).
Proof.
  intros g Hg. unfold sweep_reconnect, get_cs. wlp_steps.
  destruct (Z.eqb_spec (fd (cs g)) (-1)) as [E|E]; cbn [andb]; [|by wlp_steps]. destruct (_ <=? _); [|by wlp_steps]. wlp_steps.
  eapply wlp_mono; [by apply connectClient_sending|]. intros ? g' H. by wlp_steps.
Qed.

Lemma sweep_batch_sending : keeps sending sweep_batch.
Proof. unfold sweep_batch. sending. Qed.

Lemma sweep_client_sending after : keeps sending (sweep_client after).
Proof. apply keeps_bind; [apply sweep_reconnect_sending|]. intros _. apply sweep_batch_sending. Qed.

Lemma act_sending a : keeps sending (act a).
Proof.
  destruct a as [err out inp|after]; cbn [act]; [|apply sweep_client_sending]. apply keeps_bind; [apply keeps_get|]. intros g.
  destruct (reported _ _ _); [apply handle_event_sending|apply keeps_ret].
Qed.

Lemma act_all_sending l : keeps sending (act_all l).
Proof. induction l as [|a l IH]; cbn [act_all]; [apply keeps_ret|]. by apply keeps_bind; [apply act_sending|]. Qed.

Lemma client_init_sending id g : cs g = client_init id -> is_u32 id -> length (stack g) = INBOUND_BSIZE ->
  draws_ok (factory g) -> Forall is_u8 (incoming_bytes g) -> sending g.
Proof.
  intros E Hid Hs Hd Hb. constructor; rewrite ?E; try done.
  - by apply Forall_replicate.
  - split; [|done]. by apply Forall_replicate.
  - split; [constructor; cbn; lia|done].
Qed.

(** C28. What the gateway sees of a client.  Whatever the exchange and the operating system
    do to a client - any answers of [socket], [connect], [recv] and [send], any bytes
    received, any events in any order -, its event loop returns, and while a connection
    is open, whatever part of the bytes the kernel has taken on it has reached the
    gateway: the frames the gateway cuts from them are all passed on, in order and one
    message each, as valid requests of this client, and none is refused. *)
Theorem client_requests_accepted id l g :
  cs g = client_init id -> is_u32 id -> length (stack g) = INBOUND_BSIZE -> interest (net g) = None ->
  draws_ok (factory g) -> Forall is_u8 (incoming_bytes g) ->
  wp (run_client l) (fun _ g' => fd (cs g') <> -1 -> forall p ts gateway_fd,
    p `prefix_of` net_taken (net g') -> length ts = length (frames p) ->
    refusals gateway_fd (zip ts (frames p)) = [] /\
    length (requests (zip ts (frames p))) = length (frames p) /\
    Forall (fun m => in_client_id m = id) (requests (zip ts (frames p)))) g.
Proof.
  intros E Hid Hs Hi Hd Hb. pose proof (client_init_ok id g E Hs Hi) as Hok.
  pose proof (client_init_sending id g E Hid Hs Hd Hb) as Hg.
  assert (Hfd : fd (cs g) = -1) by (by rewrite E).
  unfold run_client. apply wp_bind.
  eapply wp_mono; [apply wp_and_wlp; [apply wp_and_wlp; [by apply connectClient_ok|by apply connectClient_sending]|by apply connectClient_balance]|].
  intros ? g1 (((H1 & S1 & _) & Hg1) & _ & F1).
  eapply wp_mono; [apply wp_and_wlp; [by apply act_all_ok|by apply act_all_sending]|]. intros ? g2 ((H2 & S2) & Hg2) Hopen p ts gfd Hp Hts.
  destruct (same_config_trans _ _ _ S1 S2) as (_ & _ & Hcid). rewrite E in Hcid. cbn in Hcid.
  pose proof (sn_stream _ Hg2 Hopen) as Hst. rewrite Hcid in Hst. apply frames_accepted; [|done].
  apply (frames_prefix id (request_stream g2)); [done|]. etrans; [exact Hp|]. by eexists.
Qed.

(** Two events; the kernel takes 100 bytes of the first batch. *)
Definition sample_sender : Gen :=
  mkGen (client_init 7) (factory sample_gen)
    (mkNet [] [Sent 100] EAGAIN [] [9] [None] [0] None [] [] [] (mkEpoll [] None false)) 0 (replicate INBOUND_BSIZE 255).

Lemma client_requests_accepted_witness : exists g', run_client [Event false true false] sample_sender = Ok (tt, g') /\
  length (net_taken (net g')) = 100%nat /\ length (requests (zip [1000] (frames (net_taken (net g'))))) = 1%nat /\
  refusals 5 (zip [1000] (frames (net_taken (net g')))) = [].
Proof.
  assert (H : match run_client [Event false true false] sample_sender with
              | Ok (_, g') => (length (net_taken (net g')), fd (cs g')) | Err _ => (0%nat, 0) end = (100%nat, 9)) by (vm_compute; reflexivity).
  pose proof (client_requests_accepted 7 [Event false true false] sample_sender) as W.
  assert (P1 : cs sample_sender = client_init 7) by reflexivity.
  assert (P2 : is_u32 7) by (split; [discriminate|reflexivity]).
  assert (P3 : length (stack sample_sender) = INBOUND_BSIZE) by reflexivity.
  assert (P4 : interest (net sample_sender) = None) by reflexivity.
  assert (P6 : Forall is_u8 (incoming_bytes sample_sender)) by constructor.
  specialize (W P1 P2 P3 P4 sample_draws P6). apply wp_Ok in W. destruct W as ([] & g' & E & Hw).
  rewrite E in H. pose proof (f_equal fst H) as H1. pose proof (f_equal snd H) as H2. cbn [fst snd] in H1, H2.
  assert (Hopen : fd (cs g') <> -1) by (rewrite H2; discriminate).
  assert (Hf : length (frames (net_taken (net g'))) = 1%nat).
  { clear -H1. generalize dependent (net_taken (net g')). intros bytes Hl. by rewrite length_frames, Hl. }
  specialize (Hw Hopen (net_taken (net g')) [1000] 5 ltac:(by exists []; rewrite app_nil_r) (eq_sym Hf)).
  destruct Hw as (R1 & R2 & _).
  exists g'. split; [exact E|]. split; [exact H1|]. split; [rewrite R2; exact Hf|exact R1].
Defined.
