(* ===== verification/Generator.v ===== *)
(** The load generator as a whole ([client/src/load_generator.cpp],
    [client/include/load_generator.hpp]): all its clients on one factory, one clock and
    one epoll instance, the event loop [run] with its sleep, the destructor and the
    signal handler; and the main program of the client ([client/app/main.cpp]).

    Each handler of [Client] works on one client; [on_client] runs it on a client of the
    generator.  One turn of the loop is given what [epoll_wait] answers ([wait_answer])
    and whether a signal comes between the test of [running_] and the wait. *)

From S2P Require Import Prelude Types Ring Validation Protocol Buffer ServerState Gateway Frame Exchange Client ClientProps Pairing Stream.

Local Open Scope Z_scope.

(** * State *)

Definition CLIENT_EPOLL_BATCH : nat := 512.

(** A client with its socket and its entry in epoll. *)
Record Member : Set := mkMember {
  m_client : ClientState;
  m_net : Net
}.

(** [frame_array] is what an uninitialised frame array holds; [epoll_closed] are the epoll
    instances that have been closed. *)
Record Generator : Set := mkGenerator {
  clients_ : list Member;
  shared_factory : Factory;
  inter_arrival : Z;
  frame_array : list Z;
  clock_ : list Z;
  epoll_fd_ : Z;
  epoll_closed : list Z;
  running_ : bool
}.

Definition set_clients (x : list Member) (G : Generator) : Generator :=
  mkGenerator x (shared_factory G) (inter_arrival G) (frame_array G) (clock_ G) (epoll_fd_ G) (epoll_closed G) (running_ G).
Definition set_clock (x : list Z) (G : Generator) : Generator :=
  mkGenerator (clients_ G) (shared_factory G) (inter_arrival G) (frame_array G) x (epoll_fd_ G) (epoll_closed G) (running_ G).
Definition set_epoll_fd (x : Z) (G : Generator) : Generator :=
  mkGenerator (clients_ G) (shared_factory G) (inter_arrival G) (frame_array G) (clock_ G) x (epoll_closed G) (running_ G).
Definition add_epoll_closed (x : Z) (G : Generator) : Generator :=
  mkGenerator (clients_ G) (shared_factory G) (inter_arrival G) (frame_array G) (clock_ G) (epoll_fd_ G) (epoll_closed G ++ [x]) (running_ G).
Definition set_running (x : bool) (G : Generator) : Generator :=
  mkGenerator (clients_ G) (shared_factory G) (inter_arrival G) (frame_array G) (clock_ G) (epoll_fd_ G) (epoll_closed G) x.

Definition GM (A : Type) : Type := M Generator A.

(** What a handler of one client works on: the time comes from the common clock. *)
Definition at_clock (clock : list Z) (n : Net) : Net :=
  mkNet (net_recvs n) (net_sends n) (net_errno n) clock (sockets n) (connects n) (so_errors n) (interest n)
        (net_taken n) (net_opened n) (net_closed n) (net_epoll n).
Definition gen_of (G : Generator) (mb : Member) : Gen :=
  mkGen (m_client mb) (shared_factory G) (at_clock (clock_ G) (m_net mb)) (inter_arrival G) (frame_array G).
Definition put_back (i : nat) (g : Gen) (G : Generator) : Generator :=
  mkGenerator (<[i := mkMember (cs g) (net g)]> (clients_ G)) (factory g) (inter_arrival_ns_ g) (stack g)
    (net_clock (net g)) (epoll_fd_ G) (epoll_closed G) (running_ G).

Definition on_client {A : Type} (i : nat) (m : CM A) : GM A := fun G =>
  match clients_ G !! i with
  | None => Err BadPointer
  | Some mb => match m (gen_of G mb) with Ok (a, g) => Ok (a, put_back i g G) | Err e => Err e end
  end.

(** The constructor: clients 1 to [n], each with the answers the system will give it.
    [EXPECTED_THROUGHPUT] is 0, so the program runs with an inter-arrival time of 0. *)
Definition generator_init (nets : list Net) (f : Factory) (ia : Z) (frame clock : list Z) : Generator :=
  mkGenerator (zip_with mkMember (generator_clients (length nets)) nets) f ia frame clock (-1) [] true.

(** * The event loop *)

Definition stop : GM unit := modify (set_running false).

(** [epoll_create1]: a descriptor or -1. *)
Definition setupEpoll (answer : Z) : GM bool := modify (set_epoll_fd answer);; mret (negb (answer =? -1)).

Definition common_now : GM Z :=
  G ← get;
  modify (set_clock (tail (clock_ G)));;
  mret (default 0 (head (clock_ G))).

(** A client, whether there is an error or a hang-up, whether it is writable, readable. *)
Definition event : Set := nat * (bool * bool * bool).

Inductive wait_answer : Set :=
  | Ready (events : list event)
  | Interrupted
  | WaitFailed.

(** epoll reports registered descriptors only, the events they are registered for and
    errors, each descriptor once, and no more than fit the array. *)
Definition reportable (G : Generator) (ev : event) : bool :=
  match clients_ G !! ev.1 with
  | Some mb => reported (registered (net_epoll (m_net mb))) ev.2.1.2 ev.2.2
  | None => false
  end.

Fixpoint once_each (seen : list nat) (l : list event) : list event :=
  match l with
  | [] => []
  | ev :: l' => if bool_decide (ev.1 ∈ seen) then once_each seen l' else ev :: once_each (ev.1 :: seen) l'
  end.

Definition epoll_report (G : Generator) (l : list event) : list event :=
  take CLIENT_EPOLL_BATCH (once_each [] (filter (fun ev => reportable G ev = true) l)).

Definition serve_event (ev : event) : GM unit :=
  on_client ev.1 (handle_event ev.2.1.1 ev.2.1.2 ev.2.2).

Definition each_client (m : CM unit) : GM unit :=
  G ← get; for_each (fun i => on_client i m) (seq 0 (length (clients_ G))).

Inductive outcome : Set :=
  | Running   (* in the loop, when the answers end *)
  | Stopped   (* [run] returned because [running_] is false *)
  | Failed    (* [run] returned because of epoll *)
  | Asleep.   (* in [epoll_wait] without a timeout, and nothing will be reported *)

(** One turn of the loop; [None] goes on with the next. *)
Definition run_once (signalled : bool) (w : wait_answer) : GM (option outcome) :=
  now ← common_now;
  G ← get;
  let t := timeout_ms (inter_arrival G) now (m_client <$> clients_ G) in
  when signalled stop;;
  match w with
  | Interrupted => mret None
  | WaitFailed => mret (Some Failed)
  | Ready l =>
      let events := epoll_report G l in
      if (t <? 0) && bool_decide (events = []) then mret (Some Asleep)
      else
        for_each serve_event events;;
        after ← common_now;
        each_client (sweep_reconnect after);;
        each_client sweep_batch;;
        mret None
  end.

Inductive input : Set :=
  | Signal
  | Turn (signalled : bool) (w : wait_answer).

Fixpoint run_loop (l : list input) : GM outcome :=
  G ← get;
  if negb (running_ G) then mret Stopped
  else
    match l with
    | [] => mret Running
    | Signal :: l' => stop;; run_loop l'
    | Turn signalled w :: l' =>
        r ← run_once signalled w;
        match r with Some o => mret o | None => run_loop l' end
    end.

Definition run (epoll_answer : Z) (l : list input) : GM outcome :=
  ok ← setupEpoll epoll_answer;
  if negb ok then mret Failed
  else each_client (connectClient;; mret tt);; run_loop l.

(** [~LoadGenerator]. *)
Definition destroy_generator : GM unit :=
  each_client client_destroy;;
  G ← get;
  when (negb (epoll_fd_ G =? -1)) (modify (add_epoll_closed (epoll_fd_ G))).

(** * The main program *)

(** [std::atoi] on the bytes of a string: white space, a sign, digits; an integer that is
    too large for [int] is undefined. *)
Definition is_space (ch : Z) : bool := (ch =? 32) || ((9 <=? ch) && (ch <=? 13)).
Fixpoint atoi_digits (acc : Z) (s : list Z) : Z :=
  match s with
  | ch :: s' => if (48 <=? ch) && (ch <=? 57) then atoi_digits (10 * acc + (ch - 48)) s' else acc
  | [] => acc
  end.
Fixpoint atoi (s : list Z) : Z :=
  match s with
  | ch :: s' => if is_space ch then atoi s' else if ch =? 45 then - atoi_digits 0 s' else if ch =? 43 then atoi_digits 0 s' else atoi_digits 0 s
  | [] => 0
  end.

(** The number of clients; [None]: the usage message.  The second argument only seeds the
    factory. *)
Definition num_clients (argv : list (list Z)) : option Z :=
  match argv with
  | _ :: arg :: _ => if atoi arg <=? 0 then None else Some (atoi arg)
  | _ => Some 10
  end.

(** What the program prints, but for the rates; the time as integral nanoseconds. *)
Record Report : Set := mkReport {
  rp_elapsed_ns : Z;
  rp_stats : Stats;
  rp_total_responses : Z;
  rp_orders_in_flight : Z
}.

Definition report (t0 t1 : Z) (s : Stats) : Report :=
  mkReport (u64 (t1 - t0)) s (u64 (st_responses_ack s + st_responses_err s)) (-1 * st_orders_in_flight s).

(** [main] from the construction of the generator on: the exit code with the report, or
    where [run] still is. *)
Inductive main_result : Set :=
  | Exit (code : Z) (r : option Report)
  | InRun (o : outcome).

Definition drive (epoll_answer : Z) (l : list input) : GM main_result :=
  t0 ← common_now;
  o ← run epoll_answer l;
  match o with
  | Stopped | Failed =>
      t1 ← common_now;
      G ← get;
      destroy_generator;;
      mret (Exit 0 (Some (report t0 t1 (stats (m_client <$> clients_ G)))))
  | _ => mret (InRun o)
  end.

(** [nets i] are the system's answers to the [i]-th client. *)
Definition client_main (argv : list (list Z)) (nets : nat -> Net) (f : Factory) (frame clock : list Z) (epoll_answer : Z) (l : list input) :
    res (main_result * option Generator) :=
  match num_clients argv with
  | None => Ok (Exit 1 None, None)
  | Some n =>
      '(r, G) ← drive epoll_answer l (generator_init (nets <$> seq 0 (Z.to_nat n)) f 0 frame clock);
      Ok (r, Some G)
  end.

(** * Deadlines stay near the clock *)

(** [CLOCK_MONOTONIC] does not go back; 2^62 ns are 146 years. *)
Definition clock_good (l : list Z) : Prop := StronglySorted Z.le l /\ Forall (fun t => 0 <= t < 2 ^ 62) l.

Lemma clock_good_suffix k l : clock_good (k ++ l) -> clock_good l.
Proof.
  intros [Hs Hf]. apply Forall_app in Hf as [_ Hf]. split; [|done]. eapply sublist_StronglySorted; [|exact Hs].
  by apply sublist_inserts_l.
Qed.

(** How far a deadline can be ahead of the time: the longest backoff or a send slot. *)
Definition lag (ia : Z) : Z := 1049000000 + ia.

Definition ahead (ia : Z) (clock : list Z) (d : Z) : Prop := 0 <= d /\ Forall (fun t => d <= t + lag ia) clock.

Lemma ahead_suffix ia k l d : ahead ia (k ++ l) d -> ahead ia l d.
Proof. intros [H1 H2]. apply Forall_app in H2 as [_ H2]. by split. Qed.

(** The first time of a clock and what is left of it. *)
Lemma ahead_of_now ia l x : clock_good l -> 0 <= x <= lag ia -> lag ia < 2 ^ 62 ->
  ahead ia (tail l) (u64 (default 0 (head l) + x)).
Proof.
  intros [Hs Hf] Hx Hl. destruct l as [|t l]; cbn [head tail default].
  { split; [|constructor]. rewrite u64_small; [lia|]. unfold is_u64. cbn. lia. }
  apply StronglySorted_inv in Hs as [_ Hs]. apply Forall_cons in Hf as [Ht _].
  rewrite u64_small by (unfold is_u64; cbn; lia). cbn. split; [lia|]. eapply Forall_impl; [exact Hs|]. intros t' H. cbn in *. lia.
Qed.

Record timely (ia : Z) (g : Gen) : Prop := {
  tm_rate : inter_arrival_ns_ g = ia;
  tm_clock : clock_good (net_clock (net g));
  tm_backoff : 0 <= reconnect_backoff_ms (cs g) <= 1049;
  tm_reconnect : ahead ia (net_clock (net g)) (reconnect_at_ns (cs g));
  tm_next : ahead ia (net_clock (net g)) (next_send_ns (cs g))
}.

(** What [timely] says of a client is about these fields. *)
Definition deadlines (c : ClientState) := (reconnect_backoff_ms c, reconnect_at_ns c, next_send_ns c).

Section Timely.
Context (ia : Z) (L : list Z).
Hypothesis Hia : 0 <= ia < 2 ^ 61.

(** The clock has moved on from [L]. *)
Definition on_time (g : Gen) : Prop := timely ia g /\ net_clock (net g) `suffix_of` L.

Lemma on_time_net g n : on_time g -> net_clock n = net_clock (net g) -> on_time (set_net n g).
Proof. intros [[] H] E. split; [constructor|]; cbn; by rewrite ?E. Qed.

Lemma on_time_cs f : (forall c, deadlines (f c) = deadlines c) -> keeps on_time (on_cs f).
Proof.
  intros Hf g [[] H]. unfold on_cs. apply wlp_modify. specialize (Hf (cs g)). injection Hf as E1 E2 E3.
  split; [constructor|]; cbn; by rewrite ?E1, ?E2, ?E3.
Qed.

(** Reading the time. *)
Lemma on_time_tick g n : on_time g -> net_clock n = tail (net_clock (net g)) -> on_time (set_net n g).
Proof.
  intros [[H1 H2 H3 H4 H5] [k Hk]] E. assert (Hs : exists k', net_clock (net g) = k' ++ net_clock n).
  { rewrite E. destruct (net_clock (net g)) as [|t l]; [by exists []|by exists [t]]. }
  destruct Hs as [k' Hs]. rewrite Hs in *. split; [constructor; try done|].
  - by eapply clock_good_suffix.
  - by eapply ahead_suffix.
  - by eapply ahead_suffix.
  - exists (k ++ k'). by rewrite <- app_assoc.
Qed.

Ltac on_time_io := intros ? ?; wlp_steps; by apply on_time_net.
Lemma now_ns_on_time : keeps on_time now_ns.
Proof. intros g Hg. unfold now_ns. wlp_steps. by apply on_time_tick. Qed.
Lemma epollMod_on_time i : keeps on_time (epollMod i).
Proof. unfold epollMod, epoll_ctl. on_time_io. Qed.
Lemma epollAdd_on_time i : keeps on_time (epollAdd i).
Proof. unfold epollAdd, epoll_ctl. on_time_io. Qed.
Lemma epollDel_on_time : keeps on_time epollDel.
Proof. unfold epollDel, epoll_ctl. on_time_io. Qed.
Lemma so_error_on_time : keeps on_time sys_so_error.
Proof. unfold sys_so_error. on_time_io. Qed.
Lemma client_close_on_time f : keeps on_time (client_close f).
Proof. unfold client_close. on_time_io. Qed.
Lemma sys_socket_on_time : keeps on_time sys_socket.
Proof. unfold sys_socket. on_time_io. Qed.
Lemma sys_connect_on_time : keeps on_time sys_connect.
Proof. unfold sys_connect. on_time_io. Qed.
Lemma client_send_on_time bytes : keeps on_time (client_send bytes).
Proof. unfold client_send. on_time_io. Qed.
Lemma client_recv_on_time k : keeps on_time (client_recv k).
Proof. intros g Hg. unfold client_recv. wlp_steps. destruct (recv_answer _ _). wlp_steps. by apply on_time_net. Qed.
#[local] Hint Resolve now_ns_on_time epollMod_on_time epollAdd_on_time epollDel_on_time so_error_on_time client_close_on_time sys_socket_on_time sys_connect_on_time
  client_send_on_time client_recv_on_time : frame.

(** The factory does not read the clock. *)
Lemma on_time_factory g f : on_time g -> on_time (set_factory f g).
Proof. by intros [[] H]. Qed.

Ltac on_time := keeps_with ltac:(apply on_time_cs; intros ?; try case_bool_decide; reflexivity).

Lemma build_frame_on_time cid oid dst : keeps on_time (build_frame cid oid dst).
Proof.
  assert (Hd : keeps on_time draw_roll /\ keeps on_time draw_side /\ keeps on_time draw_type /\ keeps on_time order_qty /\
    forall s, keeps on_time (limit_price s)).
  { unfold draw_roll, draw_side, draw_type, order_qty, limit_price. split_and!; [..|intros s]; intros g Hg; wlp_steps; by apply on_time_factory. }
  destruct Hd as (H1 & H2 & H3 & H4 & H5). unfold build_frame, make_new, make_modify. on_time.
Qed.
#[local] Hint Resolve build_frame_on_time : frame.

(** ** The two deadlines *)

Lemma back_off_on_time : keeps on_time (on_cs back_off).
Proof.
  intros g [[H1 H2 H3 H4 H5] H]. unfold on_cs. apply wlp_modify. unfold back_off, RECONNECT_DELAY_MS.
  destruct (Z.ltb_spec (reconnect_backoff_ms (cs g)) 1000); (split; [|done]); constructor; try done. cbn.
  rewrite u32_small by (unfold is_u32; lia). lia.
Qed.

Lemma defer_on_time : keeps on_time (now ← now_ns; on_cs (fun c => set_reconnect_at_ns (u64 (now + reconnect_backoff_ms c * 1000000)) c)).
Proof.
  intros g Hg. pose proof Hg as [[H1 H2 H3 H4 H5] H]. unfold now_ns, on_cs. wlp_steps.
  match goal with |- on_time ?g' => pose proof (on_time_tick g (net g') Hg eq_refl) as [[K1 K2 K3 K4 K5] K] end.
  split; [|done]. constructor; try done. cbn. apply ahead_of_now; unfold lag; [done|lia|lia].
Qed.

Lemma next_slot_on_time : keeps on_time (now ← now_ns; on_cs (set_next_send_ns (u64 (now + ia)))).
Proof.
  intros g Hg. pose proof Hg as [[H1 H2 H3 H4 H5] H]. unfold now_ns, on_cs. wlp_steps.
  match goal with |- on_time ?g' => pose proof (on_time_tick g (net g') Hg eq_refl) as [[K1 K2 K3 K4 K5] K] end.
  split; [|done]. constructor; try done. cbn. apply ahead_of_now; unfold lag; [done|lia|lia].
Qed.

Lemma no_backoff_on_time : keeps on_time (on_cs (set_reconnect_backoff_ms 0)).
Proof. intros g [[] H]. unfold on_cs. apply wlp_modify. split; [|done]. by constructor. Qed.
#[local] Hint Resolve back_off_on_time defer_on_time next_slot_on_time no_backoff_on_time : frame.

(** ** The handlers *)

Lemma reconnect_on_time : keeps on_time reconnect.
Proof. unfold reconnect, get_cs. on_time. Qed.
Lemma connectClient_on_time : keeps on_time connectClient.
Proof. unfold connectClient. on_time. Qed.
#[local] Hint Resolve reconnect_on_time connectClient_on_time : frame.

Lemma flush_more_on_time u : keeps on_time (flush_more u).
Proof. unfold flush_more, get_cs, client_errno. on_time. Qed.
#[local] Hint Resolve flush_more_on_time : frame.
Lemma flushWrite_on_time : keeps on_time flushWrite.
Proof. unfold flushWrite, get_cs. on_time. Qed.
Lemma build_request_on_time : keeps on_time build_request.
Proof. unfold build_request, get_cs. on_time. Qed.
Lemma may_send_on_time : keeps on_time may_send.
Proof. unfold may_send. on_time. Qed.
#[local] Hint Resolve flushWrite_on_time build_request_on_time may_send_on_time : frame.

Lemma buildBatch_on_time : keeps on_time buildBatch.
Proof.
  unfold buildBatch. apply keeps_bind; [apply may_send_on_time|]. intros ok. destruct (negb ok); [apply keeps_ret|].
  apply keeps_bind; [on_time|]. intros _ g Hg. apply wlp_bind, wlp_get. rewrite (tm_rate _ _ (proj1 Hg)).
  revert g Hg. intros g0. generalize (slots g0) as k. intros k.
  match goal with |- on_time ?g -> wlp ?m ?Q ?g => revert g; change (keeps on_time m) end. unfold get_cs. on_time.
Qed.
#[local] Hint Resolve buildBatch_on_time : frame.

Lemma take_response_deadlines f c c' : take_response f c = Some c' -> deadlines c' = deadlines c.
Proof.
  unfold take_response, take_ack, take_error, take_match. cbv zeta.
  repeat case_match; intros [= <-]; try done; by repeat (case_match || case_bool_decide).
Qed.

Lemma drain_more_on_time u : keeps on_time (drain_more u).
Proof.
  intros g Hg. unfold drain_more, get_cs. wlp_steps. case_bool_decide; [|by wlp_steps].
  destruct (take_response _ _) as [c'|] eqn:E; [|match goal with |- wlp ?m _ _ => assert (Hm : keeps on_time m) by on_time; by apply Hm end].
  apply take_response_deadlines in E. injection E as E1 E2 E3. destruct Hg as [[] K]. unfold on_cs. wlp_steps.
  split; [constructor|]; cbn; by rewrite ?E1, ?E2, ?E3.
Qed.
#[local] Hint Resolve drain_more_on_time : frame.

Lemma handleReadable_on_time : keeps on_time handleReadable.
Proof. unfold handleReadable, get_cs, client_errno. on_time. Qed.
Lemma handleConnect_on_time : keeps on_time handleConnect.
Proof. unfold handleConnect. on_time. Qed.
#[local] Hint Resolve handleReadable_on_time handleConnect_on_time : frame.

Lemma handle_event_on_time err out inp : keeps on_time (handle_event err out inp).
Proof. unfold handle_event, get_cs. on_time. Qed.
Lemma sweep_reconnect_on_time after : keeps on_time (sweep_reconnect after).
Proof. unfold sweep_reconnect, get_cs. on_time. Qed.
Lemma sweep_batch_on_time : keeps on_time sweep_batch.
Proof. unfold sweep_batch. on_time. Qed.

End Timely.

(** * One client among the others *)

(** Its descriptors and its entry in epoll. *)
Definition accounted (g : Gen) : Prop := balanced g /\ followed g.

Definition good (ia : Z) (L : list Z) (g : Gen) : Prop := client_ok g /\ accounted g /\ sending g /\ on_time ia L g.

(** A step of one client that keeps all its invariants. *)
Definition good_step (ia : Z) (L : list Z) (m : CM unit) (g : Gen) : Prop :=
  wp m (fun _ g' => good ia L g' /\ same_config g g') g.

Section Steps.
Context (ia : Z) (L : list Z).
Hypothesis Hia : 0 <= ia < 2 ^ 61.

Lemma good_step_intro m g : good ia L g -> wp m (fun _ g' => client_ok g' /\ same_config g g') g ->
  wlp m (fun _ g' => accounted g') g -> wlp m (fun _ g' => sending g') g -> keeps (on_time ia L) m -> good_step ia L m g.
Proof.
  intros (_ & _ & _ & Ht) H1 H2 H3 H4. specialize (H4 g Ht). unfold good_step, good.
  eapply wp_mono; [apply wp_and_wlp; [apply wp_and_wlp; [apply wp_and_wlp; [exact H1|exact H2]|exact H3]|exact H4]|].
  intros ? g' ((([] & ?) & ?) & ?). by split_and!.
Qed.

Lemma preserves_wlp (m : CM unit) g : preserves balance m -> accounted g -> wlp m (fun _ g' => accounted g') g.
Proof. intros Hp [H1 H2] u g' H. destruct (Hp g u g' H) as [K1 K2]. split; auto. Qed.

Lemma handle_event_good err out inp g : reported (registered (net_epoll (net g))) out inp = true -> good ia L g ->
  good_step ia L (handle_event err out inp) g.
Proof.
  intros Hr Hg. pose proof Hg as (H1 & H2 & H3 & _). destruct (followed_reports g H1 (proj2 H2) out inp Hr).
  apply good_step_intro; [done|by apply handle_event_ok|..].
  - by apply preserves_wlp; [apply handle_event_balance|].
  - by apply handle_event_sending.
  - by apply handle_event_on_time.
Qed.

Lemma sweep_reconnect_good after g : good ia L g -> good_step ia L (sweep_reconnect after) g.
Proof.
  intros Hg. pose proof Hg as (H1 & H2 & H3 & _). apply good_step_intro; [done|by apply sweep_reconnect_ok|..].
  - by apply preserves_wlp; [apply sweep_reconnect_balance|].
  - by apply sweep_reconnect_sending.
  - by apply sweep_reconnect_on_time.
Qed.

Lemma sweep_batch_good g : good ia L g -> good_step ia L sweep_batch g.
Proof.
  intros Hg. pose proof Hg as (H1 & H2 & H3 & _). apply good_step_intro; [done|by apply sweep_batch_ok|..].
  - by apply preserves_wlp; [apply sweep_batch_balance|].
  - by apply sweep_batch_sending.
  - by apply sweep_batch_on_time.
Qed.

Lemma first_connect_good g : fd (cs g) = -1 -> good ia L g -> good_step ia L (connectClient;; mret tt) g.
Proof.
  intros Hfd Hg. pose proof Hg as (H1 & H2 & H3 & _). apply good_step_intro; [done|..].
  - apply wp_bind. eapply wp_mono; [by apply connectClient_ok|]. by intros ? g' (? & ? & _).
  - apply wlp_bind. eapply wlp_mono; [by apply connectClient_balance|]. intros ? g' [K1 K2]. apply wlp_ret. split; [|done].
    by apply K1, balanced_closed, H2.
  - apply wlp_bind. eapply wlp_mono; [by apply connectClient_sending|]. intros ? g' H. by apply wlp_ret.
  - apply keeps_bind; [by apply connectClient_on_time|]. intros _. apply keeps_ret.
Qed.

End Steps.

(** What another client does to this one: the factory and the clock move on. *)
Lemma good_shared ia L g f clock : good ia L g -> draws_ok f -> clock `suffix_of` net_clock (net g) ->
  good ia clock (mkGen (cs g) f (at_clock clock (net g)) (inter_arrival_ns_ g) (stack g)).
Proof.
  intros (H1 & H2 & [] & [[] _]) Hf [k Hk]. rewrite Hk in *. split_and!; [exact H1|exact H2|by constructor|].
  split; [|done]. constructor; cbn; try done.
  - by eapply clock_good_suffix.
  - by eapply ahead_suffix.
  - by eapply ahead_suffix.
Qed.

(** * The generator's invariant *)

Record gen_ok (n : nat) (ia e : Z) (G : Generator) : Prop := {
  gn_rate : inter_arrival G = ia;
  gn_ids : client_id ∘ m_client <$> clients_ G = seqZ 1 (Z.of_nat n);
  gn_members : Forall (fun mb => good ia (clock_ G) (gen_of G mb)) (clients_ G);
  gn_clock : clock_good (clock_ G);
  gn_epoll : epoll_fd_ G = e /\ epoll_closed G = []
}.

Lemma gen_of_put_back i g G : gen_of (put_back i g G) (mkMember (cs g) (net g)) = g.
Proof. by destruct g as [? ? [] ? ?]. Qed.

Section Clients.
Context (n : nat) (ia e : Z).
Hypothesis Hia : 0 <= ia < 2 ^ 61.

Lemma put_back_ok i mb g G : gen_ok n ia e G -> clients_ G !! i = Some mb ->
  good ia (clock_ G) g -> same_config (gen_of G mb) g -> gen_ok n ia e (put_back i g G).
Proof.
  intros [H1 H2 H3 H4 H5] Hi Hg (C1 & C2 & C3). pose proof Hg as (_ & _ & Hs & [[T1 T2 _ _ _] Hsuf]). constructor; cbn; try done.
  - rewrite list_fmap_insert. cbn. rewrite <- H2. apply list_insert_id. rewrite list_lookup_fmap, Hi. cbn. by rewrite C3.
  - rewrite Forall_lookup in *. intros j mb' Hj. destruct (decide (i = j)) as [->|Hne].
    + rewrite list_lookup_insert_eq in Hj by (by eapply lookup_lt_Some). injection Hj as <-. rewrite gen_of_put_back.
      destruct Hg as (G1 & G2 & G3 & [G4 _]). by split_and!.
    + rewrite list_lookup_insert_ne in Hj by done. specialize (H3 j mb' Hj).
      pose proof (good_shared _ _ _ (factory g) (net_clock (net g)) H3 (sn_draws _ Hs) Hsuf) as K.
      unfold gen_of in *. cbn in *. by rewrite C1, C2.
Qed.

Lemma on_client_ok i mb (m : CM unit) G : gen_ok n ia e G -> clients_ G !! i = Some mb -> good_step ia (clock_ G) m (gen_of G mb) ->
  wp (on_client i m) (fun _ G' => gen_ok n ia e G' /\ forall j, j <> i -> clients_ G' !! j = clients_ G !! j) G.
Proof.
  intros HG Hi Hm. apply wp_Ok in Hm as (u & g & E & Hg & Hc). unfold wp, on_client. rewrite Hi, E. split; [by eapply put_back_ok|].
  intros j Hj. by apply list_lookup_insert_ne.
Qed.

(** A [for] loop over distinct clients, each in a state that its step allows. *)
Lemma clients_ok {X : Type} (idx : X -> nat) (m : X -> CM unit) (Pre : X -> ClientState -> option (bool * bool) -> Prop) l G :
  (forall x L g, Pre x (cs g) (registered (net_epoll (net g))) -> good ia L g -> good_step ia L (m x) g) -> NoDup (idx <$> l) -> gen_ok n ia e G ->
  Forall (fun x => exists mb, clients_ G !! idx x = Some mb /\ Pre x (m_client mb) (registered (net_epoll (m_net mb)))) l ->
  wp (for_each (fun x => on_client (idx x) (m x)) l) (fun _ G' => gen_ok n ia e G') G.
Proof.
  intros Hm. revert G. induction l as [|x l IH]; intros G Hnd HG Hl; [done|]. cbn [for_each]. apply wp_bind.
  apply Forall_cons in Hl as [(mb & Hx & Hpre) Hl]. apply NoDup_cons in Hnd as [Hnotin Hnd].
  eapply wp_mono; [apply (on_client_ok (idx x) mb); [done|done|]|].
  { apply Hm; [done|]. pose proof (gn_members _ _ _ _ HG) as Hall. rewrite Forall_lookup in Hall. by apply (Hall (idx x)). }
  intros ? G1 [HG1 Hsame]. apply IH; [done|done|]. rewrite Forall_forall in *. intros y Hy. rewrite Hsame; [by apply Hl|].
  intros Ey. apply Hnotin. rewrite <- Ey. by apply list_elem_of_fmap_2.
Qed.

Lemma each_client_ok (m : CM unit) (Pre : ClientState -> Prop) G : (forall L g, Pre (cs g) -> good ia L g -> good_step ia L m g) ->
  gen_ok n ia e G -> Forall (fun mb => Pre (m_client mb)) (clients_ G) -> wp (each_client m) (fun _ G' => gen_ok n ia e G') G.
Proof.
  intros Hm HG Hpre. unfold each_client. apply wp_bind, wp_get.
  apply (clients_ok (fun i => i) (fun _ => m) (fun _ c _ => Pre c)); [by intros _ L g; apply Hm|rewrite list_fmap_id; apply NoDup_seq|done|].
  apply Forall_forall. intros i Hi. apply elem_of_seq in Hi. destruct (lookup_lt_is_Some_2 (clients_ G) i) as [mb Hmb]; [lia|].
  exists mb. split; [done|]. rewrite Forall_lookup in Hpre. by apply (Hpre i).
Qed.

(** ** Events *)

Lemma once_each_spec seen l : NoDup (fst <$> once_each seen l) /\ (forall ev, ev ∈ once_each seen l -> ev ∈ l /\ ev.1 ∉ seen).
Proof.
  revert seen. induction l as [|ev l IH]; intros seen; cbn [once_each]; [split; [constructor|by intros ev ?%elem_of_nil]|].
  case_bool_decide as Hin.
  - destruct (IH seen) as [H1 H2]. split; [done|]. intros ev' H. apply H2 in H as [? ?]. split; [by right|done].
  - destruct (IH (ev.1 :: seen)) as [H1 H2]. split.
    + cbn. apply NoDup_cons. split; [|done]. intros H. apply list_elem_of_fmap in H as (ev' & E & H). apply H2 in H as [_ H]. apply H. rewrite <- E. by left.
    + intros ev' H. apply elem_of_cons in H as [->|H]; [split; [by left|done]|]. apply H2 in H as [H H']. split; [by right|].
      intros Hs. apply H'. by right.
Qed.

Lemma epoll_report_ok G l : NoDup (fst <$> epoll_report G l) /\ Forall (fun ev => reportable G ev = true) (epoll_report G l).
Proof.
  destruct (once_each_spec [] (filter (fun ev => reportable G ev = true) l)) as [H1 H2]. unfold epoll_report. split.
  - rewrite fmap_take. rewrite <- (take_drop CLIENT_EPOLL_BATCH) in H1. by apply NoDup_app in H1 as [H1 _].
  - apply Forall_take. apply Forall_forall. intros ev Hev. apply H2 in Hev as [Hev _]. by apply list_elem_of_filter in Hev as [Hev _].
Qed.

Lemma serve_events_ok l G : NoDup (fst <$> l) -> Forall (fun ev => reportable G ev = true) l -> gen_ok n ia e G ->
  wp (for_each serve_event l) (fun _ G' => gen_ok n ia e G') G.
Proof.
  intros Hnd Hl HG. apply (clients_ok fst (fun ev => handle_event ev.2.1.1 ev.2.1.2 ev.2.2) (fun ev _ i => reported i ev.2.1.2 ev.2.2 = true)); try done.
  - intros ev L g Hr Hg. by apply handle_event_good.
  - eapply Forall_impl; [exact Hl|]. intros ev Hev. unfold reportable in Hev. destruct (clients_ G !! ev.1) as [mb|]; [by exists mb|done].
Qed.

(** ** Sleeping *)

Lemma common_now_ok G : gen_ok n ia e G -> wp common_now (fun now G' => gen_ok n ia e G' /\ clients_ G' = clients_ G /\
  clock_ G' = tail (clock_ G) /\ now = default 0 (head (clock_ G))) G.
Proof.
  intros [H1 H2 H3 H4 H5]. unfold common_now. wp_steps. split; [|done].
  assert (Hs : exists k, clock_ G = k ++ tail (clock_ G)) by (destruct (clock_ G) as [|t l]; [by exists []|by exists [t]]).
  destruct Hs as [k Hk]. constructor; cbn; try done.
  - eapply Forall_impl; [exact H3|]. intros mb Hg. apply (good_shared ia (clock_ G) (gen_of G mb) (shared_factory G) (tail (clock_ G))); [done| |by exists k].
    destruct Hg as (_ & _ & Hs & _). apply Hs.
  - rewrite Hk in H4. by eapply clock_good_suffix.
Qed.

(** A client that waits for the exchange alone: it is connected or connecting, and epoll
    watches it for what it needs - unless the system has refused to register it. *)
Definition watched (mb : Member) : Prop :=
  let c := m_client mb in
  fd c <> -1 /\ deadline ia c = None /\
  (ctl_refused (net_epoll (m_net mb)) = false -> exists o,
     registered (net_epoll (m_net mb)) = Some (negb (connecting c), o) /\ (connecting c = true \/ unsent (write_buf c) <> [] -> o = true)).

Lemma open_watched mb G L : good ia L (gen_of G mb) -> deadline ia (m_client mb) = None -> watched mb.
Proof.
  intros ((_ & _ & Hok) & (_ & Hfol) & _) Hd. assert (Hfd : fd (m_client mb) <> -1).
  { intros E. unfold deadline in Hd. by rewrite E in Hd. }
  cbn in Hok. rewrite decide_False in Hok by done. destruct Hok as [_ _ _ Hi]. cbn in Hi. split; [done|]. split; [done|].
  intros Hr. unfold followed in Hfol. cbn in Hfol. rewrite decide_False in Hfol by done. rewrite (proj2 Hfol Hr).
  destruct Hi as [(Hi & Hc & _)|(Hc & o & Hi & Ho)]; rewrite Hc.
  - exists true. by rewrite Hi.
  - exists o. rewrite Hi. split; [done|]. intros [?|Hne]; [done|]. apply Ho. apply Nat.neq_0_lt_0. intros Hz. apply Hne.
    unfold unsent. by rewrite Hz.
Qed.

Lemma deadline_ahead L G mb d : good ia L (gen_of G mb) -> deadline ia (m_client mb) = Some d -> ahead ia (clock_ G) d.
Proof.
  intros (_ & _ & _ & [[_ _ _ H1 H2] _]). unfold deadline. destruct (_ =? _); [by intros [= <-]|]. destruct (_ && _); [by intros [= <-]|done].
Qed.

Lemma sleep_watched G now rest : gen_ok n ia e G -> lag ia < 2 ^ 31 * 1000000 -> clock_ G = now :: rest ->
  timeout_ms ia now (m_client <$> clients_ G) < 0 -> Forall watched (clients_ G).
Proof.
  intros HG Hlag Hclock Ht. pose proof (gn_members _ _ _ _ HG) as Hall. rewrite Forall_forall in Hall.
  assert (Hnow : 0 <= now < 2 ^ 62) by (pose proof (gn_clock _ _ _ _ HG) as [_ Hc]; rewrite Hclock in Hc; by apply Forall_cons in Hc as [? _]).
  assert (Htimes : times_ok ia now (m_client <$> clients_ G)).
  { split; [lia|]. intros c d Hc Hd. apply list_elem_of_fmap in Hc as (mb & -> & Hmb).
    destruct (deadline_ahead _ _ _ _ (Hall mb Hmb) Hd) as [Hd0 Hd1]. rewrite Hclock in Hd1. apply Forall_cons in Hd1 as [Hd1 _]. lia. }
  destruct (timeout_value ia now _ Htimes) as [[_ Hnone]|(c & m & _ & _ & _ & E)].
  - apply Forall_forall. intros mb Hmb. apply (open_watched mb G (clock_ G)); [by apply Hall|]. apply Hnone. by apply list_elem_of_fmap_2.
  - rewrite E in Ht. destruct (Z.leb_spec (m - now) 0); [lia|]. pose proof (Z.div_pos (m - now) 1000000). lia.
Qed.

(** ** The loop *)

(** Without a further reading of the clock the last one may be the default. *)
Definition sleeps_watched (o : outcome) (G : Generator) : Prop := o = Asleep -> clock_ G <> [] -> Forall watched (clients_ G).

Lemma set_running_ok b G : gen_ok n ia e G -> gen_ok n ia e (set_running b G).
Proof. by intros []. Qed.

Lemma run_once_ok signalled w G : lag ia < 2 ^ 31 * 1000000 -> gen_ok n ia e G ->
  wp (run_once signalled w) (fun r G' => gen_ok n ia e G' /\ forall o, r = Some o -> sleeps_watched o G') G.
Proof.
  intros Hlag HG. unfold run_once. apply wp_bind. eapply wp_mono; [by apply common_now_ok|]. intros now G1 (HG1 & Ec & Ek & En).
  apply wp_bind, wp_get. cbv zeta. rewrite (gn_rate _ _ _ _ HG1). set (t := timeout_ms _ _ _).
  apply wp_bind. apply (wp_mono _ (fun _ G2 => gen_ok n ia e G2 /\ clients_ G2 = clients_ G1 /\ clock_ G2 = clock_ G1)).
  { apply wp_when; intros _; [unfold stop; wp_steps; by split; [apply set_running_ok|]|done]. }
  intros ? G2 (HG2 & Ec2 & Ek2). destruct w as [l| |]; [|by wp_steps|wp_steps; split; [done|by intros o [= <-]]].
  wp_steps. match goal with |- wp (if ?b then _ else _) _ _ => destruct b eqn:Eb end.
  { wp_steps. split; [done|]. intros o [= <-] _ Hne. apply andb_true_iff in Eb as [Ht%Z.ltb_lt _]. rewrite Ec2, Ec.
    assert (Hc : clock_ G = now :: clock_ G2).
    { rewrite Ek2, Ek in *. rewrite En. by destruct (clock_ G). }
    apply (sleep_watched G now _ HG Hlag Hc). rewrite <- Ec. exact Ht. }
  destruct (epoll_report_ok G1 l) as [Hnd Hrep].
  assert (Hrep2 : Forall (fun ev => reportable G2 ev = true) (epoll_report G1 l)) by (unfold reportable in *; by rewrite Ec2).
  clear t Eb Ec2 Ek2 Hrep. apply wp_bind.
  eapply wp_mono; [by apply serve_events_ok|]. intros ? G3 HG3. apply wp_bind. eapply wp_mono; [by apply common_now_ok|].
  intros after G4 (HG4 & _). apply wp_bind.
  assert (Htriv : forall G, Forall (fun mb => (fun _ => True) (m_client mb)) (clients_ G)) by (intros; by apply Forall_true).
  eapply wp_mono; [apply (each_client_ok _ (fun _ => True)); [intros L g _; by apply sweep_reconnect_good|done|done]|].
  intros ? G5 HG5. apply wp_bind.
  eapply wp_mono; [apply (each_client_ok _ (fun _ => True)); [intros L g _; by apply sweep_batch_good|done|done]|].
  intros ? G6 HG6. by wp_steps.
Qed.

Lemma run_loop_ok l G : lag ia < 2 ^ 31 * 1000000 -> gen_ok n ia e G ->
  wp (run_loop l) (fun o G' => gen_ok n ia e G' /\ sleeps_watched o G') G.
Proof.
  intros Hlag. revert G. induction l as [|[|signalled w] l IH]; intros G HG; cbn [run_loop]; wp_steps; (destruct (negb _); [by wp_steps|]).
  - by wp_steps.
  - apply wp_bind. unfold stop. wp_steps. by apply IH, set_running_ok.
  - apply wp_bind. eapply wp_mono; [by apply run_once_ok|]. intros [o|] G1 [HG1 Hw]; [wp_steps; split; [done|by apply Hw]|by apply IH].
Qed.

(** ** The destructor *)

Lemma destroy_client_ok i mb G : clients_ G !! i = Some mb -> good ia (clock_ G) (gen_of G mb) ->
  wp (on_client i client_destroy) (fun _ G' => (forall j, j <> i -> clients_ G' !! j = clients_ G !! j) /\
    (exists mb', clients_ G' !! i = Some mb' /\ net_opened (m_net mb') = net_closed (m_net mb')) /\
    length (clients_ G') = length (clients_ G) /\ (forall mb, gen_of G' mb = gen_of G mb) /\
    clock_ G' = clock_ G /\ epoll_fd_ G' = epoll_fd_ G /\ epoll_closed G' = epoll_closed G) G.
Proof.
  intros Hi (_ & [Hb _] & _). pose proof (destroy_balance _ Hb) as Hd. apply wp_Ok in Hd as (u & g & E & Hg).
  assert (Hsame : factory g = shared_factory G /\ inter_arrival_ns_ g = inter_arrival G /\ stack g = frame_array G /\ net_clock (net g) = clock_ G).
  { clear -E. unfold client_destroy, get_cs, when, mbind, M_bind, gets in E. destruct (negb _) in E; by injection E as _ <-. }
  destruct Hsame as (S1 & S2 & S3 & S4). unfold wp, on_client. rewrite Hi, E. cbn. split_and!; try done.
  - intros j Hj. by apply list_lookup_insert_ne.
  - eexists. split; [apply list_lookup_insert_eq; by eapply lookup_lt_Some|done].
  - apply length_insert.
  - intros mb'. unfold gen_of. cbn. by rewrite S1, S2, S3, S4.
Qed.

Definition all_closed (mb : Member) : Prop := net_opened (m_net mb) = net_closed (m_net mb).

Lemma destroy_clients_ok l G : NoDup l ->
  Forall (fun i => exists mb, clients_ G !! i = Some mb /\ good ia (clock_ G) (gen_of G mb)) l ->
  wp (for_each (fun i => on_client i client_destroy) l) (fun _ G' => (forall j, j ∉ l -> clients_ G' !! j = clients_ G !! j) /\
    Forall (fun i => exists mb, clients_ G' !! i = Some mb /\ all_closed mb) l /\
    length (clients_ G') = length (clients_ G) /\ epoll_fd_ G' = epoll_fd_ G /\ epoll_closed G' = epoll_closed G) G.
Proof.
  revert G. induction l as [|i l IH]; intros G Hnd Hl; [by split_and!|]. cbn [for_each]. apply wp_bind.
  apply Forall_cons in Hl as [(mb & Hi & Hg) Hl]. apply NoDup_cons in Hnd as [Hnotin Hnd].
  eapply wp_mono; [by apply (destroy_client_ok i mb)|]. intros ? G1 (Hother & (mb' & Hi' & Hmb') & Hlen & Hgen & Hk & He1 & He2).
  eapply wp_mono; [apply (IH G1); [done|]|].
  - rewrite Forall_forall in *. intros j Hj. rewrite Hother by congruence. destruct (Hl j Hj) as (mbj & H1 & H2). exists mbj.
    split; [done|]. by rewrite Hgen, Hk.
  - intros ? G2 (K1 & K2 & K3 & K4 & K5). split_and!; [|constructor; [|done]|congruence..].
    + intros j Hj. apply not_elem_of_cons in Hj as [Hj1 Hj2]. rewrite K1 by done. by apply Hother.
    + exists mb'. by rewrite K1.
Qed.

Lemma destroy_generator_ok G : gen_ok n ia e G -> wp destroy_generator (fun _ G' =>
  Forall all_closed (clients_ G') /\ epoll_closed G' = if e =? -1 then [] else [e]) G.
Proof.
  intros [_ _ Hall _ [He1 He2]]. unfold destroy_generator, each_client. wp_steps.
  eapply wp_mono; [apply destroy_clients_ok; [apply NoDup_seq|]|].
  - apply Forall_forall. intros i Hi. apply elem_of_seq in Hi. destruct (lookup_lt_is_Some_2 (clients_ G) i) as [mb Hmb]; [lia|].
    exists mb. split; [done|]. rewrite Forall_lookup in Hall. by apply (Hall i).
  - intros ? G1 (_ & K1 & K2 & K3 & K4). wp_steps.
    assert (Hclosed : Forall all_closed (clients_ G1)).
    { apply Forall_lookup. intros i mb Hi. rewrite Forall_forall in K1. destruct (K1 i) as (mb' & Hi' & H'); [|by rewrite Hi in Hi'; injection Hi' as ->].
      apply elem_of_seq. apply lookup_lt_Some in Hi. lia. }
    rewrite K3, He1. apply wp_when; intros He.
    + wp_steps. split; [done|]. cbn. rewrite K4, He2. by destruct (e =? -1).
    + split; [done|]. rewrite K4, He2. by destruct (e =? -1).
Qed.

End Clients.

(** * The statistics *)

Definition total (l : list Z) : Z := foldr Z.add 0 l.

Lemma stats_in_flight l : st_orders_in_flight (stats l) = total (orders_in_flight <$> l).
Proof.
  unfold stats. match goal with |- context [foldl ?f ?s l] => enough (H : forall s0, st_orders_in_flight (foldl f s0 l) = st_orders_in_flight s0 + total (orders_in_flight <$> l)) end.
  { by rewrite H. }
  induction l as [|c l IH]; intros s0; [cbn; lia|]. cbn [foldl fmap list_fmap]. rewrite IH. cbn. unfold total. lia.
Qed.

Lemma total_bounds lo hi l : Forall (fun x => lo <= x <= hi) l -> lo * Z.of_nat (length l) <= total l <= hi * Z.of_nat (length l).
Proof. induction 1; cbn [total foldr length] in *; [lia|]. unfold total in *. lia. Qed.

(** * Whole runs *)

(** A client's socket before [run]: the answers are arbitrary, what is received are bytes. *)
Definition fresh (mb : Net) : Prop := (interest mb = None /\ registered (net_epoll mb) = None) /\ net_opened mb = net_closed mb /\ Forall is_u8 (concat (received <$> net_recvs mb)).

Lemma zip_ids l ns : length l = length ns -> client_id ∘ m_client <$> zip_with mkMember l ns = client_id <$> l.
Proof. revert ns. induction l as [|c l IH]; intros [|x ns] H; try done. cbn. f_equal. apply IH. by injection H. Qed.

Lemma generator_init_ok nets f ia frame clock : Z.of_nat (length nets) < 2 ^ 31 -> 0 <= ia -> Forall fresh nets -> draws_ok f ->
  length frame = INBOUND_BSIZE -> clock_good clock ->
  gen_ok (length nets) ia (-1) (generator_init nets f ia frame clock) /\
  Forall (fun mb => fd (m_client mb) = -1) (clients_ (generator_init nets f ia frame clock)).
Proof.
  intros Hn Hia Hnets Hf Hframe Hclock. unfold generator_init.
  assert (Hlen : length (generator_clients (length nets)) = length nets).
  { unfold generator_clients. rewrite length_fmap, length_seqZ. lia. }
  assert (Hids : Forall (fun c => exists id, is_u32 id /\ c = client_init id) (generator_clients (length nets))).
  { unfold generator_clients. apply Forall_fmap, Forall_forall. intros id Hid. apply elem_of_seqZ in Hid. exists id.
    split; [unfold is_u32; lia|done]. }
  assert (Hzip : Forall (fun mb => (exists id, is_u32 id /\ m_client mb = client_init id) /\ fresh (m_net mb)) (zip_with mkMember (generator_clients (length nets)) nets)).
  { apply Forall_lookup. intros i mb Hi. apply lookup_zip_with_Some in Hi as (c & nt & -> & Hc & Hnt).
    rewrite Forall_lookup in Hids. rewrite Forall_lookup in Hnets. split; [by apply (Hids i)|by apply (Hnets i)]. }
  split; [|eapply Forall_impl; [exact Hzip|]; intros mb [(id & _ & ->) _]; done].
  constructor; cbn; try done.
  - rewrite <- generator_ids. by apply zip_ids.
  - eapply Forall_impl; [exact Hzip|]. intros mb [(id & Hid & E) ((F1 & F1') & F2 & F3)]. split_and!.
    + by apply (client_init_ok id).
    + split; [unfold balanced|unfold followed]; cbn; rewrite E, decide_True by done; [by rewrite app_nil_r|done].
    + by apply (client_init_sending id).
    + split; [|done]. constructor; cbn; rewrite ?E; try done; cbn; (split; [done|]); destruct Hclock as [_ Hc];
        (eapply Forall_impl; [exact Hc|]); intros t Ht; unfold lag; cbn in *; lia.
Qed.

Lemma run_ok n ia e l G : 0 <= ia < 2 ^ 61 -> lag ia < 2 ^ 31 * 1000000 -> gen_ok n ia (-1) G ->
  Forall (fun mb => fd (m_client mb) = -1) (clients_ G) ->
  wp (run e l) (fun o G' => gen_ok n ia e G' /\ sleeps_watched ia o G') G.
Proof.
  intros Hia Hlag HG Hfd. unfold run, setupEpoll. wp_steps. set (G1 := set_epoll_fd e G).
  assert (HG1 : gen_ok n ia e G1) by (destruct HG as [? ? ? ? [_ ?]]; by constructor).
  destruct (negb _); [by wp_steps|]. apply wp_bind.
  eapply wp_mono; [apply (each_client_ok n ia e _ (fun c => fd c = -1)); [intros L g Hc Hg; by apply first_connect_good|done|done]|].
  intros ? G2 HG2. by apply run_loop_ok.
Qed.

(** What the invariant says of one client. *)
Definition client_safe (mb : Member) : Prop :=
  let c := m_client mb in
  0 <= acks_pending c <= PIPELINE_DEPTH /\ orders_in_flight c = acks_pending c /\
  (fd c = -1 -> acks_pending c = 0 /\ interest (m_net mb) = None) /\
  (fd c <> -1 -> forall p, p `prefix_of` net_taken (m_net mb) -> Forall (request_frame (client_id c)) (frames p)).

Lemma good_safe ia L G mb : good ia L (gen_of G mb) -> client_safe mb.
Proof.
  intros ((Hb & _ & Hok) & _ & Hs & _). split; [apply Hb|]. split; [apply Hb|]. split.
  - intros Hfd. cbn in Hok. rewrite decide_True in Hok by done. exact Hok.
  - intros Hfd p Hp. apply (frames_prefix _ (request_stream (gen_of G mb))); [by apply (sn_stream _ Hs)|].
    etrans; [exact Hp|]. by eexists.
Qed.

Lemma in_flight_exact l : Forall client_safe l ->
  st_orders_in_flight (stats (m_client <$> l)) = total (acks_pending ∘ m_client <$> l) /\
  0 <= total (acks_pending ∘ m_client <$> l) <= PIPELINE_DEPTH * Z.of_nat (length l).
Proof.
  intros Hl. rewrite stats_in_flight, <- list_fmap_compose. split.
  - f_equal. apply list_fmap_ext. intros i mb Hi. rewrite Forall_lookup in Hl. by destruct (Hl i mb Hi) as (_ & ? & _).
  - rewrite <- (length_fmap (acks_pending ∘ m_client) l). pose proof (total_bounds 0 PIPELINE_DEPTH (acks_pending ∘ m_client <$> l)) as H. rewrite Z.mul_0_l in H.
    apply H. apply Forall_fmap. eapply Forall_impl; [exact Hl|]. by intros mb (? & _).
Qed.

(** C16. The load generator as a whole stalls only if the system has refused to register a
    client.  With any number of clients, any answers of the system - those of [epoll_ctl]
    among them - and of the exchange to any of them, any events and signals in any turn,
    its loop neither faults nor runs on; the clients keep the ids 1 to n; each keeps at
    most [PIPELINE_DEPTH] requests outstanding, and the total that the statistics call
    orders in flight is their sum; the bytes of each open connection are frames that the
    gateway takes for valid requests of that very client.  It sleeps without a timeout
    only when every client is open and none has a reconnection or a send slot to come;
    and each of them is in epoll, watched for what it waits for, unless an [epoll_ctl] for
    its current descriptor was refused ([ctl_refused]; the program ignores the result, and
    the witness shows such a client, not in epoll, while the loop sleeps for ever).  The
    destructor closes every descriptor that is open, and none twice. *)
Theorem generator_never_stalls nets f ia frame clock e l :
  Z.of_nat (length nets) < 2 ^ 31 -> 0 <= ia -> lag ia < 2 ^ 31 * 1000000 -> Forall fresh nets -> draws_ok f ->
  length frame = INBOUND_BSIZE -> clock_good clock ->
  wp (run e l) (fun o G =>
    client_id ∘ m_client <$> clients_ G = seqZ 1 (Z.of_nat (length nets)) /\
    Forall client_safe (clients_ G) /\
    st_orders_in_flight (stats (m_client <$> clients_ G)) = total (acks_pending ∘ m_client <$> clients_ G) /\
    (o = Asleep -> clock_ G <> [] -> Forall (watched ia) (clients_ G)) /\
    wp destroy_generator (fun _ G' => Forall all_closed (clients_ G') /\ epoll_closed G' = if e =? -1 then [] else [e]) G)
    (generator_init nets f ia frame clock).
Proof.
  intros Hn Hia Hlag Hnets Hf Hframe Hclock. destruct (generator_init_ok nets f ia frame clock) as [HG Hfd]; try done.
  assert (Hia2 : 0 <= ia < 2 ^ 61) by (unfold lag in Hlag; lia).
  eapply wp_mono; [by apply (run_ok (length nets) ia e l)|]. intros o G [HG1 Hw].
  assert (Hsafe : Forall client_safe (clients_ G)).
  { eapply Forall_impl; [apply (gn_members _ _ _ _ HG1)|]. intros mb Hmb. exact (good_safe ia (clock_ G) G mb Hmb). }
  split_and!; [apply HG1|done|by apply in_flight_exact|done|]. by apply (destroy_generator_ok (length nets) ia).
Qed.

(** Two clients that connect and fill their pipelines; then nothing happens. *)
Definition sample_net (d : Z) : Net := mkNet [] [Sent 2304] EAGAIN [] [d] [None] [0] None [] [] [] (mkEpoll [] None false).
Definition sample_generator : Generator :=
  generator_init [sample_net 9; sample_net 10] (factory sample_gen) 0 (replicate INBOUND_BSIZE 255) [5; 6; 7; 8; 9].
Definition sample_inputs : list input :=
  [Turn false (Ready [(0, (false, true, false)); (1, (false, true, false))]%nat); Turn false (Ready [])].

(** The same client, but adding it to epoll fails for want of memory (ENOMEM is 12). *)
Definition refused_net : Net := mkNet [] [Sent 2304] EAGAIN [] [9] [None] [0] None [] [] [] (mkEpoll [Some (errno_other 12)] None false).
Definition refused_generator : Generator :=
  generator_init [refused_net] (factory sample_gen) 0 (replicate INBOUND_BSIZE 255) [5; 6; 7; 8; 9].

(** What the runs show of a client: open, what epoll watches, whether it was refused. *)
Definition epoll_view (mb : Member) : Z * option (bool * bool) * bool :=
  (fd (m_client mb), registered (net_epoll (m_net mb)), ctl_refused (net_epoll (m_net mb))).

(** With a connection that is ready to be written, the loop sleeps for ever in the first
    turn: epoll does not know the client. *)
Lemma refused_client_stalls : match run 4 [Turn false (Ready [(0, (false, true, false))%nat])] refused_generator with
  | Ok (o, G) => (o, epoll_view <$> clients_ G) = (Asleep, [(9, None, true)]) | Err _ => False end.
Proof. vm_compute. reflexivity. Qed.

Lemma generator_never_stalls_witness :
  (exists G, run 4 sample_inputs sample_generator = Ok (Asleep, G) /\
     Forall (watched 0) (clients_ G) /\ st_orders_in_flight (stats (m_client <$> clients_ G)) = 64 /\
     epoll_view <$> clients_ G = [(9, Some (true, false), false); (10, Some (true, false), false)]) /\
  (exists G, run 4 [Turn false (Ready [(0, (false, true, false))%nat])] refused_generator = Ok (Asleep, G) /\
     epoll_view <$> clients_ G = [(9, None, true)]).
Proof.
  split; [|pose proof refused_client_stalls as H; destruct (run 4 _ refused_generator) as [[o G]|]; [|destruct H];
    exists G; pose proof (f_equal fst H) as Ho; cbn [fst] in Ho; rewrite Ho; split; [reflexivity|exact (f_equal snd H)]].
  assert (H : match run 4 sample_inputs sample_generator with
              | Ok (o, G) => (o, length (clock_ G), total (acks_pending ∘ m_client <$> clients_ G), epoll_view <$> clients_ G)
              | Err _ => (Running, 0%nat, 0, []) end = (Asleep, 2%nat, 64, [(9, Some (true, false), false); (10, Some (true, false), false)]))
    by (vm_compute; reflexivity).
  pose proof (generator_never_stalls [sample_net 9; sample_net 10] (factory sample_gen) 0 (replicate INBOUND_BSIZE 255) [5; 6; 7; 8; 9] 4 sample_inputs) as W.
  specialize (W ltac:(reflexivity) ltac:(discriminate) ltac:(reflexivity)).
  assert (P1 : Forall fresh [sample_net 9; sample_net 10]) by (repeat constructor).
  assert (P2 : clock_good [5; 6; 7; 8; 9]) by (split; repeat constructor; lia).
  specialize (W P1 sample_draws eq_refl P2). apply wp_Ok in W. destruct W as (o & G & E & _ & _ & Hstats & Hsleep & _).
  fold sample_generator in E. rewrite E in H. pose proof (f_equal (fun x => x.1.1.1) H) as Ho. pose proof (f_equal (fun x => x.1.1.2) H) as Hc.
  pose proof (f_equal (fun x => x.1.2) H) as Ht. pose proof (f_equal snd H) as Hv. cbn [fst snd] in Ho, Hc, Ht, Hv. subst o. exists G. split; [exact E|].
  split; [apply Hsleep; [reflexivity|intros Hnil; rewrite Hnil in Hc; discriminate Hc]|]. split; [rewrite Hstats; exact Ht|exact Hv].
Defined.

(** * Signals *)

(** The handler's store is lost on a sleeping loop: a signal that comes between the test of
    [running_] and the wait does not interrupt the wait, which has no timeout when no
    client has a deadline; the loop then sleeps on although [running_] is false. *)
Lemma signal_before_wait l G : running_ G = true -> Forall (fun mb => deadline (inter_arrival G) (m_client mb) = None) (clients_ G) ->
  exists G', run_loop (Turn true (Ready []) :: l) G = Ok (Asleep, G') /\ running_ G' = false.
Proof.
  intros Hr Hd. assert (Ht : forall now, timeout_ms (inter_arrival G) now (m_client <$> clients_ G) = -1).
  { intros now. unfold timeout_ms. destruct (min_deadline_from (inter_arrival G) (m_client <$> clients_ G) UINT64_MAX) as (_ & _ & [E|(c & Hc & E)]).
    - by rewrite (E : min_deadline _ _ = _).
    - apply list_elem_of_fmap in Hc as (mb & -> & Hmb). rewrite Forall_forall in Hd. by rewrite (Hd mb Hmb) in E. }
  enough (W : wp (run_loop (Turn true (Ready []) :: l)) (fun o G' => o = Asleep /\ running_ G' = false) G).
  { apply wp_Ok in W as (o & G' & E & -> & H). by exists G'. }
  cbn [run_loop]. wp_steps. rewrite Hr. cbn [negb]. unfold run_once, common_now, stop. wp_steps. cbn [when]. wp_steps. cbn.
  rewrite Ht. by wp_steps.
Qed.

(** * The main program *)

(** What the main program leaves when it exits with code 0, or where it still is. *)
Definition exit_ok (n : nat) (e : Z) (r : main_result) (G : Generator) : Prop :=
  match r with
  | Exit code (Some rp) => code = 0 /\ Forall all_closed (clients_ G) /\ epoll_closed G = (if e =? -1 then [] else [e]) /\
      - (PIPELINE_DEPTH * Z.of_nat n) <= rp_orders_in_flight rp <= 0 /\
      rp_total_responses rp = u64 (st_responses_ack (rp_stats rp) + st_responses_err (rp_stats rp))
  | Exit _ None => False
  | InRun o => o = Running \/ o = Asleep
  end.

Lemma reported_ok n e t0 t1 G : gen_ok n 0 e G ->
  wp (destroy_generator;; mret (Exit 0 (Some (report t0 t1 (stats (m_client <$> clients_ G)))))) (exit_ok n e) G.
Proof.
  intros HG. apply wp_bind. eapply wp_mono; [by apply (destroy_generator_ok n 0 e)|]. intros ? G1 [D1 D2]. apply wp_ret.
  destruct (in_flight_exact (clients_ G)) as [Hs Hb].
  { eapply Forall_impl; [apply (gn_members _ _ _ _ HG)|]. intros mb Hmb. exact (good_safe 0 (clock_ G) G mb Hmb). }
  pose proof (f_equal length (gn_ids _ _ _ _ HG)) as Hl. rewrite length_fmap, length_seqZ, Nat2Z.id in Hl. rewrite Hl in Hb.
  split_and!; [done|done|done|cbn; rewrite Hs; lia|cbn; rewrite Hs; lia|done].
Qed.

Lemma drive_ok n e l G : gen_ok n 0 (-1) G -> Forall (fun mb => fd (m_client mb) = -1) (clients_ G) -> wp (drive e l) (exit_ok n e) G.
Proof.
  intros HG Hfd. assert (Hia : 0 <= 0 < 2 ^ 61) by lia. unfold drive. apply wp_bind.
  eapply wp_mono; [by apply (common_now_ok n 0 (-1))|]. intros t0 G1 (HG1 & Ec & _). apply wp_bind.
  eapply wp_mono; [apply (run_ok n 0 e l); [done|done|done|by rewrite Ec]|]. intros o G2 [HG2 _].
  destruct o; [by wp_steps; left| | |by wp_steps; right];
    (apply wp_bind; eapply wp_mono; [by apply (common_now_ok n 0 e)|]; intros t1 G3 (HG3 & _); by apply wp_bind, wp_get, reported_ok).
Qed.

(** The client's main program, for any arguments, system and signals: it exits with 1
    exactly when its first argument is not a positive number, and then does nothing; when
    it exits with 0, every descriptor is closed once, and what it prints as orders in
    flight is never positive. *)
Theorem client_main_exact argv nets f frame clock e l :
  (forall n, num_clients argv = Some n -> n < 2 ^ 31) -> (forall i, fresh (nets i)) -> draws_ok f -> length frame = INBOUND_BSIZE -> clock_good clock ->
  match client_main argv nets f frame clock e l with
  | Ok (Exit code None, None) => code = 1 /\ exists p arg rest, argv = p :: arg :: rest /\ atoi arg <= 0
  | Ok (r, Some G) => exists n, num_clients argv = Some n /\ 0 < n /\ exit_ok (Z.to_nat n) e r G
  | _ => False
  end.
Proof.
  intros Hn Hnets Hf Hframe Hclock. unfold client_main. destruct (num_clients argv) as [n|] eqn:En.
  - assert (Hpos : 0 < n) by (unfold num_clients in En; destruct argv as [|p [|arg rest]]; [injection En as <-; lia..|];
      destruct (Z.leb_spec (atoi arg) 0); [done|injection En as <-; lia]).
    specialize (Hn n eq_refl). set (ns := nets <$> seq 0 (Z.to_nat n)).
    assert (Hlen : length ns = Z.to_nat n) by (unfold ns; by rewrite length_fmap, length_seq).
    destruct (generator_init_ok ns f 0 frame clock) as [HG Hfd]; try done; [lia|by apply Forall_fmap, Forall_true|].
    pose proof (drive_ok _ e l _ HG Hfd) as W. apply wp_Ok in W as (r & G & E & Hr). rewrite Hlen in Hr.
    unfold mbind, res_bind. rewrite E. by destruct r as [? [?|]|]; exists n.
  - split; [done|]. unfold num_clients in En. destruct argv as [|p [|arg rest]]; [done..|].
    destruct (Z.leb_spec (atoi arg) 0); [by exists p, arg, rest|done].
Qed.

Example atoi_12 : atoi [32; 43; 49; 50; 120; 51] = 12.
Proof. reflexivity. Qed.
