(* ===== verification/ClosedLoop.v ===== *)
(** The loop between a client and the exchange: what the exchange of [exchange/] sends back
    for the requests of a client of [client/] and what the client makes of it.  The two
    programs share only the bytes; every frame of the one is taken by the other, and the
    client's count of outstanding requests is off by exactly the requests that the book
    answered with trades alone. *)

From S2P Require Import Prelude Types Ring Pool Book Spec BookProps Validation Engine Protocol Buffer ServerState Gateway Responder Frame Exchange Client ClientProps Pairing Stream.

Local Open Scope Z_scope.

(** * Answers of the engine *)

(** A message that the client counts as the answer to a request. *)
Definition plain (m : OutboundMessage) : bool := bool_decide (out_message_type m <> MATCH).

(** The requests whose acknowledgement the book suppresses, in the specification's run. *)
Fixpoint s_suppressed (l : list InboundMessage) (id : Z) (A : SBook) : nat :=
  match l with
  | [] => 0
  | m :: l =>
      let new := decide (in_message_type m = NEW) in
      let oid := if new then id else in_order_id m in
      ((if suppress_ack (s_process (request_of oid m) A).1.1 then 1 else 0) +
       s_suppressed l (if new then id + 1 else id) (s_execute m oid A).1)%nat
  end.

Lemma s_market_is_match r A : Forall is_match (s_market r A).2.
Proof.
  unfold s_market. destruct (if decide (get_side r = BID) then Some Asks else _) as [d|]; [|constructor].
  pose proof (sweep_is_match r (get_quantity r) (s_orders d A)) as H. by destruct (sweep _ _ _) as [[? ?] ?].
Qed.

Lemma s_match_is_match A : Forall is_match (s_match A).2.
Proof. unfold s_match. pose proof (cross_is_match (s_bids A) (s_asks A)) as H. by destruct (cross _ _) as [[? ?] ?]. Qed.

Lemma s_add_is_match r A : Forall is_match (s_add r A).2.
Proof.
  unfold s_add. case_decide; [apply s_market_is_match|]. destruct (s_find _ _); [constructor|].
  case_decide; [constructor|apply s_match_is_match].
Qed.

Lemma s_process_is_match r A : Forall is_match (s_process r A).2.
Proof.
  unfold s_process. cbv zeta. destruct (get_message_type r); try constructor; try apply s_add_is_match.
  - destruct (s_find _ _); [case_decide|]; constructor.
  - destruct (s_find _ _); [case_decide|]; try constructor. unfold s_modify.
    case_decide; [|apply s_add_is_match]. cbv zeta. case_decide; [apply s_market_is_match|apply s_match_is_match].
Qed.

Lemma filter_plain_match l : Forall is_match l -> filter plain l = [].
Proof.
  induction 1 as [|m l [E _] _ IH]; [done|]. rewrite filter_cons_False; [done|]. unfold plain. rewrite E. by intros ?%bool_decide_unpack.
Qed.

Lemma executable_plain msg id st : executable msg -> plain (ack_msg msg id st) = true.
Proof.
  intros (_ & Hv & _). unfold plain. apply bool_decide_eq_true. cbn. intros E. unfold validate_message in Hv. by rewrite E in Hv.
Qed.

(** One acknowledgement for each request but the suppressed ones. *)
Lemma plain_answers l id A : Forall executable l ->
  (length (filter plain (s_execute_all l id A).2) + s_suppressed l id A = length l)%nat /\
  (forall m, m ∈ filter plain (s_execute_all l id A).2 -> exists msg, msg ∈ l /\ out_client_id m = in_client_id msg).
Proof.
  intros Hl. revert id A. induction Hl as [|msg l Hm _ IH]; intros id A; [split; [done|by intros m ?%elem_of_nil]|].
  cbn [s_execute_all s_suppressed fst snd]. cbv zeta. rewrite filter_app.
  set (oid := if decide (in_message_type msg = NEW) then id else in_order_id msg).
  destruct (IH (if decide (in_message_type msg = NEW) then id + 1 else id) (s_execute msg oid A).1) as [H1 H2].
  revert H1 H2. generalize (s_execute_all l (if decide (in_message_type msg = NEW) then id + 1 else id) (s_execute msg oid A).1).2.
  generalize (s_suppressed l (if decide (in_message_type msg = NEW) then id + 1 else id) (s_execute msg oid A).1). intros k outs H1 H2.
  unfold s_execute. pose proof (s_process_is_match (request_of oid msg) A) as Hmatch.
  destruct (s_process _ A) as [[x A'] ms]. cbn [fst snd] in *. rewrite filter_app, (filter_plain_match ms Hmatch), app_nil_l.
  destruct (suppress_ack x).
  - rewrite filter_nil, app_nil_l. cbn [length]. split; [lia|]. intros m Hin. destruct (H2 m Hin) as (msg' & ? & ?). exists msg'. split; [by right|done].
  - rewrite filter_cons_True by (by apply Is_true_true, executable_plain). rewrite filter_nil. cbn [app length]. split; [lia|].
    intros m [->|Hin]%elem_of_cons; [exists msg; split; [by left|done]|].
    destruct (H2 m Hin) as (msg' & ? & ?). exists msg'. split; [by right|done].
Qed.

(** * What the client makes of a frame *)

Lemma frame_of_taken m c : take_response (frame_of m) c =
  Some (if plain m then (if bool_decide (out_server_error m = NONE) then take_ack (frame_of m) c else take_error c) else take_match c).
Proof.
  assert (Hk : frame_has_header (frame_of m) = true /\ frame_type (frame_of m) =
    if plain m then (if bool_decide (out_server_error m = NONE) then char_O else char_E) else char_M).
  { destruct (response_frame_shape m) as (body & rest & E & _ & Hb). unfold frame_of. rewrite E. subst body. unfold plain.
    destruct (decide (out_message_type m = MATCH)) as [H|H]; [by rewrite bool_decide_eq_false_2 by tauto|].
    rewrite bool_decide_eq_true_2 by done.
    destruct (decide (out_server_error m = NONE)); [by rewrite bool_decide_eq_true_2 by done|by rewrite bool_decide_eq_false_2 by done]. }
  destruct Hk as [H1 H2]. unfold take_response. rewrite H1, H2. destruct (plain m); [|done]. by case_bool_decide.
Qed.

(** Any messages, in any order: the client takes them all, and each one but the MATCH
    messages is the answer to a request. *)
Lemma frames_taken ms c : 0 <= acks_pending c -> exists c', take_responses (frame_of <$> ms) c = Some c' /\
  acks_pending c' = Z.max 0 (acks_pending c - Z.of_nat (length (filter plain ms))).
Proof.
  revert c. induction ms as [|m ms IH]; intros c Hc; cbn [fmap list_fmap take_responses].
  { exists c. split; [done|]. cbn. lia. }
  rewrite frame_of_taken. destruct (plain m) eqn:Hp.
  - rewrite filter_cons_True by (rewrite Hp; exact I). cbn [length]. case_bool_decide.
    + destruct (Z.ltb_spec 0 (acks_pending c)) as [Hpos|Hneg].
      * destruct (take_ack_pend (frame_of m) c Hpos) as (_ & _ & Ha). destruct (IH (take_ack (frame_of m) c)) as (c' & E & H'); [lia|].
        exists c'. split; [done|]. lia.
      * rewrite take_ack_idle by done. destruct (IH c Hc) as (c' & E & H'). exists c'. split; [done|]. lia.
    + destruct (IH (take_error c)) as (c' & E & H'); unfold take_error in *; destruct (Z.ltb_spec 0 (acks_pending c)); cbn in *; try lia;
        (exists c'; split; [done|]; lia).
  - rewrite filter_cons_False by (rewrite Hp; tauto). by apply (IH (take_match c)).
Qed.

(** * The way back *)

Lemma routes_hit fd l m cid : m !! cid = Some fd \/ cid ∈ in_client_id <$> l -> routes fd l m !! cid = Some fd.
Proof.
  revert m. induction l as [|msg l IH]; intros m H; cbn; [by destruct H as [H|H%elem_of_nil]|]. apply IH.
  destruct (decide (in_client_id msg = cid)) as [<-|Hne]; [left; apply lookup_insert_eq|].
  destruct H as [H|[->|H]%elem_of_cons]; [left; by rewrite lookup_insert_ne|done|by right].
Qed.

Lemma to_routed fd s l : 0 < fd -> to fd (routed_messages s l) = filter (fun m => resolve m s = fd) l.
Proof.
  intros Hfd. unfold to, routed_messages. induction l as [|m l IH]; [done|]. cbn [fmap list_fmap].
  destruct (decide (resolve m s = fd)) as [E|E].
  - rewrite (filter_cons_True _ m) by done. rewrite filter_cons_True by (cbn; lia). rewrite filter_cons_True by done. cbn [fmap list_fmap snd]. by rewrite <- IH.
  - rewrite (filter_cons_False _ m) by done. rewrite <- IH.
    destruct (decide (0 < resolve m s)); [rewrite filter_cons_True by (cbn; lia); by rewrite filter_cons_False|by rewrite filter_cons_False].
Qed.

Lemma filter_plain_to (P : OutboundMessage -> Prop) `{!forall m, Decision (P m)} (l : list OutboundMessage) : (forall m, m ∈ filter plain l -> P m) ->
  filter plain (filter P l) = filter plain l.
Proof.
  induction l as [|m l IH]; intros Hl; [done|]. destruct (decide (plain m)) as [Hp|Hp].
  - assert (P m) by (apply Hl; rewrite filter_cons_True by done; by left).
    rewrite (filter_cons_True P), !(filter_cons_True plain) by done. f_equal. apply IH. intros m' Hm'. apply Hl. rewrite filter_cons_True by done. by right.
  - rewrite (filter_cons_False plain) in * by done. rewrite <- IH by done.
    destruct (decide (P m)); [by rewrite filter_cons_True, filter_cons_False by done|by rewrite filter_cons_False by done].
Qed.

(** What the round adds to the connection's stream, when only requests were read. *)
Definition replies (s : Server) (fd : Z) (reqs : list InboundMessage) (outs : list OutboundMessage) (o : OutboundState) : list OutboundMessage :=
  accepted o (filter (fun m => resolve m (set_client_map (routes fd reqs (client_map_ s)) s) = fd) (fit (from_engine s) outs)).

Lemma answers_replies s fd burst outs o : 0 < fd -> refusals fd burst = [] ->
  answers s fd burst outs fd o = concat (frame_of <$> replies s fd (requests burst) outs o).
Proof.
  intros Hfd Hno. unfold answers, replies. rewrite Hno. unfold fit at 2, routed_errors. rewrite take_nil. cbn [fmap list_fmap].
  by rewrite app_nil_r, to_routed.
Qed.

(** Room for every answer: in the engine's ring, and in the connection's. *)
Definition roomy (s : Server) (o : OutboundState) (outs : list OutboundMessage) : Prop :=
  Z.of_nat (length outs) < Ring.capacity (from_engine s) /\ Z.of_nat (length (staged o) + length outs) < RINGBUF_SIZE.

Lemma replies_plain s fd cid all l id A o : 0 < fd -> Forall (fun m => in_client_id m = cid) all -> l ⊆ all -> Forall executable l ->
  let outs := (s_execute_all l id A).2 in roomy s o outs ->
  (length (filter plain (replies s fd all outs o)) + s_suppressed l id A = length l)%nat.
Proof.
  intros Hfd Hall Hsub Hex outs [Hr1 Hr2]. destruct (plain_answers l id A Hex) as [Hcount Hcid]. fold outs in Hcount, Hcid.
  rewrite <- Hcount. f_equal. f_equal. unfold replies, fit. rewrite (take_ge outs) by lia. unfold accepted.
  rewrite take_ge; [|match goal with |- (length (filter ?P outs) <= _)%nat => pose proof (length_filter P outs) end; lia].
  apply filter_plain_to. intros m Hm. destruct (Hcid m Hm) as (msg & Hmsg & E). unfold resolve. cbn.
  rewrite E, (routes_hit fd); [by rewrite (proj2 (Z.ltb_lt 0 fd) Hfd)|]. right. rewrite Forall_forall in Hall.
  apply list_elem_of_fmap. exists msg. split; [done|by apply Hsub].
Qed.

(** C17. The closed loop.  A client's connection brings any part of its stream of requests
    ([whole], as [client_requests_accepted] describes it), cut in any way; one pass
    through the three threads of the exchange extends the byte stream of the connection
    by frames that the client takes, every one, without giving the connection up, and
    each one that is not a MATCH frame ends the wait for one request.  When no ring is
    full, the client's count of outstanding requests then misses exactly the requests of
    the burst whose acknowledgement the book has suppressed, because they traded: these
    hold their slots of the pipeline, and nothing will free them. *)
Theorem closed_loop x A fd st n events cid whole c :
  round_ready x A fd st -> Ring.capacity (to_engine (server_ x)) <= Z.of_nat n ->
  Forall (fun ev : Z * bool => 0 <= ev.1 < FD_SLOTS) events -> 0 < fd ->
  pending (ServerState.read_buf_ st) = [] -> request_frames cid whole -> incoming fd (os (server_ x)) `prefix_of` whole -> 0 <= acks_pending c ->
  wp (round fd n events) (fun _ x' => exists used reqs,
    let outs := (s_execute_all reqs (next_id_ (engine_ x)) A).2 in
    used `prefix_of` incoming fd (os (server_ x)) /\ Forall (fun m => in_client_id m = cid) reqs /\
    length reqs = Nat.min (length (frames used)) (Z.to_nat (Ring.capacity (to_engine (server_ x)) - 1)) /\
    forall o o', outbound_map_ (server_ x) !! fd = Some o -> outbound_map_ (server_ x') !! fd = Some o' ->
      fd ∉ condemned_inbound_ (server_ x') ->
      exists ms c', stream fd (server_ x') o' = stream fd (server_ x) o ++ concat (frame_of <$> ms) /\
        take_responses (frame_of <$> ms) c = Some c' /\
        acks_pending c' = Z.max 0 (acks_pending c - Z.of_nat (length (filter plain ms))) /\
        (roomy (server_ x) o outs -> acks_pending c' =
          Z.max 0 (acks_pending c - Z.of_nat (length reqs) + Z.of_nat (s_suppressed reqs (next_id_ (engine_ x)) A)))) x.
Proof.
  intros Hr Hn Hev Hfd Hnil Hreq Hwhole Hc. eapply wp_mono; [by apply (round_ok x A fd st)|]. intros ? x' (used & ts & [Hused Hts _ Hst]).
  rewrite Hnil in *. cbn [app] in *. destruct (frames_accepted cid (frames used) fd ts) as (Hno & Hlen & Hids); [apply (frames_prefix cid whole); [done|by etrans]|done|].
  pose proof Hused as [rest Hin].
  pose proof (burst_executable x A fd st used ts rest Hr Hin) as Hex. rewrite Hnil in Hex. cbn [app] in Hex.
  set (all := requests (zip ts (frames used))) in *. set (reqs := fit (to_engine (server_ x)) all).
  exists used, reqs. cbv zeta. split; [done|]. split; [by apply Forall_fit|].
  split; [unfold reqs, fit; rewrite length_take; lia|]. intros o o' Ho Ho' Hnc.
  destruct (Hst fd o Ho Hnc) as [(o2 & E2 & Hs)|[E2 _]]; [|congruence]. rewrite Ho' in E2. injection E2 as <-. cbv zeta in Hs.
  fold all reqs in Hs. rewrite answers_replies in Hs by done. fold all in Hs.
  eexists. destruct (frames_taken (replies (server_ x) fd all (s_execute_all reqs (next_id_ (engine_ x)) A).2 o) c Hc) as (c' & T1 & T2).
  exists c'. split; [exact Hs|]. split; [exact T1|]. split; [exact T2|]. intros Hroom. rewrite T2.
  pose proof (replies_plain (server_ x) fd cid all reqs (next_id_ (engine_ x)) A o Hfd Hids) as Hp. cbv zeta in Hp.
  specialize (Hp ltac:(apply subseteq_take) ltac:(by apply Forall_fit) Hroom). lia.
Qed.

(** A client has bought and sold the same five: the second order trades with the first, and
    of its two requests one is never answered. *)
Definition sell_frame : list Z := HEADER ++ inbound_bytes (mkInbound 1 2 3 4 7 100 5 NEW ASK LIMIT) (replicate 9 0) ++ replicate 7 0.
Definition crossing : Exchange := one_client [as_answer (sample_frame ++ sell_frame)].
Definition two_outstanding : ClientState := set_acks_pending 2 (set_pending_tail 2 (client_init 7)).

Lemma sell_frame_executable t m : classify t sell_frame = inr m -> executable m.
Proof.
  intros H. injection H as <-. split; [repeat split; vm_compute; congruence|]. split; [reflexivity|].
  intros _ _. vm_compute. discriminate.
Qed.

Lemma crossing_ready : round_ready crossing (mkSBook [] [] 4) 5 (inbound_state_init 5).
Proof.
  apply one_client_ready. intros frame t m Hf. assert (E : frames (concat (received <$> [as_answer (sample_frame ++ sell_frame)])) = [sample_frame; sell_frame])
    by (vm_compute; reflexivity).
  rewrite E in Hf. apply elem_of_cons in Hf as [->|Hf]; [apply sample_frame_executable|].
  apply list_elem_of_singleton in Hf as ->. apply sell_frame_executable.
Qed.

Lemma crossing_requests : request_frames 7 (incoming 5 (os (server_ crossing))).
Proof.
  exists [sample_frame; sell_frame]. split; [vm_compute; reflexivity|]. repeat constructor.
  - exists (mkInbound 1 2 3 4 7 100 5 NEW BID LIMIT). split; [reflexivity|]. intros t. reflexivity.
  - exists (mkInbound 1 2 3 4 7 100 5 NEW ASK LIMIT). split; [reflexivity|]. intros t. reflexivity.
Qed.

(** The frames of the connection after the round, as the client takes them. *)
Definition crossing_result : option (nat * option Z) :=
  match round 5 8 [] crossing with
  | Ok (_, x') =>
      o' ← outbound_map_ (server_ x') !! 5;
      let b := stream 5 (server_ x') o' in
      Some (length b, acks_pending <$> take_responses [slice 0 32 b; slice 32 32 b; slice 64 32 b] two_outstanding)
  | Err _ => None
  end.

Lemma closed_loop_witness : crossing_result = Some (96%nat, Some 1) /\
  wp (round 5 8 []) (fun _ x' => forall o', outbound_map_ (server_ x') !! 5 = Some o' -> 5 ∉ condemned_inbound_ (server_ x') ->
    exists ms c', stream 5 (server_ x') o' = concat (frame_of <$> ms) /\ take_responses (frame_of <$> ms) two_outstanding = Some c') crossing.
Proof.
  split; [vm_compute; reflexivity|]. eapply wp_mono.
  - apply (closed_loop crossing (mkSBook [] [] 4) 5 (inbound_state_init 5) 8 [] 7 (incoming 5 (os (server_ crossing))) two_outstanding).
    + exact crossing_ready.
    + vm_compute. discriminate.
    + constructor.
    + reflexivity.
    + reflexivity.
    + exact crossing_requests.
    + reflexivity.
    + vm_compute. discriminate.
  - intros ? x' (used & reqs & _ & _ & _ & H) o' Ho' Hnc.
    destruct (H outbound_state_init o' eq_refl Ho' Hnc) as (ms & c' & H1 & H2 & _). exists ms, c'. split; [exact H1|exact H2].
Defined.
