(* ===== verification/Mispairing.v ===== *)
(** What a suppressed acknowledgement does to a client ([handleReadable] of
    [client/src/load_generator.cpp] against [Engine::executeRequest] of
    [exchange/engine/src/engine.cpp]): the client pairs answers with requests by position
    ([Pairing]), the engine does not acknowledge an order that traded ([ClosedLoop]), so
    every later acknowledgement is taken for the answer to an earlier request. *)

From S2P Require Import Prelude Types Ring Pool Book Spec BookProps Validation Engine Protocol Buffer ServerState Gateway Responder Exchange Client ClientProps Pairing ClosedLoop.

Local Open Scope Z_scope.

(** * What becomes of each request *)

(** A request with the id of its order, and what the book answered. *)
Record Outcome : Type := mkOutcome { oc_msg : InboundMessage; oc_id : Z; oc_result : ProcessResult }.

Definition oc_suppressed (r : Outcome) : bool := suppress_ack (oc_result r).
Definition oc_client (r : Outcome) : Z := in_client_id (oc_msg r).

(** Requests one after the other, as [s_execute_all]. *)
Fixpoint s_outcomes (l : list InboundMessage) (id : Z) (A : SBook) : list Outcome :=
  match l with
  | [] => []
  | m :: l =>
      let new := decide (in_message_type m = NEW) in
      let oid := if new then id else in_order_id m in
      mkOutcome m oid (s_process (request_of oid m) A).1.1 :: s_outcomes l (if new then id + 1 else id) (s_execute m oid A).1
  end.

(** The order ids that a client keeps when it takes acknowledgements that carry [ids] for
    the answers to requests of types [ts], in order: those it takes for NEW. *)
Definition kept (ts : list MessageType) (ids : list Z) : list Z :=
  omap (fun ti => if decide (ti.1 = NEW) then Some ti.2 else None) (zip ts ids).

(** * Lists *)

Lemma filter_swap {T : Type} (P Q : T -> Prop) `{!forall x, Decision (P x)} `{!forall x, Decision (Q x)} (l : list T) :
  filter P (filter Q l) = filter Q (filter P l).
Proof. rewrite !list_filter_filter. apply list_filter_iff. tauto. Qed.

Lemma filter_fmap {T U : Type} (f : T -> U) (P : U -> Prop) `{!forall x, Decision (P x)} (l : list T) :
  filter P (f <$> l) = f <$> filter (fun x => P (f x)) l.
Proof.
  induction l as [|x l IH]; [done|]. cbn [fmap list_fmap]. destruct (decide (P (f x))).
  - rewrite !filter_cons_True by done. cbn [fmap list_fmap]. by f_equal.
  - by rewrite !filter_cons_False.
Qed.

(** The place of an element of a filtered list in the list. *)
Lemma filter_place {T : Type} (b : T -> bool) l j x : filter (fun x => b x = false) l !! j = Some x ->
  exists i, l !! i = Some x /\ (i = j + length (filter (fun x => b x = true) (take i l)))%nat.
Proof.
  revert j. induction l as [|y l IH]; intros j; [done|]. destruct (b y) eqn:E.
  - rewrite filter_cons_False by congruence. intros H. destruct (IH j H) as (i & Hi & Ei). exists (S i). split; [done|].
    cbn [take]. rewrite filter_cons_True by done. cbn [length]. lia.
  - rewrite filter_cons_True by done. destruct j as [|j]; [intros [= <-]; by exists 0%nat|]. intros H.
    destruct (IH j H) as (i & Hi & Ei). exists (S i). split; [done|]. cbn [take]. rewrite filter_cons_False by congruence. lia.
Qed.

(** * The engine's answers *)

Definition ack_of (r : Outcome) : OutboundMessage := ack_msg (oc_msg r) (oc_id r) (status (oc_result r)).

(** The acknowledgements are those of the requests that were not suppressed. *)
Lemma plain_outcomes l id A : Forall executable l ->
  filter plain (s_execute_all l id A).2 = ack_of <$> filter (fun r => oc_suppressed r = false) (s_outcomes l id A).
Proof.
  intros Hl. revert id A. induction Hl as [|msg l Hm _ IH]; intros id A; [done|].
  cbn [s_execute_all s_outcomes fst snd]. cbv zeta. rewrite filter_app, IH. clear IH.
  set (oid := if decide (in_message_type msg = NEW) then id else in_order_id msg).
  generalize (s_outcomes l (if decide (in_message_type msg = NEW) then id + 1 else id) (s_execute msg oid A).1). intros rest.
  unfold s_execute. pose proof (s_process_is_match (request_of oid msg) A) as Hmatch.
  destruct (s_process _ A) as [[x A'] ms]. cbn [fst snd] in *. rewrite filter_app, (filter_plain_match ms Hmatch), app_nil_l.
  destruct (suppress_ack x) eqn:E.
  - by rewrite filter_nil, app_nil_l, filter_cons_False by (unfold oc_suppressed; cbn; congruence).
  - rewrite (filter_cons_True plain) by (by apply Is_true_true, executable_plain).
    by rewrite filter_nil, (filter_cons_True (fun r => oc_suppressed r = false)).
Qed.

Lemma outcome_ranges l id A : Forall message_ranges l -> 0 <= id -> id + Z.of_nat (length l) < 2 ^ 64 ->
  Forall (fun r => is_u32 (oc_client r) /\ is_u64 (oc_id r)) (s_outcomes l id A).
Proof.
  intros Hl. revert id A. induction Hl as [|m l (_ & _ & _ & Ho & Hc & _) _ IH]; intros id A Hid Hlt; [constructor|].
  cbn [s_outcomes length] in *. cbv zeta. constructor.
  - split; [done|]. cbn. case_decide; [unfold is_u64; lia|done].
  - case_decide; apply IH; lia.
Qed.

(** The engine sends them. *)
Lemma execute_all_spec l e A : engine_ok e A -> Forall executable l -> next_id_ e + Z.of_nat (length l) < 2 ^ 64 ->
  exists e', execute_all l e = Ok (tt, e') /\ out_ring_ (book_ e') = push_all (s_execute_all l (next_id_ e) A).2 (out_ring_ (book_ e)).
Proof.
  intros He Hl. revert e A He. induction Hl as [|m l Hm _ IH]; intros e A He Hid; cbn [execute_all s_execute_all length] in *; [by exists e|].
  destruct (execute_ok m e A He Hm) as (e1 & X1 & X2 & X3 & _ & X5); [lia|]. unfold mbind, M_bind. rewrite X1.
  destruct (IH e1 _ X2) as (e2 & Y1 & Y2); [unfold ids_after in X5; case_decide; lia|].
  exists e2. split; [done|]. rewrite Y2, X3, X5, <- push_all_app. cbn [snd]. unfold assigned, ids_after.
  by case_decide; rewrite ?Z.add_0_r.
Qed.

(** * The client *)

(** Frames of trades and of acknowledgements, against enough requests. *)
Lemma pair_up_frames ts ms : Forall (fun m => plain m = true -> out_server_error m = NONE /\ is_u32 (out_client_id m) /\ is_u64 (out_order_id m)) ms ->
  (length (filter plain ms) <= length ts)%nat ->
  pair_up ts (frame_of <$> ms) = (drop (length (filter plain ms)) ts, kept ts (out_order_id <$> filter plain ms)).
Proof.
  intros Hms. revert ts. induction Hms as [|m ms Hm _ IH]; intros ts Hlen; [by rewrite drop_0; destruct ts|]. cbn [fmap list_fmap pair_up].
  destruct (plain m) eqn:Hp.
  - rewrite filter_cons_True in * by (by rewrite Hp). destruct (Hm eq_refl) as (He & Hc & Ho).
    destruct (response_roundtrip m Hc Ho) as (f & Hf & _ & _ & Hty). destruct (frame_ok m) as [Hf' _]. rewrite Hf' in Hf. injection Hf as <-.
    unfold plain in Hp. apply bool_decide_eq_true in Hp. rewrite decide_False, decide_True in Hty by done. destruct Hty as (Ht & _ & Hid).
    rewrite Ht. cbn [length] in *. destruct ts as [|t ts]; [cbn in Hlen; lia|]. cbn [Z.eqb char_O Pos.eqb]. rewrite IH by (cbn in Hlen; lia).
    cbn [fst snd drop fmap list_fmap]. rewrite Hid. unfold kept. cbn. destruct (decide (t = NEW)); [by rewrite bool_decide_eq_true_2|by rewrite bool_decide_eq_false_2].
  - rewrite filter_cons_False in * by (rewrite Hp; tauto).
    assert (Ht : frame_type (frame_of m) = char_M).
    { unfold plain in Hp. apply bool_decide_eq_false in Hp. assert (E : out_message_type m = MATCH) by (by destruct (decide (out_message_type m = MATCH))).
      destruct (response_frame_shape m) as (body & rest & E' & _ & Hb). unfold frame_of. rewrite E'. subst body. by rewrite decide_True. }
    rewrite Ht. cbn [Z.eqb char_M char_O char_E Pos.eqb]. by apply IH.
Qed.

Lemma kept_app ts more ids : (length ids <= length ts)%nat -> kept (ts ++ more) ids = kept ts ids.
Proof.
  intros H. unfold kept. f_equal. revert ids H. induction ts as [|t ts IH]; intros [|i ids] H; cbn in *; try done; [by destruct more|lia|].
  f_equal. apply IH. lia.
Qed.

(** * Property *)

(** C29. Acknowledgements go to the wrong requests.  The engine executes requests, those of
    a client among those of others, and the client, with its requests pending, takes
    every frame that is sent to it.  The engine has acknowledged exactly the client's
    requests that it did not suppress ([acked]), in order; the client takes the j-th of
    these acknowledgements for the answer to its j-th request, whatever that was.  So the
    acknowledgement of its i-th request is taken for that of an earlier one, as many
    places earlier as requests before it were suppressed; the order ids the client keeps as
    active are those that came in the places of its NEW requests; and what it still waits
    for are not the suppressed requests but the last ones. *)
Theorem suppressed_acks_shift l cid e A c later :
  engine_ok e A -> Forall executable l -> Forall message_ranges l -> next_id_ e + Z.of_nat (length l) < 2 ^ 64 -> 0 <= acks_pending c ->
  let mine := filter (fun r => oc_client r = cid) (s_outcomes l (next_id_ e) A) in
  let acked := filter (fun r => oc_suppressed r = false) mine in
  let types := in_message_type ∘ oc_msg <$> mine in
  pend c = types ++ later ->
  exists e' ms c', execute_all l e = Ok (tt, e') /\ out_ring_ (book_ e') = push_all ms (out_ring_ (book_ e)) /\
    take_responses (frame_of <$> filter (fun m => out_client_id m = cid) ms) c = Some c' /\
    pend c' = drop (length acked) types ++ later /\
    active_ring c' = foldl remember (active_ring c) (kept types (oc_id <$> acked)) /\
    forall j r, acked !! j = Some r ->
      exists i, mine !! i = Some r /\ (i = j + length (filter (fun r => oc_suppressed r = true) (take i mine)))%nat.
Proof.
  intros He Hl Hr Hid Ha mine acked types Hpend. destruct (execute_all_spec l e A He Hl Hid) as (e' & Hrun & Hout).
  set (ms := (s_execute_all l (next_id_ e) A).2) in *. set (got := filter (fun m => out_client_id m = cid) ms).
  assert (Hplain : filter plain got = ack_of <$> acked).
  { unfold got. rewrite filter_swap. unfold ms. rewrite plain_outcomes, filter_fmap by done. unfold acked, mine. by rewrite filter_swap. }
  destruct (frames_taken got c Ha) as (c' & Ht & _). exists e', ms, c'. split; [done|]. split; [done|]. split; [done|].
  destruct (acks_pair_in_order (frame_of <$> got) c c' Ha Ht) as (P1 & P2 & _).
  assert (Hlen : (length (filter plain got) <= length types)%nat).
  { rewrite Hplain. unfold types. rewrite !length_fmap. apply length_filter. }
  assert (Hgot : Forall (fun m => plain m = true -> out_server_error m = NONE /\ is_u32 (out_client_id m) /\ is_u64 (out_order_id m)) got).
  { apply Forall_forall. intros m Hm Hp. assert (Hin : m ∈ filter plain got) by (apply list_elem_of_filter; by rewrite Hp).
    rewrite Hplain in Hin. apply list_elem_of_fmap in Hin as (r & -> & Hin). apply list_elem_of_filter in Hin as [_ Hin].
    apply list_elem_of_filter in Hin as [_ Hin]. destruct He as (_ & Hn & _).
    pose proof (outcome_ranges l (next_id_ e) A Hr Hn Hid) as Hranges. rewrite Forall_forall in Hranges. by destruct (Hranges r Hin). }
  rewrite Hpend, (pair_up_frames _ got Hgot) in P1, P2 by (rewrite length_app; lia). cbn [fst snd] in P1, P2.
  rewrite Hplain, length_fmap in *. split; [by rewrite P1, drop_app_le|]. split.
  - rewrite P2, <- list_fmap_compose, kept_app by (by rewrite length_fmap). done.
  - intros j r Hj. by apply filter_place.
Qed.

(** A client sells and buys the same five, then cancels its order 5: the second request
    trades and is not acknowledged, the acknowledgement of the cancellation is taken for
    its answer, and order 5 becomes an active order. *)
Definition crossing_requests_7 : list InboundMessage :=
  [mkInbound 0 0 0 0 7 100 5 NEW ASK LIMIT; mkInbound 0 0 0 0 7 100 5 NEW BID LIMIT; mkInbound 0 0 0 5 7 0 0 CANCEL BID LIMIT].
Definition three_outstanding : ClientState :=
  set_acks_pending 3 (set_orders_in_flight 3 (set_pending_tail 3 (set_pending_types (NEW :: NEW :: CANCEL :: replicate 29 NEW) (client_init 7)))).

Lemma suppressed_acks_shift_witness : exists e' ms c', execute_all crossing_requests_7 sample_engine = Ok (tt, e') /\
  out_ring_ (book_ e') = push_all ms (ring_init 16) /\
  take_responses (frame_of <$> filter (fun m => out_client_id m = 7) ms) three_outstanding = Some c' /\
  pend c' = [CANCEL] /\ active_ring c' = foldl remember (0, replicate 32 0) [0; 5].
Proof.
  destruct (suppressed_acks_shift crossing_requests_7 7 sample_engine (mkSBook [] [] 4) three_outstanding [])
    as (e' & ms & c' & H1 & H2 & H3 & H4 & H5 & _).
  - exact (engine_init_ok 4 (ring_init 8) (ring_init 16) eq_refl).
  - repeat (constructor; [split; [repeat split; vm_compute; congruence|split; [reflexivity|intros _; vm_compute; congruence]]|]). constructor.
  - repeat (constructor; [repeat split; vm_compute; congruence|]). constructor.
  - reflexivity.
  - vm_compute. discriminate.
  - vm_compute. reflexivity.
  - exists e', ms, c'. split; [exact H1|]. split; [exact H2|]. split; [exact H3|]. split; [exact H4|exact H5].
Defined.
